(** * Hybrid retrieval engine of the knowledge assistant: a shallow embedding

    The development follows the Python sources

      - [app/config.py]                  ([Config])
      - [app/core/document_processor.py] ([DocumentProcessor])
      - [app/core/query_enhancement.py]  ([QueryEnhancement])
      - [app/core/embeddings.py]         ([Embeddings])
      - [app/core/rag_engine.py]         ([RagEngine])

    Modelling conventions.
      - Python [str] is [string]; one [ascii] stands for one character, the
        code point below 256 (a literal with umlauts goes through
        [Py.latin1]).
      - Python [int] is [Z]; counts that are only ever used as lengths
        ([top_k]) are [nat].
      - Python [float] scores are exact rationals ([Q]); a division raises
        [ZeroDivisionError] exactly when the divisor is zero.
      - A [dict] whose iteration order matters is an association list in
        insertion order; a [dict] used as a finite map is a [gmap].
      - Exceptions are values of [Res]; [try: ... except Exception] is
        [try_except]. *)

From Stdlib Require Import ZArith QArith Lqa List Ascii String Lia Bool.
From stdpp Require Import base option list gmap strings pretty.

Local Open Scope Z_scope.

(** ** Python fragments shared by all modules *)

Module Py.

Inductive exn : Type :=
  | ZeroDivisionError
  | IndexError
  | KeyError
  | AttributeError
  | ExternalError (what : string).

Inductive Res (A : Type) : Type :=
  | Ok (a : A)
  | Raise (e : exn).
Arguments Ok {A} a.
Arguments Raise {A} e.

Definition bind {A B} (m : Res A) (k : A -> Res B) : Res B :=
  match m with
  | Ok a => k a
  | Raise e => Raise e
  end.

(** [try: body  except Exception: handler] *)
Definition try_except {A} (body : Res A) (handler : A) : A :=
  match body with
  | Ok a => a
  | Raise _ => handler
  end.

Definition raises {A} (m : Res A) : bool :=
  match m with
  | Ok _ => false
  | Raise _ => true
  end.

(** Characters of a string, for slicing. *)
Definition chars (s : string) : list ascii := list_ascii_of_string s.
Definition str (l : list ascii) : string := string_of_list_ascii l.

(** A literal with letters outside ASCII: the text is typed in UTF-8, where
    a code point from 128 to 255 takes two bytes, and [latin1] reads each
    such pair as the one character it spells. *)
Fixpoint latin1 (s : string) : string :=
  match s with
  | String a (String b r as t) =>
      let n := nat_of_ascii a in
      if (n =? 194)%nat then String b (latin1 r)
      else if (n =? 195)%nat
           then String (ascii_of_nat (nat_of_ascii b + 64)) (latin1 r)
           else String a (latin1 t)
  | _ => s
  end.

(** [s[i:j]] for arbitrary (possibly negative or out-of-range) indices. *)
Definition norm_index (n k : Z) : Z :=
  if k <? 0 then Z.max 0 (k + n) else Z.min k n.

Definition slice {A} (l : list A) (i j : Z) : list A :=
  let n := Z.of_nat (length l) in
  let a := norm_index n i in
  let b := norm_index n j in
  firstn (Z.to_nat (b - a)) (skipn (Z.to_nat a) l).

(** [str.isspace], which is also the class [\s] of [re] and what [strip]
    and [split] remove, on the characters of the model: TAB..CR, FS..US,
    SPACE, NEL (U+0085) and NO-BREAK SPACE (U+00A0). *)
Definition is_space (c : ascii) : bool :=
  let n := nat_of_ascii c in
  ((9 <=? n)%nat && (n <=? 13)%nat) || ((28 <=? n)%nat && (n <=? 32)%nat)
  || (n =? 133)%nat || (n =? 160)%nat.

(** [s.split()]: the maximal runs of characters that are not whitespace;
    [cur] is the run being read. *)
Fixpoint split_ws (l cur : list ascii) : list (list ascii) :=
  match l with
  | [] => match cur with [] => [] | _ => [cur] end
  | c :: r =>
      if is_space c
      then match cur with [] => split_ws r [] | _ => cur :: split_ws r [] end
      else split_ws r (cur ++ [c])
  end.

(** The lower-case form of a character below 256: the capitals are A..Z
    and U+00C0..U+00DE without the multiplication sign U+00D7, each 32
    below its small letter. *)
Definition lower_char (c : ascii) : ascii :=
  let n := nat_of_ascii c in
  if ((65 <=? n)%nat && (n <=? 90)%nat)%bool
     || ((192 <=? n)%nat && (n <=? 222)%nat && negb (n =? 215)%nat)%bool
  then ascii_of_nat (n + 32) else c.

(** [s.lower()] *)
Fixpoint lower (s : string) : string :=
  match s with
  | EmptyString => EmptyString
  | String c r => String (lower_char c) (lower r)
  end.

(** [sub in s] *)
Fixpoint contains (s sub : string) : bool :=
  String.prefix sub s ||
  match s with
  | EmptyString => false
  | String _ r => contains r sub
  end.

(** [sep.join(parts)] *)
Fixpoint join (sep : string) (parts : list string) : string :=
  match parts with
  | [] => ""
  | [x] => x
  | x :: rest => x +:+ sep +:+ join sep rest
  end.

(** [sorted(l, key=key, reverse=True)]: a stable sort, elements with equal
    keys keep their order.  [insert_desc] puts [x], which comes before
    every element of [l] in the input, in front of the first element whose
    key does not exceed the key of [x]. *)
Fixpoint insert_desc {A} (key : A -> Q) (x : A) (l : list A) : list A :=
  match l with
  | [] => [x]
  | y :: r =>
      if Qle_bool (key y) (key x) then x :: l else y :: insert_desc key x r
  end.

Definition sorted_desc {A} (key : A -> Q) (l : list A) : list A :=
  foldr (insert_desc key) [] l.

(** [a / b] on floats. *)
Definition py_div (a b : Q) : Res Q :=
  if Qeq_bool b 0 then Raise ZeroDivisionError else Ok (a / b)%Q.

(** [for x in l: body], for a body that may raise. *)
Fixpoint for_each {A S} (body : S -> A -> Res S) (l : list A) (s : S) : Res S :=
  match l with
  | [] => Ok s
  | x :: r => bind (body s x) (for_each body r)
  end.

End Py.



(** ** Metadata dictionaries *)

Module Data.

(** Values stored in Chroma metadata dictionaries. *)
Inductive MetaVal : Type :=
  | MStr (s : string)
  | MInt (z : Z).

#[global] Instance MetaVal_eq_dec : EqDecision MetaVal.
Proof. solve_decision. Defined.

Abbreviation Meta := (gmap string MetaVal).

End Data.

(** ** app/config.py *)

Module Config.

Record RAGConfig : Type := {
  chunk_size : Z;
  chunk_overlap : Z;
  top_k_local : nat;
  top_k_api : nat;
  top_k_results : nat;
  similarity_threshold : Q;
  collection_prefix : string
}.

(** The defaults of the [RAGConfig] dataclass. *)
Definition default_rag : RAGConfig := {|
  chunk_size := 800;
  chunk_overlap := 100;
  top_k_local := 5;
  top_k_api := 12;
  top_k_results := 5;
  similarity_threshold := 1 # 2;
  collection_prefix := "sp_kb_"
|}.

End Config.

(** ** app/core/document_processor.py *)

Module DocumentProcessor.
Import Py Data Config.

Record DocumentChunk : Type := {
  chunk_id : string;
  chunk_content : string;
  chunk_metadata : Meta
}.

Record ProcessedDocument : Type := {
  doc_id : string;
  doc_filename : string;
  doc_file_type : string;
  doc_chunks : list DocumentChunk;
  doc_metadata : Meta;
  doc_raw_text : string
}.

Fixpoint lstrip (l : list ascii) : list ascii :=
  match l with
  | [] => []
  | c :: r => if is_space c then lstrip r else l
  end.

Definition rstrip (l : list ascii) : list ascii := rev (lstrip (rev l)).

(** [s.strip()] *)
Definition strip (l : list ascii) : list ascii := rstrip (lstrip l).

(** [re.sub(r'\s+', ' ', text)]: every maximal run of whitespace becomes
    one space; [in_run] tells that the previous character was whitespace. *)
Fixpoint collapse_ws (in_run : bool) (l : list ascii) : list ascii :=
  match l with
  | [] => []
  | c :: r =>
      if is_space c
      then (if in_run then collapse_ws true r else " "%char :: collapse_ws true r)
      else c :: collapse_ws false r
  end.

Definition normalize (text : list ascii) : list ascii :=
  strip (collapse_ws false text).

(** [region.rfind(sep)]: the largest index at which [sep] starts, scanning
    from offset [i]; [None] stands for Python's [-1]. *)
Fixpoint rfind_from (sep region : list ascii) (i : nat) : option nat :=
  match region with
  | [] => if bool_decide (sep = []) then Some i else None
  | _ :: r =>
      match rfind_from sep r (S i) with
      | Some j => Some j
      | None => if bool_decide (sep `prefix_of` region) then Some i else None
      end
  end.

Definition rfind (region sep : list ascii) : Z :=
  match rfind_from sep region 0 with
  | Some j => Z.of_nat j
  | None => -1
  end.

Definition len (l : list ascii) : Z := Z.of_nat (length l).

(** The sentence terminators, in the order the loop tries them. *)
Definition separators : list (list ascii) :=
  [chars ". "; chars "! "; chars "? "; ["010"%char]].

(** [for sep in [...]: last_sep = search_region.rfind(sep); if last_sep != -1:
    end = search_start + last_sep + len(sep); break] *)
Fixpoint snap (seps : list (list ascii)) (region : list ascii)
    (search_start end_ : Z) : Z :=
  match seps with
  | [] => end_
  | sep :: rest =>
      let last_sep := rfind region sep in
      if negb (last_sep =? -1)
      then search_start + last_sep + len sep
      else snap rest region search_start end_
  end.

Definition chars_per_token : Z := 4.
Definition chunk_chars (cfg : RAGConfig) : Z := chunk_size cfg * chars_per_token.
Definition overlap_chars (cfg : RAGConfig) : Z := chunk_overlap cfg * chars_per_token.

(** [int(chunk_chars * 0.8)]: truncation towards zero of the exact product. *)
Definition int_08 (w : Z) : Z := Z.quot (w * 4) 5.

Definition search_start_of (w start : Z) : Z := start + int_08 w.

Definition search_region (text : list ascii) (w start : Z) : list ascii :=
  slice text (search_start_of w start) (start + w).

(** The value of [end] when the chunk is cut, for a window starting at
    [start]. *)
Definition cut_end (text : list ascii) (w start : Z) : Z :=
  let end_ := start + w in
  if end_ <? len text
  then snap separators (search_region text w start) (search_start_of w start) end_
  else end_.

Record LoopState : Type := {
  ls_start : Z;
  ls_index : Z;
  ls_chunks : list DocumentChunk
}.

Definition make_chunk (doc : string) (base_metadata : Meta)
    (chunk_text : list ascii) (index start end_ : Z) : DocumentChunk := {|
  chunk_id := doc +:+ "_chunk_" +:+ pretty index;
  chunk_content := str chunk_text;
  chunk_metadata :=
    <["chunk_end" := MInt end_]>
      (<["chunk_start" := MInt start]>
         (<["chunk_index" := MInt index]> base_metadata))
|}.

(** One iteration of [while start < len(text)]. *)
Definition loop_body (cfg : RAGConfig) (text : list ascii) (doc : string)
    (base_metadata : Meta) (st : LoopState) : LoopState :=
  let start := ls_start st in
  let end_ := cut_end text (chunk_chars cfg) start in
  let chunk_text := strip (slice text start end_) in
  let '(chunks, index) :=
    match chunk_text with
    | [] => (ls_chunks st, ls_index st)
    | _ :: _ =>
        (ls_chunks st ++
           [make_chunk doc base_metadata chunk_text (ls_index st) start end_],
         ls_index st + 1)
    end in
  let start' := end_ - overlap_chars cfg in
  let start'' := if (start' <=? 0) && (0 <? index) then end_ else start' in
  {| ls_start := start''; ls_index := index; ls_chunks := chunks |}.

(** The [while] loop, with the number of iterations bounded by [fuel];
    [None] means that the loop is still running after [fuel] iterations. *)
Fixpoint chunk_loop (fuel : nat) (cfg : RAGConfig) (text : list ascii)
    (doc : string) (base_metadata : Meta) (st : LoopState)
    : option (list DocumentChunk) :=
  if ls_start st <? len text then
    match fuel with
    | O => None
    | S fuel' =>
        chunk_loop fuel' cfg text doc base_metadata
          (loop_body cfg text doc base_metadata st)
    end
  else Some (ls_chunks st).

Definition initial_state : LoopState :=
  {| ls_start := 0; ls_index := 0; ls_chunks := [] |}.

(** [DocumentProcessor._create_chunks] *)
Definition _create_chunks (fuel : nat) (cfg : RAGConfig) (text : string)
    (doc : string) (base_metadata : Meta) : option (list DocumentChunk) :=
  match strip (chars text) with
  | [] => Some []
  | _ :: _ =>
      chunk_loop fuel cfg (normalize (chars text)) doc base_metadata initial_state
  end.

(** The loop state after [n] iterations of the body. *)
Definition after_iterations (n : nat) (cfg : RAGConfig) (text : list ascii)
    (doc : string) (base_metadata : Meta) : LoopState :=
  Nat.iter n (loop_body cfg text doc base_metadata) initial_state.

(** What [process_bytes] calls outside this module: the extractors, the two
    digests, [Path(filename).suffix.lower()] and the clock. *)
Record Externals : Type := {
  _extract_text_from_bytes : string -> string -> Res string;
  sha256_hexdigest : string -> string;
  _generate_doc_id_from_bytes : string -> string -> string;
  suffix_lower : string -> string;
  now_isoformat : string
}.

(** [DocumentProcessor.process_bytes]; [None] when the chunking loop is cut
    off by [fuel]. *)
Definition process_bytes (fuel : nat) (ext : Externals) (cfg : RAGConfig)
    (content filename knowledge_base_id uploader_id : string)
    : Res (option ProcessedDocument) :=
  let extension := suffix_lower ext filename in
  bind (_extract_text_from_bytes ext content extension) (fun raw_text =>
    let doc := _generate_doc_id_from_bytes ext content filename in
    let content_hash := sha256_hexdigest ext raw_text in
    let metadata : Meta :=
      <["content_hash"%string := MStr content_hash]>
        (<["upload_date"%string := MStr (now_isoformat ext)]>
           (<["uploader"%string := MStr uploader_id]>
              (<["knowledge_base"%string := MStr knowledge_base_id]>
                 (<["file_size"%string := MInt (Z.of_nat (String.length content))]>
                    (<["file_type"%string := MStr extension]>
                       (<["filename"%string := MStr filename]> ∅)))))) in
    Ok (option_map
          (fun chunks =>
             {| doc_id := doc;
                doc_filename := filename;
                doc_file_type := extension;
                doc_chunks := chunks;
                doc_metadata := metadata;
                doc_raw_text := raw_text |})
          (_create_chunks fuel cfg raw_text doc metadata))).

End DocumentProcessor.

(** ** Properties of the Python fragments *)

Module PyProofs.
Import Py.

Section Sorting.
Context {A : Type} (key : A -> Q).

(** Keys never increase along the list. *)
Fixpoint descending (l : list A) : Prop :=
  match l with
  | [] => True
  | x :: r => Forall (fun y => (key y <= key x)%Q) r /\ descending r
  end.

(** Keys strictly decrease along the list. *)
Fixpoint strictly_descending (l : list A) : Prop :=
  match l with
  | [] => True
  | x :: r => Forall (fun y => (key y < key x)%Q) r /\ strictly_descending r
  end.

Lemma insert_desc_perm x l : insert_desc key x l ≡ₚ x :: l.
Proof.
  induction l as [|y r IH]; simpl; [reflexivity|].
  destruct (Qle_bool (key y) (key x)); [reflexivity|].
  rewrite IH. apply Permutation_swap.
Qed.

Lemma sorted_desc_perm l : sorted_desc key l ≡ₚ l.
Proof.
  induction l as [|x r IH]; simpl; [reflexivity|].
  rewrite insert_desc_perm. now rewrite IH.
Qed.

Lemma sorted_desc_elem x l : x ∈ sorted_desc key l <-> x ∈ l.
Proof. now rewrite sorted_desc_perm. Qed.

Lemma sorted_desc_length l : length (sorted_desc key l) = length l.
Proof. now rewrite sorted_desc_perm. Qed.

Lemma insert_desc_descending x l :
  descending l -> descending (insert_desc key x l).
Proof.
  induction l as [|y r IH]; simpl; [intros _; split; [constructor | exact I]|].
  intros [Hy Hr]. destruct (Qle_bool (key y) (key x)) eqn:Hle.
  - apply Qle_bool_iff in Hle. simpl. split; [|split; assumption].
    constructor; [exact Hle|]. eapply Forall_impl; [exact Hy|].
    intros z Hz. simpl in Hz. eapply Qle_trans; eauto.
  - assert (Hlt : (key x < key y)%Q).
    { apply Qnot_le_lt. intros H. apply Qle_bool_iff in H. congruence. }
    simpl. split; [|apply IH; exact Hr].
    rewrite (insert_desc_perm x r). constructor; [apply Qlt_le_weak; exact Hlt | exact Hy].
Qed.

Lemma sorted_desc_descending l : descending (sorted_desc key l).
Proof.
  induction l as [|x r IH]; simpl; [exact I|]. now apply insert_desc_descending.
Qed.

(** A list that is already in order is left as it is. *)
Lemma sorted_desc_id l : descending l -> sorted_desc key l = l.
Proof.
  induction l as [|x r IH]; simpl; [reflexivity|].
  intros [Hx Hr]. rewrite (IH Hr). destruct r as [|y r']; [reflexivity|].
  simpl. inversion Hx as [|? ? Hy _]; subst.
  apply Qle_bool_iff in Hy. now rewrite Hy.
Qed.

Lemma descending_take n l : descending l -> descending (take n l).
Proof.
  revert n. induction l as [|x r IH]; intros [|n]; simpl; auto.
  intros [Hx Hr]. split; [|now apply IH].
  apply Forall_take. exact Hx.
Qed.

Lemma strictly_descending_weaken l : strictly_descending l -> descending l.
Proof.
  induction l as [|x r IH]; simpl; [auto|]. intros [Hx Hr]. split; [|auto].
  eapply Forall_impl; [exact Hx|]. intros y Hy. now apply Qlt_le_weak.
Qed.

(** Elements whose key is the least possible, [0] among non-negative keys,
    end up behind all others, in their original order. *)
Lemma insert_desc_app_zeros x pos zeros :
  Forall (fun y => 0 < key y)%Q pos ->
  Forall (fun y => key y == 0)%Q zeros ->
  (0 <= key x)%Q ->
  insert_desc key x (pos ++ zeros) =
    if Qle_bool (key x) 0 then pos ++ x :: zeros
    else insert_desc key x pos ++ zeros.
Proof.
  intros Hpos Hzeros Hx. induction Hpos as [|y pos Hy Hpos IH]; simpl.
  - destruct zeros as [|z zeros]; simpl.
    + now destruct (Qle_bool (key x) 0).
    + inversion Hzeros as [|? ? Hz _]; subst.
      assert (Hzx : Qle_bool (key z) (key x) = true).
      { apply Qle_bool_iff. rewrite Hz. exact Hx. }
      rewrite Hzx. now destruct (Qle_bool (key x) 0).
  - destruct (Qle_bool (key x) 0) eqn:Hx0.
    + apply Qle_bool_iff in Hx0.
      assert (Hyx : Qle_bool (key y) (key x) = false).
      { apply not_true_is_false. intros H. apply Qle_bool_iff in H.
        apply (Qlt_irrefl 0). eapply Qlt_le_trans; [exact Hy|].
        eapply Qle_trans; eauto. }
      rewrite Hyx. now rewrite IH.
    + destruct (Qle_bool (key y) (key x)); [reflexivity|]. now rewrite IH.
Qed.

Lemma insert_desc_positive x pos :
  Forall (fun y => 0 < key y)%Q pos -> (0 < key x)%Q ->
  Forall (fun y => 0 < key y)%Q (insert_desc key x pos).
Proof. intros Hpos Hx. rewrite insert_desc_perm. now constructor. Qed.

Definition positive_key (x : A) : bool := negb (Qle_bool (key x) 0).

Lemma sorted_desc_zeros_last l :
  Forall (fun y => 0 <= key y)%Q l ->
  sorted_desc key l =
    sorted_desc key (List.filter positive_key l) ++
    List.filter (fun x => negb (positive_key x)) l.
Proof.
  induction 1 as [|x l Hx Hl IH]; simpl; [reflexivity|].
  rewrite IH.
  assert (Hp : Forall (fun y => 0 < key y)%Q (sorted_desc key (List.filter positive_key l))).
  { apply Forall_forall. intros y Hy. apply (proj1 (sorted_desc_elem _ _)) in Hy.
    apply list_elem_of_In, filter_In in Hy as [_ Hy]. unfold positive_key in Hy.
    apply Qnot_le_lt. intros H. apply Qle_bool_iff in H. rewrite H in Hy. discriminate. }
  assert (Hz : Forall (fun y => key y == 0)%Q (List.filter (fun x => negb (positive_key x)) l)).
  { apply Forall_forall. intros y Hy.
    apply list_elem_of_In, filter_In in Hy as [Hin Hy]. unfold positive_key in Hy.
    rewrite negb_involutive in Hy. apply Qle_bool_iff in Hy.
    apply Qle_antisym; [exact Hy|].
    rewrite Forall_forall in Hl. apply Hl. now apply list_elem_of_In. }
  rewrite (insert_desc_app_zeros x _ _ Hp Hz Hx).
  unfold positive_key. destruct (Qle_bool (key x) 0); simpl; reflexivity.
Qed.

(** Two arrangements of the same elements agree when one is in order and
    the other strictly so. *)
Lemma descending_unique l1 l2 :
  l1 ≡ₚ l2 -> descending l1 -> strictly_descending l2 -> NoDup l2 -> l1 = l2.
Proof.
  revert l1. induction l2 as [|x r2 IH]; intros l1 Hperm Hd1 Hd2 Hnd.
  - now apply Permutation_nil_r in Hperm.
  - destruct l1 as [|y r1]; [now apply Permutation_nil_cons in Hperm|].
    simpl in Hd1, Hd2. destruct Hd1 as [Hy Hr1], Hd2 as [Hx Hr2].
    assert (Hyx : y = x).
    { assert (Hin : y ∈ x :: r2) by (rewrite <- Hperm; apply elem_of_cons; now left).
      apply elem_of_cons in Hin as [->|Hin]; [reflexivity|].
      rewrite Forall_forall in Hx. specialize (Hx y Hin).
      assert (Hxin : x ∈ y :: r1) by (rewrite Hperm; apply elem_of_cons; now left).
      apply elem_of_cons in Hxin as [->|Hxin]; [reflexivity|].
      rewrite Forall_forall in Hy. specialize (Hy x Hxin).
      exfalso. apply (Qlt_irrefl (key x)). eapply Qle_lt_trans; eauto. }
    subst y. f_equal. apply IH; auto.
    + eapply Permutation_cons_inv; eauto.
    + now inversion Hnd.
Qed.

End Sorting.

Lemma for_each_inv {A S} (P : S -> Prop) (body : S -> A -> Res S)
    (l : list A) (s s' : S) :
  P s ->
  (forall s0 x s1, P s0 -> x ∈ l -> body s0 x = Ok s1 -> P s1) ->
  for_each body l s = Ok s' -> P s'.
Proof.
  revert s. induction l as [|x r IH]; intros s Hs Hstep; simpl.
  - now intros [= <-].
  - destruct (body s x) as [s1|e] eqn:Hb; simpl; [|discriminate].
    apply IH.
    + eapply Hstep; eauto. apply elem_of_cons. now left.
    + intros s0 y s2 H0 Hy. apply Hstep; auto. apply elem_of_cons. now right.
Qed.

Lemma fold_left_inv {A S} (P : S -> Prop) (f : S -> A -> S) (l : list A) (s : S) :
  P s ->
  (forall s0 x, P s0 -> x ∈ l -> P (f s0 x)) ->
  P (fold_left f l s).
Proof.
  revert s. induction l as [|x r IH]; intros s Hs Hstep; simpl; [exact Hs|].
  apply IH.
  - apply Hstep; auto. apply elem_of_cons. now left.
  - intros s0 y H0 Hy. apply Hstep; auto. apply elem_of_cons. now right.
Qed.

End PyProofs.

(** *** Properties of the chunker *)

Module DocumentProcessorProofs.
Import Py Data Config DocumentProcessor.

Lemma str_length (l : list ascii) : String.length (str l) = length l.
Proof. induction l as [|c l IH]; simpl; [reflexivity | now rewrite IH]. Qed.

Lemma chars_length (s : string) : length (chars s) = String.length s.
Proof. induction s as [|c s IH]; simpl; [reflexivity | now rewrite IH]. Qed.

Lemma slice_length_le {A} (l : list A) (i j : Z) :
  i <= j -> Z.of_nat (length (slice l i j)) <= j - i.
Proof.
  intros Hij. unfold slice, norm_index. rewrite length_take, length_drop.
  destruct (Z.ltb_spec i 0), (Z.ltb_spec j 0); lia.
Qed.

Lemma lstrip_length (l : list ascii) : (length (lstrip l) <= length l)%nat.
Proof.
  induction l as [|c l IH]; simpl; [lia|].
  destruct (is_space c); simpl; lia.
Qed.

Lemma strip_length (l : list ascii) : (length (strip l) <= length l)%nat.
Proof.
  unfold strip, rstrip. rewrite length_rev.
  etransitivity; [apply lstrip_length|]. rewrite length_rev. apply lstrip_length.
Qed.

Lemma collapse_ws_length (b : bool) (l : list ascii) :
  (length (collapse_ws b l) <= length l)%nat.
Proof.
  revert b. induction l as [|c l IH]; intros b; simpl; [lia|].
  pose proof (IH true). pose proof (IH false).
  destruct (is_space c); [destruct b|]; simpl; lia.
Qed.

Lemma normalize_length (l : list ascii) : (length (normalize l) <= length l)%nat.
Proof.
  unfold normalize. etransitivity; [apply strip_length | apply collapse_ws_length].
Qed.

(** **** [rfind] finds the last occurrence *)

(** [sep] starts at index [k] of [region]. *)
Definition occurs (sep region : list ascii) (k : nat) : Prop :=
  (k <= length region)%nat /\ sep `prefix_of` drop k region.

Definition absent (sep region : list ascii) : Prop :=
  forall k, ~ occurs sep region k.

Definition last_occurrence (sep region : list ascii) (k : nat) : Prop :=
  occurs sep region k /\ forall k', occurs sep region k' -> (k' <= k)%nat.

Lemma occurs_cons sep c r k : occurs sep (c :: r) (S k) <-> occurs sep r k.
Proof. unfold occurs; simpl. split; intros [? ?]; split; auto; lia. Qed.

Lemma occurs_fits sep region k :
  occurs sep region k -> (k + length sep <= length region)%nat.
Proof.
  intros [Hk Hp]. apply prefix_length in Hp. rewrite length_drop in Hp. lia.
Qed.

Lemma rfind_from_none sep region i :
  rfind_from sep region i = None -> absent sep region.
Proof.
  revert i. induction region as [|c r IHr]; intros i; simpl.
  - case_bool_decide as Hs; [discriminate|]. intros _ k [Hk Hp].
    simpl in Hk. assert (k = 0%nat) as -> by lia. simpl in Hp.
    apply prefix_nil_inv in Hp. contradiction.
  - destruct (rfind_from sep r (S i)) eqn:Hr; [discriminate|].
    case_bool_decide as Hp; [discriminate|]. intros _ [|k] Hk.
    + destruct Hk as [_ Hk]. simpl in Hk. contradiction.
    + apply occurs_cons in Hk. eapply IHr; eauto.
Qed.

Lemma rfind_from_some sep region i j :
  rfind_from sep region i = Some j ->
  exists k, j = (i + k)%nat /\ last_occurrence sep region k.
Proof.
  revert i j. induction region as [|c r IH]; intros i j; simpl.
  - case_bool_decide as Hs; [|discriminate]. intros [= <-].
    exists 0%nat. split; [lia|]. split.
    + split; [simpl; lia|]. subst sep. simpl. apply prefix_nil.
    + intros k' [Hk' _]. simpl in Hk'. lia.
  - destruct (rfind_from sep r (S i)) as [j'|] eqn:Hr.
    + intros [= <-]. apply IH in Hr as (k & -> & [Hocc Hlast]).
      exists (S k). split; [lia|]. split.
      * now apply occurs_cons.
      * intros [|k'] Hk'; [lia|]. apply occurs_cons, Hlast in Hk'. lia.
    + case_bool_decide as Hp; [|discriminate]. intros [= <-].
      exists 0%nat. split; [lia|]. split.
      * split; [simpl; lia | exact Hp].
      * intros [|k'] Hk'; [lia|]. exfalso.
        apply occurs_cons in Hk'. eapply rfind_from_none; eauto.
Qed.

Lemma rfind_found region sep :
  rfind region sep <> -1 ->
  exists k, rfind region sep = Z.of_nat k /\ last_occurrence sep region k.
Proof.
  unfold rfind. destruct (rfind_from sep region 0) as [j|] eqn:H; [|congruence].
  intros _. apply rfind_from_some in H as (k & -> & Hk). exists k. split; auto.
Qed.

Lemma rfind_missing region sep : rfind region sep = -1 -> absent sep region.
Proof.
  unfold rfind. destruct (rfind_from sep region 0) as [j|] eqn:H; [lia|].
  intros _. eapply rfind_from_none; eauto.
Qed.

(** **** The cut rule *)

(** What the loop does at a window starting at [start]: the raw boundary
    [start + w] at the end of the text or when no terminator occurs in the
    search region; otherwise the position just after the last occurrence of
    the first terminator, in the order of [separators], that occurs there. *)
Inductive cut_rule (text : list ascii) (w start : Z) : Z -> Prop :=
  | cut_raw_at_end :
      len text <= start + w ->
      cut_rule text w start (start + w)
  | cut_raw_no_terminator :
      start + w < len text ->
      (forall sep, sep ∈ separators -> absent sep (search_region text w start)) ->
      cut_rule text w start (start + w)
  | cut_snapped pre sep post k :
      start + w < len text ->
      separators = pre ++ sep :: post ->
      (forall s, s ∈ pre -> absent s (search_region text w start)) ->
      last_occurrence sep (search_region text w start) k ->
      cut_rule text w start (search_start_of w start + Z.of_nat k + len sep).

Lemma snap_spec seps region ss e :
  (snap seps region ss e = e /\ forall sep, sep ∈ seps -> absent sep region) \/
  (exists pre sep post k,
      seps = pre ++ sep :: post /\
      (forall s, s ∈ pre -> absent s region) /\
      last_occurrence sep region k /\
      snap seps region ss e = ss + Z.of_nat k + len sep).
Proof.
  induction seps as [|sep rest IH]; simpl.
  - left. split; [reflexivity|]. intros sep Hin. inversion Hin.
  - destruct (Z.eqb_spec (rfind region sep) (-1)) as [Hm|Hf]; simpl.
    + apply rfind_missing in Hm.
      destruct IH as [[He Habs]|(pre & s & post & k & -> & Hpre & Hlast & He)].
      * left. split; [exact He|].
        intros s [->|Hin]%elem_of_cons; auto.
      * right. exists (sep :: pre), s, post, k.
        split; [reflexivity|]. split; [|split; [exact Hlast | exact He]].
        intros s' [->|Hin]%elem_of_cons; auto.
    + apply rfind_found in Hf as (k & -> & Hlast).
      right. exists [], sep, rest, k.
      split; [reflexivity|]. split; [|split; [exact Hlast | reflexivity]].
      intros s Hin. inversion Hin.
Qed.

Lemma cut_end_rule text w start : cut_rule text w start (cut_end text w start).
Proof.
  unfold cut_end. destruct (Z.ltb_spec (start + w) (len text)) as [Hlt|Hge].
  - destruct (snap_spec separators (search_region text w start)
                (search_start_of w start) (start + w))
      as [[-> Habs]|(pre & sep & post & k & Hsplit & Hpre & Hlast & ->)].
    + now apply cut_raw_no_terminator.
    + eapply cut_snapped; eauto.
  - now apply cut_raw_at_end.
Qed.

Lemma separators_nonempty sep : sep ∈ separators -> (1 <= length sep)%nat.
Proof.
  unfold separators. rewrite !elem_of_cons, elem_of_nil.
  intros [->|[->|[->|[->|[]]]]]; simpl; lia.
Qed.

Lemma int_08_bounds w : 0 <= w -> 0 <= int_08 w <= w.
Proof.
  intros Hw. unfold int_08. rewrite Z.quot_div_nonneg by lia.
  Z.div_mod_to_equations. lia.
Qed.

Lemma int_08_overlap w o : 0 <= w -> 5 * o < 4 * w -> o <= int_08 w.
Proof.
  intros Hw Ho. unfold int_08. rewrite Z.quot_div_nonneg by lia.
  Z.div_mod_to_equations. lia.
Qed.

(** Every cut point is the raw boundary or lies strictly after the start of
    the search region; it never passes the raw boundary. *)
Lemma cut_end_bounds text w start :
  0 <= w ->
  let e := cut_end text w start in
  (e = start + w \/ search_start_of w start < e) /\ e <= start + w.
Proof.
  intros Hw e. subst e. pose proof (int_08_bounds w Hw) as H08.
  destruct (cut_end_rule text w start)
    as [Hend|Hlt Habs|pre sep post k Hlt Hsplit Hpre [Hocc Hlast]].
  - split; [now left | lia].
  - split; [now left | lia].
  - assert (Hin : sep ∈ separators).
    { rewrite Hsplit. apply elem_of_app. right. apply elem_of_cons. now left. }
    apply separators_nonempty in Hin. apply occurs_fits in Hocc.
    pose proof (slice_length_le text (search_start_of w start) (start + w)) as Hs.
    fold (search_region text w start) in Hs.
    unfold search_start_of, len in *. split; [right|]; lia.
Qed.

Lemma cut_end_ge text w start :
  0 <= w -> start + int_08 w <= cut_end text w start.
Proof.
  intros Hw. pose proof (int_08_bounds w Hw).
  destruct (cut_end_bounds text w start Hw) as [[He|He] _];
    unfold search_start_of in *; lia.
Qed.

(** **** No chunk is longer than the window *)

Definition within_window (cfg : RAGConfig) (c : DocumentChunk) : Prop :=
  Z.of_nat (String.length (chunk_content c)) <= chunk_chars cfg.

Lemma loop_body_within_window cfg text doc meta st :
  0 <= chunk_size cfg ->
  Forall (within_window cfg) (ls_chunks st) ->
  Forall (within_window cfg) (ls_chunks (loop_body cfg text doc meta st)).
Proof.
  intros Hsz Hall. unfold loop_body.
  set (e := cut_end text (chunk_chars cfg) (ls_start st)).
  assert (Hw : 0 <= chunk_chars cfg) by (unfold chunk_chars, chars_per_token; lia).
  pose proof (cut_end_bounds text _ (ls_start st) Hw) as [_ Hle]. fold e in Hle.
  pose proof (cut_end_ge text _ (ls_start st) Hw) as Hge. fold e in Hge.
  pose proof (int_08_bounds _ Hw) as H08.
  pose proof (strip_length (slice text (ls_start st) e)) as Hstrip.
  pose proof (slice_length_le text (ls_start st) e ltac:(lia)) as Hslice.
  destruct (strip (slice text (ls_start st) e)) as [|c r] eqn:Hchunk;
    cbn [ls_chunks]; auto.
  apply Forall_app. split; auto. constructor; [|constructor].
  unfold within_window, make_chunk. cbn [chunk_content].
  rewrite str_length. lia.
Qed.

Lemma after_iterations_within_window cfg text doc meta n :
  0 <= chunk_size cfg ->
  Forall (within_window cfg) (ls_chunks (after_iterations n cfg text doc meta)).
Proof.
  intros Hsz. induction n as [|n IH]; simpl.
  - constructor.
  - now apply loop_body_within_window.
Qed.

Lemma chunk_loop_within_window cfg text doc meta fuel st chunks :
  0 <= chunk_size cfg ->
  Forall (within_window cfg) (ls_chunks st) ->
  chunk_loop fuel cfg text doc meta st = Some chunks ->
  Forall (within_window cfg) chunks.
Proof.
  intros Hsz. revert st. induction fuel as [|fuel IH]; intros st Hall; simpl.
  - destruct (ls_start st <? len text); [discriminate|]. now intros [= <-].
  - destruct (ls_start st <? len text); [|now intros [= <-]].
    apply IH. now apply loop_body_within_window.
Qed.

(** **** Progress of the loop *)

Lemma loop_body_progress cfg text doc meta st :
  0 <= chunk_size cfg ->
  5 * overlap_chars cfg < 4 * chunk_chars cfg ->
  0 <= ls_start st ->
  ls_start st < ls_start (loop_body cfg text doc meta st).
Proof.
  intros Hsz Hov Hst. unfold loop_body.
  set (e := cut_end text (chunk_chars cfg) (ls_start st)).
  assert (Hw : 0 <= chunk_chars cfg) by (unfold chunk_chars, chars_per_token; lia).
  pose proof (cut_end_bounds text _ (ls_start st) Hw) as [Hcut _]. fold e in Hcut.
  pose proof (int_08_overlap _ _ Hw Hov) as Ho.
  pose proof (int_08_bounds _ Hw) as H08.
  assert (Hnext : ls_start st < e - overlap_chars cfg).
  { unfold search_start_of in Hcut. destruct Hcut; lia. }
  destruct (strip (slice text (ls_start st) e)); simpl;
    destruct (Z.leb_spec (e - overlap_chars cfg) 0); simpl; lia.
Qed.

Lemma chunk_loop_terminates cfg text doc meta fuel st :
  0 <= chunk_size cfg ->
  5 * overlap_chars cfg < 4 * chunk_chars cfg ->
  0 <= ls_start st ->
  len text - ls_start st <= Z.of_nat fuel ->
  exists n,
    chunk_loop fuel cfg text doc meta st =
      Some (ls_chunks (Nat.iter n (loop_body cfg text doc meta) st)).
Proof.
  intros Hsz Hov. revert st. induction fuel as [|fuel IH]; intros st Hst Hfuel; simpl.
  - destruct (Z.ltb_spec (ls_start st) (len text)); [lia|]. now exists 0%nat.
  - destruct (Z.ltb_spec (ls_start st) (len text)); [|now exists 0%nat].
    pose proof (loop_body_progress cfg text doc meta st Hsz Hov Hst) as Hp.
    destruct (IH (loop_body cfg text doc meta st)) as [n Hn]; [lia..|].
    exists (S n). rewrite Hn. f_equal. f_equal.
    clear. induction n as [|n IHn]; simpl; [reflexivity | now rewrite IHn].
Qed.

Lemma chunk_loop_fuel_irrelevant cfg text doc meta fuel fuel' st chunks :
  chunk_loop fuel cfg text doc meta st = Some chunks ->
  (fuel <= fuel')%nat ->
  chunk_loop fuel' cfg text doc meta st = Some chunks.
Proof.
  revert fuel' st. induction fuel as [|fuel IH]; intros fuel' st; simpl.
  - destruct (ls_start st <? len text) eqn:Hlt; [discriminate|].
    intros H _. destruct fuel'; simpl; now rewrite Hlt.
  - destruct (ls_start st <? len text) eqn:Hlt.
    + intros H Hle. destruct fuel' as [|fuel']; [lia|]. simpl. rewrite Hlt.
      apply IH; [exact H | lia].
    + intros H _. destruct fuel'; simpl; now rewrite Hlt.
Qed.

(** **** Chunks inherit the metadata of their document *)

Definition inherits (key : string) (meta : Meta) (c : DocumentChunk) : Prop :=
  chunk_metadata c !! key = meta !! key.

Lemma loop_body_inherits cfg text doc meta st key :
  key <> "chunk_index"%string -> key <> "chunk_start"%string ->
  key <> "chunk_end"%string ->
  Forall (inherits key meta) (ls_chunks st) ->
  Forall (inherits key meta) (ls_chunks (loop_body cfg text doc meta st)).
Proof.
  intros H1 H2 H3 Hall. unfold loop_body.
  destruct (strip _) as [|c r]; cbn [ls_chunks]; auto.
  apply Forall_app. split; auto. constructor; [|constructor].
  unfold inherits, make_chunk. cbn [chunk_metadata].
  rewrite !lookup_insert_ne by congruence. reflexivity.
Qed.

Lemma create_chunks_inherits fuel cfg text doc meta key chunks :
  key <> "chunk_index"%string -> key <> "chunk_start"%string ->
  key <> "chunk_end"%string ->
  _create_chunks fuel cfg text doc meta = Some chunks ->
  Forall (inherits key meta) chunks.
Proof.
  intros H1 H2 H3. unfold _create_chunks.
  destruct (strip (chars text)); [intros [= <-]; constructor|].
  assert (Hinit : Forall (inherits key meta) (ls_chunks initial_state)) by constructor.
  revert Hinit. generalize initial_state. generalize (normalize (chars text)).
  induction fuel as [|fuel IH]; intros t st Hall; simpl.
  - destruct (ls_start st <? len t); [discriminate | now intros [= <-]].
  - destruct (ls_start st <? len t); [|now intros [= <-]].
    apply IH. now apply loop_body_inherits.
Qed.

(** Every chunk [process_bytes] produces carries the file name and, as
    ["content_hash"], the SHA-256 digest of the raw extracted text. *)
Lemma process_bytes_content_hash fuel ext cfg content filename kb uploader d :
  process_bytes fuel ext cfg content filename kb uploader = Ok (Some d) ->
  Forall (fun c =>
            chunk_metadata c !! "content_hash"%string =
              Some (MStr (sha256_hexdigest ext (doc_raw_text d))) /\
            chunk_metadata c !! "filename"%string = Some (MStr filename))
         (doc_chunks d).
Proof.
  unfold process_bytes.
  destruct (_extract_text_from_bytes ext content (suffix_lower ext filename))
    as [raw|e]; simpl; [|discriminate].
  destruct (_create_chunks _ _ _ _ _) as [chunks|] eqn:Hc; simpl; [|discriminate].
  intros [= <-]. cbn [doc_chunks doc_raw_text].
  pose proof (create_chunks_inherits _ _ _ _ _ "content_hash"%string _
                ltac:(discriminate) ltac:(discriminate) ltac:(discriminate) Hc) as Hh.
  pose proof (create_chunks_inherits _ _ _ _ _ "filename"%string _
                ltac:(discriminate) ltac:(discriminate) ltac:(discriminate) Hc) as Hf.
  rewrite Forall_forall in Hh, Hf. apply Forall_forall. intros c Hin.
  rewrite (Hh c Hin), (Hf c Hin). split; reflexivity.
Qed.

(** **** Worked inputs *)

Example slice_negative_index : slice (chars "abcdef") 1 (-1) = chars "bcde".
Proof. reflexivity. Qed.

Example normalize_collapses :
  str (normalize (chars "  Ein  Satz.
 Noch einer. ")) = "Ein Satz. Noch einer."%string.
Proof. reflexivity. Qed.

(** A configuration with a window of 40 characters and 4 of overlap. *)
Definition small_cfg : RAGConfig := {|
  chunk_size := 10;
  chunk_overlap := 1;
  top_k_local := 5;
  top_k_api := 12;
  top_k_results := 5;
  similarity_threshold := 1 # 2;
  collection_prefix := "sp_kb_"
|}.

(** 32 filler characters, then a search region holding [". "] before
    ["! "], then 13 more characters. *)
Definition mixed_terminators : string :=
  "aaaaaaaaaaaaaaaaaaaaaaaaaaaaaaaax. y! zzbbbbbbbbbbbbb".

Example mixed_terminators_chunks :
  option_map (map chunk_content)
    (_create_chunks 53 small_cfg mixed_terminators "d" ∅) =
  Some ["aaaaaaaaaaaaaaaaaaaaaaaaaaaaaaaax."; "ax. y! zzbbbbbbbbbbbbb"]%string.
Proof. vm_compute. reflexivity. Qed.

(** **** The claims about chunking *)

(** The reading of "the cut moves back to the nearest sentence terminator":
    no terminator of the search region ends after the cut. *)
Definition cuts_at_nearest_terminator (text : list ascii) (w start e : Z) : Prop :=
  forall sep k,
    sep ∈ separators ->
    occurs sep (search_region text w start) k ->
    search_start_of w start + Z.of_nat k + len sep <= e.

(** A text of 3308 characters for the default window of 3200: the search
    region, from 2560 on, holds [". "] at 2601 and ["! "] at 2604. *)
Definition two_terminators : string :=
  str (replicate 2600 "a"%char) +:+ "x. y! zz" +:+ str (replicate 700 "b"%char).

(** C8: the loop misses the nearest terminator.  Under the default
    configuration the text [two_terminators] is cut into two chunks, the
    first one ending just after [". "] (position 2603), although ["! "], two
    characters further on, ends in the search region as well (position 2606):
    the terminator the cut moves back to is not the one nearest to the
    window boundary. *)
Lemma cut_not_at_nearest_terminator :
  let text := chars two_terminators in
  normalize text = text /\
  option_map
    (map (fun c => (chunk_content c, chunk_metadata c !! "chunk_end"%string)))
    (_create_chunks 3308 default_rag two_terminators "d" ∅) =
  Some [(str (replicate 2600 "a"%char) +:+ "x.", Some (MInt 2603));
        (str (replicate 397 "a"%char) +:+ "x. y! zz" +:+
           str (replicate 700 "b"%char), Some (MInt 5403))] /\
  cut_end text (chunk_chars default_rag) 0 = 2603 /\
  ~ cuts_at_nearest_terminator text (chunk_chars default_rag) 0
      (cut_end text (chunk_chars default_rag) 0).
Proof.
  split; [vm_compute; reflexivity|]. split; [vm_compute; reflexivity|].
  split; [vm_compute; reflexivity|].
  intros H. specialize (H (chars "! ") 44%nat).
  assert (Hle : search_start_of (chunk_chars default_rag) 0 + Z.of_nat 44
                  + len (chars "! ")
                <= cut_end (chars two_terminators) (chunk_chars default_rag) 0).
  { apply H.
    - unfold separators. apply elem_of_cons. right. apply elem_of_cons. now left.
    - split; [vm_compute; lia|].
      exists (chars ("zz" +:+ str (replicate 592 "b"%char))).
      vm_compute. reflexivity. }
  vm_compute in Hle. apply Hle. reflexivity.
Qed.

(** The same on a window of 40 characters: with [". "] at offset 1 and
    ["! "] at offset 4 of the search region, the loop cuts after [". "]
    (position 35) although ["! "] ends at position 38. *)
Example small_window_misses_terminator :
  let text := chars mixed_terminators in
  normalize text = text /\
  cut_end text 40 0 = 35 /\
  ~ cuts_at_nearest_terminator text 40 0 (cut_end text 40 0).
Proof.
  split; [reflexivity|]. split; [reflexivity|].
  intros H. specialize (H (chars "! ") 4%nat).
  assert (Hle : search_start_of 40 0 + Z.of_nat 4 + len (chars "! ")
                <= cut_end (chars mixed_terminators) 40 0).
  { apply H.
    - unfold separators. apply elem_of_cons. right. apply elem_of_cons. now left.
    - split; [vm_compute; lia|]. exists (chars "zz"). vm_compute. reflexivity. }
  vm_compute in Hle. apply Hle. reflexivity.
Qed.

(** What the loop does at every cut, and the bound on the chunks: for a
    non-negative window, every cut follows [cut_rule] (raw boundary at the
    end of the text or when the last 20% of the window hold no terminator,
    otherwise just after the last occurrence of the first terminator type,
    in the order ". ", "! ", "? ", newline, present there), and no chunk
    produced, after any number of iterations and in any returned list, is
    longer than the window [chunk_size * 4]. *)
Theorem create_chunks_cut_rule_and_window
    (cfg : RAGConfig) (text doc : string) (meta : Meta) :
  0 <= chunk_size cfg ->
  let t := normalize (chars text) in
  (forall start,
      cut_rule t (chunk_chars cfg) start (cut_end t (chunk_chars cfg) start)) /\
  (forall n,
      Forall (within_window cfg) (ls_chunks (after_iterations n cfg t doc meta))) /\
  (forall fuel chunks,
      _create_chunks fuel cfg text doc meta = Some chunks ->
      Forall (within_window cfg) chunks).
Proof.
  intros Hsz t. split; [|split].
  - intros start. apply cut_end_rule.
  - intros n. now apply after_iterations_within_window.
  - intros fuel chunks. unfold _create_chunks.
    destruct (strip (chars text)); [now intros [= <-]|].
    apply chunk_loop_within_window; [exact Hsz | constructor].
Qed.

Lemma create_chunks_cut_rule_and_window_witness :
  0 <= chunk_size default_rag /\
  Forall (within_window default_rag)
    (ls_chunks (after_iterations 2 default_rag
                  (normalize (chars "Art. 5 Haftung. Der Versicherer haftet! "))
                  "d" ∅)).
Proof.
  split; [simpl; lia|].
  apply (create_chunks_cut_rule_and_window default_rag
           "Art. 5 Haftung. Der Versicherer haftet! " "d" ∅).
  simpl; lia.
Defined.

(** A configuration with a negative window, -100 characters, and an
    overlap of -88 characters, which is below 80% of the window. *)
Definition negative_cfg : RAGConfig := {|
  chunk_size := -25;
  chunk_overlap := -22;
  top_k_local := 5;
  top_k_api := 12;
  top_k_results := 5;
  similarity_threshold := 1 # 2;
  collection_prefix := "sp_kb_"
|}.

Lemma snap_empty_region (search_start end_ : Z) :
  snap separators [] search_start end_ = end_.
Proof. reflexivity. Qed.

(** With that configuration every cut lies 100 characters before the window
    start, no chunk is made, and [start] falls by 12 at each iteration. *)
Lemma negative_window_body (doc : string) (meta : Meta) (st : LoopState) :
  ls_start st <= 0 -> ls_index st = 0 ->
  let st' := loop_body negative_cfg (chars "Art. 5 Haftung.") doc meta st in
  ls_start st' <= 0 /\ ls_index st' = 0.
Proof.
  intros Hs Hi. cbv zeta.
  assert (Hcut : cut_end (chars "Art. 5 Haftung.") (chunk_chars negative_cfg)
                   (ls_start st) = ls_start st - 100).
  { unfold cut_end. change (chunk_chars negative_cfg) with (-100).
    change (len (chars "Art. 5 Haftung.")) with 15.
    destruct (Z.ltb_spec (ls_start st + -100) 15); [|lia].
    unfold search_region, search_start_of, slice, norm_index.
    change (int_08 (-100)) with (-80).
    change (Z.of_nat (length (chars "Art. 5 Haftung."))) with 15.
    destruct (Z.ltb_spec (ls_start st + -80) 0); [|lia].
    destruct (Z.ltb_spec (ls_start st + -100) 0); [|lia].
    rewrite !Z.max_l by lia. change (Z.to_nat (0 - 0)) with 0%nat.
    change (take 0 (drop (Z.to_nat 0) (chars "Art. 5 Haftung."))) with (@nil ascii).
    rewrite snap_empty_region. lia. }
  unfold loop_body. rewrite Hcut.
  assert (Hslice : slice (chars "Art. 5 Haftung.") (ls_start st) (ls_start st - 100) = []).
  { unfold slice, norm_index.
    change (Z.of_nat (length (chars "Art. 5 Haftung."))) with 15.
    destruct (Z.ltb_spec (ls_start st - 100) 0); [|lia].
    rewrite (Z.max_l 0 (ls_start st - 100 + 15)) by lia.
    assert (Hz : forall a, 0 <= a -> Z.to_nat (0 - a) = 0%nat) by (intros; lia).
    destruct (Z.ltb_spec (ls_start st) 0); rewrite Hz by lia; reflexivity. }
  rewrite Hslice. cbn [strip lstrip rstrip rev app].
  change (overlap_chars negative_cfg) with (-88).
  rewrite Hi. cbn [ls_start ls_index].
  change (0 <? 0) with false. rewrite andb_false_r. cbn [ls_start ls_index].
  split; [lia | reflexivity].
Qed.

Lemma negative_window_loop (doc : string) (meta : Meta) (fuel : nat) (st : LoopState) :
  ls_start st <= 0 -> ls_index st = 0 ->
  chunk_loop fuel negative_cfg (chars "Art. 5 Haftung.") doc meta st = None.
Proof.
  revert st. induction fuel as [|fuel IH]; intros st Hs Hi;
    (assert (Hlt : (ls_start st <? len (chars "Art. 5 Haftung.")) = true)
       by (apply Z.ltb_lt; change (len (chars "Art. 5 Haftung.")) with 15; lia));
    cbn [chunk_loop]; rewrite Hlt; [reflexivity|].
  destruct (negative_window_body doc meta st Hs Hi) as [Hs' Hi'].
  now apply IH.
Qed.

(** C10, as stated, fails: with [chunk_size = -25] and [chunk_overlap = -22]
    the overlap in characters, -88, is smaller than 80% of the window, -80,
    and on the text "Art. 5 Haftung." the loop is still running after any
    number of iterations. *)
Lemma create_chunks_negative_window_runs_on :
  5 * overlap_chars negative_cfg < 4 * chunk_chars negative_cfg /\
  forall fuel, _create_chunks fuel negative_cfg "Art. 5 Haftung." "d" ∅ = None.
Proof.
  split; [vm_compute; reflexivity|].
  intros fuel. unfold _create_chunks.
  change (strip (chars "Art. 5 Haftung.")) with (chars "Art. 5 Haftung.").
  change (normalize (chars "Art. 5 Haftung.")) with (chars "Art. 5 Haftung.").
  change (chars "Art. 5 Haftung.") with ("A"%char :: chars "rt. 5 Haftung.") at 1.
  cbv iota.
  apply (negative_window_loop "d" ∅ fuel initial_state); [simpl; lia | reflexivity].
Qed.

(** C10 (amended): when the window is non-negative and the overlap in
    characters is below 80% of it, every cut lies at least [int(0.8 * window)] beyond the
    window start, every iteration strictly increases [start], and
    [_create_chunks] returns: any number of iterations from the length of
    the text on yields the same list of chunks. *)
Theorem create_chunks_terminates
    (cfg : RAGConfig) (text doc : string) (meta : Meta) :
  0 <= chunk_size cfg ->
  5 * overlap_chars cfg < 4 * chunk_chars cfg ->
  let t := normalize (chars text) in
  (forall st, 0 <= ls_start st ->
      ls_start st + int_08 (chunk_chars cfg)
        <= cut_end t (chunk_chars cfg) (ls_start st) /\
      ls_start st < ls_start (loop_body cfg t doc meta st)) /\
  exists chunks, forall fuel,
      (String.length text <= fuel)%nat ->
      _create_chunks fuel cfg text doc meta = Some chunks.
Proof.
  intros Hsz Hov t.
  assert (Hw : 0 <= chunk_chars cfg) by (unfold chunk_chars, chars_per_token; lia).
  split.
  - intros st Hst. split.
    + now apply cut_end_ge.
    + now apply loop_body_progress.
  - unfold _create_chunks. destruct (strip (chars text)) as [|c r].
    + exists []. reflexivity.
    + destruct (chunk_loop_terminates cfg t doc meta (length t) initial_state)
        as [n Hn]; [assumption | assumption | simpl; lia | unfold len; simpl; lia |].
      eexists. intros fuel Hfuel.
      eapply chunk_loop_fuel_irrelevant; [exact Hn|].
      subst t. pose proof (normalize_length (chars text)).
      rewrite chars_length in *. lia.
Qed.

Lemma create_chunks_terminates_witness :
  0 <= chunk_size default_rag /\
  5 * overlap_chars default_rag < 4 * chunk_chars default_rag /\
  exists chunks, forall fuel,
      (String.length "Art. 5 Haftung. Der Versicherer haftet! " <= fuel)%nat ->
      _create_chunks fuel default_rag "Art. 5 Haftung. Der Versicherer haftet! "
        "d" ∅ = Some chunks.
Proof.
  split; [simpl; lia|]. split; [vm_compute; reflexivity|].
  apply (create_chunks_terminates default_rag
           "Art. 5 Haftung. Der Versicherer haftet! " "d" ∅);
    [simpl; lia | vm_compute; reflexivity].
Defined.

End DocumentProcessorProofs.

(** ** app/core/query_enhancement.py: query expansion *)

Module QueryEnhancement.
Import Py.

(** [list(dict.fromkeys(l))]: duplicates removed, first occurrences kept in
    order; [seen] holds the keys already in the dictionary, newest first. *)
Fixpoint fromkeys_acc (seen : list string) (l : list string) : list string :=
  match l with
  | [] => []
  | x :: r =>
      if bool_decide (x ∈ seen) then fromkeys_acc seen r
      else x :: fromkeys_acc (x :: seen) r
  end.

Definition dict_fromkeys (l : list string) : list string := fromkeys_acc [] l.

(** A dictionary literal, in insertion order. *)
Definition Expansions : Type := list (string * list string).

Definition LEGAL_EXPANSIONS : Expansions := [
  ("vertrag", ["Kontrakt"; "Vereinbarung"; "Obligationenrecht"; "OR"]);
  ("vertrag entsteht",
     ["Entstehung durch Vertrag"; "Vertragsschluss"; latin1 "Willensäusserung"; "Antrag Annahme"]);
  (latin1 "kündigung", [latin1 "Kündigungsfrist"; "Beendigung"; latin1 "Auflösung"; "Art. 335"]);
  (latin1 "kündigungsfrist", ["Probezeit"; "Dienstjahr"; "Art. 335c OR"]);
  ("arbeitsvertrag", ["Einzelarbeitsvertrag"; latin1 "Arbeitsverhältnis"; "Art. 319 OR"]);
  ("miete", ["Mietvertrag"; "Mietzins"; "Vermieter"; "Mieter"; "VMWG"]);
  ("kauf", ["Kaufvertrag"; latin1 "Käufer"; latin1 "Verkäufer"; "Kaufpreis"]);
  ("schaden", ["Schadenersatz"; "Haftung"; "Art. 41 OR"; "unerlaubte Handlung"]);
  (latin1 "gewährleistung", [latin1 "Mängel"; "Sachmangel"; "Wandelung"; "Minderung"]);
  ("gesetz", ["Bundesgesetz"; "Verordnung"; "SR"; "Rechtsnorm"]);
  ("artikel", ["Art."; "Absatz"; "Buchstabe"; "Ziffer"]);
  ("recht", ["Anspruch"; "Berechtigung"; "Pflicht"]);
  ("pflicht", ["Obligation"; "Verpflichtung"; "Schuld"]);
  ("frist", ["Termin"; "Zeitraum"; latin1 "Verjährung"]);
  ("person", [latin1 "natürliche Person"; "juristische Person"; latin1 "Rechtsfähigkeit"]);
  ("firma", ["Gesellschaft"; "AG"; "GmbH"; "Einzelunternehmen"]);
  ("ehe", ["Eheschliessung"; "Ehevertrag"; latin1 "Güterstand"; "ZGB"]);
  ("erbe", ["Erbschaft"; "Nachlass"; "Testament"; "Erbfolge"]);
  ("datenschutz", ["DSG"; "Personendaten"; "Datenbearbeitung"; "Einwilligung"]);
  ("daten", ["Personendaten"; latin1 "besonders schützenswerte Personendaten"; "Profiling"]);
  ("strafe", ["Sanktion"; "Busse"; "Freiheitsstrafe"; "StGB"]);
  ("betrug", ["Arglist"; latin1 "Täuschung"; latin1 "Vermögensschaden"]);
  ("diebstahl", ["Entwendung"; "Aneignung"; "Art. 139 StGB"]);
  ("arbeit", ["Arbeitsrecht"; "Arbeitnehmer"; "Arbeitgeber"; "ArG"]);
  ("lohn", ["Gehalt"; "Entgelt"; latin1 "Vergütung"; latin1 "Saläir"]);
  ("ferien", ["Urlaub"; "Ferienanspruch"; "Art. 329a OR"]);
  (latin1 "überstunden", [latin1 "Überzeit"; "Mehrarbeit"; "Kompensation"])
]%string.

Definition KB_EXPANSIONS : list (string * Expansions) :=
  [("bundesrecht"%string, LEGAL_EXPANSIONS)].

(** [d.get(key)] on a dictionary literal with distinct keys. *)
Fixpoint dict_get {V} (d : list (string * V)) (key : string) : option V :=
  match d with
  | [] => None
  | (k, v) :: r => if bool_decide (k = key) then Some v else dict_get r key
  end.

(** The inner loop [for term, synonyms in expansions.items()]. *)
Definition matched_synonyms (expansions : Expansions) (query_lower : string)
    : list string :=
  flat_map
    (fun '(term, synonyms) =>
       if contains query_lower term then firstn 3 synonyms else [])
    expansions.

(** The outer loop [for kb_id in knowledge_base_ids]. *)
Definition expanded_terms (tables : list (string * Expansions))
    (kb_ids : list string) (query_lower : string) : list string :=
  flat_map
    (fun kb_id =>
       match dict_get tables kb_id with
       | Some expansions => matched_synonyms expansions query_lower
       | None => []
       end)
    kb_ids.

Definition expand_query_with (tables : list (string * Expansions))
    (query : string) (knowledge_base_ids : option (list string)) : string :=
  match knowledge_base_ids with
  | None | Some [] => query
  | Some kb_ids =>
      match expanded_terms tables kb_ids (lower query) with
      | [] => query
      | terms =>
          let unique_terms := dict_fromkeys terms in
          let expansion := join " " (firstn 6 unique_terms) in
          query +:+ " " +:+ expansion
      end
  end.

(** [expand_query] *)
Definition expand_query : string -> option (list string) -> string :=
  expand_query_with KB_EXPANSIONS.

End QueryEnhancement.

(** *** Properties of query expansion *)

Module QueryEnhancementProofs.
Import Py QueryEnhancement.

Lemma append_length (a b : string) :
  String.length (a +:+ b) = (String.length a + String.length b)%nat.
Proof. induction a as [|c a IH]; simpl; [reflexivity | now rewrite IH]. Qed.

Lemma append_space_neq (q s : string) : q +:+ " " +:+ s <> q.
Proof.
  intros H. apply (f_equal String.length) in H.
  rewrite !append_length in H. simpl in H. lia.
Qed.

Lemma fromkeys_acc_spec (seen l : list string) :
  NoDup (fromkeys_acc seen l) /\
  (forall x, x ∈ fromkeys_acc seen l <-> x ∈ l /\ x ∉ seen).
Proof.
  revert seen. induction l as [|y l IH]; intros seen; simpl.
  - split; [constructor|]. intros x. rewrite elem_of_nil. tauto.
  - case_bool_decide as Hy.
    + destruct (IH seen) as [Hnd Hel]. split; [exact Hnd|].
      intros x. rewrite Hel, elem_of_cons. split; [tauto|].
      intros [[->|Hx] Hn]; [contradiction | tauto].
    + destruct (IH (y :: seen)) as [Hnd Hel]. split.
      * constructor; [|exact Hnd]. rewrite Hel, elem_of_cons. tauto.
      * intros x. rewrite !elem_of_cons, Hel, elem_of_cons. split.
        -- intros [->|[Hx Hn]]; [tauto|]. split; [tauto|]. tauto.
        -- intros [[->|Hx] Hn]; [tauto|].
           destruct (decide (x = y)) as [->|Hne]; [tauto|]. right. tauto.
Qed.

Lemma dict_fromkeys_NoDup l : NoDup (dict_fromkeys l).
Proof. apply fromkeys_acc_spec. Qed.

Lemma dict_fromkeys_elem l x : x ∈ dict_fromkeys l <-> x ∈ l.
Proof.
  unfold dict_fromkeys. destruct (fromkeys_acc_spec [] l) as [_ H].
  rewrite H, elem_of_nil. tauto.
Qed.

(** Some key of a table registered for one of the targeted knowledge bases
    occurs in the lower-cased query. *)
Definition key_matches (tables : list (string * Expansions))
    (kb_ids : list string) (query kb key : string) (synonyms : list string)
    : Prop :=
  kb ∈ kb_ids /\
  exists table,
    dict_get tables kb = Some table /\
    (key, synonyms) ∈ table /\
    contains (lower query) key = true.

Lemma matched_synonyms_elem table ql t :
  t ∈ matched_synonyms table ql ->
  exists key syns, (key, syns) ∈ table /\ contains ql key = true /\ t ∈ take 3 syns.
Proof.
  unfold matched_synonyms. rewrite list_elem_of_In, in_flat_map.
  intros ([key syns] & Hin & Ht). exists key, syns.
  apply list_elem_of_In in Hin. cbn beta iota in Ht.
  destruct (contains ql key); [|destruct Ht].
  apply list_elem_of_In in Ht. auto.
Qed.

Lemma expanded_terms_elem tables kb_ids query t :
  t ∈ expanded_terms tables kb_ids (lower query) ->
  exists kb key syns, key_matches tables kb_ids query kb key syns /\ t ∈ take 3 syns.
Proof.
  unfold expanded_terms. rewrite list_elem_of_In, in_flat_map.
  intros (kb & Hkb & Ht). apply list_elem_of_In in Hkb.
  destruct (dict_get tables kb) as [table|] eqn:Hget; [|destruct Ht].
  apply list_elem_of_In in Ht.
  apply matched_synonyms_elem in Ht as (key & syns & Hin & Hc & Ht).
  exists kb, key, syns. split; [|exact Ht]. split; [exact Hkb|]. eauto.
Qed.

(** The terms [expand_query_with] appends. *)
Definition added_terms (tables : list (string * Expansions)) (query : string)
    (knowledge_base_ids : option (list string)) : list string :=
  match knowledge_base_ids with
  | None => []
  | Some kb_ids => take 6 (dict_fromkeys (expanded_terms tables kb_ids (lower query)))
  end.

Lemma expand_query_with_added tables query kbs :
  expand_query_with tables query kbs =
    match added_terms tables query kbs with
    | [] => query
    | added => query +:+ " " +:+ join " " added
    end.
Proof.
  unfold expand_query_with, added_terms. destruct kbs as [[|kb ids]|]; try reflexivity.
  destruct (expanded_terms tables (kb :: ids) (lower query)) as [|t ts] eqn:Ht;
    [reflexivity|].
  unfold dict_fromkeys. simpl. reflexivity.
Qed.

Lemma added_terms_spec tables query kbs :
  (length (added_terms tables query kbs) <= 6)%nat /\
  NoDup (added_terms tables query kbs) /\
  forall t, t ∈ added_terms tables query kbs ->
    exists kb_ids kb key syns,
      kbs = Some kb_ids /\
      key_matches tables kb_ids query kb key syns /\
      t ∈ take 3 syns.
Proof.
  unfold added_terms. destruct kbs as [kb_ids|].
  - split; [rewrite length_take; lia|]. split.
    + eapply sublist_NoDup; [apply dict_fromkeys_NoDup | apply sublist_take].
    + intros t Ht. apply subseteq_take in Ht.
      apply (proj1 (dict_fromkeys_elem _ _)) in Ht.
      apply expanded_terms_elem in Ht as (kb & key & syns & Hm & Ht).
      exists kb_ids, kb, key, syns. auto.
  - split; [simpl; lia|]. split; [constructor|]. intros t Ht. inversion Ht.
Qed.

(** C9: [expand_query] returns the query followed by at most six distinct
    added terms; each added term is among the first three synonyms of a key
    of a table registered for a targeted knowledge base that occurs in the
    lower-cased query; the query is changed only when such a key exists, and
    it is returned unchanged without knowledge-base ids, without a
    registered table and without a matching key. *)
Theorem expand_query_bounded (query : string) (kbs : option (list string)) :
  (exists added : list string,
      expand_query query kbs =
        match added with
        | [] => query
        | _ => query +:+ " " +:+ join " " added
        end /\
      (length added <= 6)%nat /\
      NoDup added /\
      forall t, t ∈ added ->
        exists kb_ids kb key syns,
          kbs = Some kb_ids /\
          key_matches KB_EXPANSIONS kb_ids query kb key syns /\
          t ∈ take 3 syns) /\
  (expand_query query kbs <> query ->
      exists kb_ids kb key syns,
        kbs = Some kb_ids /\ key_matches KB_EXPANSIONS kb_ids query kb key syns) /\
  (kbs = None \/ kbs = Some [] -> expand_query query kbs = query) /\
  (forall kb_ids, kbs = Some kb_ids ->
      (forall kb, kb ∈ kb_ids -> dict_get KB_EXPANSIONS kb = None) ->
      expand_query query kbs = query) /\
  (forall kb_ids, kbs = Some kb_ids ->
      (forall kb key syns, ~ key_matches KB_EXPANSIONS kb_ids query kb key syns) ->
      expand_query query kbs = query).
Proof.
  unfold expand_query.
  pose proof (expand_query_with_added KB_EXPANSIONS query kbs) as Heq.
  destruct (added_terms_spec KB_EXPANSIONS query kbs) as (Hlen & Hnd & Hel).
  assert (Hchanged : expand_query_with KB_EXPANSIONS query kbs <> query ->
            exists kb_ids kb key syns,
              kbs = Some kb_ids /\
              key_matches KB_EXPANSIONS kb_ids query kb key syns).
  { intros Hne. destruct (added_terms KB_EXPANSIONS query kbs) as [|t ts].
    - congruence.
    - destruct (Hel t) as (ids & kb & key & syns & ? & ? & _);
        [apply elem_of_cons; now left|]. eauto 6. }
  assert (Hunmatched : forall kb_ids, kbs = Some kb_ids ->
            (forall kb key syns,
                ~ key_matches KB_EXPANSIONS kb_ids query kb key syns) ->
            expand_query_with KB_EXPANSIONS query kbs = query).
  { intros ids -> Hno.
    destruct (decide (expand_query_with KB_EXPANSIONS query (Some ids) = query))
      as [He|Hne]; [exact He|].
    destruct (Hchanged Hne) as (ids' & kb & key & syns & [= <-] & Hm).
    destruct (Hno kb key syns Hm). }
  split; [|split; [|split; [|split]]].
  - exists (added_terms KB_EXPANSIONS query kbs).
    split; [|split; [exact Hlen|split; [exact Hnd | exact Hel]]].
    rewrite Heq. now destruct (added_terms KB_EXPANSIONS query kbs).
  - exact Hchanged.
  - intros [->| ->]; reflexivity.
  - intros ids Hk Hnone. apply (Hunmatched ids Hk).
    intros kb key syns (Hin & table & Hget & _). rewrite Hnone in Hget; [discriminate | exact Hin].
  - exact Hunmatched.
Qed.

Example expand_query_legal :
  expand_query (latin1 "Wie lange ist die Kündigungsfrist im Arbeitsvertrag?")
    (Some ["bundesrecht"%string]) =
  latin1 "Wie lange ist die Kündigungsfrist im Arbeitsvertrag? Kontrakt Vereinbarung Obligationenrecht Kündigungsfrist Beendigung Auflösung".
Proof. vm_compute. reflexivity. Qed.

(** The query is matched in lower case, capital umlauts included. *)
Example expand_query_capitals :
  expand_query (latin1 "KÜNDIGUNG und MIETE") (Some ["bundesrecht"%string]) =
  latin1 "KÜNDIGUNG und MIETE Kündigungsfrist Beendigung Auflösung Mietvertrag Mietzins Vermieter" /\
  key_matches KB_EXPANSIONS ["bundesrecht"%string] (latin1 "KÜNDIGUNG und MIETE")
    "bundesrecht" (latin1 "kündigung")
    [latin1 "Kündigungsfrist"; "Beendigung"; latin1 "Auflösung"; "Art. 335"]%string.
Proof.
  split; [vm_compute; reflexivity|].
  split; [apply elem_of_cons; now left|].
  exists LEGAL_EXPANSIONS. split; [reflexivity|]. split; [|vm_compute; reflexivity].
  unfold LEGAL_EXPANSIONS. do 2 (apply elem_of_cons; right).
  apply elem_of_cons. now left.
Qed.

Example expand_query_unregistered :
  expand_query "Vertrag" (Some ["produkte"%string]) = "Vertrag"%string.
Proof. reflexivity. Qed.

End QueryEnhancementProofs.

(** ** app/core/embeddings.py *)

Module Embeddings.
Import Py.

Inductive EmbeddingMode : Type := LOCAL_ONLY | API_ONLY | BOTH.

Definition Vector : Type := list Q.

Record EmbeddingResult : Type := {
  embeddings : list Vector;
  model : string;
  provider : string;
  dimensions : nat
}.

Record DualEmbeddingResult : Type := {
  local : option EmbeddingResult;
  openai : option EmbeddingResult
}.

Definition local_available (d : DualEmbeddingResult) : bool :=
  match local d with
  | Some r => (0 <? length (embeddings r))%nat
  | None => false
  end.

Definition openai_available_result (d : DualEmbeddingResult) : bool :=
  match openai d with
  | Some r => (0 <? length (embeddings r))%nat
  | None => false
  end.

(** The service object together with what lies behind it: the configuration
    it reads and the two HTTP endpoints ([post_ollama] answers one text,
    [post_openai] a batch; either may raise). *)
Record EmbeddingService : Type := {
  local_model : string;
  openai_model : string;
  mode : EmbeddingMode;
  ollama_available : bool;
  openai_api_key : string;
  search_provider : string;
  local_dimensions : nat;
  openai_dimensions : nat;
  post_ollama : string -> Res Vector;
  post_openai : list string -> Res (list Vector)
}.

(** [EmbeddingService()] as the source constructs it: [mode] is [API_ONLY]
    and [ollama_available()] answers [False]. *)
Definition make_service (api_key : string)
    (post_ollama : string -> Res Vector)
    (post_openai : list string -> Res (list Vector)) : EmbeddingService := {|
  local_model := "nomic-embed-text";
  openai_model := "text-embedding-3-small";
  mode := API_ONLY;
  ollama_available := false;
  openai_api_key := api_key;
  search_provider := "openai";
  local_dimensions := 768;
  openai_dimensions := 1536;
  post_ollama := post_ollama;
  post_openai := post_openai
|}.

Definition openai_available (s : EmbeddingService) : bool :=
  negb (bool_decide (openai_api_key s = ""%string)).

Definition dimensions_of (e : list Vector) (fallback : nat) : nat :=
  match e with
  | v :: _ => length v
  | [] => fallback
  end.

Definition embed_with_local (s : EmbeddingService) (texts : list string)
    : option EmbeddingResult :=
  match texts with
  | [] => None
  | _ =>
      if negb (ollama_available s) then None
      else
        try_except
          (bind (for_each (fun acc text =>
                             bind (post_ollama s text) (fun v => Ok (acc ++ [v])))
                          texts [])
                (fun e => Ok (Some {| embeddings := e;
                                      model := local_model s;
                                      provider := "local";
                                      dimensions := dimensions_of e (local_dimensions s) |})))
          None
  end.

Definition embed_with_openai (s : EmbeddingService) (texts : list string)
    : option EmbeddingResult :=
  match texts with
  | [] => None
  | _ =>
      if negb (openai_available s) then None
      else
        try_except
          (bind (post_openai s texts)
                (fun e => Ok (Some {| embeddings := e;
                                      model := openai_model s;
                                      provider := "openai";
                                      dimensions := dimensions_of e (openai_dimensions s) |})))
          None
  end.

Definition embed_dual (s : EmbeddingService) (texts : list string)
    : DualEmbeddingResult :=
  match texts with
  | [] => {| local := None; openai := None |}
  | _ =>
      {| local :=
           match mode s with
           | LOCAL_ONLY | BOTH => embed_with_local s texts
           | API_ONLY => None
           end;
         openai :=
           match mode s with
           | API_ONLY | BOTH => embed_with_openai s texts
           | LOCAL_ONLY => None
           end |}
  end.

Definition embed_text (s : EmbeddingService) (text : string) (provider : string)
    : option Vector :=
  let provider :=
    if bool_decide (provider = "auto"%string) then search_provider s else provider in
  let result :=
    if bool_decide (provider = "local"%string)
    then embed_with_local s [text]
    else embed_with_openai s [text] in
  match result with
  | Some r => match embeddings r with
              | v :: _ => Some v
              | [] => None
              end
  | None => None
  end.

End Embeddings.

(** ** app/core/rag_engine.py *)

Module RagEngine.
Import Py Data Config Embeddings.

Record SearchResult : Type := {
  chunk_id : string;
  content : string;
  score : Q;
  metadata : Meta
}.

(** One record of a Chroma collection, and one answer of a similarity
    query. *)
Record Row : Type := {
  row_id : string;
  row_document : string;
  row_metadata : Meta
}.

Record Hit : Type := {
  hit_row : Row;
  hit_distance : Q
}.

(** The calls made to the Chroma client. *)
Inductive ChromaCall : Type :=
  | GetOrCreateCollection (name : string)
  | CollectionGet (name : string)
  | CollectionGetIds (name id : string)
  | CollectionAdd (name : string)
  | CollectionQuery (name : string).

(** What the engine cannot see into: the embedding service, which client
    calls raise, the nearest neighbours a similarity query answers (nearest
    first), the regular expressions of the tokenizer and of the re-ranker,
    the scores of the [rank_bm25] object built over a corpus, and
    [[kb.id for kb in self.list_knowledge_bases()]] as the search operations
    evaluate it, outside of every [try]: the ids, or the exception
    [client.list_collections()] raises. *)
Record World : Type := {
  svc : EmbeddingService;
  chroma_raises : ChromaCall -> bool;
  nearest : string -> Vector -> nat -> list Hit;
  tokenize : string -> list string;
  get_scores : list (list string) -> list string -> list Q;
  known_kb_ids : Res (list string);
  article_ref : string -> bool;
  sr_number : string -> bool
}.

(** *** BM25Index *)

Record IndexData : Type := {
  data_doc_ids : list string;
  data_documents : list string;
  data_tokenized_corpus : list (list string)
}.

(** [bm25] is the corpus the [BM25Okapi] object was built over. *)
Record BM25Index : Type := {
  kb_id : string;
  bm25 : option (list (list string));
  doc_ids : list string;
  documents : list string;
  tokenized_corpus : list (list string)
}.

Definition new_index (kb : string) : BM25Index :=
  {| kb_id := kb; bm25 := None; doc_ids := []; documents := []; tokenized_corpus := [] |}.

Definition index_data (i : BM25Index) : IndexData :=
  {| data_doc_ids := doc_ids i;
     data_documents := documents i;
     data_tokenized_corpus := tokenized_corpus i |}.

(** The engine: the collections of the Chroma client by name, the cache
    [_bm25_indices], and the pickled index files by knowledge-base id
    ([None] for a file that cannot be read back). *)
Record Engine : Type := {
  collections : gmap string (list Row);
  _bm25_indices : gmap string BM25Index;
  index_files : gmap string (option IndexData)
}.

Definition _save_index (st : Engine) (i : BM25Index) : Engine :=
  {| collections := collections st;
     _bm25_indices := _bm25_indices st;
     index_files := <[kb_id i := Some (index_data i)]> (index_files st) |}.

Definition cache_index (st : Engine) (kb : string) (i : BM25Index) : Engine :=
  {| collections := collections st;
     _bm25_indices := <[kb := i]> (_bm25_indices st);
     index_files := index_files st |}.

(** [BM25Okapi(corpus)] of [rank_bm25].  The constructor divides the number
    of tokens by the number of documents, and the sum of the idf values by
    the number of distinct terms: it raises [ZeroDivisionError] on a corpus
    without a document and on a corpus none of whose documents has a token.
    The object is kept as the corpus it was built over. *)
Definition BM25Okapi (corpus : list (list string)) : Res (list (list string)) :=
  match concat corpus with
  | [] => Raise ZeroDivisionError
  | _ :: _ => Ok corpus
  end.

(** [self.bm25 = BM25Okapi(self.tokenized_corpus)] under the guard
    [if self.tokenized_corpus], which leaves [otherwise] in place. *)
Definition scorer_of (corpus : list (list string))
    (otherwise : option (list (list string))) : Res (option (list (list string))) :=
  match corpus with
  | [] => Ok otherwise
  | _ :: _ => bind (BM25Okapi corpus) (fun b => Ok (Some b))
  end.

(** [BM25Index.build_index].  When the constructor raises nothing is saved;
    the fields assigned before are those of an index object that no caller
    keeps. *)
Definition build_index (w : World) (st : Engine) (i : BM25Index)
    (ids docs : list string) : Res (BM25Index * Engine) :=
  let corpus := map (tokenize w) docs in
  bind (scorer_of corpus None) (fun b =>
    let i' := {| kb_id := kb_id i;
                 bm25 := b;
                 doc_ids := ids;
                 documents := docs;
                 tokenized_corpus := corpus |} in
    Ok (i', _save_index st i')).

(** [BM25Index.add_documents]: the outcome, and the index and the engine
    afterwards.  The three lists are extended in place before the
    constructor is called: when it raises, the index keeps the extended
    lists next to the scorer it had, and nothing is saved. *)
Definition add_documents (w : World) (st : Engine) (i : BM25Index)
    (ids docs : list string) : Res unit * (BM25Index * Engine) :=
  let corpus := tokenized_corpus i ++ map (tokenize w) docs in
  let extended b := {| kb_id := kb_id i;
                       bm25 := b;
                       doc_ids := doc_ids i ++ ids;
                       documents := documents i ++ docs;
                       tokenized_corpus := corpus |} in
  match scorer_of corpus (bm25 i) with
  | Ok b => (Ok tt, (extended b, _save_index st (extended b)))
  | Raise e => (Raise e, (extended (bm25 i), st))
  end.

(** [BM25Index.load_index]: [None] for [False], which is also the answer
    when the constructor raises inside the [try]. *)
Definition load_index (st : Engine) (i : BM25Index) : option BM25Index :=
  match index_files st !! kb_id i with
  | None => None
  | Some None => None
  | Some (Some d) =>
      match scorer_of (data_tokenized_corpus d) (bm25 i) with
      | Ok b =>
          Some {| kb_id := kb_id i;
                  bm25 := b;
                  doc_ids := data_doc_ids d;
                  documents := data_documents d;
                  tokenized_corpus := data_tokenized_corpus d |}
      | Raise _ => None
      end
  end.

Fixpoint enumerate_from {A} (i : nat) (l : list A) : list (nat * A) :=
  match l with
  | [] => []
  | x :: r => (i, x) :: enumerate_from (S i) r
  end.

Definition enumerate {A} (l : list A) : list (nat * A) := enumerate_from 0 l.

(** [BM25Index.search] *)
Definition index_search (w : World) (i : BM25Index) (query : string) (top_k : nat)
    : Res (list (string * Q * string)) :=
  match bm25 i, doc_ids i with
  | None, _ | _, [] => Ok []
  | Some corpus, _ =>
      match tokenize w query with
      | [] => Ok []
      | tokenized_query =>
          let scores := get_scores w corpus tokenized_query in
          bind
            (for_each
               (fun acc '(n, s) =>
                  if negb (Qle_bool s 0) then
                    match doc_ids i !! n, documents i !! n with
                    | Some d, Some c => Ok (acc ++ [(d, s, c)])
                    | _, _ => Raise IndexError
                    end
                  else Ok acc)
               (enumerate scores) [])
            (fun scored_docs =>
               Ok (take top_k (sorted_desc (fun x => snd (fst x)) scored_docs)))
      end
  end.

(** *** RAGEngine *)

Definition rrf_k : Z := 60.

Definition get_top_k (cfg : RAGConfig) : nat := top_k_api cfg.

Definition _get_collection_name (cfg : RAGConfig) (kb : string)
    (provider : option string) : string :=
  let base_name := collection_prefix cfg +:+ kb in
  match provider with
  | None | Some EmptyString => base_name
  | Some p => base_name +:+ "_" +:+ p
  end.

(** [RAGEngine._get_or_create_collection]: the name stands for the
    collection.  A collection that does not exist yet is created empty,
    which [rows_of] does not tell from no collection, so the engine stays
    as it is. *)
Definition _get_or_create_collection (w : World) (cfg : RAGConfig) (kb : string)
    (provider : option string) : Res string :=
  let name := _get_collection_name cfg kb provider in
  if chroma_raises w (GetOrCreateCollection name)
  then Raise (ExternalError "get_or_create_collection")
  else Ok name.

Definition rows_of (st : Engine) (name : string) : list Row :=
  default [] (collections st !! name).

(** [collection.get(include=[...])] *)
Definition collection_get (w : World) (st : Engine) (name : string) : Res (list Row) :=
  if chroma_raises w (CollectionGet name)
  then Raise (ExternalError "get")
  else Ok (rows_of st name).

(** [collection.get(ids=[id], include=["metadatas"])] *)
Definition collection_get_ids (w : World) (st : Engine) (name id : string)
    : Res (list Row) :=
  if chroma_raises w (CollectionGetIds name id)
  then Raise (ExternalError "get")
  else Ok (filter (fun r => row_id r = id) (rows_of st name)).

(** The records of [rows] whose id the collection does not hold yet. *)
Definition new_rows (st : Engine) (name : string) (rows : list Row) : list Row :=
  List.filter
    (fun r => negb (bool_decide (row_id r ∈ map row_id (rows_of st name))))
    rows.

(** What [collection.add] validates before it stores anything: no id stands
    twice in [ids], and no metadata dictionary is empty. *)
Definition accepted (rows : list Row) : bool :=
  bool_decide (NoDup (map row_id rows)) &&
  forallb (fun r => negb (bool_decide (row_metadata r = ∅))) rows.

(** [collection.add(ids=..., documents=..., metadatas=..., embeddings=...)]:
    a record whose id the collection holds already is skipped. *)
Definition collection_add (w : World) (st : Engine) (name : string)
    (rows : list Row) : Res Engine :=
  if chroma_raises w (CollectionAdd name)
  then Raise (ExternalError "add")
  else if negb (accepted rows)
  then Raise (ExternalError "add")
  else Ok {| collections :=
               <[name := rows_of st name ++ new_rows st name rows]> (collections st);
             _bm25_indices := _bm25_indices st;
             index_files := index_files st |}.

Definition is_sentinel_id (id : string) : bool :=
  bool_decide (id = "__kb_metadata__"%string).

Definition is_kb_metadata (m : Meta) : bool :=
  bool_decide (m !! "type"%string = Some (MStr "kb_metadata")).

(** The record [create_knowledge_base] stores in each provider collection. *)
Definition kb_metadata_row (name description icon created_at : string) : Row := {|
  row_id := "__kb_metadata__";
  row_document := "Knowledge Base Metadata";
  row_metadata :=
    <["type"%string := MStr "kb_metadata"]>
      (<["name"%string := MStr name]>
         (<["description"%string := MStr description]>
            (<["icon"%string := MStr icon]>
               (<["created_at"%string := MStr created_at]> ∅))))
|}.

(** The loop of [_rebuild_bm25_index] over the records read: the records
    it keeps.  [meta.get("type")] raises on a record stored without
    metadata, for which the collection answers [None]. *)
Fixpoint kept_rows (all_docs : list Row) : Res (list Row) :=
  match all_docs with
  | [] => Ok []
  | r :: rest =>
      if is_sentinel_id (row_id r) then kept_rows rest
      else if bool_decide (row_metadata r = ∅) then Raise AttributeError
      else if is_kb_metadata (row_metadata r) then kept_rows rest
      else bind (kept_rows rest) (fun kept => Ok (r :: kept))
  end.

Definition _rebuild_bm25_index (w : World) (cfg : RAGConfig) (st : Engine)
    (kb : string) (index : option BM25Index) : Res (BM25Index * Engine) :=
  let index := default (new_index kb) index in
  bind (_get_or_create_collection w cfg kb None) (fun name =>
  bind (collection_get w st name) (fun all_docs =>
  bind (kept_rows all_docs) (fun kept =>
  bind (build_index w st index (map row_id kept) (map row_document kept))
       (fun '(index', st') => Ok (index', cache_index st' kb index'))))).

Definition _get_bm25_index (w : World) (cfg : RAGConfig) (st : Engine)
    (kb : string) : Res (BM25Index * Engine) :=
  match _bm25_indices st !! kb with
  | Some index => Ok (index, st)
  | None =>
      match load_index st (new_index kb) with
      | Some index => Ok (index, cache_index st kb index)
      | None =>
          bind (_rebuild_bm25_index w cfg st kb (Some (new_index kb)))
               (fun '(index, st') => Ok (index, cache_index st' kb index))
      end
  end.

(** *** Documents *)

Definition knowledge_base_of (m : Meta) : string :=
  match m !! "knowledge_base"%string with
  | Some (MStr kb) => kb
  | Some (MInt z) => pretty z
  | None => "default"
  end.

Definition row_of_chunk (c : DocumentProcessor.DocumentChunk) : Row := {|
  row_id := DocumentProcessor.chunk_id c;
  row_document := DocumentProcessor.chunk_content c;
  row_metadata := DocumentProcessor.chunk_metadata c
|}.

(** One of the two [try: collection.add(...) except Exception: print(...)]
    blocks of [add_document]: the flag stored in [result] and the engine
    afterwards. *)
Definition store_embeddings (w : World) (cfg : RAGConfig) (st : Engine)
    (kb provider : string) (available : bool) (rows : list Row) : bool * Engine :=
  if available then
    try_except
      (bind (_get_or_create_collection w cfg kb (Some provider)) (fun name =>
       bind (collection_add w st name rows) (fun st' => Ok (true, st'))))
      (false, st)
  else (false, st).

(** [RAGEngine.add_document]: the dictionary [{"local": ..., "openai": ...}]
    is the pair of its two values.  The index [add_documents] works on is
    the object the cache holds, so its changes show in the cache also when
    the call raises. *)
Definition add_document (w : World) (cfg : RAGConfig) (st : Engine)
    (document : DocumentProcessor.ProcessedDocument)
    : Res (bool * bool) * Engine :=
  match DocumentProcessor.doc_chunks document with
  | [] => (Ok (false, false), st)
  | chunks =>
      let kb := knowledge_base_of (DocumentProcessor.doc_metadata document) in
      let texts := map DocumentProcessor.chunk_content chunks in
      let chunk_ids := map DocumentProcessor.chunk_id chunks in
      let rows := map row_of_chunk chunks in
      let dual_result := embed_dual (svc w) texts in
      let '(stored_local, st1) :=
        store_embeddings w cfg st kb "local" (local_available dual_result) rows in
      let '(stored_openai, st2) :=
        store_embeddings w cfg st1 kb "openai"
          (openai_available_result dual_result) rows in
      if stored_local || stored_openai then
        match _get_bm25_index w cfg st2 kb with
        | Raise e => (Raise e, st2)
        | Ok (bm25_index, st3) =>
            let '(outcome, (bm25_index', st4)) :=
              add_documents w st3 bm25_index chunk_ids texts in
            (bind outcome (fun _ => Ok (stored_local, stored_openai)),
             cache_index st4 kb bm25_index')
        end
      else (Ok (stored_local, stored_openai), st2)
  end.

Definition has_filename (filename : string) (r : Row) : bool :=
  bool_decide (row_metadata r !! "filename"%string = Some (MStr filename)).





(** *** Search *)

(** The body of [for i, chunk_id in enumerate(results["ids"][0])]. *)
Definition result_of_hit (cfg : RAGConfig) (h : Hit) : list SearchResult :=
  if is_sentinel_id (row_id (hit_row h)) then []
  else if is_kb_metadata (row_metadata (hit_row h)) then []
  else
    let score := (1 - hit_distance h)%Q in
    if Qle_bool (similarity_threshold cfg) score
    then [{| chunk_id := row_id (hit_row h);
             content := row_document (hit_row h);
             score := score;
             metadata := row_metadata (hit_row h) |}]
    else [].

(** The hits the loop of [search] gets through.  Chroma stores no empty
    dictionary and answers [None] for a record stored without metadata: at
    such a hit, other than the sentinel, [None.get("type")] raises inside
    the [try] of the knowledge base, the loop ends there, and what it
    appended to [all_results] before stays. *)
Fixpoint readable_hits (hits : list Hit) : list Hit :=
  match hits with
  | [] => []
  | h :: rest =>
      if negb (is_sentinel_id (row_id (hit_row h)))
         && bool_decide (row_metadata (hit_row h) = ∅)
      then []
      else h :: readable_hits rest
  end.

(** The body of [try] for one knowledge base in [search]: what it appends
    to [all_results]. *)
Definition search_kb (w : World) (cfg : RAGConfig) (query_embedding : Vector)
    (provider : string) (top_k : nat) (kb : string) : Res (list SearchResult) :=
  bind (_get_or_create_collection w cfg kb (Some provider)) (fun name =>
    if chroma_raises w (CollectionQuery name)
    then Raise (ExternalError "query")
    else Ok (flat_map (result_of_hit cfg)
               (readable_hits (nearest w name query_embedding (top_k + 1))))).

(** [kb_ids], or the ids of all knowledge bases when it is [None]. *)
Definition kb_ids_or_all (w : World) (kb_ids : option (list string))
    : Res (list string) :=
  match kb_ids with
  | Some ids => Ok ids
  | None => known_kb_ids w
  end.

(** [RAGEngine.search] (without metadata filters). *)
Definition search (w : World) (cfg : RAGConfig) (query : string)
    (kb_ids : option (list string)) (top_k : option nat)
    (provider : option string) : Res (list SearchResult) :=
  let top_k := default (get_top_k cfg) top_k in
  let provider := default (search_provider (svc w)) provider in
  match embed_text (svc w) query provider with
  | None => Ok []
  | Some query_embedding =>
      bind (kb_ids_or_all w kb_ids) (fun kb_ids =>
        let all_results :=
          fold_left
            (fun acc kb =>
               try_except
                 (bind (search_kb w cfg query_embedding provider top_k kb)
                       (fun found => Ok (acc ++ found)))
                 acc)
            kb_ids [] in
        Ok (take top_k (sorted_desc score all_results)))
  end.

(** The body of [try] for one knowledge base in [fulltext_search]. *)
Definition fulltext_kb (w : World) (cfg : RAGConfig) (st : Engine)
    (query_lower : string) (kb : string) : Res (list SearchResult) :=
  bind (_get_or_create_collection w cfg kb None) (fun name =>
  bind (collection_get w st name) (fun all_docs =>
    Ok (flat_map
          (fun r =>
             if contains (lower (row_document r)) query_lower
             then [{| chunk_id := row_id r;
                      content := row_document r;
                      score := 1;
                      metadata := row_metadata r |}]
             else [])
          all_docs))).

Definition fulltext_search (w : World) (cfg : RAGConfig) (st : Engine)
    (query : string) (kb_ids : option (list string)) : Res (list SearchResult) :=
  bind (kb_ids_or_all w kb_ids) (fun kb_ids =>
    let query_lower := lower query in
    Ok (fold_left
          (fun acc kb =>
             try_except
               (bind (fulltext_kb w cfg st query_lower kb)
                     (fun found => Ok (acc ++ found)))
               acc)
          kb_ids [])).

(** The metadata lookup of one lexical hit, with its own [try]. *)
Definition metadata_of (w : World) (st : Engine) (name doc_id : string) : Meta :=
  try_except
    (bind (collection_get_ids w st name doc_id) (fun rows =>
       Ok (match rows with
           | r :: _ => row_metadata r
           | [] => ∅
           end)))
    ∅.

(** The body of [try] for one knowledge base in [bm25_search]; the cache
    filled by [_get_bm25_index] stays filled when a later step raises. *)
Definition bm25_kb (w : World) (cfg : RAGConfig) (st : Engine) (query : string)
    (top_k : nat) (kb : string) : Res (list SearchResult) * Engine :=
  match _get_bm25_index w cfg st kb with
  | Raise e => (Raise e, st)
  | Ok (bm25_index, st') =>
      (bind (index_search w bm25_index query (top_k * 2)) (fun bm25_results =>
       bind (_get_or_create_collection w cfg kb None) (fun name =>
         Ok (map (fun '(doc_id, s, c) =>
                    {| chunk_id := doc_id;
                       content := c;
                       score := s;
                       metadata := metadata_of w st' name doc_id |})
                 bm25_results))),
       st')
  end.

(** [RAGEngine.bm25_search] *)
Definition bm25_search (w : World) (cfg : RAGConfig) (st : Engine)
    (query : string) (kb_ids : option (list string)) (top_k : option nat)
    : Res (list SearchResult) * Engine :=
  let top_k := default (get_top_k cfg) top_k in
  match kb_ids_or_all w kb_ids with
  | Raise e => (Raise e, st)
  | Ok kb_ids =>
      let '(all_results, st') :=
        fold_left
          (fun '(acc, s) kb =>
             let '(r, s') := bm25_kb w cfg s query top_k kb in
             (try_except (bind r (fun found => Ok (acc ++ found))) acc, s'))
          kb_ids ([], st) in
      (Ok (take top_k (sorted_desc score all_results)), st')
  end.

(** *** Reciprocal Rank Fusion *)

(** [rrf_scores.get(id, 0)] *)
Fixpoint score_of (rrf_scores : list (string * Q)) (id : string) : Q :=
  match rrf_scores with
  | [] => 0
  | (k, v) :: rest => if bool_decide (k = id) then v else score_of rest id
  end.

(** [rrf_scores[id] = v]: an existing key keeps its place, a new key goes
    to the end. *)
Fixpoint dict_set (rrf_scores : list (string * Q)) (id : string) (v : Q)
    : list (string * Q) :=
  match rrf_scores with
  | [] => [(id, v)]
  | (k, v') :: rest =>
      if bool_decide (k = id) then (k, v) :: rest
      else (k, v') :: dict_set rest id v
  end.

(** [weight / (self.rrf_k + rank + 1)] *)
Definition rrf_term (weight : Q) (rank : nat) : Q :=
  (weight / inject_Z (rrf_k + Z.of_nat rank + 1))%Q.

(** [for rank, result in enumerate(results):
       rrf_scores[result.chunk_id] = rrf_scores.get(result.chunk_id, 0) + rrf_score] *)
Definition accumulate (weight : Q) (results : list SearchResult)
    (rrf_scores : list (string * Q)) : list (string * Q) :=
  fold_left
    (fun scores '(rank, result) =>
       dict_set scores (chunk_id result)
         (score_of scores (chunk_id result) + rrf_term weight rank)%Q)
    (enumerate results) rrf_scores.

Definition rrf_scores_of (vector_weight bm25_weight : Q)
    (vector_results bm25_results : list SearchResult) : list (string * Q) :=
  accumulate bm25_weight bm25_results (accumulate vector_weight vector_results []).

(** [result_data]: the vector loop overwrites, the lexical loop only adds. *)
Definition result_data_of (vector_results bm25_results : list SearchResult)
    : gmap string SearchResult :=
  fold_left
    (fun data result =>
       match data !! chunk_id result with
       | Some _ => data
       | None => <[chunk_id result := result]> data
       end)
    bm25_results
    (fold_left (fun data result => <[chunk_id result := result]> data)
       vector_results ∅).

(** [max(values)]: the first of the largest values. *)
Definition py_max (x : Q) (l : list Q) : Q :=
  fold_left (fun m y => if Qle_bool y m then m else y) l x.

(** [max(rrf_scores.values()) if rrf_scores else 1.0] *)
Definition max_score_of (rrf_scores : list (string * Q)) : Q :=
  match map snd rrf_scores with
  | [] => 1
  | v :: rest => py_max v rest
  end.

(** Lines 1021-1054 of [hybrid_search]: the fusion of the two candidate
    lists. *)
Definition rrf_fusion (top_k : nat) (vector_weight bm25_weight : Q)
    (vector_results bm25_results : list SearchResult) : Res (list SearchResult) :=
  let rrf_scores := rrf_scores_of vector_weight bm25_weight vector_results bm25_results in
  let result_data := result_data_of vector_results bm25_results in
  let sorted_ids := sorted_desc (score_of rrf_scores) (map fst rrf_scores) in
  let max_score := max_score_of rrf_scores in
  for_each
    (fun final_results id =>
       match result_data !! id with
       | None => Raise KeyError
       | Some result =>
           bind (py_div (score_of rrf_scores id) max_score) (fun normalized_score =>
             Ok (final_results ++
                   [{| chunk_id := chunk_id result;
                       content := content result;
                       score := normalized_score;
                       metadata := metadata result |}]))
       end)
    (take top_k sorted_ids) [].

(** *** app/core/query_enhancement.py: re-ranking *)

Definition has_article_ref : Q := 15 # 100.
Definition has_sr_number : Q := 10 # 100.
Definition has_definition : Q := 10 # 100.
Definition exact_keyword_match : Q := 20 # 100.
Definition optimal_length : Q := 5 # 100.

Definition DEFINITION_PATTERNS : list string :=
  [" ist "; " sind "; " bedeutet "; " bezeichnet "; " gilt als "]%string.

Definition Qmin (a b : Q) : Q := if Qle_bool b a then b else a.

(** The sum of the boosts of one result. *)
Definition boost_of (w : World) (query_words : list string) (boost_legal : bool)
    (c : string) : Q :=
  let content_lower := lower c in
  let matches :=
    length (List.filter
              (fun word => contains content_lower word && (3 <? String.length word)%nat)
              query_words) in
  let length_ := String.length c in
  ((if boost_legal && article_ref w c then has_article_ref else 0) +
   (if boost_legal && sr_number w c then has_sr_number else 0) +
   (if existsb (contains content_lower) DEFINITION_PATTERNS then has_definition else 0) +
   (if (2 <=? matches)%nat
    then exact_keyword_match * Qmin (inject_Z (Z.of_nat matches) / 3) 1
    else 0) +
   (if (200 <=? length_)%nat && (length_ <=? 600)%nat then optimal_length else 0))%Q.

(** [rerank_results] *)
Definition rerank_results (w : World) (results : list SearchResult)
    (query : string) (boost_legal : bool) : list SearchResult :=
  let query_words := remove_dups (map str (split_ws (chars (lower query)) [])) in
  let ranked :=
    map (fun result =>
           {| chunk_id := chunk_id result;
              content := content result;
              score := Qmin 1 (score result + boost_of w query_words boost_legal (content result));
              metadata := metadata result |})
        results in
  sorted_desc score ranked.

(** *** hybrid_search *)

Definition truthy (kb_ids : option (list string)) : bool :=
  match kb_ids with
  | Some (_ :: _) => true
  | _ => false
  end.

Definition is_legal (kb_ids : option (list string)) : bool :=
  match kb_ids with
  | Some ids =>
      existsb (fun kb => bool_decide (kb ∈ ["bundesrecht"; "gemeindewissen"]%string)) ids
  | None => false
  end.

(** [RAGEngine.hybrid_search] *)
Definition hybrid_search (w : World) (cfg : RAGConfig) (st : Engine)
    (query : string) (kb_ids : option (list string)) (top_k : option nat)
    (vector_weight bm25_weight : Q)
    (enable_query_expansion enable_rerank : bool)
    : Res (list SearchResult) * Engine :=
  let top_k := default (get_top_k cfg) top_k in
  let search_query :=
    if enable_query_expansion && truthy kb_ids
    then QueryEnhancement.expand_query query kb_ids
    else query in
  let candidates_k := (top_k * 3)%nat in
  match search w cfg search_query kb_ids (Some candidates_k) None with
  | Raise e => (Raise e, st)
  | Ok vector_results =>
      match bm25_search w cfg st search_query kb_ids (Some candidates_k) with
      | (Raise e, st') => (Raise e, st')
      | (Ok bm25_results, st') =>
          (bind (rrf_fusion top_k vector_weight bm25_weight vector_results bm25_results)
                (fun final_results =>
                   Ok (match final_results with
                       | _ :: _ =>
                           if enable_rerank
                           then rerank_results w final_results query (is_legal kb_ids)
                           else final_results
                       | [] => final_results
                       end)),
           st')
      end
  end.

End RagEngine.

(** *** Properties of the engine *)

Module RagEngineProofs.
Import Py Data Config Embeddings RagEngine.

(** **** Change detection *)

(** A provider collection the engine can read. *)
Definition readable (w : World) (cfg : RAGConfig) (kb provider : string) : bool :=
  let name := _get_collection_name cfg kb (Some provider) in
  negb (chroma_raises w (GetOrCreateCollection name)) &&
  negb (chroma_raises w (CollectionGet name)).

(** The chunks of a knowledge base the engine can see: the records of the
    readable provider collections, local first, without the metadata
    record. *)
Definition stored_chunks (w : World) (cfg : RAGConfig) (st : Engine)
    (kb : string) : list Row :=
  flat_map
    (fun provider =>
       if readable w cfg kb provider
       then List.filter (fun r => negb (is_kb_metadata (row_metadata r)))
              (rows_of st (_get_collection_name cfg kb (Some provider)))
       else [])
    ["local"; "openai"]%string.

Definition content_hash_of (r : Row) : option MetaVal :=
  row_metadata r !! "content_hash"%string.







(** **** Ingestion *)

Lemma append_inj_l (a b c : string) : a +:+ b = a +:+ c -> b = c.
Proof. induction a as [|x a IH]; simpl; [auto|]. intros [= H]. auto. Qed.

Lemma append_neq_self (a b : string) : b <> ""%string -> a +:+ b <> a.
Proof.
  intros Hb H. apply (f_equal String.length) in H.
  rewrite QueryEnhancementProofs.append_length in H.
  destruct b; [congruence | simpl in H; lia].
Qed.

Lemma collection_names_distinct cfg kb :
  let base := _get_collection_name cfg kb None in
  let loc := _get_collection_name cfg kb (Some "local"%string) in
  let oai := _get_collection_name cfg kb (Some "openai"%string) in
  loc <> oai /\ loc <> base /\ oai <> base.
Proof.
  simpl. split; [|split].
  - intros H. apply append_inj_l in H. discriminate.
  - apply append_neq_self. discriminate.
  - apply append_neq_self. discriminate.
Qed.

Definition with_collections (c : gmap string (list Row)) (st : Engine) : Engine :=
  {| collections := c; _bm25_indices := _bm25_indices st; index_files := index_files st |}.

(** What [store_embeddings] leaves behind for one provider. *)
Definition stored (w : World) (cfg : RAGConfig) (kb provider : string)
    (available : bool) (rows : list Row) : bool :=
  let name := _get_collection_name cfg kb (Some provider) in
  available &&
  negb (chroma_raises w (GetOrCreateCollection name)) &&
  negb (chroma_raises w (CollectionAdd name)) &&
  accepted rows.

Lemma store_embeddings_spec w cfg st kb provider available rows :
  let name := _get_collection_name cfg kb (Some provider) in
  store_embeddings w cfg st kb provider available rows =
    (stored w cfg kb provider available rows,
     if stored w cfg kb provider available rows
     then with_collections
            (<[name := rows_of st name ++ new_rows st name rows]> (collections st)) st
     else st).
Proof.
  intros name. unfold store_embeddings, stored, _get_or_create_collection,
    collection_add. fold name.
  destruct available; simpl; [|reflexivity].
  destruct (chroma_raises w (GetOrCreateCollection name)); simpl; [reflexivity|].
  destruct (chroma_raises w (CollectionAdd name)); simpl; [reflexivity|].
  destruct (accepted rows); simpl; reflexivity.
Qed.

(** [_rebuild_bm25_index] and [_get_bm25_index] depend on the collections
    only through the records of the unsuffixed collection, and leave the
    collections as they are. *)
Lemma rebuild_bm25_index_frame w cfg st kb c index :
  default [] (c !! _get_collection_name cfg kb None) =
    rows_of st (_get_collection_name cfg kb None) ->
  _rebuild_bm25_index w cfg (with_collections c st) kb index =
    match _rebuild_bm25_index w cfg st kb index with
    | Ok (i, s) => Ok (i, with_collections c s)
    | Raise e => Raise e
    end.
Proof.
  intros Hrows. simpl in Hrows.
  unfold _rebuild_bm25_index, _get_or_create_collection, collection_get.
  destruct (chroma_raises w (GetOrCreateCollection _)); simpl; [reflexivity|].
  destruct (chroma_raises w (CollectionGet _)); simpl; [reflexivity|].
  change (rows_of (with_collections c st) (collection_prefix cfg +:+ kb))
    with (default [] (c !! (collection_prefix cfg +:+ kb))).
  rewrite Hrows. destruct (kept_rows _) as [kept|e]; simpl; [|reflexivity].
  unfold build_index. destruct (scorer_of _ None); reflexivity.
Qed.

Lemma get_bm25_index_frame w cfg st kb c :
  default [] (c !! _get_collection_name cfg kb None) =
    rows_of st (_get_collection_name cfg kb None) ->
  _get_bm25_index w cfg (with_collections c st) kb =
    match _get_bm25_index w cfg st kb with
    | Ok (i, s) => Ok (i, with_collections c s)
    | Raise e => Raise e
    end.
Proof.
  intros Hrows.
  unfold _get_bm25_index. cbn [with_collections _bm25_indices].
  destruct (_bm25_indices st !! kb) as [i|]; [reflexivity|].
  change (load_index (with_collections c st) (new_index kb))
    with (load_index st (new_index kb)).
  destruct (load_index st (new_index kb)) as [i|]; [reflexivity|].
  rewrite (rebuild_bm25_index_frame w cfg st kb c _ Hrows).
  destruct (_rebuild_bm25_index w cfg st kb _) as [[i s]|e]; reflexivity.
Qed.

Lemma rebuild_bm25_index_collections w cfg st kb index i s :
  _rebuild_bm25_index w cfg st kb index = Ok (i, s) -> collections s = collections st.
Proof.
  unfold _rebuild_bm25_index, _get_or_create_collection, collection_get.
  destruct (chroma_raises w (GetOrCreateCollection _)); simpl; [discriminate|].
  destruct (chroma_raises w (CollectionGet _)); simpl; [discriminate|].
  destruct (kept_rows _) as [kept|e]; simpl; [|discriminate].
  unfold build_index. destruct (scorer_of _ None); simpl; [|discriminate].
  now intros [= _ <-].
Qed.

Lemma get_bm25_index_collections w cfg st kb i s :
  _get_bm25_index w cfg st kb = Ok (i, s) -> collections s = collections st.
Proof.
  unfold _get_bm25_index.
  destruct (_bm25_indices st !! kb); [now intros [= _ <-]|].
  destruct (load_index st (new_index kb)); [now intros [= _ <-]|].
  destruct (_rebuild_bm25_index w cfg st kb _) as [[i' s']|e] eqn:Hr; simpl;
    [|discriminate].
  intros [= _ <-]. simpl. eapply rebuild_bm25_index_collections; eauto.
Qed.

Lemma with_collections_id st : with_collections (collections st) st = st.
Proof. destruct st; reflexivity. Qed.

Lemma store_embeddings_collections w cfg st kb provider available rows :
  let name := _get_collection_name cfg kb (Some provider) in
  let ok := stored w cfg kb provider available rows in
  store_embeddings w cfg st kb provider available rows =
    (ok,
     with_collections
       (if ok then <[name := rows_of st name ++ new_rows st name rows]> (collections st)
        else collections st) st).
Proof.
  intros name ok. rewrite store_embeddings_spec. fold name ok.
  destruct ok; [reflexivity | now rewrite with_collections_id].
Qed.

Definition chunk_ids_of (d : DocumentProcessor.ProcessedDocument) : list string :=
  map DocumentProcessor.chunk_id (DocumentProcessor.doc_chunks d).

Definition texts_of (d : DocumentProcessor.ProcessedDocument) : list string :=
  map DocumentProcessor.chunk_content (DocumentProcessor.doc_chunks d).

(** The lexical index of [kb] in [st'] is the index [before] extended by
    the chunks of [d]. *)
Definition lexical_index_extended (st' : Engine) (kb : string)
    (before : BM25Index) (d : DocumentProcessor.ProcessedDocument) : Prop :=
  exists after,
    _bm25_indices st' !! kb = Some after /\
    doc_ids after = doc_ids before ++ chunk_ids_of d /\
    documents after = documents before ++ texts_of d.

(** [add_document] past its guard [if not document.chunks]. *)
Definition add_chunks (w : World) (cfg : RAGConfig) (st : Engine)
    (d : DocumentProcessor.ProcessedDocument) : Res (bool * bool) * Engine :=
  let kb := knowledge_base_of (DocumentProcessor.doc_metadata d) in
  let rows := map row_of_chunk (DocumentProcessor.doc_chunks d) in
  let dual_result := embed_dual (svc w) (texts_of d) in
  let '(stored_local, st1) :=
    store_embeddings w cfg st kb "local" (local_available dual_result) rows in
  let '(stored_openai, st2) :=
    store_embeddings w cfg st1 kb "openai" (openai_available_result dual_result) rows in
  if stored_local || stored_openai then
    match _get_bm25_index w cfg st2 kb with
    | Raise e => (Raise e, st2)
    | Ok (bm25_index, st3) =>
        let '(outcome, (bm25_index', st4)) :=
          add_documents w st3 bm25_index (chunk_ids_of d) (texts_of d) in
        (bind outcome (fun _ => Ok (stored_local, stored_openai)),
         cache_index st4 kb bm25_index')
    end
  else (Ok (stored_local, stored_openai), st2).

Lemma add_document_nonempty w cfg st d :
  DocumentProcessor.doc_chunks d <> [] ->
  add_document w cfg st d = add_chunks w cfg st d.
Proof.
  unfold add_document, add_chunks, texts_of, chunk_ids_of.
  destruct (DocumentProcessor.doc_chunks d); [congruence | reflexivity].
Qed.

(** What [add_documents] would answer for the chunks of [d] on the index
    [before]: what the constructor of the scorer answers for the extended
    corpus. *)
Definition index_update (w : World) (before : BM25Index)
    (d : DocumentProcessor.ProcessedDocument) : Res (option (list (list string))) :=
  scorer_of (tokenized_corpus before ++ map (tokenize w) (texts_of d)) (bm25 before).

(** What [add_document] does with a document: the collections afterwards,
    the flags it reports or the exception it raises, and the lexical index
    afterwards. *)
Definition ingestion_outcome (w : World) (cfg : RAGConfig) (st : Engine)
    (d : DocumentProcessor.ProcessedDocument) : Prop :=
  let kb := knowledge_base_of (DocumentProcessor.doc_metadata d) in
  let dual := embed_dual (svc w) (texts_of d) in
  let rows := map row_of_chunk (DocumentProcessor.doc_chunks d) in
  let local_ok := stored w cfg kb "local" (local_available dual) rows in
  let openai_ok := stored w cfg kb "openai" (openai_available_result dual) rows in
  let loc := _get_collection_name cfg kb (Some "local"%string) in
  let oai := _get_collection_name cfg kb (Some "openai"%string) in
  let st' := snd (add_document w cfg st d) in
  rows_of st' loc =
    (if local_ok then rows_of st loc ++ new_rows st loc rows else rows_of st loc) /\
  rows_of st' oai =
    (if openai_ok then rows_of st oai ++ new_rows st oai rows else rows_of st oai) /\
  if local_ok || openai_ok then
    match _get_bm25_index w cfg st kb with
    | Ok (before, _) =>
        fst (add_document w cfg st d) =
          bind (index_update w before d) (fun _ => Ok (local_ok, openai_ok)) /\
        lexical_index_extended st' kb before d /\
        _bm25_indices st' !! kb <> _bm25_indices st !! kb
    | Raise e =>
        fst (add_document w cfg st d) = Raise e /\
        _bm25_indices st' = _bm25_indices st /\ index_files st' = index_files st
    end
  else
    fst (add_document w cfg st d) = Ok (false, false) /\
    _bm25_indices st' = _bm25_indices st /\ index_files st' = index_files st.

(** For a document with chunks, [add_document] stores the chunks in exactly
    the collections of the providers whose embeddings are available, whose
    collection can be obtained and whose [add] is accepted, whatever
    happens to the other provider.  When no provider stored them it reports
    so and leaves the lexical index alone.  When one did, it obtains the
    index and extends it by all chunks; it reports the two flags when the
    scorer can be built over the extended corpus, and lets the exception
    of [_get_bm25_index] or of the constructor escape otherwise. *)
Lemma add_document_updates_lexical_index
    (w : World) (cfg : RAGConfig) (st : Engine)
    (d : DocumentProcessor.ProcessedDocument) :
  DocumentProcessor.doc_chunks d <> [] ->
  ingestion_outcome w cfg st d.
Proof.
  intros Hchunks. unfold ingestion_outcome.
  set (kb := knowledge_base_of (DocumentProcessor.doc_metadata d)) in *.
  set (dual := embed_dual (svc w) (texts_of d)).
  set (rows := map row_of_chunk (DocumentProcessor.doc_chunks d)).
  set (local_ok := stored w cfg kb "local" (local_available dual) rows).
  set (openai_ok := stored w cfg kb "openai" (openai_available_result dual) rows).
  set (loc := _get_collection_name cfg kb (Some "local"%string)).
  set (oai := _get_collection_name cfg kb (Some "openai"%string)).
  destruct (collection_names_distinct cfg kb) as (Hlo & Hlb & Hob).
  fold loc oai in Hlo, Hlb, Hob.
  rewrite (add_document_nonempty w cfg st d Hchunks). unfold add_chunks.
  fold kb dual rows.
  rewrite store_embeddings_collections. fold loc local_ok.
  rewrite store_embeddings_collections. fold oai openai_ok.
  assert (Hlen : (0 < length (chunk_ids_of d))%nat).
  { unfold chunk_ids_of. rewrite length_map.
    destruct (DocumentProcessor.doc_chunks d); [congruence | simpl; lia]. }
  set (base := _get_collection_name cfg kb None) in *.
  set (c1 := if local_ok
             then <[loc := rows_of st loc ++ new_rows st loc rows]> (collections st)
             else collections st).
  set (st1 := with_collections c1 st).
  assert (Hst1_oai : rows_of st1 oai = rows_of st oai).
  { unfold rows_of, st1. cbn [with_collections collections]. subst c1.
    destruct local_ok; [|reflexivity].
    rewrite lookup_insert_ne by exact Hlo. reflexivity. }
  assert (Hnew1 : new_rows st1 oai rows = new_rows st oai rows).
  { unfold new_rows. now rewrite Hst1_oai. }
  rewrite Hst1_oai, Hnew1.
  set (c2 := if openai_ok
             then <[oai := rows_of st oai ++ new_rows st oai rows]> (collections st1)
             else collections st1).
  change (with_collections c2 st1) with (with_collections c2 st).
  assert (Hc2_loc : default [] (c2 !! loc) =
                    if local_ok then rows_of st loc ++ new_rows st loc rows
                    else rows_of st loc).
  { subst c2 st1 c1. cbn [with_collections collections]. destruct openai_ok.
    - rewrite lookup_insert_ne by congruence.
      destruct local_ok; [rewrite lookup_insert_eq|]; reflexivity.
    - destruct local_ok; [rewrite lookup_insert_eq|]; reflexivity. }
  assert (Hc2_oai : default [] (c2 !! oai) =
                    if openai_ok then rows_of st oai ++ new_rows st oai rows
                    else rows_of st oai).
  { subst c2. destruct openai_ok.
    - rewrite lookup_insert_eq. reflexivity.
    - exact Hst1_oai. }
  assert (Hc2_base : default [] (c2 !! base) = rows_of st base).
  { subst c2 st1 c1. cbn [with_collections collections].
    destruct openai_ok, local_ok;
      rewrite ?lookup_insert_ne by congruence; reflexivity. }
  clearbody c2. clear c1 st1 Hst1_oai Hnew1.
  assert (Hafter : forall st0 (i : BM25Index),
             _bm25_indices (cache_index st0 kb i) !! kb = Some i).
  { intros st0 i. unfold cache_index. cbn [_bm25_indices]. apply lookup_insert_eq. }
  destruct (local_ok || openai_ok) eqn:Hany.
  - rewrite (get_bm25_index_frame w cfg st kb c2 Hc2_base).
    destruct (_get_bm25_index w cfg st kb) as [[before s]|e] eqn:Hidx.
    + pose proof (get_bm25_index_collections _ _ _ _ _ _ Hidx) as Hcs.
      unfold add_documents, index_update.
      destruct (scorer_of _ (bm25 before)) as [b|e]; cbn [fst snd bind];
        (split; [exact Hc2_loc|]); (split; [exact Hc2_oai|]);
        (split; [reflexivity|]);
        (split; [eexists; split; [apply Hafter|]; split; reflexivity|]);
        rewrite Hafter; unfold _get_bm25_index in Hidx;
        (destruct (_bm25_indices st !! kb) as [i|] eqn:Hi; [|discriminate]);
        injection Hidx as -> _; intros [= Heq];
        apply (f_equal doc_ids) in Heq; cbn [doc_ids] in Heq;
        apply (f_equal (@length string)) in Heq;
        rewrite length_app in Heq; lia.
    + cbn [fst snd]. split; [exact Hc2_loc|]. split; [exact Hc2_oai|].
      split; [reflexivity|]. split; reflexivity.
  - cbn [fst snd]. split; [exact Hc2_loc|]. split; [exact Hc2_oai|].
    apply orb_false_iff in Hany as [-> ->]. split; [reflexivity|]. split; reflexivity.
Qed.

(** **** Vector search *)

(** What the loop of [search] keeps of one hit. *)
Lemma result_of_hit_spec cfg h r :
  r ∈ result_of_hit cfg h ->
  chunk_id r = row_id (hit_row h) /\
  metadata r = row_metadata (hit_row h) /\
  chunk_id r <> "__kb_metadata__"%string /\
  metadata r !! "type"%string <> Some (MStr "kb_metadata") /\
  score r = (1 - hit_distance h)%Q /\
  (similarity_threshold cfg <= score r)%Q.
Proof.
  unfold result_of_hit, is_sentinel_id, is_kb_metadata.
  case_bool_decide as Hid; [intros H; inversion H|].
  case_bool_decide as Hty; [intros H; inversion H|].
  destruct (Qle_bool _ _) eqn:Hle; [|intros H; inversion H].
  intros ->%list_elem_of_singleton. simpl.
  apply Qle_bool_iff in Hle. auto 10.
Qed.

(** The knowledge bases a search operation goes through, once it got
    them. *)
Definition targeted (w : World) (kb_ids : option (list string)) : list string :=
  try_except (kb_ids_or_all w kb_ids) [].

Lemma readable_hits_elem hits h :
  h ∈ readable_hits hits ->
  h ∈ hits /\
  (row_id (hit_row h) <> "__kb_metadata__"%string -> row_metadata (hit_row h) <> ∅).
Proof.
  induction hits as [|x hits IH]; simpl; [intros H; inversion H|].
  destruct (negb (is_sentinel_id (row_id (hit_row x))) &&
            bool_decide (row_metadata (hit_row x) = ∅)) eqn:Hx;
    [intros H; inversion H|].
  intros [->|Hin]%elem_of_cons.
  - split; [apply elem_of_cons; now left|]. intros Hid.
    apply andb_false_iff in Hx as [Hx|Hx].
    + unfold is_sentinel_id in Hx. rewrite bool_decide_eq_false_2 in Hx by exact Hid.
      discriminate.
    + now apply bool_decide_eq_false in Hx.
  - destruct (IH Hin) as [H1 H2]. split; [apply elem_of_cons; now right | exact H2].
Qed.

(** The hits a similarity query of some targeted knowledge base answers. *)
Definition answered (w : World) (cfg : RAGConfig) (kb_ids : list string)
    (provider : string) (top_k : nat) (h : Hit) : Prop :=
  exists kb e,
    kb ∈ kb_ids /\
    h ∈ nearest w (_get_collection_name cfg kb (Some provider)) e (top_k + 1).

Lemma search_kb_spec w cfg e provider top_k kb found r :
  search_kb w cfg e provider top_k kb = Ok found -> r ∈ found ->
  exists h,
    h ∈ nearest w (_get_collection_name cfg kb (Some provider)) e (top_k + 1) /\
    r ∈ result_of_hit cfg h.
Proof.
  unfold search_kb, _get_or_create_collection.
  destruct (chroma_raises w (GetOrCreateCollection _)); simpl; [discriminate|].
  destruct (chroma_raises w (CollectionQuery _)); [discriminate|].
  intros [= <-] Hr. apply list_elem_of_In, in_flat_map in Hr as (h & Hh & Hr).
  exists h. split; [|now apply list_elem_of_In].
  apply list_elem_of_In in Hh. now apply readable_hits_elem in Hh.
Qed.

Lemma search_spec w cfg query kb_ids top_k provider results :
  search w cfg query kb_ids top_k provider = Ok results ->
  (length results <= default (get_top_k cfg) top_k)%nat /\
  PyProofs.descending score results /\
  forall r, r ∈ results ->
    exists h,
      answered w cfg (targeted w kb_ids)
        (default (search_provider (svc w)) provider)
        (default (get_top_k cfg) top_k) h /\
      r ∈ result_of_hit cfg h.
Proof.
  unfold search, targeted.
  destruct (embed_text _ _ _) as [e|].
  - destruct (kb_ids_or_all w kb_ids) as [kbs|err]; simpl; [|discriminate].
    intros [= <-]. split; [rewrite length_take; lia|]. split.
    + apply PyProofs.descending_take, PyProofs.sorted_desc_descending.
    + intros r Hr. apply subseteq_take in Hr.
      apply (proj1 (PyProofs.sorted_desc_elem _ _ _)) in Hr. revert r Hr.
      apply (PyProofs.fold_left_inv
               (fun acc => forall r, r ∈ acc -> exists h, answered w cfg _ _ _ h /\ _)).
      * intros r Hr. inversion Hr.
      * intros acc kb Hacc Hkb r.
        destruct (search_kb w cfg e _ _ kb) as [found|err] eqn:Hs; simpl; [|apply Hacc].
        intros [Hr|Hr]%elem_of_app; [now apply Hacc|].
        destruct (search_kb_spec _ _ _ _ _ _ _ _ Hs Hr) as (h & Hh & Hrh).
        exists h. split; [|exact Hrh]. exists kb, e. auto.
  - intros [= <-]. split; [simpl; lia|]. split; [exact I|].
    intros r Hr. inversion Hr.
Qed.

(** Given the knowledge bases, [search] and [bm25_search] return; what
    listing them raises, when they are not given, escapes. *)
Lemma search_returns w cfg query kb_ids top_k provider kbs :
  kb_ids_or_all w kb_ids = Ok kbs ->
  exists results, search w cfg query kb_ids top_k provider = Ok results.
Proof. unfold search. intros ->. destruct (embed_text _ _ _); simpl; eauto. Qed.

Lemma bm25_search_returns w cfg st query kb_ids top_k kbs :
  kb_ids_or_all w kb_ids = Ok kbs ->
  exists results st', bm25_search w cfg st query kb_ids top_k = (Ok results, st').
Proof. unfold bm25_search. intros ->. destruct (fold_left _ _ _). eauto. Qed.

Lemma search_listing_raises w cfg query kb_ids top_k provider e :
  kb_ids_or_all w kb_ids = Raise e ->
  search w cfg query kb_ids top_k provider =
    match embed_text (svc w) query (default (search_provider (svc w)) provider) with
    | Some _ => Raise e
    | None => Ok []
    end.
Proof. unfold search. intros ->. destruct (embed_text _ _ _); reflexivity. Qed.

Lemma bm25_search_listing_raises w cfg st query kb_ids top_k e :
  kb_ids_or_all w kb_ids = Raise e ->
  bm25_search w cfg st query kb_ids top_k = (Raise e, st).
Proof. unfold bm25_search. now intros ->. Qed.

(** A failed vector leg is an empty list: without a query embedding
    nothing is searched, and a knowledge base whose collection or query
    raises adds nothing to the results of the others. *)
Lemma search_without_embedding w cfg query kb_ids top_k provider :
  embed_text (svc w) query (default (search_provider (svc w)) provider) = None ->
  search w cfg query kb_ids top_k provider = Ok [].
Proof. unfold search. now intros ->. Qed.

(** The sentinel never is a vector search result. *)
Lemma search_excludes_sentinel w cfg query kb_ids top_k provider results r :
  search w cfg query kb_ids top_k provider = Ok results -> r ∈ results ->
  chunk_id r <> "__kb_metadata__"%string /\
  metadata r !! "type"%string <> Some (MStr "kb_metadata").
Proof.
  intros Hs Hr. destruct (search_spec _ _ _ _ _ _ _ Hs) as (_ & _ & H).
  destruct (H r Hr) as (h & _ & Hh). apply result_of_hit_spec in Hh. tauto.
Qed.

(** The sentinel never enters the corpus [_rebuild_bm25_index] builds. *)
Lemma kept_rows_spec all_docs kept :
  kept_rows all_docs = Ok kept ->
  kept = List.filter
           (fun r => negb (is_sentinel_id (row_id r)) && negb (is_kb_metadata (row_metadata r)))
           all_docs.
Proof.
  revert kept. induction all_docs as [|r rest IH]; intros kept; simpl;
    [now intros [= <-]|].
  destruct (is_sentinel_id (row_id r)); simpl; [apply IH|].
  case_bool_decide; [discriminate|].
  destruct (is_kb_metadata (row_metadata r)); simpl; [apply IH|].
  destruct (kept_rows rest) as [k|e]; simpl; [|discriminate].
  intros [= <-]. now rewrite (IH k eq_refl).
Qed.

Lemma rebuild_excludes_sentinel w cfg st kb index i st' :
  _rebuild_bm25_index w cfg st kb index = Ok (i, st') ->
  ("__kb_metadata__"%string ∉ doc_ids i) /\
  exists kept,
    doc_ids i = map row_id kept /\ documents i = map row_document kept /\
    Forall (fun r => row_metadata r !! "type"%string <> Some (MStr "kb_metadata")) kept.
Proof.
  unfold _rebuild_bm25_index, _get_or_create_collection, collection_get.
  destruct (chroma_raises w (GetOrCreateCollection _)); simpl; [discriminate|].
  destruct (chroma_raises w (CollectionGet _)); simpl; [discriminate|].
  destruct (kept_rows _) as [kept|e] eqn:Hk; simpl; [|discriminate].
  apply kept_rows_spec in Hk.
  unfold build_index. destruct (scorer_of _ None) as [b|e]; simpl; [|discriminate].
  intros [= <- _]. cbn [doc_ids documents]. split.
  - intros Hin. apply list_elem_of_In, in_map_iff in Hin as (r & Hid & Hr).
    rewrite Hk in Hr.
    apply filter_In in Hr as [_ Hr]. apply andb_true_iff in Hr as [Hr _].
    unfold is_sentinel_id in Hr. rewrite Hid in Hr.
    rewrite bool_decide_eq_true_2 in Hr by reflexivity. discriminate.
  - eexists. split; [reflexivity|]. split; [reflexivity|].
    apply Forall_forall. intros r Hr. rewrite Hk in Hr.
    apply list_elem_of_In, filter_In in Hr as [_ Hr].
    apply andb_true_iff in Hr as [_ Hr]. unfold is_kb_metadata in Hr.
    intros Hty. rewrite bool_decide_eq_true_2 in Hr by exact Hty. discriminate.
Qed.

(** **** Lexical search *)

Lemma index_search_positive w i query top_k found :
  index_search w i query top_k = Ok found ->
  Forall (fun x => 0 < snd (fst x))%Q found.
Proof.
  unfold index_search.
  destruct (bm25 i) as [corpus|]; [|intros [= <-]; constructor].
  destruct (doc_ids i) as [|d0 ds] eqn:Hd; [intros [= <-]; constructor|].
  destruct (tokenize w query) as [|t ts]; [intros [= <-]; constructor|].
  destruct (for_each _ _ _) as [scored|e] eqn:Hf; simpl; [|discriminate].
  intros [= <-]. apply Forall_take.
  apply Forall_forall. intros x Hx.
  apply (proj1 (PyProofs.sorted_desc_elem _ _ _)) in Hx. revert x Hx.
  apply Forall_forall.
  eapply (PyProofs.for_each_inv (Forall (fun x => 0 < snd (fst x))%Q));
    [constructor | | exact Hf].
  intros acc [n s] acc' Hacc _. cbn beta iota.
  destruct (Qle_bool s 0) eqn:Hs; simpl; [now intros [= <-]|].
  destruct ((d0 :: ds) !! n) as [d|]; [|discriminate].
  destruct (documents i !! n) as [c|]; [|discriminate].
  intros [= <-]. apply Forall_app. split; [exact Hacc|].
  constructor; [|constructor]. simpl.
  apply Qnot_le_lt. intros H. apply Qle_bool_iff in H. congruence.
Qed.

Lemma bm25_kb_positive w cfg st query top_k kb found st' :
  bm25_kb w cfg st query top_k kb = (Ok found, st') ->
  Forall (fun r => 0 < score r)%Q found.
Proof.
  unfold bm25_kb. destruct (_get_bm25_index w cfg st kb) as [[i s]|e]; [|discriminate].
  destruct (index_search w i query (top_k * 2)) as [res|e] eqn:Hs; simpl;
    [|discriminate].
  destruct (_get_or_create_collection w cfg kb None) as [name|e]; simpl;
    [|discriminate].
  intros [= <- _]. apply index_search_positive in Hs.
  apply Forall_forall. intros r Hr.
  apply list_elem_of_In, in_map_iff in Hr as ([[d sc] c] & <- & Hin). simpl.
  rewrite Forall_forall in Hs. apply (Hs (d, sc, c)). now apply list_elem_of_In.
Qed.

Lemma bm25_search_spec w cfg st query kb_ids top_k results st' :
  bm25_search w cfg st query kb_ids top_k = (Ok results, st') ->
  (length results <= default (get_top_k cfg) top_k)%nat /\
  PyProofs.descending score results /\
  Forall (fun r => 0 < score r)%Q results.
Proof.
  unfold bm25_search.
  destruct (kb_ids_or_all w kb_ids) as [kbs|err]; [|discriminate].
  destruct (fold_left _ _ _) as [all_results s] eqn:Hfold.
  intros [= <- <-]. split; [rewrite length_take; lia|]. split.
  - apply PyProofs.descending_take, PyProofs.sorted_desc_descending.
  - apply Forall_take. apply Forall_forall. intros r Hr.
    apply (proj1 (PyProofs.sorted_desc_elem _ _ _)) in Hr. revert r Hr.
    apply Forall_forall.
    change all_results with (fst (all_results, s)). rewrite <- Hfold.
    apply (PyProofs.fold_left_inv (fun p => Forall (fun r => 0 < score r)%Q (fst p))).
    + constructor.
    + intros [acc s0] kb Hacc _. simpl in Hacc.
      destruct (bm25_kb w cfg s0 query _ kb) as [[found|e] s1] eqn:Hkb; simpl;
        [|exact Hacc].
      apply Forall_app. split; [exact Hacc|]. eapply bm25_kb_positive; eauto.
Qed.

(** **** Reciprocal Rank Fusion *)

(** The sum a list contributes to chunk [c]: [weight / (60 + rank + 1)] for
    every 0-based [rank] at which [c] stands in the list. *)
Fixpoint contribution (weight : Q) (l : list SearchResult) (rank : nat)
    (c : string) : Q :=
  match l with
  | [] => 0
  | r :: rest =>
      ((if bool_decide (chunk_id r = c) then rrf_term weight rank else 0) +
       contribution weight rest (S rank) c)%Q
  end.

(** The cumulative score of chunk [c]. *)
Definition fused (vector_weight bm25_weight : Q)
    (vector_results bm25_results : list SearchResult) (c : string) : Q :=
  (contribution vector_weight vector_results 0 c +
   contribution bm25_weight bm25_results 0 c)%Q.

Definition ids (l : list SearchResult) : list string := map chunk_id l.

(** A new dictionary key goes to the end. *)
Definition add_key (keys : list string) (id : string) : list string :=
  if bool_decide (id ∈ keys) then keys else keys ++ [id].

Lemma score_of_dict_set scores id v c :
  score_of (dict_set scores id v) c =
    if bool_decide (id = c) then v else score_of scores c.
Proof.
  induction scores as [|[k v'] rest IH]; simpl.
  - reflexivity.
  - destruct (decide (k = id)) as [->|Hk].
    + rewrite (bool_decide_eq_true_2 (id = id)) by reflexivity. simpl.
      destruct (bool_decide (id = c)); reflexivity.
    + rewrite (bool_decide_eq_false_2 (k = id)) by exact Hk. simpl. rewrite IH.
      destruct (decide (k = c)) as [->|Hkc].
      * rewrite (bool_decide_eq_true_2 (c = c)) by reflexivity.
        rewrite (bool_decide_eq_false_2 (id = c)) by congruence. reflexivity.
      * rewrite (bool_decide_eq_false_2 (k = c)) by exact Hkc. reflexivity.
Qed.

Lemma keys_dict_set scores id v :
  map fst (dict_set scores id v) = add_key (map fst scores) id.
Proof.
  unfold add_key. induction scores as [|[k v'] rest IH]; simpl.
  - reflexivity.
  - destruct (decide (k = id)) as [->|Hk].
    + rewrite (bool_decide_eq_true_2 (id = id)) by reflexivity. simpl.
      rewrite bool_decide_eq_true_2; [reflexivity | apply elem_of_cons; now left].
    + rewrite (bool_decide_eq_false_2 (k = id)) by exact Hk. simpl. rewrite IH.
      destruct (decide (id ∈ map fst rest)) as [Hin|Hin].
      * rewrite (bool_decide_eq_true_2 _ Hin).
        rewrite bool_decide_eq_true_2; [reflexivity | apply elem_of_cons; now right].
      * rewrite (bool_decide_eq_false_2 _ Hin).
        rewrite bool_decide_eq_false_2; [reflexivity|].
        intros [->|H]%elem_of_cons; congruence.
Qed.

Definition rrf_step (weight : Q) (scores : list (string * Q))
    (p : nat * SearchResult) : list (string * Q) :=
  let '(rank, result) := p in
  dict_set scores (chunk_id result)
    (score_of scores (chunk_id result) + rrf_term weight rank)%Q.

Lemma accumulate_unfold weight results scores :
  accumulate weight results scores =
    fold_left (rrf_step weight) (enumerate results) scores.
Proof. reflexivity. Qed.

Lemma score_of_accumulate_from weight l n scores c :
  (score_of (fold_left (rrf_step weight) (enumerate_from n l) scores) c ==
   score_of scores c + contribution weight l n c)%Q.
Proof.
  revert n scores. induction l as [|r rest IH]; intros n scores; simpl.
  - lra.
  - rewrite IH, score_of_dict_set. case_bool_decide as Hc.
    + rewrite Hc. lra.
    + lra.
Qed.

Lemma keys_accumulate_from weight l n scores :
  map fst (fold_left (rrf_step weight) (enumerate_from n l) scores) =
    fold_left add_key (ids l) (map fst scores).
Proof.
  revert n scores. induction l as [|r rest IH]; intros n scores; simpl.
  - reflexivity.
  - rewrite IH, keys_dict_set. reflexivity.
Qed.

(** The score the code accumulates for a chunk is its cumulative score. *)
Lemma score_of_rrf_scores wv wb vr br c :
  (score_of (rrf_scores_of wv wb vr br) c == fused wv wb vr br c)%Q.
Proof.
  unfold rrf_scores_of, fused. rewrite !accumulate_unfold. unfold enumerate.
  rewrite !score_of_accumulate_from. simpl. lra.
Qed.

Lemma keys_rrf_scores wv wb vr br :
  map fst (rrf_scores_of wv wb vr br) =
    fold_left add_key (ids br) (fold_left add_key (ids vr) []).
Proof.
  unfold rrf_scores_of. rewrite !accumulate_unfold. unfold enumerate.
  rewrite !keys_accumulate_from. reflexivity.
Qed.

Lemma add_keys_spec l keys :
  NoDup keys ->
  NoDup (fold_left add_key l keys) /\
  forall c, c ∈ fold_left add_key l keys <-> c ∈ keys \/ c ∈ l.
Proof.
  revert keys. induction l as [|x l IH]; intros keys Hnd; simpl.
  - split; [exact Hnd|]. intros c. rewrite elem_of_nil. tauto.
  - unfold add_key at 2 4. case_bool_decide as Hx.
    + destruct (IH keys Hnd) as [H1 H2]. split; [exact H1|].
      intros c. rewrite H2, elem_of_cons. split; [tauto|].
      intros [?|[->|?]]; tauto.
    + assert (Hnd' : NoDup (keys ++ [x])).
      { apply NoDup_app. split; [exact Hnd|]. split.
        - intros y Hy ->%list_elem_of_singleton. contradiction.
        - apply NoDup_singleton. }
      destruct (IH _ Hnd') as [H1 H2]. split; [exact H1|].
      intros c. rewrite H2, elem_of_app, list_elem_of_singleton, elem_of_cons. tauto.
Qed.

Lemma fromkeys_acc_ext (seen seen' l : list string) :
  (forall x, x ∈ seen <-> x ∈ seen') ->
  QueryEnhancement.fromkeys_acc seen l = QueryEnhancement.fromkeys_acc seen' l.
Proof.
  revert seen seen'. induction l as [|y l IH]; intros seen seen' Heq; simpl;
    [reflexivity|].
  rewrite (bool_decide_ext _ _ (Heq y)). case_bool_decide.
  - now apply IH.
  - f_equal. apply IH. intros x. rewrite !elem_of_cons, Heq. tauto.
Qed.

(** The keys after a loop: the keys before, then the ids that are new, each
    once, in the order in which the loop meets them. *)
Lemma add_keys_fresh l keys :
  fold_left add_key l keys = keys ++ QueryEnhancement.fromkeys_acc keys l.
Proof.
  revert keys. induction l as [|x l IH]; intros keys; simpl.
  - now rewrite app_nil_r.
  - unfold add_key at 2. case_bool_decide as Hx; [apply IH|].
    rewrite IH, <- app_assoc. simpl. do 2 f_equal.
    apply fromkeys_acc_ext. intros y.
    rewrite elem_of_app, list_elem_of_singleton, elem_of_cons. tauto.
Qed.

Lemma fromkeys_acc_NoDup_id l :
  NoDup l -> QueryEnhancement.fromkeys_acc [] l = l.
Proof.
  assert (H : forall seen, NoDup l -> (forall x, x ∈ l -> x ∉ seen) ->
                QueryEnhancement.fromkeys_acc seen l = l).
  { induction l as [|x l IH]; intros seen Hnd Hdis; simpl; [reflexivity|].
    inversion Hnd as [|? ? Hx Hl]; subst.
    rewrite bool_decide_eq_false_2 by (apply Hdis, elem_of_cons; now left).
    f_equal. apply IH; [exact Hl|].
    intros y Hy [->|Hs]%elem_of_cons; [contradiction|].
    apply (Hdis y); [apply elem_of_cons; now right | exact Hs]. }
  intros Hnd. apply H; [exact Hnd|]. intros x _. apply not_elem_of_nil.
Qed.

Lemma keys_rrf_scores_NoDup wv wb vr br :
  NoDup (map fst (rrf_scores_of wv wb vr br)) /\
  forall c, c ∈ map fst (rrf_scores_of wv wb vr br) <-> c ∈ ids vr \/ c ∈ ids br.
Proof.
  rewrite keys_rrf_scores.
  destruct (add_keys_spec (ids vr) [] (NoDup_nil_2)) as [H1 H2].
  destruct (add_keys_spec (ids br) _ H1) as [H3 H4].
  split; [exact H3|]. intros c. rewrite H4, H2, elem_of_nil. tauto.
Qed.

(** [result_data] holds, under every id of a candidate, a candidate with
    that id. *)
Definition data_ok (pool : list SearchResult) (data : gmap string SearchResult) : Prop :=
  forall id r, data !! id = Some r -> chunk_id r = id /\ r ∈ pool.

Lemma result_data_ok vr br : data_ok (vr ++ br) (result_data_of vr br).
Proof.
  unfold result_data_of.
  apply (PyProofs.fold_left_inv (data_ok (vr ++ br))).
  - apply (PyProofs.fold_left_inv (data_ok (vr ++ br))).
    + intros id r H. rewrite lookup_empty in H. discriminate.
    + intros data x Hd Hx id r. destruct (decide (chunk_id x = id)) as [<-|Hne].
      * rewrite lookup_insert_eq. intros [= <-]. split; [reflexivity|].
        apply elem_of_app. now left.
      * rewrite lookup_insert_ne by exact Hne. apply Hd.
  - intros data x Hd Hx. destruct (data !! chunk_id x) eqn:Hl; [exact Hd|].
    intros id r. destruct (decide (chunk_id x = id)) as [<-|Hne].
    + rewrite lookup_insert_eq. intros [= <-]. split; [reflexivity|].
      apply elem_of_app. now right.
    + rewrite lookup_insert_ne by exact Hne. apply Hd.
Qed.

Lemma fold_insert_dom (l : list SearchResult) (data : gmap string SearchResult) id :
  id ∈ ids l \/ is_Some (data !! id) ->
  is_Some (fold_left (fun data result => <[chunk_id result := result]> data) l data !! id).
Proof.
  revert data. induction l as [|x l IH]; intros data; simpl.
  - intros [H|H]; [inversion H | exact H].
  - intros H. apply IH. destruct (decide (chunk_id x = id)) as [<-|Hne].
    + right. rewrite lookup_insert_eq. eauto.
    + rewrite lookup_insert_ne by exact Hne.
      destruct H as [[Heq|H]%elem_of_cons|H]; [congruence | now left | now right].
Qed.

Lemma fold_setdefault_dom (l : list SearchResult) (data : gmap string SearchResult) id :
  id ∈ ids l \/ is_Some (data !! id) ->
  is_Some (fold_left
             (fun data result =>
                match data !! chunk_id result with
                | Some _ => data
                | None => <[chunk_id result := result]> data
                end) l data !! id).
Proof.
  revert data. induction l as [|x l IH]; intros data; simpl.
  - intros [H|H]; [inversion H | exact H].
  - intros H. apply IH. destruct (decide (chunk_id x = id)) as [<-|Hne].
    + right. destruct (data !! chunk_id x) eqn:Hl; [rewrite Hl; eauto|].
      rewrite lookup_insert_eq. eauto.
    + destruct H as [[Heq|H]%elem_of_cons|H]; [congruence | now left |].
      right. destruct (data !! chunk_id x); [exact H|].
      now rewrite lookup_insert_ne by exact Hne.
Qed.

Lemma result_data_dom vr br id :
  id ∈ ids vr \/ id ∈ ids br -> is_Some (result_data_of vr br !! id).
Proof.
  intros H. unfold result_data_of. apply fold_setdefault_dom.
  destruct H as [H|H]; [right | now left]. apply fold_insert_dom. now left.
Qed.

(** [max(values)] is one of the values and bounds them all. *)
Lemma py_max_spec (x : Q) (l : list Q) :
  py_max x l ∈ x :: l /\ Forall (fun y => y <= py_max x l)%Q (x :: l).
Proof.
  unfold py_max. revert x. induction l as [|y l IH]; intros x; simpl.
  - split; [apply elem_of_cons; now left|]. constructor; [apply Qle_refl | constructor].
  - destruct (IH (if Qle_bool y x then x else y)) as [Hin Hall].
    inversion Hall as [|? ? Hm Hl]; subst. split.
    + destruct (Qle_bool y x); apply elem_of_cons in Hin as [Hin|Hin];
        rewrite !elem_of_cons; auto.
    + destruct (Qle_bool y x) eqn:Hyx.
      * apply Qle_bool_iff in Hyx. constructor; [exact Hm|].
        constructor; [eapply Qle_trans; eauto | exact Hl].
      * assert (x < y)%Q.
        { apply Qnot_le_lt. intros H. apply Qle_bool_iff in H. congruence. }
        constructor; [eapply Qle_trans; [apply Qlt_le_weak|]; eauto|].
        constructor; [exact Hm | exact Hl].
Qed.

Lemma score_of_lookup scores c v :
  NoDup (map fst scores) -> (c, v) ∈ scores -> score_of scores c = v.
Proof.
  induction scores as [|[k v'] rest IH]; simpl; [intros _ H; inversion H|].
  intros Hnd Hin. inversion Hnd as [|? ? Hk Hrest]; subst.
  apply elem_of_cons in Hin as [[= -> ->]|Hin].
  - now rewrite bool_decide_eq_true_2.
  - rewrite bool_decide_eq_false_2; [now apply IH|].
    intros ->. apply Hk. apply list_elem_of_In, in_map_iff.
    exists (c, v). split; [reflexivity | now apply list_elem_of_In].
Qed.

Lemma score_of_in_values scores c :
  c ∈ map fst scores -> score_of scores c ∈ map snd scores.
Proof.
  induction scores as [|[k v] rest IH]; simpl; [intros H; inversion H|].
  intros Hin. case_bool_decide as Hk; [apply elem_of_cons; now left|].
  apply elem_of_cons in Hin as [->|Hin]; [congruence|].
  apply elem_of_cons. right. now apply IH.
Qed.

(** The divisor of the normalisation: [1] for an empty dictionary, otherwise
    the largest cumulative score. *)
Definition is_max_score (scores : list (string * Q)) (m : Q) : Prop :=
  match scores with
  | [] => m = 1%Q
  | _ =>
      (exists c, c ∈ map fst scores /\ score_of scores c = m) /\
      forall c, c ∈ map fst scores -> (score_of scores c <= m)%Q
  end.

Lemma max_score_of_spec scores :
  NoDup (map fst scores) -> is_max_score scores (max_score_of scores).
Proof.
  intros Hnd. unfold is_max_score, max_score_of.
  destruct scores as [|[k v] rest] eqn:Hs; [reflexivity|]. rewrite <- Hs in *.
  assert (Hv : map snd scores = v :: map snd rest) by (subst; reflexivity).
  rewrite Hv. destruct (py_max_spec v (map snd rest)) as [Hin Hall].
  rewrite <- Hv in Hin, Hall. split.
  - apply list_elem_of_In, in_map_iff in Hin as ([c m] & Hm & Hin).
    simpl in Hm. exists c. split.
    + apply list_elem_of_In, in_map_iff. exists (c, m). auto.
    + rewrite <- Hm. apply score_of_lookup; [exact Hnd | now apply list_elem_of_In].
  - intros c Hc. rewrite Forall_forall in Hall. apply Hall.
    now apply score_of_in_values.
Qed.

(** The result built for one id in the last loop of the fusion. *)
Definition normalized (data : gmap string SearchResult)
    (scores : list (string * Q)) (m : Q) (id : string) : option SearchResult :=
  match data !! id with
  | Some result =>
      Some {| chunk_id := chunk_id result;
              content := content result;
              score := (score_of scores id / m)%Q;
              metadata := metadata result |}
  | None => None
  end.

Definition fusion_body (data : gmap string SearchResult)
    (scores : list (string * Q)) (m : Q)
    (final_results : list SearchResult) (id : string) : Res (list SearchResult) :=
  match data !! id with
  | None => Raise KeyError
  | Some result =>
      bind (py_div (score_of scores id) m) (fun normalized_score =>
        Ok (final_results ++
              [{| chunk_id := chunk_id result;
                  content := content result;
                  score := normalized_score;
                  metadata := metadata result |}]))
  end.

Lemma rrf_fusion_unfold top_k wv wb vr br :
  rrf_fusion top_k wv wb vr br =
    let scores := rrf_scores_of wv wb vr br in
    for_each (fusion_body (result_data_of vr br) scores (max_score_of scores))
      (take top_k (sorted_desc (score_of scores) (map fst scores))) [].
Proof. reflexivity. Qed.

Lemma omap_cons_some {A B} (f : A -> option B) (x : A) (y : B) (l : list A) :
  f x = Some y -> omap f (x :: l) = y :: omap f l.
Proof. intros H. simpl. now rewrite H. Qed.

Lemma fusion_loop_ok data scores m l acc :
  Qeq_bool m 0 = false ->
  (forall id, id ∈ l -> is_Some (data !! id)) ->
  for_each (fusion_body data scores m) l acc =
    Ok (acc ++ omap (normalized data scores m) l).
Proof.
  intros Hm. revert acc. induction l as [|id l IH]; intros acc Hdom.
  - simpl. now rewrite app_nil_r.
  - destruct (Hdom id) as [r Hr]; [apply elem_of_cons; now left|].
    assert (Hn : normalized data scores m id =
                 Some {| chunk_id := chunk_id r; content := content r;
                         score := (score_of scores id / m)%Q;
                         metadata := metadata r |})
      by (unfold normalized; now rewrite Hr).
    rewrite (omap_cons_some _ _ _ _ Hn). cbn [for_each].
    unfold fusion_body at 1, py_div. rewrite Hr, Hm. cbn [bind].
    rewrite IH, <- app_assoc; [reflexivity|].
    intros id' Hid'. apply Hdom. apply elem_of_cons. now right.
Qed.

Lemma fusion_loop_raises data scores m id l acc :
  Qeq_bool m 0 = true -> is_Some (data !! id) ->
  for_each (fusion_body data scores m) (id :: l) acc = Raise ZeroDivisionError.
Proof.
  intros Hm [r Hr]. simpl. unfold fusion_body, py_div. now rewrite Hr, Hm.
Qed.

Lemma normalized_results pool data scores m l :
  data_ok pool data ->
  (forall id, id ∈ l -> is_Some (data !! id)) ->
  ids (omap (normalized data scores m) l) = l /\
  Forall (fun r =>
            score r = (score_of scores (chunk_id r) / m)%Q /\
            exists candidate,
              candidate ∈ pool /\ chunk_id candidate = chunk_id r /\
              content candidate = content r /\ metadata candidate = metadata r)
         (omap (normalized data scores m) l).
Proof.
  intros Hok. induction l as [|id l IH]; intros Hdom.
  - split; [reflexivity | constructor].
  - destruct (Hdom id) as [r Hr]; [apply elem_of_cons; now left|].
    destruct IH as [IH1 IH2].
    { intros id' Hid'. apply Hdom. apply elem_of_cons. now right. }
    destruct (Hok id r Hr) as [Hid Hin].
    assert (Hn : normalized data scores m id =
                 Some {| chunk_id := chunk_id r; content := content r;
                         score := (score_of scores id / m)%Q;
                         metadata := metadata r |})
      by (unfold normalized; now rewrite Hr).
    rewrite omap_cons_some with (y := {| chunk_id := chunk_id r; content := content r;
                                        score := (score_of scores id / m)%Q;
                                        metadata := metadata r |}) by exact Hn.
    split.
    + unfold ids in *. simpl. now rewrite IH1, Hid.
    + constructor; [|exact IH2]. simpl. rewrite Hid. split; [reflexivity|].
      exists r. auto.
Qed.

Lemma take_sorted_keys_dom wv wb vr br top_k id :
  id ∈ take top_k (sorted_desc (score_of (rrf_scores_of wv wb vr br))
                     (map fst (rrf_scores_of wv wb vr br))) ->
  is_Some (result_data_of vr br !! id).
Proof.
  intros Hid. apply subseteq_take in Hid.
  apply (proj1 (PyProofs.sorted_desc_elem _ _ _)) in Hid.
  apply result_data_dom.
  now apply (proj2 (keys_rrf_scores_NoDup wv wb vr br)).
Qed.

(** With a divisor other than zero the fusion returns one result per
    ranked id, normalised. *)
Lemma rrf_fusion_ok top_k wv wb vr br :
  let scores := rrf_scores_of wv wb vr br in
  ~ (max_score_of scores == 0)%Q ->
  exists results,
    rrf_fusion top_k wv wb vr br = Ok results /\
    ids results = take top_k (sorted_desc (score_of scores) (map fst scores)) /\
    Forall (fun r =>
              score r = (score_of scores (chunk_id r) / max_score_of scores)%Q /\
              exists candidate,
                candidate ∈ vr ++ br /\ chunk_id candidate = chunk_id r /\
                content candidate = content r /\ metadata candidate = metadata r)
           results.
Proof.
  intros scores Hm. rewrite rrf_fusion_unfold. cbv zeta. fold scores.
  assert (Hm' : Qeq_bool (max_score_of scores) 0 = false).
  { apply not_true_is_false. intros H. apply Qeq_bool_iff in H. contradiction. }
  rewrite (fusion_loop_ok _ _ _ _ _ Hm'); [|apply take_sorted_keys_dom].
  eexists. split; [reflexivity|]. simpl.
  apply (normalized_results (vr ++ br)); [apply result_data_ok|].
  apply take_sorted_keys_dom.
Qed.

(** With divisor zero and something to return it raises. *)
Lemma rrf_fusion_zero top_k wv wb vr br :
  let scores := rrf_scores_of wv wb vr br in
  (max_score_of scores == 0)%Q ->
  take top_k (sorted_desc (score_of scores) (map fst scores)) <> [] ->
  rrf_fusion top_k wv wb vr br = Raise ZeroDivisionError.
Proof.
  intros scores Hm Hne. rewrite rrf_fusion_unfold. cbv zeta. fold scores.
  destruct (take top_k _) as [|id l] eqn:Ht; [congruence|].
  apply fusion_loop_raises; [now apply Qeq_bool_iff|].
  apply (take_sorted_keys_dom wv wb vr br top_k). fold scores. rewrite Ht.
  apply elem_of_cons. now left.
Qed.

Lemma descending_ext {A} (key key' : A -> Q) (l : list A) :
  (forall x, key x == key' x)%Q ->
  PyProofs.descending key l -> PyProofs.descending key' l.
Proof.
  intros Heq. induction l as [|x l IH]; simpl; [auto|].
  intros [Hx Hl]. split; [|auto].
  eapply Forall_impl; [exact Hx|]. intros y Hy. simpl in Hy.
  now rewrite <- !Heq.
Qed.

(** In a ranking of a non-empty dictionary the first id has the largest
    score. *)
Lemma head_has_max_score scores id rest :
  NoDup (map fst scores) ->
  sorted_desc (score_of scores) (map fst scores) = id :: rest ->
  (score_of scores id == max_score_of scores)%Q.
Proof.
  intros Hnd Hsorted.
  pose proof (max_score_of_spec scores Hnd) as Hmax. unfold is_max_score in Hmax.
  pose proof (PyProofs.sorted_desc_descending (score_of scores) (map fst scores)) as Hd.
  pose proof (PyProofs.sorted_desc_perm (score_of scores) (map fst scores)) as Hp.
  rewrite Hsorted in Hd, Hp. destruct Hd as [Hhead _].
  destruct scores as [|kv scores']; [apply Permutation_nil_r in Hp; discriminate|].
  destruct Hmax as [(c & Hc & Hcm) Hle].
  apply Qle_antisym.
  - apply Hle. rewrite <- Hp. apply elem_of_cons. now left.
  - rewrite <- Hcm. rewrite <- Hp in Hc.
    apply elem_of_cons in Hc as [->|Hc]; [apply Qle_refl|].
    rewrite Forall_forall in Hhead. now apply Hhead.
Qed.

(** **** hybrid_search *)

(** The query both legs receive. *)
Definition search_query_of (query : string) (kb_ids : option (list string))
    (enable_query_expansion : bool) : string :=
  if enable_query_expansion && truthy kb_ids
  then QueryEnhancement.expand_query query kb_ids
  else query.

(** Given the knowledge bases, [hybrid_search] runs its two legs, which
    return, and fuses their results; what listing them raises, when they
    are not given, escapes. *)
Lemma hybrid_search_listing_raises w cfg st query kb_ids top_k wv wb expand rerank e :
  kb_ids_or_all w kb_ids = Raise e ->
  hybrid_search w cfg st query kb_ids top_k wv wb expand rerank = (Raise e, st).
Proof.
  intros He. unfold hybrid_search.
  rewrite (search_listing_raises _ _ _ _ _ _ _ He).
  destruct (embed_text _ _ _); [reflexivity|].
  now rewrite (bm25_search_listing_raises _ _ _ _ _ _ _ He).
Qed.

Lemma hybrid_search_legs w cfg st query kb_ids top_k wv wb expand rerank kbs :
  kb_ids_or_all w kb_ids = Ok kbs ->
  let k := default (get_top_k cfg) top_k in
  let q := search_query_of query kb_ids expand in
  exists vr br st',
    search w cfg q kb_ids (Some (k * 3)%nat) None = Ok vr /\
    bm25_search w cfg st q kb_ids (Some (k * 3)%nat) = (Ok br, st') /\
    hybrid_search w cfg st query kb_ids top_k wv wb expand rerank =
      (bind (rrf_fusion k wv wb vr br)
            (fun final_results =>
               Ok (match final_results with
                   | _ :: _ =>
                       if rerank
                       then rerank_results w final_results query (is_legal kb_ids)
                       else final_results
                   | [] => final_results
                   end)),
       st').
Proof.
  intros Hk k q.
  destruct (search_returns w cfg q kb_ids (Some (k * 3)%nat) None kbs Hk) as [vr Hv].
  destruct (bm25_search_returns w cfg st q kb_ids (Some (k * 3)%nat) kbs Hk)
    as (br & st' & Hb).
  exists vr, br, st'. split; [exact Hv|]. split; [exact Hb|].
  unfold hybrid_search. fold k. fold (search_query_of query kb_ids expand). fold q.
  now rewrite Hv, Hb.
Qed.

(** What [hybrid_search] returns before re-ranking, given the candidate
    lists [vr] and [br] of its two legs. *)
Definition fusion_outcome (w : World) (cfg : RAGConfig) (st st' : Engine)
    (query : string) (kb_ids : option (list string)) (top_k : option nat)
    (wv wb : Q) (expand : bool) (vr br : list SearchResult) : Prop :=
  let k := default (get_top_k cfg) top_k in
  let scores := rrf_scores_of wv wb vr br in
  exists results,
    hybrid_search w cfg st query kb_ids top_k wv wb expand false = (Ok results, st') /\
    ids results = take k (sorted_desc (score_of scores) (map fst scores)) /\
    PyProofs.descending (fused wv wb vr br) (ids results) /\
    Forall (fun r =>
              score r == fused wv wb vr br (chunk_id r) / max_score_of scores)%Q
           results /\
    forall r rest, results = r :: rest -> (score r == 1)%Q.

(** Reciprocal Rank Fusion.  Given the knowledge bases, both legs return
    at most [top_k * 3] candidates; the score accumulated for a chunk is the
    sum, over the two lists and over every 0-based rank at which the chunk
    stands in a list, of [weight / (60 + rank + 1)]; the ranking holds every
    candidate id once; the divisor is the largest accumulated score; and
    whenever that divisor is not zero, [hybrid_search] without re-ranking
    returns the first [top_k] ids of the ranking by accumulated score,
    descending, each with its accumulated score divided by the largest one,
    the first with score 1. *)
Lemma hybrid_search_reciprocal_rank_fusion
    (w : World) (cfg : RAGConfig) (st : Engine) (query : string)
    (kb_ids : option (list string)) (top_k : option nat) (wv wb : Q)
    (expand : bool) (kbs : list string) :
  kb_ids_or_all w kb_ids = Ok kbs ->
  let k := default (get_top_k cfg) top_k in
  let q := search_query_of query kb_ids expand in
  exists vr br st',
    search w cfg q kb_ids (Some (k * 3)%nat) None = Ok vr /\
    bm25_search w cfg st q kb_ids (Some (k * 3)%nat) = (Ok br, st') /\
    (length vr <= k * 3)%nat /\ (length br <= k * 3)%nat /\
    let scores := rrf_scores_of wv wb vr br in
    (forall c, score_of scores c == fused wv wb vr br c)%Q /\
    NoDup (map fst scores) /\
    (forall c, c ∈ map fst scores <-> c ∈ ids vr \/ c ∈ ids br) /\
    is_max_score scores (max_score_of scores) /\
    (~ (max_score_of scores == 0)%Q ->
     fusion_outcome w cfg st st' query kb_ids top_k wv wb expand vr br).
Proof.
  intros Hk k q.
  destruct (hybrid_search_legs w cfg st query kb_ids top_k wv wb expand false kbs Hk)
    as (vr & br & st' & Hv & Hb & Hh). fold k q in Hv, Hb, Hh.
  exists vr, br, st'. split; [exact Hv|]. split; [exact Hb|].
  split; [apply (search_spec _ _ _ _ _ _ _ Hv)|].
  split; [apply (bm25_search_spec _ _ _ _ _ _ _ _ Hb)|].
  intros scores.
  destruct (keys_rrf_scores_NoDup wv wb vr br) as [Hnd Hkeys]. fold scores in Hnd, Hkeys.
  split; [intros c; apply score_of_rrf_scores|].
  split; [exact Hnd|]. split; [exact Hkeys|].
  split; [now apply max_score_of_spec|].
  intros Hm. unfold fusion_outcome. fold k scores.
  destruct (rrf_fusion_ok k wv wb vr br Hm) as (results & Hf & Hids & Hall).
  fold scores in Hids, Hall.
  exists results. split; [rewrite Hh, Hf; simpl; now destruct results|].
  split; [exact Hids|].
  assert (Hscore : Forall (fun r => score r ==
                     fused wv wb vr br (chunk_id r) / max_score_of scores)%Q results).
  { eapply Forall_impl; [exact Hall|]. intros r [Hr _]. simpl. rewrite Hr.
    unfold scores. now rewrite score_of_rrf_scores. }
  split; [|split; [exact Hscore|]].
  - rewrite Hids. apply PyProofs.descending_take.
    apply (descending_ext (score_of scores)); [apply score_of_rrf_scores|].
    apply PyProofs.sorted_desc_descending.
  - intros r rest ->. inversion Hall as [|? ? [Hr _] _]; subst.
    rewrite Hr.
    destruct (sorted_desc (score_of scores) (map fst scores)) as [|id tail] eqn:Hs.
    { rewrite take_nil in Hids. discriminate. }
    destruct k as [|k']; [discriminate|]. simpl in Hids. injection Hids as Hid _.
    rewrite Hid. rewrite (head_has_max_score scores id tail Hnd Hs).
    now field.
Qed.

(** **** The range of the scores *)

Definition unit_score (r : SearchResult) : Prop := (0 <= score r <= 1)%Q.

Lemma rrf_denominator_pos rank : (0 < inject_Z (rrf_k + Z.of_nat rank + 1))%Q.
Proof.
  change 0%Q with (inject_Z 0). rewrite <- Zlt_Qlt. unfold rrf_k. lia.
Qed.

Lemma rrf_term_nonneg weight rank : (0 <= weight)%Q -> (0 <= rrf_term weight rank)%Q.
Proof.
  intros Hw. unfold rrf_term. apply Qle_shift_div_l; [apply rrf_denominator_pos|].
  lra.
Qed.

Lemma contribution_nonneg weight l rank c :
  (0 <= weight)%Q -> (0 <= contribution weight l rank c)%Q.
Proof.
  intros Hw. revert rank. induction l as [|r l IH]; intros rank; simpl; [lra|].
  pose proof (IH (S rank)). pose proof (rrf_term_nonneg weight rank Hw).
  destruct (bool_decide (chunk_id r = c)); lra.
Qed.

Lemma fused_nonneg wv wb vr br c :
  (0 <= wv)%Q -> (0 <= wb)%Q -> (0 <= fused wv wb vr br c)%Q.
Proof.
  intros Hv Hb. unfold fused.
  pose proof (contribution_nonneg wv vr 0 c Hv).
  pose proof (contribution_nonneg wb br 0 c Hb). lra.
Qed.

Lemma Qmin_spec a b : (Qmin a b <= a /\ Qmin a b <= b /\ (Qmin a b == a \/ Qmin a b == b))%Q.
Proof.
  unfold Qmin. destruct (Qle_bool b a) eqn:H.
  - apply Qle_bool_iff in H. split; [lra|]. split; [lra|]. right. reflexivity.
  - assert (a < b)%Q.
    { apply Qnot_le_lt. intros H'. apply Qle_bool_iff in H'. congruence. }
    split; [lra|]. split; [lra|]. left. reflexivity.
Qed.

Lemma boost_of_nonneg w words legal c : (0 <= boost_of w words legal c)%Q.
Proof.
  unfold boost_of.
  set (m := length _).
  assert (Hk : (0 <= exact_keyword_match * Qmin (inject_Z (Z.of_nat m) / 3) 1)%Q).
  { destruct (Qmin_spec (inject_Z (Z.of_nat m) / 3) 1) as (_ & _ & [H|H]); rewrite H.
    - assert (0 <= inject_Z (Z.of_nat m))%Q
        by (change 0%Q with (inject_Z 0); rewrite <- Zle_Qle; lia).
      unfold exact_keyword_match. 
      assert (0 <= inject_Z (Z.of_nat m) / 3)%Q
        by (apply Qle_shift_div_l; lra).
      apply Qmult_le_0_compat; [unfold Qle; simpl; lia | assumption].
    - unfold exact_keyword_match, Qle. simpl. lia. }
  assert (H1 : (0 <= has_article_ref)%Q) by (unfold has_article_ref, Qle; simpl; lia).
  assert (H2 : (0 <= has_sr_number)%Q) by (unfold has_sr_number, Qle; simpl; lia).
  assert (H3 : (0 <= has_definition)%Q) by (unfold has_definition, Qle; simpl; lia).
  assert (H4 : (0 <= optimal_length)%Q) by (unfold optimal_length, Qle; simpl; lia).
  destruct (legal && article_ref w c), (legal && sr_number w c),
    (existsb _ DEFINITION_PATTERNS), (2 <=? m)%nat, (_ && _); lra.
Qed.

Lemma rerank_results_unit w results query legal :
  Forall (fun r => 0 <= score r)%Q results ->
  Forall unit_score (rerank_results w results query legal).
Proof.
  intros Hall. unfold rerank_results. apply Forall_forall. intros r Hr.
  apply (proj1 (PyProofs.sorted_desc_elem _ _ _)) in Hr.
  apply list_elem_of_In, in_map_iff in Hr as (r0 & <- & Hin).
  rewrite Forall_forall in Hall. apply list_elem_of_In, Hall in Hin.
  unfold unit_score. simpl.
  set (b := boost_of _ _ _ _). pose proof (boost_of_nonneg w
    (remove_dups (map str (split_ws (chars (lower query)) []))) legal (content r0)) as Hb.
  fold b in Hb. destruct (Qmin_spec 1 (score r0 + b)) as (H1 & H2 & [H|H]); lra.
Qed.

Lemma max_score_pos wv wb vr br :
  (0 <= wv)%Q -> (0 <= wb)%Q ->
  ~ (max_score_of (rrf_scores_of wv wb vr br) == 0)%Q ->
  (0 < max_score_of (rrf_scores_of wv wb vr br))%Q.
Proof.
  intros Hv Hb Hne.
  pose proof (max_score_of_spec _ (proj1 (keys_rrf_scores_NoDup wv wb vr br))) as Hmax.
  unfold is_max_score in Hmax.
  destruct (rrf_scores_of wv wb vr br) as [|kv rest] eqn:Hs.
  - rewrite Hmax. reflexivity.
  - destruct Hmax as [(c & _ & Hc) _]. rewrite <- Hs in *.
    pose proof (fused_nonneg wv wb vr br c Hv Hb) as Hf.
    rewrite <- score_of_rrf_scores, Hc in Hf. lra.
Qed.

Lemma rrf_fusion_unit top_k wv wb vr br final :
  (0 <= wv)%Q -> (0 <= wb)%Q ->
  rrf_fusion top_k wv wb vr br = Ok final ->
  Forall unit_score final.
Proof.
  intros Hv Hb Hf. set (scores := rrf_scores_of wv wb vr br).
  destruct (Qeq_dec (max_score_of scores) 0) as [Hz|Hnz].
  - destruct (take top_k (sorted_desc (score_of scores) (map fst scores)))
      as [|id l] eqn:Ht.
    + rewrite rrf_fusion_unfold in Hf. cbv zeta in Hf. fold scores in Hf.
      rewrite Ht in Hf. simpl in Hf. injection Hf as <-. constructor.
    + rewrite (rrf_fusion_zero top_k wv wb vr br Hz) in Hf; [discriminate|].
      fold scores. now rewrite Ht.
  - destruct (rrf_fusion_ok top_k wv wb vr br Hnz) as (results & Hr & Hids & Hall).
    rewrite Hf in Hr. injection Hr as <-. fold scores in Hids, Hall.
    pose proof (max_score_pos wv wb vr br Hv Hb Hnz) as Hpos. fold scores in Hpos.
    pose proof (max_score_of_spec _ (proj1 (keys_rrf_scores_NoDup wv wb vr br))) as Hmax.
    fold scores in Hmax.
    apply Forall_forall. intros r Hin.
    assert (Hkey : chunk_id r ∈ map fst scores).
    { assert (Hi : chunk_id r ∈ ids final)
        by (apply list_elem_of_In, in_map, list_elem_of_In; exact Hin).
      rewrite Hids in Hi. apply subseteq_take in Hi.
      now apply (proj1 (PyProofs.sorted_desc_elem _ _ _)) in Hi. }
    rewrite Forall_forall in Hall. destruct (Hall r Hin) as [Hs _].
    unfold unit_score. rewrite Hs.
    pose proof (fused_nonneg wv wb vr br (chunk_id r) Hv Hb) as Hge.
    rewrite <- score_of_rrf_scores in Hge. fold scores in Hge.
    assert (Hle : (score_of scores (chunk_id r) <= max_score_of scores)%Q).
    { unfold is_max_score in Hmax. destruct scores as [|kv rest] eqn:Hsc;
        [inversion Hkey|]. now apply Hmax. }
    split.
    + apply Qle_shift_div_l; [exact Hpos | lra].
    + apply Qle_shift_div_r; [exact Hpos | lra].
Qed.

(** The reading of C5's first sentence for one result list. *)
Definition scores_in_unit_interval (results : list SearchResult) : Prop :=
  Forall unit_score results.

(** C5 (amended): every result of [search] has the score [1 - distance] of
    a hit some targeted collection answered, at least
    [similarity_threshold], and within [0, 1] when the threshold and the
    distance are not negative; every result of [bm25_search] has a strictly
    positive score (the raw lexical score, not normalised); every result of
    [hybrid_search] with non-negative weights has a score within [0, 1]. *)
Theorem search_result_scores
    (w : World) (cfg : RAGConfig) (st : Engine) (query : string)
    (kb_ids : option (list string)) (top_k : option nat)
    (provider : option string) (wv wb : Q) (expand rerank : bool) :
  (forall results,
      search w cfg query kb_ids top_k provider = Ok results ->
      Forall (fun r =>
                exists h,
                  answered w cfg (targeted w kb_ids)
                    (default (search_provider (svc w)) provider)
                    (default (get_top_k cfg) top_k) h /\
                  score r = (1 - hit_distance h)%Q /\
                  (similarity_threshold cfg <= score r)%Q /\
                  ((0 <= similarity_threshold cfg)%Q -> (0 <= hit_distance h)%Q ->
                   unit_score r))
             results) /\
  (forall results st',
      bm25_search w cfg st query kb_ids top_k = (Ok results, st') ->
      Forall (fun r => 0 < score r)%Q results) /\
  ((0 <= wv)%Q -> (0 <= wb)%Q ->
   forall results st',
     hybrid_search w cfg st query kb_ids top_k wv wb expand rerank = (Ok results, st') ->
     scores_in_unit_interval results).
Proof.
  split; [|split].
  - intros results Hs. destruct (search_spec _ _ _ _ _ _ _ Hs) as (_ & _ & H).
    apply Forall_forall. intros r Hr. destruct (H r Hr) as (h & Hh & Hrh).
    apply result_of_hit_spec in Hrh as (_ & _ & _ & _ & Hsc & Hth).
    exists h. split; [exact Hh|]. split; [exact Hsc|]. split; [exact Hth|].
    intros H0 Hd. unfold unit_score. rewrite Hsc in *. lra.
  - intros results st' Hb. now apply (bm25_search_spec _ _ _ _ _ _ _ _ Hb).
  - intros Hv Hb results st' Hh.
    destruct (kb_ids_or_all w kb_ids) as [kbs|err] eqn:Hk;
      [|rewrite (hybrid_search_listing_raises _ _ _ _ _ _ _ _ _ _ _ Hk) in Hh;
        discriminate].
    destruct (hybrid_search_legs w cfg st query kb_ids top_k wv wb expand rerank kbs Hk)
      as (vr & br & st'' & _ & _ & Heq).
    rewrite Heq in Hh. clear Heq.
    destruct (rrf_fusion _ wv wb vr br) as [final|e] eqn:Hf; simpl in Hh;
      [|discriminate].
    injection Hh as <- _. pose proof (rrf_fusion_unit _ _ _ _ _ _ Hv Hb Hf) as Hu.
    unfold scores_in_unit_interval.
    destruct final as [|r0 rest]; [constructor|]. destruct rerank; [|exact Hu].
    apply rerank_results_unit. eapply Forall_impl; [exact Hu|].
    intros r [H0 _]. exact H0.
Qed.

(** **** One weight at zero *)

Lemma rrf_term_pos weight rank : (0 < weight)%Q -> (0 < rrf_term weight rank)%Q.
Proof.
  intros Hw. unfold rrf_term. apply Qlt_shift_div_l; [apply rrf_denominator_pos|].
  lra.
Qed.

Lemma rrf_term_decreasing weight rank :
  (0 < weight)%Q -> (rrf_term weight (S rank) < rrf_term weight rank)%Q.
Proof.
  intros Hw. unfold rrf_term, Qdiv. apply Qmult_lt_l; [exact Hw|].
  apply -> Qinv_lt_contravar; try apply rrf_denominator_pos.
  rewrite <- Zlt_Qlt. lia.
Qed.

Lemma contribution_zero_weight l rank c : (contribution 0 l rank c == 0)%Q.
Proof.
  revert rank. induction l as [|r l IH]; intros rank; simpl; [reflexivity|].
  rewrite IH. destruct (bool_decide (chunk_id r = c)); [|reflexivity].
  unfold rrf_term. field. intros H.
  pose proof (rrf_denominator_pos rank) as Hd. rewrite H in Hd.
  now apply Qlt_irrefl in Hd.
Qed.

Lemma contribution_absent weight l rank c :
  c ∉ ids l -> (contribution weight l rank c == 0)%Q.
Proof.
  revert rank. induction l as [|r l IH]; intros rank Hc; simpl; [reflexivity|].
  unfold ids in Hc. simpl in Hc. apply not_elem_of_cons in Hc as [Hne Hc].
  rewrite (IH _ Hc). rewrite bool_decide_eq_false_2 by congruence. reflexivity.
Qed.

Lemma strictly_descending_ext_in {A} (key key' : A -> Q) (l : list A) :
  (forall x, x ∈ l -> key x == key' x)%Q ->
  PyProofs.strictly_descending key l -> PyProofs.strictly_descending key' l.
Proof.
  induction l as [|x l IH]; simpl; [auto|]. intros Heq [Hx Hl]. split.
  - apply Forall_forall. intros y Hy. rewrite Forall_forall in Hx.
    rewrite <- (Heq x), <- (Heq y);
      [now apply Hx | apply elem_of_cons; now right | apply elem_of_cons; now left].
  - apply IH; [|exact Hl]. intros y Hy. apply Heq. apply elem_of_cons. now right.
Qed.

(** In a list with distinct ids the contributions are positive and fall
    strictly with the rank. *)
Lemma contribution_ranked weight l rank :
  (0 < weight)%Q -> NoDup (ids l) ->
  PyProofs.strictly_descending (contribution weight l rank) (ids l) /\
  Forall (fun c => 0 < contribution weight l rank c /\
                   contribution weight l rank c <= rrf_term weight rank)%Q (ids l).
Proof.
  intros Hw. revert rank. induction l as [|r l IH]; intros rank Hnd.
  - split; [exact I | constructor].
  - unfold ids in Hnd. simpl in Hnd. apply NoDup_cons in Hnd as [Hr Hnd].
    destruct (IH (S rank) Hnd) as [IHd IHf]. rewrite Forall_forall in IHf.
    pose proof (rrf_term_pos weight rank Hw) as Hpos.
    pose proof (rrf_term_decreasing weight rank Hw) as Hdec.
    assert (Hhead : (contribution weight (r :: l) rank (chunk_id r)
                     == rrf_term weight rank)%Q).
    { simpl. rewrite bool_decide_eq_true_2 by reflexivity.
      rewrite (contribution_absent weight l (S rank) (chunk_id r) Hr). lra. }
    assert (Htail : forall c, c ∈ ids l ->
              (contribution weight (r :: l) rank c
               == contribution weight l (S rank) c)%Q).
    { intros c Hc. simpl. rewrite bool_decide_eq_false_2; [lra|].
      intros Heq. apply Hr. now rewrite Heq. }
    split.
    + change (ids (r :: l)) with (chunk_id r :: ids l). split.
      * apply Forall_forall. intros c Hc. rewrite Hhead, (Htail c Hc).
        destruct (IHf c Hc) as [_ Hle]. lra.
      * eapply strictly_descending_ext_in; [|exact IHd].
        intros c Hc. symmetry. now apply Htail.
    + change (ids (r :: l)) with (chunk_id r :: ids l). constructor.
      * rewrite Hhead. lra.
      * apply Forall_forall. intros c Hc. rewrite (Htail c Hc).
        destruct (IHf c Hc) as [H0 Hle]. lra.
Qed.

Lemma descending_app {A} (key : A -> Q) (l1 l2 : list A) :
  PyProofs.descending key l1 -> PyProofs.descending key l2 ->
  (forall x y, x ∈ l1 -> y ∈ l2 -> key y <= key x)%Q ->
  PyProofs.descending key (l1 ++ l2).
Proof.
  induction l1 as [|x l1 IH]; simpl; [auto|]. intros [Hx H1] H2 Hcross. split.
  - apply Forall_app. split; [exact Hx|]. apply Forall_forall. intros y Hy.
    apply Hcross; [apply elem_of_cons; now left | exact Hy].
  - apply IH; auto. intros a b Ha Hb. apply Hcross; [apply elem_of_cons; now right | exact Hb].
Qed.

Lemma descending_zeros {A} (key : A -> Q) (l : list A) :
  Forall (fun x => key x == 0)%Q l -> PyProofs.descending key l.
Proof.
  induction 1 as [|x l Hx Hl IH]; simpl; [exact I|]. split; [|exact IH].
  eapply Forall_impl; [exact Hl|]. intros y Hy. simpl in Hy. rewrite Hx, Hy. lra.
Qed.

(** The keys of [rrf_scores], in order: the vector ids, each once, then the
    ids the lexical list adds. *)
Lemma keys_rrf_scores_order wv wb vr br :
  map fst (rrf_scores_of wv wb vr br) =
    QueryEnhancement.dict_fromkeys (ids vr) ++
    QueryEnhancement.fromkeys_acc (QueryEnhancement.dict_fromkeys (ids vr)) (ids br).
Proof.
  rewrite keys_rrf_scores. rewrite (add_keys_fresh (ids vr) []). simpl.
  rewrite add_keys_fresh. reflexivity.
Qed.

(** The ids only the lexical list holds, each once, in its order; the ids
    only the vector list holds, each once, in its order. *)
Definition lexical_only (vr br : list SearchResult) : list string :=
  QueryEnhancement.fromkeys_acc (ids vr) (ids br).

Definition vector_only (vr br : list SearchResult) : list string :=
  List.filter (fun c => negb (bool_decide (c ∈ ids br)))
    (QueryEnhancement.dict_fromkeys (ids vr)).

Lemma max_score_nonzero wv wb vr br c :
  c ∈ map fst (rrf_scores_of wv wb vr br) ->
  (0 < score_of (rrf_scores_of wv wb vr br) c)%Q ->
  ~ (max_score_of (rrf_scores_of wv wb vr br) == 0)%Q.
Proof.
  intros Hc Hpos Hz.
  pose proof (max_score_of_spec _ (proj1 (keys_rrf_scores_NoDup wv wb vr br))) as Hmax.
  unfold is_max_score in Hmax.
  destruct (rrf_scores_of wv wb vr br) as [|kv rest] eqn:Hs; [inversion Hc|].
  rewrite <- Hs in *. destruct Hmax as [_ Hle]. specialize (Hle c Hc). lra.
Qed.

(** With the lexical weight at zero the ranking is the vector list followed
    by the ids only the lexical list holds. *)
Lemma ranking_vector_only vr br :
  vr <> [] -> NoDup (ids vr) ->
  let scores := rrf_scores_of 1 0 vr br in
  sorted_desc (score_of scores) (map fst scores) = ids vr ++ lexical_only vr br /\
  ~ (max_score_of scores == 0)%Q.
Proof.
  intros Hne Hnd scores.
  assert (Hkeys : map fst scores = ids vr ++ lexical_only vr br).
  { unfold scores. rewrite keys_rrf_scores_order. unfold QueryEnhancement.dict_fromkeys.
    now rewrite (fromkeys_acc_NoDup_id _ Hnd). }
  assert (Hkey : forall c, (score_of scores c == contribution 1 vr 0 c)%Q).
  { intros c. unfold scores. rewrite score_of_rrf_scores. unfold fused.
    rewrite contribution_zero_weight. lra. }
  destruct (contribution_ranked 1 vr 0 ltac:(lra) Hnd) as [Hd Hf].
  rewrite Forall_forall in Hf.
  assert (Hextra : Forall (fun c => contribution 1 vr 0 c == 0)%Q (lexical_only vr br)).
  { apply Forall_forall. intros c Hc. apply contribution_absent.
    apply (QueryEnhancementProofs.fromkeys_acc_spec (ids vr) (ids br)) in Hc. tauto. }
  split.
  - rewrite Hkeys. apply PyProofs.sorted_desc_id.
    apply (descending_ext (contribution 1 vr 0)); [intros c; symmetry; apply Hkey|].
    apply descending_app.
    + now apply PyProofs.strictly_descending_weaken.
    + now apply descending_zeros.
    + intros x y Hx Hy. rewrite Forall_forall in Hextra.
      rewrite (Hextra y Hy). destruct (Hf x Hx). lra.
  - destruct vr as [|r0 vr']; [congruence|].
    apply (max_score_nonzero 1 0 (r0 :: vr') br (chunk_id r0)).
    + fold scores. rewrite Hkeys. apply elem_of_app. left. apply elem_of_cons. now left.
    + fold scores. rewrite Hkey. apply (Hf (chunk_id r0)). apply elem_of_cons. now left.
Qed.

Lemma NoDup_list_filter {A} (f : A -> bool) (l : list A) :
  NoDup l -> NoDup (List.filter f l).
Proof.
  rewrite !NoDup_ListNoDup. apply List.NoDup_filter.
Qed.

Lemma list_filter_nil {A} (f : A -> bool) (l : list A) :
  (forall x, x ∈ l -> f x = false) -> List.filter f l = [].
Proof.
  induction l as [|x l IH]; simpl; [reflexivity|]. intros H.
  rewrite (H x) by (apply elem_of_cons; now left).
  apply IH. intros y Hy. apply H. apply elem_of_cons. now right.
Qed.

(** With the vector weight at zero the ranking is the lexical list followed
    by the ids only the vector list holds. *)
Lemma ranking_lexical_only vr br :
  br <> [] -> NoDup (ids br) ->
  let scores := rrf_scores_of 0 1 vr br in
  sorted_desc (score_of scores) (map fst scores) = ids br ++ vector_only vr br /\
  ~ (max_score_of scores == 0)%Q.
Proof.
  intros Hne Hnd scores.
  destruct (keys_rrf_scores_NoDup 0 1 vr br) as [Hknd Hkel]. fold scores in Hknd, Hkel.
  assert (Hkey : forall c, (score_of scores c == contribution 1 br 0 c)%Q).
  { intros c. unfold scores. rewrite score_of_rrf_scores. unfold fused.
    rewrite contribution_zero_weight. lra. }
  destruct (contribution_ranked 1 br 0 ltac:(lra) Hnd) as [Hd Hf].
  rewrite Forall_forall in Hf.
  assert (Hpos : forall c, PyProofs.positive_key (score_of scores) c
                           = bool_decide (c ∈ ids br)).
  { intros c. unfold PyProofs.positive_key. destruct (decide (c ∈ ids br)) as [Hc|Hc].
    - rewrite (bool_decide_eq_true_2 _ Hc). apply negb_true_iff, not_true_is_false.
      intros H. apply Qle_bool_iff in H. rewrite Hkey in H. destruct (Hf c Hc). lra.
    - rewrite (bool_decide_eq_false_2 _ Hc). apply negb_false_iff, Qle_bool_iff.
      rewrite Hkey, (contribution_absent 1 br 0 c Hc). lra. }
  assert (Hnonneg : Forall (fun c => 0 <= score_of scores c)%Q (map fst scores)).
  { apply Forall_forall. intros c _. rewrite Hkey.
    apply contribution_nonneg. lra. }
  rewrite (PyProofs.sorted_desc_zeros_last _ _ Hnonneg). split.
  - f_equal.
    + apply (PyProofs.descending_unique (score_of scores)).
      * rewrite PyProofs.sorted_desc_perm. apply NoDup_Permutation.
        -- now apply NoDup_list_filter.
        -- exact Hnd.
        -- intros c. rewrite list_elem_of_In, filter_In, <- list_elem_of_In, Hpos, Hkel.
           rewrite bool_decide_eq_true. tauto.
      * apply PyProofs.sorted_desc_descending.
      * eapply strictly_descending_ext_in; [|exact Hd].
        intros c _. symmetry. apply Hkey.
      * exact Hnd.
    + unfold vector_only. unfold scores at 2. rewrite keys_rrf_scores_order.
      rewrite List.filter_app.
      rewrite (list_filter_nil _ (QueryEnhancement.fromkeys_acc _ _)).
      * rewrite app_nil_r. apply List.filter_ext. intros c. now rewrite Hpos.
      * intros c Hc. rewrite Hpos.
        apply (QueryEnhancementProofs.fromkeys_acc_spec _ (ids br)) in Hc.
        rewrite bool_decide_eq_true_2; [reflexivity | tauto].
  - destruct br as [|r0 br']; [congruence|].
    apply (max_score_nonzero 0 1 vr (r0 :: br') (chunk_id r0)).
    + fold scores. apply Hkel. right. apply elem_of_cons. now left.
    + fold scores. rewrite Hkey. apply (Hf (chunk_id r0)). apply elem_of_cons. now left.
Qed.

(** C2 (amended): without expansion and re-ranking, when the vector
    candidates [search(q, top_k * 3)] are not empty and have distinct ids,
    weights (1, 0) return the first [top_k] of the vector candidates in
    their order followed by the ids only the lexical candidates hold; when
    the lexical candidates [bm25_search(q, top_k * 3)] are not empty and
    have distinct ids, weights (0, 1) return the first [top_k] of the
    lexical candidates in their order followed by the ids only the vector
    candidates hold.  Both legs return once the knowledge bases are given
    or listed; what listing them raises escapes [hybrid_search] under any
    weights. *)
Theorem hybrid_search_single_weight_order
    (w : World) (cfg : RAGConfig) (st : Engine) (query : string)
    (kb_ids : option (list string)) (top_k : option nat) :
  let k := default (get_top_k cfg) top_k in
  match kb_ids_or_all w kb_ids with
  | Ok _ =>
      exists vr br st',
        search w cfg query kb_ids (Some (k * 3)%nat) None = Ok vr /\
        bm25_search w cfg st query kb_ids (Some (k * 3)%nat) = (Ok br, st') /\
        (vr <> [] -> NoDup (ids vr) ->
         exists results,
           hybrid_search w cfg st query kb_ids top_k 1 0 false false = (Ok results, st') /\
           ids results = take k (ids vr ++ lexical_only vr br)) /\
        (br <> [] -> NoDup (ids br) ->
         exists results,
           hybrid_search w cfg st query kb_ids top_k 0 1 false false = (Ok results, st') /\
           ids results = take k (ids br ++ vector_only vr br))
  | Raise e =>
      forall wv wb,
        hybrid_search w cfg st query kb_ids top_k wv wb false false = (Raise e, st)
  end.
Proof.
  intros k.
  destruct (kb_ids_or_all w kb_ids) as [kbs|e] eqn:Hk;
    [|intros wv wb; now apply hybrid_search_listing_raises].
  destruct (hybrid_search_legs w cfg st query kb_ids top_k 1 0 false false kbs Hk)
    as (vr & br & st' & Hv & Hb & Hh1). fold k in Hv, Hb, Hh1.
  destruct (hybrid_search_legs w cfg st query kb_ids top_k 0 1 false false kbs Hk)
    as (vr' & br' & st'' & Hv' & Hb' & Hh2). fold k in Hv', Hb', Hh2.
  unfold search_query_of in *. simpl in Hv, Hb, Hv', Hb'.
  rewrite Hv in Hv'. rewrite Hb in Hb'. injection Hv' as <-. injection Hb' as <- <-.
  exists vr, br, st'. split; [exact Hv|]. split; [exact Hb|]. split.
  - intros Hne Hnd. destruct (ranking_vector_only vr br Hne Hnd) as [Hrank Hm].
    destruct (rrf_fusion_ok k 1 0 vr br Hm) as (results & Hf & Hids & _).
    exists results. split; [rewrite Hh1, Hf; simpl; now destruct results|].
    now rewrite Hids, Hrank.
  - intros Hne Hnd. destruct (ranking_lexical_only vr br Hne Hnd) as [Hrank Hm].
    destruct (rrf_fusion_ok k 0 1 vr br Hm) as (results & Hf & Hids & _).
    exists results. split; [rewrite Hh2, Hf; simpl; now destruct results|].
    now rewrite Hids, Hrank.
Qed.

(** **** A small installation to run the engine on *)

(** Stand-ins for what lies outside the engine: text files are their own
    extracted text, the digests are tagged copies of their input, the cloud
    endpoint answers one fixed vector per text, no client call raises, the
    tokenizer splits lower-cased text at whitespace, and the lexical score
    of a document is the number of query tokens it contains. *)
Definition plain_text : DocumentProcessor.Externals := {|
  DocumentProcessor._extract_text_from_bytes := fun content _ => Ok content;
  DocumentProcessor.sha256_hexdigest := fun text => "sha256:" +:+ text;
  DocumentProcessor._generate_doc_id_from_bytes :=
    fun content filename => filename +:+ "#" +:+ content;
  DocumentProcessor.suffix_lower := fun _ => ".txt";
  DocumentProcessor.now_isoformat := "2024-01-01T00:00:00"
|}.

Definition cloud_service : EmbeddingService :=
  make_service "sk-test"
    (fun _ => Raise (ExternalError "ollama"))
    (fun texts => Ok (map (fun _ => [1; 0]%Q) texts)).

Definition whitespace_tokens (s : string) : list string :=
  map str (split_ws (chars (lower s)) []).

Definition count_scores (corpus : list (list string)) (query : list string)
    : list Q :=
  map (fun doc =>
         inject_Z (Z.of_nat (length (List.filter (fun t => bool_decide (t ∈ doc)) query))))
      corpus.

Definition quiet_world (hits : list Hit) : World := {|
  svc := cloud_service;
  chroma_raises := fun _ => false;
  nearest := fun _ _ n => take n hits;
  tokenize := whitespace_tokens;
  get_scores := count_scores;
  known_kb_ids := Ok ["kb"%string];
  article_ref := fun _ => false;
  sr_number := fun _ => false
|}.

Definition empty_engine : Engine :=
  {| collections := ∅; _bm25_indices := ∅; index_files := ∅ |}.

(** Upload of a text file through [process_bytes] and [add_document]. *)
Definition upload (w : World) (st : Engine) (content filename : string) : Engine :=
  match DocumentProcessor.process_bytes 100 plain_text default_rag
          content filename "kb" "user" with
  | Ok (Some d) => snd (add_document w default_rag st d)
  | _ => st
  end.

Definition one_version : Engine :=
  upload (quiet_world []) empty_engine "Version eins." "a.txt".

Definition two_versions : Engine :=
  upload (quiet_world []) one_version "Version zwei." "a.txt".

Example two_versions_stored :
  map content_hash_of (stored_chunks (quiet_world []) default_rag two_versions "kb") =
  [Some (MStr "sha256:Version eins."); Some (MStr "sha256:Version zwei.")].
Proof. vm_compute. reflexivity. Qed.



(** A service with both providers switched on, and a client that rejects
    every [add] to the local collection of [kb]. *)
Definition dual_service : EmbeddingService := {|
  local_model := "nomic-embed-text";
  openai_model := "text-embedding-3-small";
  mode := BOTH;
  ollama_available := true;
  openai_api_key := "sk-test";
  search_provider := "openai";
  local_dimensions := 768;
  openai_dimensions := 1536;
  post_ollama := fun _ => Ok [0; 1]%Q;
  post_openai := fun texts => Ok (map (fun _ => [1; 0]%Q) texts)
|}.

Definition local_add_rejected : World := {|
  svc := dual_service;
  chroma_raises := fun call =>
    match call with
    | CollectionAdd name => bool_decide (name = "sp_kb_kb_local"%string)
    | _ => false
    end;
  nearest := fun _ _ _ => [];
  tokenize := whitespace_tokens;
  get_scores := count_scores;
  known_kb_ids := Ok ["kb"%string];
  article_ref := fun _ => false;
  sr_number := fun _ => false
|}.

Definition sample_document : DocumentProcessor.ProcessedDocument :=
  let meta : Meta :=
    <["knowledge_base"%string := MStr "kb"]>
      (<["filename"%string := MStr "a.txt"]> ∅) in
  {| DocumentProcessor.doc_id := "doc";
     DocumentProcessor.doc_filename := "a.txt";
     DocumentProcessor.doc_file_type := ".txt";
     DocumentProcessor.doc_chunks :=
       [ {| DocumentProcessor.chunk_id := "doc_chunk_0";
            DocumentProcessor.chunk_content := "Art. 5 Haftung.";
            DocumentProcessor.chunk_metadata := meta |};
         {| DocumentProcessor.chunk_id := "doc_chunk_1";
            DocumentProcessor.chunk_content := "Der Versicherer haftet.";
            DocumentProcessor.chunk_metadata := meta |} ];
     DocumentProcessor.doc_metadata := meta;
     DocumentProcessor.doc_raw_text := "Art. 5 Haftung. Der Versicherer haftet." |}.

Example add_document_one_provider_fails :
  let '(r, st') := add_document local_add_rejected default_rag empty_engine sample_document in
  r = Ok (false, true) /\
  map row_id (rows_of st' "sp_kb_kb_local") = [] /\
  map row_id (rows_of st' "sp_kb_kb_openai") = ["doc_chunk_0"; "doc_chunk_1"]%string /\
  (doc_ids <$> _bm25_indices st' !! "kb"%string) =
    Some ["doc_chunk_0"; "doc_chunk_1"]%string.
Proof. vm_compute. repeat split; reflexivity. Qed.

Example add_document_updates_lexical_index_run :
  ingestion_outcome local_add_rejected default_rag empty_engine sample_document.
Proof.
  apply (add_document_updates_lexical_index local_add_rejected default_rag
           empty_engine sample_document).
  discriminate.
Qed.

(** **** Runs of the search operations *)

Definition hit_a : Hit :=
  {| hit_row := {| row_id := "a"; row_document := "Art. 5 Haftung";
                   row_metadata := {[ "filename"%string := MStr "b.txt" ]} |};
     hit_distance := 1 # 10 |}.

(** The installation of [quiet_world] without an API key: no query
    embedding can be made. *)
Definition no_api_key : World := {|
  svc := make_service ""
           (fun _ => Raise (ExternalError "ollama"))
           (fun texts => Ok (map (fun _ => [1; 0]%Q) texts));
  chroma_raises := fun _ => false;
  nearest := fun _ _ n => take n [hit_a];
  tokenize := whitespace_tokens;
  get_scores := count_scores;
  known_kb_ids := Ok ["kb"%string];
  article_ref := fun _ => false;
  sr_number := fun _ => false
|}.

(** An installation whose unsuffixed collection still holds the metadata
    record, next to one chunk. *)
Definition legacy_engine : Engine := {|
  collections :=
    {[ "sp_kb_kb"%string :=
         [ kb_metadata_row "Policen" "Allgemeine Bedingungen" "doc" "2024-01-01";
           {| row_id := "doc_chunk_0"; row_document := "Art. 5 Haftung.";
              row_metadata := {[ "filename"%string := MStr "b.txt" ]} |} ] ]};
  _bm25_indices := ∅;
  index_files := ∅
|}.

Definition chunk_ids_with_scores (r : Res (list SearchResult))
    : Res (list (string * Q)) :=
  bind r (fun l => Ok (map (fun x => (chunk_id x, Qred (score x))) l)).

Example search_run :
  chunk_ids_with_scores
    (search (quiet_world [hit_a]) default_rag "Haftung" (Some ["kb"%string])
       (Some 2%nat) None) = Ok [("a"%string, (9 # 10)%Q)].
Proof. vm_compute. reflexivity. Qed.

Example hybrid_search_run :
  chunk_ids_with_scores
    (fst (hybrid_search (quiet_world [hit_a]) default_rag one_version "version"
            (Some ["kb"%string]) (Some 2%nat) (1 # 2) (1 # 2) false false)) =
  Ok [("a"%string, 1%Q); ("a.txt#Version eins._chunk_0"%string, 1%Q)].
Proof. vm_compute. reflexivity. Qed.

(** C3, the defect: with the embedding provider unavailable the vector leg
    is empty, the lexical leg returns one hit, and with weights (1, 0) the
    largest accumulated score is 0: [hybrid_search] raises
    [ZeroDivisionError] instead of returning the lexical result. *)
Theorem hybrid_search_zero_division :
  search no_api_key default_rag "version" (Some ["kb"%string]) (Some 6%nat) None
    = Ok [] /\
  chunk_ids_with_scores
    (fst (bm25_search no_api_key default_rag one_version "version"
            (Some ["kb"%string]) (Some 6%nat))) =
    Ok [("a.txt#Version eins._chunk_0"%string, 1%Q)] /\
  fst (hybrid_search no_api_key default_rag one_version "version"
         (Some ["kb"%string]) (Some 2%nat) 1 0 true true) = Raise ZeroDivisionError /\
  fst (hybrid_search (quiet_world [hit_a]) default_rag one_version "version"
         (Some ["kb"%string]) (Some 2%nat) 0 0 true true) = Raise ZeroDivisionError.
Proof. repeat split; vm_compute; reflexivity. Qed.

(** Whenever the largest accumulated score is zero and there is something
    to return, [hybrid_search] raises. *)
Lemma hybrid_search_raises w cfg st query kb_ids top_k wv wb expand rerank vr br st' :
  let k := default (get_top_k cfg) top_k in
  let q := search_query_of query kb_ids expand in
  let scores := rrf_scores_of wv wb vr br in
  search w cfg q kb_ids (Some (k * 3)%nat) None = Ok vr ->
  bm25_search w cfg st q kb_ids (Some (k * 3)%nat) = (Ok br, st') ->
  (max_score_of scores == 0)%Q ->
  take k (sorted_desc (score_of scores) (map fst scores)) <> [] ->
  hybrid_search w cfg st query kb_ids top_k wv wb expand rerank =
    (Raise ZeroDivisionError, st').
Proof.
  intros k q scores Hv Hb Hm Hne.
  destruct (kb_ids_or_all w kb_ids) as [kbs|err] eqn:Hk;
    [|rewrite (bm25_search_listing_raises _ _ _ _ _ _ _ Hk) in Hb; discriminate].
  destruct (hybrid_search_legs w cfg st query kb_ids top_k wv wb expand rerank kbs Hk)
    as (vr' & br' & st'' & Hv' & Hb' & Hh). fold k q in Hv', Hb'.
  rewrite Hv in Hv'. rewrite Hb in Hb'. injection Hv' as <-. injection Hb' as <- <-.
  rewrite Hh. fold k. now rewrite (rrf_fusion_zero k wv wb vr br Hm Hne).
Qed.

(** With both weights at zero every accumulated score is zero, and so is
    the largest of them. *)
Lemma max_score_zero_weights vr br :
  vr ++ br <> [] -> (max_score_of (rrf_scores_of 0 0 vr br) == 0)%Q.
Proof.
  intros Hne.
  destruct (keys_rrf_scores_NoDup 0 0 vr br) as [Hnd Hkeys].
  pose proof (max_score_of_spec _ Hnd) as Hmax. unfold is_max_score in Hmax.
  destruct (rrf_scores_of 0 0 vr br) as [|kv rest] eqn:Hs.
  - exfalso. apply Hne.
    assert (Hno : forall c, ~ (c ∈ ids vr \/ c ∈ ids br)).
    { intros c Hc. apply Hkeys in Hc. inversion Hc. }
    destruct vr as [|r vr]; [destruct br as [|r br]; [reflexivity|]|].
    + destruct (Hno (chunk_id r)). right. apply elem_of_cons. now left.
    + destruct (Hno (chunk_id r)). left. apply elem_of_cons. now left.
  - rewrite <- Hs in *. destruct Hmax as [(c & _ & <-) _].
    rewrite score_of_rrf_scores. unfold fused.
    rewrite !contribution_zero_weight. reflexivity.
Qed.

(** So [hybrid_search] with both weights at zero raises whenever a leg
    found a candidate. *)
Lemma zero_weights_raise_on_candidates
    w cfg st query kb_ids top_k expand rerank vr br st' :
  let k := default (get_top_k cfg) top_k in
  let q := search_query_of query kb_ids expand in
  search w cfg q kb_ids (Some (k * 3)%nat) None = Ok vr ->
  bm25_search w cfg st q kb_ids (Some (k * 3)%nat) = (Ok br, st') ->
  vr ++ br <> [] -> (0 < k)%nat ->
  hybrid_search w cfg st query kb_ids top_k 0 0 expand rerank =
    (Raise ZeroDivisionError, st').
Proof.
  intros k q Hv Hb Hne Hk.
  apply (hybrid_search_raises w cfg st query kb_ids top_k 0 0 expand rerank vr br st'
           Hv Hb (max_score_zero_weights vr br Hne)).
  fold k. intros Hnil. apply (f_equal (@length string)) in Hnil.
  rewrite length_take, PyProofs.sorted_desc_length, length_map in Hnil.
  destruct (keys_rrf_scores_NoDup 0 0 vr br) as [_ Hkeys].
  destruct (rrf_scores_of 0 0 vr br) as [|kv rest] eqn:Hs; [|simpl in Hnil; lia].
  apply Hne.
  assert (Hno : forall c, ~ (c ∈ ids vr \/ c ∈ ids br)).
  { intros c Hc. apply Hkeys in Hc. inversion Hc. }
  destruct vr as [|r vr]; [destruct br as [|r br]; [reflexivity|]|].
  - destruct (Hno (chunk_id r)). right. apply elem_of_cons. now left.
  - destruct (Hno (chunk_id r)). left. apply elem_of_cons. now left.
Qed.

(** The chunk stored by the upload of [one_version], as the nearest
    neighbour of every query. *)
Definition stored_hits : list Hit :=
  map (fun r => {| hit_row := r; hit_distance := 1 # 10 |})
    (rows_of one_version "sp_kb_kb_openai").

(** C1, the defect: the division that normalises the scores raises when
    the largest accumulated score is zero.  With both weights at 0.0, the
    stored chunk found by the vector leg and nothing found by the lexical
    leg (the query shares no token with the chunk), the one accumulated
    score is 0, and [hybrid_search], without expansion and re-ranking,
    raises [ZeroDivisionError] instead of returning the chunk with score 1,
    as it does with both weights at 0.5. *)
Theorem hybrid_search_zero_weights_raise :
  chunk_ids_with_scores
    (search (quiet_world stored_hits) default_rag "Fassung" (Some ["kb"%string])
       (Some 6%nat) None) =
    Ok [("a.txt#Version eins._chunk_0"%string, (9 # 10)%Q)] /\
  chunk_ids_with_scores
    (fst (bm25_search (quiet_world stored_hits) default_rag one_version "Fassung"
            (Some ["kb"%string]) (Some 6%nat))) = Ok [] /\
  fst (hybrid_search (quiet_world stored_hits) default_rag one_version "Fassung"
         (Some ["kb"%string]) (Some 2%nat) 0 0 false false) = Raise ZeroDivisionError /\
  chunk_ids_with_scores
    (fst (hybrid_search (quiet_world stored_hits) default_rag one_version "Fassung"
            (Some ["kb"%string]) (Some 2%nat) (1 # 2) (1 # 2) false false)) =
    Ok [("a.txt#Version eins._chunk_0"%string, 1%Q)].
Proof. repeat split; vm_compute; reflexivity. Qed.

(** C4, the defect: [fulltext_search] returns the metadata record of the
    collection it reads, which [_rebuild_bm25_index] skips when it reads the
    same collection. *)
Theorem fulltext_search_returns_sentinel :
  chunk_ids_with_scores
    (fulltext_search (quiet_world []) default_rag legacy_engine "metadata"
       (Some ["kb"%string])) = Ok [("__kb_metadata__"%string, 1%Q)] /\
  (exists i st',
      _rebuild_bm25_index (quiet_world []) default_rag legacy_engine "kb" None
        = Ok (i, st') /\
      doc_ids i = ["doc_chunk_0"%string]).
Proof.
  split; [vm_compute; reflexivity|].
  eexists _, _. split; [vm_compute; reflexivity | reflexivity].
Qed.

(** C5, as stated for all search operations, fails: [bm25_search] returns
    the raw lexical score, here 2 for a chunk holding both query tokens. *)
Lemma bm25_search_score_above_one :
  exists results st',
    bm25_search (quiet_world []) default_rag one_version "version eins."
      (Some ["kb"%string]) (Some 2%nat) = (Ok results, st') /\
    ~ scores_in_unit_interval results.
Proof.
  destruct (bm25_search (quiet_world []) default_rag one_version "version eins."
              (Some ["kb"%string]) (Some 2%nat)) as [[results|e] st'] eqn:Hb;
    [|apply (f_equal fst) in Hb; vm_compute in Hb; discriminate].
  exists results, st'. split; [reflexivity|].
  apply (f_equal (fun p => chunk_ids_with_scores (fst p))) in Hb.
  vm_compute in Hb. intros Hu.
  destruct results as [|r rest]; [discriminate|].
  inversion Hu as [|? ? [_ Hle] _]; subst.
  simpl in Hb. injection Hb as _ Hs _.
  assert (Hq : (score r == 2)%Q) by (rewrite <- (Qred_correct (score r)), Hs; reflexivity).
  rewrite Hq in Hle. revert Hle. unfold Qle. simpl. lia.
Qed.

Lemma search_result_scores_witness :
  scores_in_unit_interval
    (try_except
       (fst (hybrid_search (quiet_world [hit_a]) default_rag one_version "version"
               (Some ["kb"%string]) (Some 2%nat) (1 # 2) (1 # 2) true true))
       []) /\
  length
    (try_except
       (fst (hybrid_search (quiet_world [hit_a]) default_rag one_version "version"
               (Some ["kb"%string]) (Some 2%nat) (1 # 2) (1 # 2) true true))
       []) = 2%nat.
Proof.
  split; [|vm_compute; reflexivity].
  destruct (hybrid_search (quiet_world [hit_a]) default_rag one_version "version"
              (Some ["kb"%string]) (Some 2%nat) (1 # 2) (1 # 2) true true)
    as [[results|e] st'] eqn:Hh; simpl; [|constructor].
  eapply (search_result_scores (quiet_world [hit_a]) default_rag one_version
            "version" (Some ["kb"%string]) (Some 2%nat) None (1 # 2) (1 # 2) true true);
    [unfold Qle; simpl; lia | unfold Qle; simpl; lia | exact Hh].
Defined.

(** The reading of C2 for the vector weight: the ids come in the order of
    [search(q)]. *)
Definition same_order_as_search (w : World) (cfg : RAGConfig) (st : Engine)
    (query : string) (kb_ids : option (list string)) (top_k : option nat) : Prop :=
  forall results st' found,
    hybrid_search w cfg st query kb_ids top_k 1 0 false false = (Ok results, st') ->
    search w cfg query kb_ids top_k None = Ok found ->
    ids results = ids found.

Example hybrid_search_single_weight_run :
  let run wv wb :=
    chunk_ids_with_scores
      (fst (hybrid_search (quiet_world [hit_a]) default_rag one_version "version"
              (Some ["kb"%string]) (Some 2%nat) wv wb false false)) in
  run 1%Q 0%Q = Ok [("a"%string, 1%Q); ("a.txt#Version eins._chunk_0"%string, 0%Q)] /\
  run 0%Q 1%Q = Ok [("a.txt#Version eins._chunk_0"%string, 1%Q); ("a"%string, 0%Q)].
Proof. split; vm_compute; reflexivity. Qed.

(** C2, as stated, fails: with weights (1, 0) the chunk only the lexical
    leg found is returned as well, with score 0, behind the one result of
    [search]. *)
Lemma hybrid_search_appends_lexical_only :
  ~ same_order_as_search (quiet_world [hit_a]) default_rag one_version "version"
      (Some ["kb"%string]) (Some 2%nat).
Proof.
  intros H.
  destruct (hybrid_search (quiet_world [hit_a]) default_rag one_version "version"
              (Some ["kb"%string]) (Some 2%nat) 1 0 false false)
    as [[results|e] st'] eqn:Hh;
    [|apply (f_equal fst) in Hh; vm_compute in Hh; discriminate].
  destruct (search (quiet_world [hit_a]) default_rag "version"
              (Some ["kb"%string]) (Some 2%nat) None) as [found|e] eqn:Hs;
    [|vm_compute in Hs; discriminate].
  specialize (H results st' found Hh Hs).
  apply (f_equal fst) in Hh. vm_compute in Hh, Hs.
  injection Hh as <-. injection Hs as <-. vm_compute in H. discriminate.
Qed.

(** The divisor is not zero in an ordinary run, and the outcome of the
    fusion follows. *)
Example hybrid_search_reciprocal_rank_fusion_run :
  exists vr br st',
    fusion_outcome (quiet_world [hit_a]) default_rag one_version st' "version"
      (Some ["kb"%string]) (Some 2%nat) (1 # 2) (1 # 2) false vr br.
Proof.
  destruct (hybrid_search_reciprocal_rank_fusion (quiet_world [hit_a]) default_rag
              one_version "version" (Some ["kb"%string]) (Some 2%nat)
              (1 # 2) (1 # 2) false ["kb"%string] eq_refl)
    as (vr & br & st' & Hv & Hb & _ & _ & H).
  exists vr, br, st'. apply H.
  vm_compute in Hv. injection Hv as <-.
  vm_compute in Hb. injection Hb as <- _.
  vm_compute. discriminate.
Qed.

End RagEngineProofs.

(** * Further coverage

    This part follows, beyond the sources named at the top,

      - [import_baloise_produkte.py]               ([ProductImport])
      - [app/utils/file_handlers.py] and the format
        tables of [app/config.py]                  ([Formats])

    and the remaining methods of [BM25Index] and [RAGEngine] in
    [app/core/rag_engine.py] ([Tokenizer], [KnowledgeBases],
    [DocumentChunks]). *)

(** ** Further properties of the chunker *)

Module ChunkingProofs.
Import Py Data Config DocumentProcessor.

(** **** [strip] *)

Definition blank (c : ascii) : Prop := is_space c = true.

Lemma lstrip_blank l : Forall blank l -> lstrip l = [].
Proof.
  induction 1 as [|c l Hc _ IH]; simpl; [reflexivity|]. now rewrite Hc.
Qed.

Lemma lstrip_nil l : lstrip l = [] -> Forall blank l.
Proof.
  induction l as [|c l IH]; simpl; [constructor|].
  destruct (is_space c) eqn:Hc; [|discriminate].
  intros H. constructor; auto.
Qed.

Lemma lstrip_split l : exists pre, l = pre ++ lstrip l /\ Forall blank pre.
Proof.
  induction l as [|c l (pre & Hl & Hpre)]; simpl.
  - exists []. split; [reflexivity | constructor].
  - destruct (is_space c) eqn:Hc.
    + exists (c :: pre). split; [simpl; congruence | now constructor].
    + exists []. split; [reflexivity | constructor].
Qed.

Lemma lstrip_head l c r : lstrip l = c :: r -> is_space c = false.
Proof.
  induction l as [|a l IH]; simpl; [discriminate|].
  destruct (is_space a) eqn:Ha; [exact IH|]. intros [= <- _]. exact Ha.
Qed.

Lemma lstrip_app_solid l c r :
  is_space c = false -> lstrip (l ++ c :: r) = lstrip l ++ c :: r.
Proof.
  intros Hc. induction l as [|a l IH]; simpl; [now rewrite Hc|].
  destruct (is_space a); [exact IH | reflexivity].
Qed.

Lemma lstrip_id c r : is_space c = false -> lstrip (c :: r) = c :: r.
Proof. intros Hc. simpl. now rewrite Hc. Qed.

(** On a text that starts with a solid character, [strip] keeps that
    character and strips the rest from the right. *)
Lemma strip_cons_solid c r :
  is_space c = false -> strip (c :: r) = c :: rstrip r.
Proof.
  intros Hc. unfold strip, rstrip. rewrite (lstrip_id c r Hc).
  simpl. rewrite (lstrip_app_solid (rev r) c [] Hc).
  now rewrite rev_app_distr.
Qed.

Lemma strip_split l :
  exists pre suf, l = pre ++ strip l ++ suf /\ Forall blank pre /\ Forall blank suf.
Proof.
  destruct (lstrip_split l) as (pre & Hl & Hpre).
  destruct (lstrip_split (rev (lstrip l))) as (suf & Hr & Hsuf).
  exists pre, (rev suf). split; [|split; [exact Hpre | now apply Forall_rev]].
  unfold strip, rstrip. rewrite <- rev_app_distr, <- Hr, rev_involutive. exact Hl.
Qed.

Lemma strip_nil l : strip l = [] -> Forall blank l.
Proof.
  intros H. destruct (strip_split l) as (pre & suf & Hl & Hpre & Hsuf).
  rewrite H in Hl. rewrite Hl. simpl. now apply Forall_app.
Qed.

Lemma strip_blank l : Forall blank l -> strip l = [].
Proof.
  intros H. unfold strip, rstrip. now rewrite (lstrip_blank l H).
Qed.

Lemma strip_head l c r : strip l = c :: r -> is_space c = false.
Proof.
  unfold strip, rstrip. destruct (lstrip l) as [|a m] eqn:Hm; [discriminate|].
  pose proof (lstrip_head _ _ _ Hm) as Ha.
  simpl. rewrite (lstrip_app_solid (rev m) a [] Ha), rev_app_distr. simpl.
  now intros [= <- _].
Qed.

Lemma strip_last l c : last (strip l) = Some c -> is_space c = false.
Proof.
  unfold strip, rstrip.
  destruct (lstrip (rev (lstrip l))) as [|a m] eqn:Hm; [discriminate|].
  simpl. rewrite last_snoc. intros [= <-]. eapply lstrip_head; eauto.
Qed.

(** A text without blanks at either end is left as it is. *)
Lemma strip_solid_ends l :
  (forall c, head l = Some c -> is_space c = false) ->
  (forall c, last l = Some c -> is_space c = false) ->
  strip l = l.
Proof.
  intros Hh Hl. destruct l as [|c r]; [reflexivity|].
  rewrite (strip_cons_solid c r (Hh c eq_refl)). f_equal.
  unfold rstrip. destruct (rev r) as [|a m] eqn:Hr.
  - apply (f_equal (@rev _)) in Hr. rewrite rev_involutive in Hr. now subst r.
  - assert (Ha : is_space a = false).
    { apply Hl. apply (f_equal (@rev _)) in Hr. rewrite rev_involutive in Hr.
      subst r. simpl. apply (last_app_cons (c :: rev m) [] a). }
    rewrite (lstrip_id a m Ha), <- Hr. apply rev_involutive.
Qed.

Lemma strip_idemp l : strip (strip l) = strip l.
Proof.
  apply strip_solid_ends.
  - intros c Hc. destruct (strip l) as [|a m] eqn:Hs; [discriminate|].
    injection Hc as <-. eapply strip_head; eauto.
  - intros c. apply strip_last.
Qed.

(** **** Whitespace after normalisation *)

(** Every blank is a single space character that follows a solid
    character; [after_blank] tells that the preceding character was a
    blank. *)
Fixpoint single_blanks (after_blank : bool) (l : list ascii) : Prop :=
  match l with
  | [] => True
  | c :: r =>
      if is_space c
      then c = " "%char /\ after_blank = false /\ single_blanks true r
      else single_blanks false r
  end.

Lemma single_blanks_weaken b l : single_blanks b l -> single_blanks false l.
Proof.
  destruct l as [|c r]; simpl; [auto|].
  destruct (is_space c); [|auto]. intros (? & ? & ?). auto.
Qed.

Lemma collapse_ws_single_blanks b l : single_blanks b (collapse_ws b l).
Proof.
  revert b. induction l as [|c l IH]; intros b; simpl; [exact I|].
  destruct (is_space c) eqn:Hc.
  - destruct b; [apply IH|]. simpl. split; [reflexivity|]. split; [reflexivity | apply IH].
  - simpl. rewrite Hc. apply IH.
Qed.

Lemma single_blanks_app_r b l1 l2 :
  single_blanks b (l1 ++ l2) -> single_blanks false l2.
Proof.
  revert b. induction l1 as [|c l1 IH]; intros b; simpl.
  - apply single_blanks_weaken.
  - destruct (is_space c); [intros (_ & _ & H) | intros H]; eapply IH; eauto.
Qed.

Lemma single_blanks_app_l b l1 l2 :
  single_blanks b (l1 ++ l2) -> single_blanks b l1.
Proof.
  revert b. induction l1 as [|c l1 IH]; intros b; simpl; [auto|].
  destruct (is_space c); [intros (? & ? & H) | intros H]; eauto.
Qed.

Lemma single_blanks_elem b l c :
  single_blanks b l -> c ∈ l -> is_space c = true -> c = " "%char.
Proof.
  revert b. induction l as [|a l IH]; intros b Hl Hin Hc; [inversion Hin|].
  simpl in Hl. apply elem_of_cons in Hin as [->|Hin].
  - rewrite Hc in Hl. tauto.
  - destruct (is_space a); [destruct Hl as (_ & _ & Hl)|]; eauto.
Qed.

Lemma single_blanks_adjacent b l i x y :
  single_blanks b l -> l !! i = Some x -> l !! S i = Some y ->
  is_space x = true -> is_space y = false.
Proof.
  revert b i. induction l as [|a l IH]; intros b i Hl Hx Hy Hsp; [discriminate|].
  simpl in Hl. destruct i as [|i].
  - injection Hx as ->. rewrite Hsp in Hl. destruct Hl as (_ & _ & Hl).
    destruct l as [|a' l]; [discriminate|]. injection Hy as ->.
    simpl in Hl. destruct (is_space y); [|reflexivity].
    destruct Hl as (_ & ? & _). discriminate.
  - destruct (is_space a); [destruct Hl as (_ & _ & Hl)|]; eapply IH; eauto.
Qed.

Lemma normalize_single_blanks l : single_blanks false (normalize l).
Proof.
  unfold normalize.
  destruct (strip_split (collapse_ws false l)) as (pre & suf & Hl & _ & _).
  pose proof (collapse_ws_single_blanks false l) as H. rewrite Hl in H.
  apply single_blanks_app_r in H. eapply single_blanks_weaken, single_blanks_app_l; eauto.
Qed.

Lemma normalize_head l c : head (normalize l) = Some c -> is_space c = false.
Proof.
  unfold normalize. destruct (strip _) as [|a m] eqn:Hs; [discriminate|].
  intros [= <-]. eapply strip_head; eauto.
Qed.

Lemma normalize_last l c : last (normalize l) = Some c -> is_space c = false.
Proof. apply strip_last. Qed.

Lemma collapse_ws_blank b l : Forall blank (collapse_ws b l) -> Forall blank l.
Proof.
  revert b. induction l as [|c l IH]; intros b; simpl; [constructor|].
  destruct (is_space c) eqn:Hc.
  - destruct b; intros H; constructor; auto; [eapply IH; eauto|].
    inversion H; subst. eapply IH; eauto.
  - intros H. inversion H as [|? ? Hb _]; subst. unfold blank in Hb. congruence.
Qed.

(** A text with a solid character stays non-empty under normalisation. *)
Lemma normalize_nonempty l : strip l <> [] -> normalize l <> [].
Proof.
  intros Hs Hn. apply Hs, strip_blank. unfold normalize in Hn.
  eapply collapse_ws_blank, strip_nil; eauto.
Qed.


(** **** Slices *)

Lemma chars_str (l : list ascii) : chars (str l) = l.
Proof. apply list_ascii_of_string_of_list_ascii. Qed.

Lemma slice_lookup {A} (l : list A) (s e : Z) (p : nat) (x : A) :
  0 <= s -> s <= Z.of_nat p < e -> l !! p = Some x ->
  slice l s e !! (p - Z.to_nat s)%nat = Some x.
Proof.
  intros Hs Hp Hx. pose proof (lookup_lt_Some _ _ _ Hx) as Hlt.
  unfold slice, norm_index.
  destruct (Z.ltb_spec s 0); [lia|]. destruct (Z.ltb_spec e 0); [lia|].
  rewrite lookup_take_lt by lia. rewrite lookup_drop.
  replace (Z.to_nat (Z.min s (Z.of_nat (length l))) + (p - Z.to_nat s))%nat with p by lia.
  exact Hx.
Qed.

Lemma slice_all {A} (l : list A) (e : Z) :
  Z.of_nat (length l) <= e -> slice l 0 e = l.
Proof.
  intros He. unfold slice, norm_index.
  destruct (Z.ltb_spec 0 0); [lia|]. destruct (Z.ltb_spec e 0); [lia|].
  rewrite (Z.min_l 0) by lia. rewrite (Z.min_r e) by lia.
  change (Z.to_nat 0) with 0%nat. rewrite drop_0. apply firstn_all2. lia.
Qed.

Lemma slice_head {A} (l : list A) (e : Z) (x : A) (r : list A) :
  1 <= e -> l = x :: r -> exists r', slice l 0 e = x :: r'.
Proof.
  intros He ->. unfold slice, norm_index.
  destruct (Z.ltb_spec 0 0); [lia|]. destruct (Z.ltb_spec e 0); [lia|].
  rewrite (Z.min_l 0) by lia. change (Z.to_nat 0) with 0%nat. rewrite drop_0.
  destruct (Z.to_nat (Z.min e (Z.of_nat (length (x :: r))) - 0)) as [|n] eqn:Hn;
    [simpl length in Hn; lia|].
  simpl. eauto.
Qed.

(** **** One iteration *)

Section Iteration.
Context (cfg : RAGConfig) (t : list ascii) (doc : string) (meta : Meta).

Definition cut_of (st : LoopState) : Z := cut_end t (chunk_chars cfg) (ls_start st).

Definition body_of (st : LoopState) : list ascii :=
  strip (slice t (ls_start st) (cut_of st)).

Definition emitted (st : LoopState) : list DocumentChunk :=
  match body_of st with
  | [] => []
  | chunk_text =>
      [make_chunk doc meta chunk_text (ls_index st) (ls_start st) (cut_of st)]
  end.

Lemma loop_body_chunks st :
  ls_chunks (loop_body cfg t doc meta st) = ls_chunks st ++ emitted st.
Proof.
  unfold loop_body, emitted, body_of, cut_of.
  destruct (strip _); cbn [ls_chunks]; [now rewrite app_nil_r | reflexivity].
Qed.

Lemma loop_body_index st :
  ls_index (loop_body cfg t doc meta st) =
    ls_index st + Z.of_nat (length (emitted st)).
Proof.
  unfold loop_body, emitted, body_of, cut_of.
  destruct (strip _); cbn [ls_index length]; lia.
Qed.

Lemma loop_body_start st :
  ls_start (loop_body cfg t doc meta st) =
    let start' := cut_of st - overlap_chars cfg in
    if (start' <=? 0) && (0 <? ls_index (loop_body cfg t doc meta st))
    then cut_of st else start'.
Proof.
  unfold loop_body, cut_of. destruct (strip _); reflexivity.
Qed.

Lemma chunk_loop_inv (P : LoopState -> Prop) fuel st chunks :
  P st ->
  (forall s, P s -> ls_start s < len t -> P (loop_body cfg t doc meta s)) ->
  chunk_loop fuel cfg t doc meta st = Some chunks ->
  exists s, P s /\ len t <= ls_start s /\ ls_chunks s = chunks.
Proof.
  intros Hst Hstep. revert st Hst.
  induction fuel as [|fuel IH]; intros st Hst; simpl.
  - destruct (Z.ltb_spec (ls_start st) (len t)); [discriminate|].
    intros [= <-]. eauto.
  - destruct (Z.ltb_spec (ls_start st) (len t)); [|intros [= <-]; eauto].
    apply IH. now apply Hstep.
Qed.

(** The loop is still running as long as a property that implies
    [start < len(text)] is kept. *)
Lemma chunk_loop_runs (P : LoopState -> Prop) fuel st :
  P st ->
  (forall s, P s -> ls_start s < len t /\ P (loop_body cfg t doc meta s)) ->
  chunk_loop fuel cfg t doc meta st = None.
Proof.
  intros Hst Hstep. revert st Hst.
  induction fuel as [|fuel IH]; intros st Hst; simpl;
    destruct (Hstep st Hst) as [Hlt Hnext];
    destruct (Z.ltb_spec (ls_start st) (len t)); try lia; auto.
Qed.

End Iteration.

(** **** Identifiers *)

Definition numbered (doc : string) (chunks : list DocumentChunk) : Prop :=
  forall i c, chunks !! i = Some c ->
    chunk_id c = doc +:+ "_chunk_" +:+ pretty (Z.of_nat i) /\
    chunk_metadata c !! "chunk_index"%string = Some (MInt (Z.of_nat i)).

Lemma numbered_NoDup doc chunks : numbered doc chunks -> NoDup (map chunk_id chunks).
Proof.
  intros Hn. apply NoDup_alt. intros i j x Hi Hj.
  rewrite list_lookup_fmap in Hi, Hj.
  destruct (chunks !! i) as [ci|] eqn:Hci; [|discriminate].
  destruct (chunks !! j) as [cj|] eqn:Hcj; [|discriminate].
  simpl in Hi, Hj. destruct (Hn i ci Hci) as [Hidi _], (Hn j cj Hcj) as [Hidj _].
  assert (Heq : doc +:+ "_chunk_" +:+ pretty (Z.of_nat i)
                = doc +:+ "_chunk_" +:+ pretty (Z.of_nat j)) by congruence.
  apply RagEngineProofs.append_inj_l, RagEngineProofs.append_inj_l in Heq.
  apply (inj pretty) in Heq. lia.
Qed.

Lemma loop_body_numbered cfg t doc meta st :
  ls_index st = Z.of_nat (length (ls_chunks st)) /\ numbered doc (ls_chunks st) ->
  let st' := loop_body cfg t doc meta st in
  ls_index st' = Z.of_nat (length (ls_chunks st')) /\ numbered doc (ls_chunks st').
Proof.
  intros [Hidx Hnum] st'. subst st'.
  rewrite loop_body_index, loop_body_chunks, length_app. split; [lia|].
  intros i c Hc. apply lookup_app_Some in Hc as [Hc|[Hge Hc]]; [now apply Hnum|].
  unfold emitted in Hc. destruct (body_of cfg t st) as [|a r]; [discriminate|].
  destruct (i - length (ls_chunks st))%nat as [|n] eqn:Hi; [|discriminate].
  injection Hc as <-. assert (Z.of_nat i = ls_index st) as -> by lia.
  split; [reflexivity|]. unfold make_chunk. cbn [chunk_metadata].
  rewrite !lookup_insert_ne by discriminate. now rewrite lookup_insert_eq.
Qed.

(** **** Shape of a chunk *)

(** The chunk was cut from the window that starts at its ["chunk_start"]:
    ["chunk_end"] is the cut point of that window and the content is the
    slice between the two, stripped. *)
Definition cut_from (cfg : RAGConfig) (t : list ascii) (c : DocumentChunk) : Prop :=
  exists s : Z,
    let e := cut_end t (chunk_chars cfg) s in
    chunk_metadata c !! "chunk_start"%string = Some (MInt s) /\
    chunk_metadata c !! "chunk_end"%string = Some (MInt e) /\
    0 <= s < len t /\ s < e <= s + chunk_chars cfg /\
    chars (chunk_content c) = strip (slice t s e).

(** The content is not empty and has no whitespace at either end. *)
Definition trimmed (c : DocumentChunk) : Prop :=
  (exists a r, chars (chunk_content c) = a :: r /\ is_space a = false) /\
  (forall z, last (chars (chunk_content c)) = Some z -> is_space z = false).

Lemma emitted_shape cfg t doc meta st c :
  0 <= chunk_size cfg -> 0 <= ls_start st < len t ->
  c ∈ emitted cfg t doc meta st -> cut_from cfg t c /\ trimmed c.
Proof.
  intros Hsz Hst Hc. unfold emitted in Hc.
  destruct (body_of cfg t st) as [|a r] eqn:Hb; [inversion Hc|].
  apply list_elem_of_singleton in Hc as ->. unfold body_of, cut_of in Hb.
  assert (Hw : 0 <= chunk_chars cfg) by (unfold chunk_chars, chars_per_token; lia).
  pose proof (DocumentProcessorProofs.cut_end_bounds t _ (ls_start st) Hw) as [_ Hle].
  pose proof (DocumentProcessorProofs.cut_end_ge t _ (ls_start st) Hw) as Hge.
  pose proof (DocumentProcessorProofs.int_08_bounds _ Hw) as H08.
  split.
  - exists (ls_start st). cbv zeta. unfold make_chunk. cbn [chunk_metadata chunk_content].
    rewrite chars_str. split; [|split; [|split; [|split]]].
    + rewrite lookup_insert_ne by discriminate. now rewrite lookup_insert_eq.
    + now rewrite lookup_insert_eq.
    + exact Hst.
    + split; [|exact Hle].
      pose proof (DocumentProcessorProofs.slice_length_le t (ls_start st)
                    (cut_end t (chunk_chars cfg) (ls_start st)) ltac:(lia)) as Hs.
      pose proof (DocumentProcessorProofs.strip_length
                    (slice t (ls_start st) (cut_end t (chunk_chars cfg) (ls_start st)))) as Hl.
      rewrite Hb in Hl. simpl in Hl. lia.
    + exact (eq_sym Hb).
  - unfold trimmed, make_chunk. cbn [chunk_content]. rewrite chars_str. split.
    + exists a, r. split; [reflexivity|]. eapply strip_head; eauto.
    + intros z. rewrite <- Hb. apply strip_last.
Qed.

(** **** Coverage *)

(** Position [p] of the text lies in the window of one of the chunks. *)
Definition covered (chunks : list DocumentChunk) (p : nat) : Prop :=
  exists c (s e : Z),
    c ∈ chunks /\
    chunk_metadata c !! "chunk_start"%string = Some (MInt s) /\
    chunk_metadata c !! "chunk_end"%string = Some (MInt e) /\
    s <= Z.of_nat p < e.

Definition solid_at (t : list ascii) (p : nat) : Prop :=
  exists c, t !! p = Some c /\ is_space c = false.

Lemma emitted_covers cfg t doc meta st p :
  0 <= ls_start st <= Z.of_nat p -> Z.of_nat p < cut_of cfg t st ->
  solid_at t p -> covered (emitted cfg t doc meta st) p.
Proof.
  intros Hst Hp (c & Hc & Hsolid). unfold emitted.
  destruct (body_of cfg t st) as [|a r] eqn:Hb.
  - exfalso. unfold body_of in Hb. apply strip_nil in Hb.
    pose proof (slice_lookup t (ls_start st) (cut_of cfg t st) p c
                  ltac:(lia) ltac:(lia) Hc) as Hin.
    apply list_elem_of_lookup_2 in Hin. rewrite Forall_forall in Hb.
    specialize (Hb c Hin). unfold blank in Hb. congruence.
  - eexists _, (ls_start st), (cut_of cfg t st). split; [apply list_elem_of_singleton; reflexivity|].
    unfold make_chunk. cbn [chunk_metadata].
    split; [|split; [|lia]].
    + rewrite lookup_insert_ne by discriminate. now rewrite lookup_insert_eq.
    + now rewrite lookup_insert_eq.
Qed.


Lemma covered_app_l chunks more p : covered chunks p -> covered (chunks ++ more) p.
Proof.
  intros (c & s & e & Hc & H). exists c, s, e. split; [|exact H].
  apply elem_of_app. now left.
Qed.

Lemma covered_app_r chunks more p : covered more p -> covered (chunks ++ more) p.
Proof.
  intros (c & s & e & Hc & H). exists c, s, e. split; [|exact H].
  apply elem_of_app. now right.
Qed.

Lemma collapse_ws_all_blank b l : Forall blank l -> Forall blank (collapse_ws b l).
Proof.
  intros H. revert b. induction H as [|c l Hc _ IH]; intros b; simpl; [constructor|].
  rewrite Hc. destruct b; [apply IH|]. constructor; [reflexivity | apply IH].
Qed.

Lemma normalize_blank l : strip l = [] -> normalize l = [].
Proof.
  intros H. apply strip_blank, collapse_ws_all_blank, strip_nil, H.
Qed.

Lemma slice_elem {A} (l : list A) (i j : Z) (x : A) : x ∈ slice l i j -> x ∈ l.
Proof.
  unfold slice. intros H. eapply subseteq_drop, subseteq_take, H.
Qed.

Definition newline : list ascii := ["010"%char].

Lemma rfind_newline_missing region :
  "010"%char ∉ region -> rfind region newline = -1.
Proof.
  intros Hnot. destruct (Z.eq_dec (rfind region newline) (-1)) as [|Hf]; [assumption|].
  exfalso. apply DocumentProcessorProofs.rfind_found in Hf as (k & _ & [[_ Hp] _]).
  apply Hnot. apply (subseteq_drop k). eapply elem_of_prefix; [|exact Hp].
  apply elem_of_cons. now left.
Qed.

(** The terminators that can occur in a normalised text. *)
Definition sentence_ends : list (list ascii) := [chars ". "; chars "! "; chars "? "].

Lemma snap_without_newline region ss e :
  rfind region newline = -1 ->
  snap separators region ss e = snap sentence_ends region ss e.
Proof.
  intros Hnl. unfold separators, sentence_ends. fold newline. simpl.
  rewrite Hnl. simpl. reflexivity.
Qed.

(** **** What the chunker guarantees *)

Lemma create_chunks_numbering fuel cfg text doc meta chunks :
  _create_chunks fuel cfg text doc meta = Some chunks -> numbered doc chunks.
Proof.
  intros H. unfold _create_chunks in H. destruct (strip (chars text)).
  - injection H as <-. intros i c Hc. discriminate.
  - apply (chunk_loop_inv cfg (normalize (chars text)) doc meta
             (fun st => ls_index st = Z.of_nat (length (ls_chunks st)) /\
                        numbered doc (ls_chunks st))) in H
      as (st & [_ Hnum] & _ & <-); [exact Hnum | |].
    + split; [reflexivity|]. intros i c Hc. discriminate.
    + intros st Hst _. now apply loop_body_numbered.
Qed.

(** X1. The chunks [_create_chunks] returns are numbered from 0 without
    gaps: the chunk at position [i] of the list has the identifier
    [<doc_id>_chunk_<i>] and the metadata entry ["chunk_index"] = [i]; hence
    no two chunks of a document share an identifier. *)
Theorem create_chunks_numbered
    (fuel : nat) (cfg : RAGConfig) (text doc : string) (meta : Meta)
    (chunks : list DocumentChunk) :
  _create_chunks fuel cfg text doc meta = Some chunks ->
  (forall i c, chunks !! i = Some c ->
     chunk_id c = doc +:+ "_chunk_" +:+ pretty (Z.of_nat i) /\
     chunk_metadata c !! "chunk_index"%string = Some (MInt (Z.of_nat i))) /\
  NoDup (map chunk_id chunks).
Proof.
  intros H. apply create_chunks_numbering in H.
  split; [exact H | now apply (numbered_NoDup doc)].
Qed.

Lemma create_chunks_numbered_witness :
  NoDup (map chunk_id
           (default [] (_create_chunks 53 DocumentProcessorProofs.small_cfg
                          DocumentProcessorProofs.mixed_terminators "d" ∅))).
Proof.
  apply (create_chunks_numbered 53 DocumentProcessorProofs.small_cfg
           DocumentProcessorProofs.mixed_terminators "d" ∅).
  vm_compute. reflexivity.
Defined.

(** X2. Under the conditions of termination (non-negative window, overlap
    below 80% of it) every returned chunk records the window it was cut
    from: ["chunk_start"] = [s] with [0 <= s < len(text)], ["chunk_end"] =
    the cut point [e] of that window with [s < e <= s + window], and its
    content is [text[s:e].strip()] of the normalised text; the content is
    never empty and has no whitespace at either end. *)
Theorem create_chunks_shape
    (fuel : nat) (cfg : RAGConfig) (text doc : string) (meta : Meta)
    (chunks : list DocumentChunk) :
  0 <= chunk_size cfg ->
  5 * overlap_chars cfg < 4 * chunk_chars cfg ->
  _create_chunks fuel cfg text doc meta = Some chunks ->
  Forall (fun c => cut_from cfg (normalize (chars text)) c /\ trimmed c) chunks.
Proof.
  intros Hsz Hov H. unfold _create_chunks in H. destruct (strip (chars text)).
  - injection H as <-. constructor.
  - set (t := normalize (chars text)) in *.
    apply (chunk_loop_inv cfg t doc meta
             (fun st => 0 <= ls_start st /\
                        Forall (fun c => cut_from cfg t c /\ trimmed c) (ls_chunks st))) in H
      as (st & [_ Hall] & _ & <-); [exact Hall | |].
    + split; [simpl; lia | constructor].
    + intros st [Hst Hall] Hlt. split.
      * pose proof (DocumentProcessorProofs.loop_body_progress cfg t doc meta st Hsz Hov Hst).
        lia.
      * rewrite loop_body_chunks. apply Forall_app. split; [exact Hall|].
        apply Forall_forall. intros c Hc. eapply emitted_shape; eauto.
Qed.

Lemma create_chunks_shape_witness :
  Forall (fun c => cut_from DocumentProcessorProofs.small_cfg
                     (normalize (chars DocumentProcessorProofs.mixed_terminators)) c /\
                   trimmed c)
    (default [] (_create_chunks 53 DocumentProcessorProofs.small_cfg
                   DocumentProcessorProofs.mixed_terminators "d" ∅)).
Proof.
  apply (create_chunks_shape 53 DocumentProcessorProofs.small_cfg
           DocumentProcessorProofs.mixed_terminators "d" ∅).
  - vm_compute. discriminate.
  - vm_compute. reflexivity.
  - vm_compute. reflexivity.
Defined.

(** X3. Nothing but whitespace is lost: with a non-negative window, a
    non-negative overlap below 80% of the window, every position of the
    normalised text that holds a non-whitespace character lies in the window
    [chunk_start, chunk_end) of one of the returned chunks. *)
Theorem create_chunks_covers
    (fuel : nat) (cfg : RAGConfig) (text doc : string) (meta : Meta)
    (chunks : list DocumentChunk) :
  0 <= chunk_size cfg ->
  0 <= chunk_overlap cfg ->
  5 * overlap_chars cfg < 4 * chunk_chars cfg ->
  _create_chunks fuel cfg text doc meta = Some chunks ->
  forall p, solid_at (normalize (chars text)) p -> covered chunks p.
Proof.
  intros Hsz Hnn Hov H p Hp. unfold _create_chunks in H.
  destruct (strip (chars text)) as [|a r] eqn:Hs.
  - rewrite (normalize_blank _ Hs) in Hp. destruct Hp as (c & Hc & _). discriminate.
  - set (t := normalize (chars text)) in *.
    apply (chunk_loop_inv cfg t doc meta
             (fun st => 0 <= ls_start st /\
                        forall q, solid_at t q -> Z.of_nat q < ls_start st ->
                                  covered (ls_chunks st) q)) in H
      as (st & [_ Hall] & Hend & <-).
    + apply Hall; [exact Hp|]. destruct Hp as (c & Hc & _).
      apply lookup_lt_Some in Hc. unfold len in Hend. lia.
    + split; [simpl; lia|]. intros q _ Hq. simpl in Hq. lia.
    + intros st [Hst Hall] Hlt.
      pose proof (DocumentProcessorProofs.loop_body_progress cfg t doc meta st Hsz Hov Hst)
        as Hprog.
      split; [lia|]. intros q Hq Hlim. rewrite loop_body_chunks.
      destruct (Z.lt_ge_cases (Z.of_nat q) (ls_start st)) as [Hbefore|Hin].
      * apply covered_app_l. now apply Hall.
      * apply covered_app_r. apply emitted_covers; [lia| |exact Hq].
        rewrite loop_body_start in Hlim. cbv zeta in Hlim.
        assert (0 <= overlap_chars cfg) by (unfold overlap_chars, chars_per_token; lia).
        destruct (_ && _) in Hlim; lia.
Qed.

Lemma create_chunks_covers_witness :
  covered
    (default [] (_create_chunks 53 DocumentProcessorProofs.small_cfg
                   DocumentProcessorProofs.mixed_terminators "d" ∅))
    38.
Proof.
  apply (create_chunks_covers 53 DocumentProcessorProofs.small_cfg
           DocumentProcessorProofs.mixed_terminators "d" ∅).
  - vm_compute. discriminate.
  - vm_compute. discriminate.
  - vm_compute. reflexivity.
  - vm_compute. reflexivity.
  - exists "z"%char. split; vm_compute; reflexivity.
Defined.

(** X4. Short documents: a text without a non-whitespace character gives no
    chunk, under every configuration; a text with such a character whose
    normalised form fits into the window, also when it is extended by the
    overlap, gives exactly one chunk, cut at [0, window) and holding the
    whole normalised text. *)
Theorem create_chunks_short_text
    (cfg : RAGConfig) (text doc : string) (meta : Meta) :
  (strip (chars text) = [] ->
   forall fuel, _create_chunks fuel cfg text doc meta = Some []) /\
  (strip (chars text) <> [] ->
   len (normalize (chars text)) <= chunk_chars cfg ->
   len (normalize (chars text)) + overlap_chars cfg <= chunk_chars cfg ->
   forall fuel,
     _create_chunks (S fuel) cfg text doc meta =
       Some [make_chunk doc meta (normalize (chars text)) 0 0 (chunk_chars cfg)]).
Proof.
  split.
  { intros Hs fuel. unfold _create_chunks. now rewrite Hs. }
  intros Hsolid Hwin Hfit fuel. unfold _create_chunks.
  destruct (strip (chars text)) as [|a0 r0] eqn:Hs; [congruence|].
  assert (Hne : normalize (chars text) <> []).
  { apply normalize_nonempty. rewrite Hs. discriminate. }
  set (t := normalize (chars text)) in *.
  assert (Hidem : strip t = t) by apply strip_idemp.
  assert (Hpos : 0 < len t).
  { unfold len. destruct t; [congruence | simpl; lia]. }
  cbn [chunk_loop]. change (ls_start initial_state) with 0.
  destruct (Z.ltb_spec 0 (len t)); [|lia].
  set (st := loop_body cfg t doc meta initial_state).
  assert (Hcut : cut_of cfg t initial_state = chunk_chars cfg).
  { unfold cut_of, cut_end. change (ls_start initial_state) with 0.
    destruct (Z.ltb_spec (0 + chunk_chars cfg) (len t)); lia. }
  assert (Hbody : body_of cfg t initial_state = t).
  { unfold body_of. rewrite Hcut. change (ls_start initial_state) with 0.
    rewrite slice_all by (unfold len in *; lia). exact Hidem. }
  assert (Hchunks : ls_chunks st =
                    [make_chunk doc meta t 0 0 (chunk_chars cfg)]).
  { subst st. rewrite loop_body_chunks. unfold emitted. rewrite Hbody, Hcut.
    destruct t; [congruence | reflexivity]. }
  assert (Hstart : len t <= ls_start st).
  { subst st. rewrite loop_body_start. cbv zeta. rewrite Hcut.
    destruct (_ && _); lia. }
  rewrite <- Hchunks. destruct fuel; simpl;
    destruct (Z.ltb_spec (ls_start st) (len t)); try lia; reflexivity.
Qed.

Lemma create_chunks_short_text_witness :
  _create_chunks 1 default_rag "  Art. 5  Haftung. " "d" ∅ =
    Some [make_chunk "d" ∅ (chars "Art. 5 Haftung.") 0 0 3200] /\
  _create_chunks 0 default_rag "   " "d" ∅ = Some [].
Proof.
  split.
  - apply (create_chunks_short_text default_rag "  Art. 5  Haftung. " "d" ∅).
    + vm_compute. discriminate.
    + vm_compute. discriminate.
    + vm_compute. discriminate.
  - apply (create_chunks_short_text default_rag "   " "d" ∅). reflexivity.
Defined.

(** A negative overlap can lose the tail of a text that is longer than the
    window: the one chunk of "abcdefghij" under a window of 4 characters
    and an overlap of -12 is "abcd". *)
Example create_chunks_negative_overlap :
  let cfg := {| chunk_size := 1; chunk_overlap := -3; top_k_local := 5;
                top_k_api := 12; top_k_results := 5;
                similarity_threshold := 1 # 2; collection_prefix := "sp_kb_" |} in
  option_map (map chunk_content) (_create_chunks 10 cfg "abcdefghij" "d" ∅) =
    Some ["abcd"%string].
Proof. vm_compute. reflexivity. Qed.

(** X5. After normalisation the text holds no whitespace but single space
    characters between other characters, so a newline never ends a chunk:
    the fourth terminator of the loop is never found, and every cut is the
    one computed from [". "], ["! "] and ["? "] alone. *)
Theorem newline_never_cuts (text : string) :
  let t := normalize (chars text) in
  (forall c, c ∈ t -> is_space c = true -> c = " "%char) /\
  (forall i a b, t !! i = Some a -> t !! S i = Some b ->
                 is_space a = true -> is_space b = false) /\
  (forall c, head t = Some c \/ last t = Some c -> is_space c = false) /\
  forall w start,
    rfind (search_region t w start) newline = -1 /\
    cut_end t w start =
      if start + w <? len t
      then snap sentence_ends (search_region t w start)
             (search_start_of w start) (start + w)
      else start + w.
Proof.
  intros t. pose proof (normalize_single_blanks (chars text)) as Hsb. fold t in Hsb.
  assert (Hnl : forall w start, rfind (search_region t w start) newline = -1).
  { intros w start. apply rfind_newline_missing. intros Hin.
    apply slice_elem in Hin.
    pose proof (single_blanks_elem _ _ _ Hsb Hin eq_refl). discriminate. }
  split; [|split; [|split]].
  - intros c. now apply single_blanks_elem with (b := false).
  - intros i a b. now apply single_blanks_adjacent with (b := false).
  - intros c [Hc|Hc]; [eapply normalize_head | eapply normalize_last]; eauto.
  - intros w start. split; [apply Hnl|].
    unfold cut_end. destruct (start + w <? len t); [|reflexivity].
    apply snap_without_newline, Hnl.
Qed.

(** A no-break space and a next-line character are whitespace as well. *)
Example normalize_no_break_space :
  str (normalize (chars (String "160"%char "Art." +:+
                         String "133"%char (String "160"%char "5")))) =
    "Art. 5"%string.
Proof. reflexivity. Qed.

(** X6. An overlap of a full window or more makes the loop run forever on a
    text longer than the overlap: with [chunk_size >= 1] and
    [window <= overlap < len(normalised text)], [start] never reaches the end
    of the text, whatever the number of iterations. *)
Theorem create_chunks_diverges
    (cfg : RAGConfig) (text doc : string) (meta : Meta) :
  1 <= chunk_size cfg ->
  chunk_chars cfg <= overlap_chars cfg ->
  overlap_chars cfg < len (normalize (chars text)) ->
  forall fuel, _create_chunks fuel cfg text doc meta = None.
Proof.
  intros Hsz Hov Hlen fuel.
  assert (Hw : 4 <= chunk_chars cfg) by (unfold chunk_chars, chars_per_token; lia).
  unfold _create_chunks. destruct (strip (chars text)) as [|a0 r0] eqn:Hs.
  { rewrite (normalize_blank _ Hs) in Hlen. unfold len in Hlen. simpl in Hlen. lia. }
  remember (normalize (chars text)) as t eqn:Et.
  assert (Hhead : exists a r, t = a :: r /\ is_space a = false).
  { destruct t as [|a r]; [unfold len in Hlen; simpl in Hlen; lia|].
    exists a, r. split; [reflexivity|].
    apply (normalize_head (chars text)). now rewrite <- Et. }
  destruct Hhead as (a & r & Ht & Ha).
  apply (chunk_loop_runs cfg t doc meta
           (fun st => 0 <= ls_start st <= overlap_chars cfg /\ 0 <= ls_index st /\
                      (ls_index st = 0 -> ls_start st = 0))).
  - simpl. repeat split; lia.
  - intros st (Hst & Hidx & Hfirst). split; [lia|].
    pose proof (DocumentProcessorProofs.cut_end_bounds t (chunk_chars cfg) (ls_start st)
                  ltac:(lia)) as [Hcut Hle].
    pose proof (DocumentProcessorProofs.cut_end_ge t (chunk_chars cfg) (ls_start st)
                  ltac:(lia)) as Hge.
    pose proof (DocumentProcessorProofs.int_08_bounds (chunk_chars cfg) ltac:(lia)) as H08.
    fold (cut_of cfg t st) in Hcut, Hle, Hge.
    assert (Hemit : ls_index st = 0 -> emitted cfg t doc meta st <> []).
    { intros H0. specialize (Hfirst H0). unfold emitted, body_of.
      assert (Hone : 1 <= cut_of cfg t st).
      { unfold search_start_of in Hcut. destruct Hcut; lia. }
      rewrite Hfirst in *.
      destruct (slice_head t (cut_of cfg t st) a r Hone Ht) as [r' Hr'].
      unfold cut_of in Hr' |- *. rewrite Hfirst in Hr' |- *. rewrite Hr'.
      rewrite (strip_cons_solid a r' Ha). discriminate. }
    assert (Hidx' : 0 < ls_index (loop_body cfg t doc meta st)).
    { rewrite loop_body_index. destruct (Z.eq_dec (ls_index st) 0) as [H0|]; [|lia].
      specialize (Hemit H0). destruct (emitted cfg t doc meta st); [congruence|].
      simpl length. lia. }
    rewrite loop_body_start. cbv zeta.
    destruct (Z.leb_spec (cut_of cfg t st - overlap_chars cfg) 0) as [Hjump|Hback];
      destruct (Z.ltb_spec 0 (ls_index (loop_body cfg t doc meta st)));
      cbn [andb]; repeat split; lia.
Qed.

(** A window and an overlap of 4 characters each. *)
Definition full_overlap_cfg : RAGConfig := {|
  chunk_size := 1;
  chunk_overlap := 1;
  top_k_local := 5;
  top_k_api := 12;
  top_k_results := 5;
  similarity_threshold := 1 # 2;
  collection_prefix := "sp_kb_"
|}.

Lemma create_chunks_diverges_witness :
  _create_chunks 1000 full_overlap_cfg "abcdefgh" "d" ∅ = None.
Proof.
  apply (create_chunks_diverges full_overlap_cfg "abcdefgh" "d" ∅).
  - vm_compute. discriminate.
  - vm_compute. discriminate.
  - vm_compute. reflexivity.
Defined.

End ChunkingProofs.

(** ** import_baloise_produkte.py: the chunker of the product import *)

Module ProductImport.
Import Py DocumentProcessor.

(** One iteration of [while start < len(text)]: the chunks appended and the
    next [start]. *)
Definition window (text : list ascii) (chunk_size start : Z) : list string :=
  let end_ := start + chunk_size in
  let chunk_text := slice text start end_ in
  match strip chunk_text with
  | [] => []
  | _ :: _ => [str chunk_text]
  end.

(** The [while] loop; [None] when it is still running after [fuel]
    iterations. *)
Fixpoint text_to_chunks_loop (fuel : nat) (text : list ascii)
    (chunk_size overlap start : Z) (chunks : list string) : option (list string) :=
  if start <? len text then
    match fuel with
    | O => None
    | S fuel' =>
        let end_ := start + chunk_size in
        text_to_chunks_loop fuel' text chunk_size overlap (end_ - overlap)
          (chunks ++ window text chunk_size start)
    end
  else Some chunks.

(** [text_to_chunks(text, chunk_size, overlap)] *)
Definition text_to_chunks (fuel : nat) (text : string) (chunk_size overlap : Z)
    : option (list string) :=
  text_to_chunks_loop fuel (chars text) chunk_size overlap 0 [].

End ProductImport.

Module ProductImportProofs.
Import Py DocumentProcessor ProductImport.

(** The starts of the windows: [count] multiples of [step] from [start]. *)
Fixpoint starts (count : nat) (start step : Z) : list Z :=
  match count with
  | O => []
  | S n => start :: starts n (start + step) step
  end.

(** The number of windows that start before the end of the text. *)
Definition window_count (length step : Z) : nat := Z.to_nat ((length + step - 1) / step).

Lemma loop_closed_form fuel text chunk_size overlap start chunks :
  0 < chunk_size - overlap -> 0 <= start ->
  (window_count (len text - start) (chunk_size - overlap) <= fuel)%nat ->
  text_to_chunks_loop fuel text chunk_size overlap start chunks =
    Some (chunks ++
          flat_map (window text chunk_size)
            (starts (window_count (len text - start) (chunk_size - overlap))
               start (chunk_size - overlap))).
Proof.
  intros Hstep. revert start chunks.
  induction fuel as [|fuel IH]; intros start chunks Hstart Hfuel.
  - simpl. destruct (Z.ltb_spec start (len text)) as [Hlt|Hge].
    + exfalso. unfold window_count in Hfuel.
      assert (1 <= (len text - start + (chunk_size - overlap) - 1) / (chunk_size - overlap)).
      { clear Hfuel. apply Z.div_le_lower_bound; lia. }
      revert Hfuel H. generalize ((len text - start + (chunk_size - overlap) - 1)
                                  / (chunk_size - overlap)). lia.
    + clear Hfuel. unfold window_count.
      rewrite Z2Nat.nonpos; [simpl; now rewrite app_nil_r|].
      apply Z.lt_succ_r. apply Z.div_lt_upper_bound; lia.
  - simpl. destruct (Z.ltb_spec start (len text)) as [Hlt|Hge].
    + assert (Hcount : window_count (len text - start) (chunk_size - overlap) =
                       S (window_count (len text - (start + chunk_size - overlap))
                            (chunk_size - overlap))).
      { clear Hfuel IH. unfold window_count.
        replace (len text - start + (chunk_size - overlap) - 1)
          with (len text - (start + chunk_size - overlap) + (chunk_size - overlap) - 1
                + 1 * (chunk_size - overlap)) by lia.
        rewrite Z.div_add by lia.
        assert (0 <= (len text - (start + chunk_size - overlap) + (chunk_size - overlap) - 1)
                     / (chunk_size - overlap)) by (apply Z.div_pos; lia).
        revert H. generalize ((len text - (start + chunk_size - overlap)
                               + (chunk_size - overlap) - 1) / (chunk_size - overlap)).
        intros z Hz. rewrite Z2Nat.inj_add by lia. simpl. lia. }
      rewrite Hcount in Hfuel |- *. rewrite IH by lia.
      simpl. rewrite <- app_assoc.
      replace (start + chunk_size - overlap) with (start + (chunk_size - overlap)) by lia.
      reflexivity.
    + clear Hfuel. unfold window_count.
      rewrite Z2Nat.nonpos; [simpl; now rewrite app_nil_r|].
      apply Z.lt_succ_r. apply Z.div_lt_upper_bound; lia.
Qed.

Lemma window_count_le length step :
  0 < step -> 0 <= length -> (window_count length step <= Z.to_nat length)%nat.
Proof.
  intros Hs Hl. unfold window_count. apply Z2Nat.inj_le; [|lia|].
  - apply Z.div_pos; lia.
  - apply Z.lt_succ_r. apply Z.div_lt_upper_bound; nia.
Qed.

Lemma loop_runs fuel text chunk_size overlap start chunks :
  chunk_size <= overlap -> start <= 0 -> 0 < len text ->
  text_to_chunks_loop fuel text chunk_size overlap start chunks = None.
Proof.
  intros Hstep. revert start chunks.
  induction fuel as [|fuel IH]; intros start chunks Hstart Hlen; simpl;
    destruct (Z.ltb_spec start (len text)); try lia; [reflexivity|].
  apply IH; lia.
Qed.

Lemma starts_seq count start step :
  starts count start step = map (fun k => start + Z.of_nat k * step) (seq 0 count).
Proof.
  revert start. induction count as [|n IH]; intros start; [reflexivity|].
  cbn [starts seq map]. f_equal; [lia|]. rewrite IH, <- seq_shift, map_map.
  apply map_ext. intros k. lia.
Qed.

(** X7. [text_to_chunks] returns exactly when [overlap < chunk_size] (or the
    text is empty).  Then, given as many iterations as the text has
    characters, its chunks are the windows [text[k*step : k*step + chunk_size]]
    for [step = chunk_size - overlap] and [k = 0, 1, ...] as long as
    [k*step < len(text)], in this order, those holding only whitespace left
    out.  With [overlap >= chunk_size] and a non-empty text the loop never
    ends, whatever the number of iterations. *)
Theorem text_to_chunks_windows (text : string) (chunk_size overlap : Z) :
  let step := chunk_size - overlap in
  (overlap < chunk_size ->
   forall fuel, (String.length text <= fuel)%nat ->
     text_to_chunks fuel text chunk_size overlap =
       Some (flat_map (fun k => window (chars text) chunk_size (Z.of_nat k * step))
               (seq 0 (window_count (len (chars text)) step)))) /\
  (chunk_size <= overlap -> text <> ""%string ->
   forall fuel, text_to_chunks fuel text chunk_size overlap = None).
Proof.
  intros step. split.
  - intros Hstep fuel Hfuel. unfold text_to_chunks.
    rewrite loop_closed_form; [| lia | lia |].
    + rewrite Z.sub_0_r, starts_seq. cbn [app]. f_equal.
      rewrite flat_map_concat_map, map_map, <- flat_map_concat_map. reflexivity.
    + rewrite Z.sub_0_r. etransitivity; [apply window_count_le; unfold len; lia|].
      unfold len. rewrite Nat2Z.id, DocumentProcessorProofs.chars_length. exact Hfuel.
  - intros Hstep Hne fuel. unfold text_to_chunks. apply loop_runs; [lia | lia |].
    destruct text; [congruence|]. unfold len. simpl. lia.
Qed.

Example text_to_chunks_run :
  text_to_chunks 10 "abcdefghij" 4 1 = Some ["abcd"; "defg"; "ghij"; "j"]%string.
Proof. reflexivity. Qed.

End ProductImportProofs.

(** ** rag_engine.py: [BM25Index.tokenize]

    Here one [ascii] is one code point below 256, so that the umlauts the
    tokenizer rewrites are single characters. *)

Module Tokenizer.
Import Py.

Definition between (lo hi n : nat) : bool := (lo <=? n)%nat && (n <=? hi)%nat.

(** [str.lower] on one code point: the letters [A-Z] and the capital
    letters 192..222 (without the multiplication sign 215) move up by 32. *)
Definition lower_code_point (c : ascii) : ascii :=
  let n := nat_of_ascii c in
  if between 65 90 n || (between 192 222 n && negb (n =? 215)%nat)
  then ascii_of_nat (n + 32) else c.

(** [.replace('ä', 'ae').replace('ö', 'oe').replace('ü', 'ue').replace('ß', 'ss')]
    on one character; no replacement produces a character a later one
    rewrites. *)
Definition replace_umlaut (c : ascii) : list ascii :=
  let n := nat_of_ascii c in
  if (n =? 228)%nat then chars "ae"
  else if (n =? 246)%nat then chars "oe"
  else if (n =? 252)%nat then chars "ue"
  else if (n =? 223)%nat then chars "ss"
  else [c].

(** The class [[a-z0-9]] of the pattern. *)
Definition is_token_char (c : ascii) : bool :=
  let n := nat_of_ascii c in between 97 122 n || between 48 57 n.

(** [\w] of a [str] pattern: letters, digits and other numeric characters,
    and the underscore. *)
Definition is_word_char (c : ascii) : bool :=
  let n := nat_of_ascii c in
  between 48 57 n || between 65 90 n || between 97 122 n || (n =? 95)%nat ||
  (n =? 170)%nat || (n =? 178)%nat || (n =? 179)%nat || (n =? 181)%nat ||
  (n =? 185)%nat || (n =? 186)%nat || between 188 190 n ||
  between 192 214 n || between 216 246 n || between 248 255 n.

(** Where the scan of [re.findall(r'\b[a-z0-9]{2,}\b', text)] stands:
    outside of any word; in a word made of [[a-z0-9]] only so far, [cur]; or
    in a word that holds another word character.  A match starts at a word
    boundary and must end at one, and [[a-z0-9]] are word characters, so a
    match is a whole maximal run of word characters: a run with another
    word character in it gives no match at all. *)
Inductive Scan : Type :=
  | Outside
  | InToken (cur : list ascii)
  | InJunk.

(** The match the run that just ended gives. *)
Definition close (s : Scan) : list (list ascii) :=
  match s with
  | InToken cur => if (2 <=? length cur)%nat then [cur] else []
  | _ => []
  end.

Fixpoint findall (s : Scan) (l : list ascii) : list (list ascii) :=
  match l with
  | [] => close s
  | c :: r =>
      if is_token_char c then
        match s with
        | Outside => findall (InToken [c]) r
        | InToken cur => findall (InToken (cur ++ [c])) r
        | InJunk => findall InJunk r
        end
      else if is_word_char c then findall InJunk r
      else close s ++ findall Outside r
  end.

Definition GERMAN_STOPWORDS : list string := [
  "der"; "die"; "das"; "den"; "dem"; "des"; "ein"; "eine"; "einer"; "eines";
  "einem"; "einen"; "und"; "oder"; "aber"; "wenn"; "weil"; "dass"; "als";
  "ob"; "falls"; "auch"; "nur"; "noch"; "schon"; "wieder"; "immer"; "sehr";
  "mehr"; "viel"; "hier"; "dort"; "da"; "nun"; "dann"; "also"; "doch"; "ja";
  "nein"; "gut"; "neu"; "alt"; "gross"; "klein"; "lang"; "kurz"; "jetzt";
  "heute"; "ist"; "sind"; "war"; "waren"; "wird"; "werden"; "wurde";
  "wurden"; "hat"; "haben"; "hatte"; "hatten"; "kann";
  "k" +:+ String "246"%char "" +:+ "nnen"; "konnte"; "konnten"; "muss";
  "m" +:+ String "252"%char "" +:+ "ssen"; "musste"; "mussten"; "soll";
  "sollen"; "sollte"; "sollten"; "will"; "wollen"; "wollte"; "wollten";
  "darf"; "d" +:+ String "252"%char "" +:+ "rfen"; "durfte"; "durften";
  "sein"; "seine"; "seiner"; "seinem"; "seinen"; "seines"; "ich"; "du"; "er";
  "sie"; "es"; "wir"; "ihr"; "sich"; "mich"; "dich"; "ihn"; "ihm"; "ihnen";
  "uns"; "euch"; "mir"; "dir"; "am"; "im"; "zum"; "zur"; "mein"; "dein";
  "unser"; "euer"; "eure"; "eurer"; "eurem"; "euren"; "dieser"; "diese";
  "dieses"; "diesem"; "diesen"; "jener"; "jene"; "jenes"; "welcher";
  "welche"; "welches"; "welchem"; "welchen"; "mit"; "bei"; "nach"; "von";
  "zu"; "aus"; "in"; "an"; "auf"; "f" +:+ String "252"%char "" +:+ "r";
  String "252"%char "" +:+ "ber"; "unter"; "vor"; "hinter"; "neben";
  "zwischen"; "durch"; "gegen"; "ohne"; "um"; "bis"; "seit";
  "w" +:+ String "228"%char "" +:+ "hrend"; "wegen"; "trotz"; "samt";
  "nebst"; "nicht"; "kein"; "keine"; "keiner"; "keines"; "keinem"; "keinen";
  "nichts"; "so"; "wie"; "was"; "wer"; "wo"; "wann"; "warum"; "weshalb";
  "woher"; "wohin"; "alle"; "allem"; "allen"; "aller"; "alles"; "andere";
  "anderem"; "anderen"; "anderer"; "anderes"; "beide"; "beiden"; "beider";
  "beides"; "etwa"; "etwas"; "man"; "mehr"; "meist"; "meisten"; "viele";
  "vielen"; "wenig"; "wenige"; "weniger"; "wenigsten"; "url"; "http";
  "https"; "www"; "html"; "htm"; "php"; "asp"; "aspx"; "jsp"; "com"; "org";
  "net"; "edu"; "gov"; "info"; "ch"; "de"; "at"; "li"; "fuer"; "ueber";
  "waehrend"; "koennen"; "koennten"; "muessen"; "muessten"; "duerfen";
  "duerften"; "wuerden"; "wuerde"; "grosse"; "grosser"; "grossem";
  "aehnlich"; "aehnliche"; "naechste"; "naechsten"; "naechster"; "gescrapt";
  "scraping"; "oeffnen"; "schliessen"; "klicken"; "button"; "navigation";
  "menu"; "footer"; "header"; "sidebar"; "cookie"; "cookies"; "datenschutz";
  "impressum"; "agb"; "kontakt"; "suche"; "suchen"; "seite"; "seiten";
  "weiter"; "zurueck"; "home"; "startseite"; "januar"; "februar"; "maerz";
  "april"; "mai"; "juni"; "juli"; "august"; "september"; "oktober";
  "november"; "dezember"; "montag"; "dienstag"; "mittwoch"; "donnerstag";
  "freitag"; "samstag"; "sonntag"
]%string.

(** [BM25Index.tokenize] *)
Definition tokenize (text : string) : list string :=
  let text := map lower_code_point (chars text) in
  let text := flat_map replace_umlaut text in
  let tokens := map str (findall Outside text) in
  List.filter (fun t => negb (bool_decide (t ∈ GERMAN_STOPWORDS))) tokens.

End Tokenizer.

Module TokenizerProofs.
Import Py Tokenizer.

Lemma between_spec lo hi n : between lo hi n = true <-> (lo <= n <= hi)%nat.
Proof.
  unfold between. rewrite andb_true_iff, !Nat.leb_le. reflexivity.
Qed.

(** What is not a word character is no token character, and is left alone
    by the two rewriting steps. *)
Lemma separator_untouched c :
  is_word_char c = false ->
  is_token_char c = false /\ lower_code_point c = c /\ replace_umlaut c = [c].
Proof.
  destruct c as [[] [] [] [] [] [] [] []]; vm_compute; intros H;
    try discriminate H; repeat split; reflexivity.
Qed.

(** A token character is a word character, and is left alone by the two
    rewriting steps. *)
Lemma token_char_untouched c :
  is_token_char c = true ->
  is_word_char c = true /\ lower_code_point c = c /\ replace_umlaut c = [c].
Proof.
  destruct c as [[] [] [] [] [] [] [] []]; vm_compute; intros H;
    try discriminate H; repeat split; reflexivity.
Qed.

Definition token_chars (t : list ascii) : Prop :=
  Forall (fun c => is_token_char c = true) t.

Definition scan_ok (s : Scan) : Prop :=
  match s with
  | InToken cur => token_chars cur
  | _ => True
  end.

Lemma close_tokens s t :
  scan_ok s -> t ∈ close s -> (2 <= length t)%nat /\ token_chars t.
Proof.
  destruct s as [|cur|]; cbn [close scan_ok].
  - intros _ H. inversion H.
  - intros Hcur. destruct (Nat.leb_spec 2 (length cur)) as [Hlen|Hlen];
      [|intros Hin; inversion Hin].
    intros ->%list_elem_of_singleton. auto.
  - intros _ H. inversion H.
Qed.

Lemma findall_tokens s l t :
  scan_ok s -> t ∈ findall s l -> (2 <= length t)%nat /\ token_chars t.
Proof.
  revert s. induction l as [|c r IH]; intros s Hs; simpl.
  - now apply close_tokens.
  - destruct (is_token_char c) eqn:Hc.
    + destruct s as [|cur|]; apply IH; simpl; auto.
      * constructor; [exact Hc | constructor].
      * apply Forall_app. split; [exact Hs|]. constructor; [exact Hc | constructor].
    + destruct (is_word_char c); [apply IH; exact I|].
      intros [H|H]%elem_of_app; [now apply (close_tokens s) | now apply (IH Outside)].
Qed.

(** The scan starts afresh after a character that is no word character. *)
Lemma findall_app_separator s l1 c l2 :
  is_word_char c = false ->
  findall s (l1 ++ c :: l2) = findall s l1 ++ findall Outside l2.
Proof.
  intros Hc. destruct (separator_untouched c Hc) as (Ht & _ & _).
  revert s. induction l1 as [|a l1 IH]; intros s; simpl.
  - now rewrite Ht, Hc.
  - destruct (is_token_char a).
    + destruct s; apply IH.
    + destruct (is_word_char a); [apply IH|]. now rewrite IH, app_assoc.
Qed.

Lemma findall_in_token cur t :
  token_chars t -> findall (InToken cur) t = close (InToken (cur ++ t)).
Proof.
  intros Ht. revert cur. induction Ht as [|c t Hc _ IH]; intros cur.
  - now rewrite app_nil_r.
  - cbn [findall]. rewrite Hc, IH, <- app_assoc. reflexivity.
Qed.

(** A run of at least two token characters is matched as a whole. *)
Lemma findall_token t :
  (2 <= length t)%nat -> token_chars t -> findall Outside t = [t].
Proof.
  intros Hlen Ht. destruct t as [|c t]; [simpl in Hlen; lia|].
  inversion Ht as [|? ? Hc Ht']; subst. cbn [findall]. rewrite Hc.
  rewrite (findall_in_token [c] t Ht'). simpl.
  destruct t; [simpl in Hlen; lia | reflexivity].
Qed.

Lemma chars_append (a b : string) : chars (a +:+ b) = chars a ++ chars b.
Proof. induction a as [|c a IH]; simpl; [reflexivity | now rewrite IH]. Qed.

(** The text the pattern is matched on. *)
Definition rewritten (text : string) : list ascii :=
  flat_map replace_umlaut (map lower_code_point (chars text)).

Definition keep (t : string) : bool := negb (bool_decide (t ∈ GERMAN_STOPWORDS)).

Lemma tokenize_unfold text :
  tokenize text = List.filter keep (map str (findall Outside (rewritten text))).
Proof. reflexivity. Qed.

Lemma rewritten_token t : token_chars (chars t) -> rewritten t = chars t.
Proof.
  unfold rewritten. generalize (chars t). intros l Hl.
  induction Hl as [|c l Hc _ IH]; [reflexivity|].
  destruct (token_char_untouched c Hc) as (_ & Hlow & Hrep).
  cbn [map flat_map]. rewrite Hlow, Hrep, IH. reflexivity.
Qed.

Lemma rewritten_separator a c b :
  is_word_char c = false ->
  rewritten (a +:+ String c b) = rewritten a ++ c :: rewritten b.
Proof.
  intros Hc. destruct (separator_untouched c Hc) as (_ & Hlow & Hrep).
  unfold rewritten. rewrite chars_append. cbn [chars list_ascii_of_string].
  rewrite map_app, flat_map_app. cbn [map flat_map]. now rewrite Hlow, Hrep.
Qed.

Lemma str_chars (s : string) : str (chars s) = s.
Proof. apply string_of_list_ascii_of_string. Qed.

Definition is_token (t : string) : Prop :=
  (2 <= String.length t)%nat /\ token_chars (chars t) /\ t ∉ GERMAN_STOPWORDS.

Lemma tokenize_elem text t : t ∈ tokenize text -> is_token t.
Proof.
  rewrite tokenize_unfold. intros Ht.
  apply list_elem_of_In, filter_In in Ht as [Ht Hkeep].
  apply in_map_iff in Ht as (l & <- & Hl). apply list_elem_of_In in Hl.
  apply (findall_tokens Outside) in Hl as [Hlen Htok]; [|exact I].
  split; [now rewrite DocumentProcessorProofs.str_length|].
  split; [now rewrite ChunkingProofs.chars_str|].
  unfold keep in Hkeep. apply negb_true_iff, bool_decide_eq_false in Hkeep. exact Hkeep.
Qed.

Lemma tokenize_token t : is_token t -> tokenize t = [t].
Proof.
  intros (Hlen & Htok & Hstop). rewrite tokenize_unfold, (rewritten_token t Htok).
  rewrite findall_token; [|now rewrite DocumentProcessorProofs.chars_length | exact Htok].
  cbn [map List.filter]. rewrite str_chars. unfold keep.
  rewrite bool_decide_eq_false_2 by exact Hstop. reflexivity.
Qed.

Lemma tokenize_separator a c b :
  is_word_char c = false ->
  tokenize (a +:+ String c b) = tokenize a ++ tokenize b.
Proof.
  intros Hc. rewrite !tokenize_unfold, (rewritten_separator a c b Hc).
  rewrite (findall_app_separator Outside _ c _ Hc), map_app.
  apply List.filter_app.
Qed.

(** X8. Every token [BM25Index.tokenize] returns has at least two
    characters, all of them lower-case ASCII letters or digits, and is no
    stop word; and a text is tokenized piece by piece between characters that
    are no word characters (blanks, punctuation): the tokens of
    [a + c + b] are those of [a] followed by those of [b]. *)
Theorem tokenize_tokens (text : string) :
  Forall (fun t =>
            (2 <= String.length t)%nat /\
            Forall (fun c => is_token_char c = true) (chars t) /\
            t ∉ GERMAN_STOPWORDS)
         (tokenize text) /\
  forall a c b,
    text = a +:+ String c b -> is_word_char c = false ->
    tokenize text = tokenize a ++ tokenize b.
Proof.
  split.
  - apply Forall_forall. intros t Ht. exact (tokenize_elem text t Ht).
  - intros a c b -> Hc. now apply tokenize_separator.
Qed.

(** X9. Tokenizing is stable: joining the tokens of a text with blanks and
    tokenizing again gives the same tokens, so a query built from indexed
    tokens is looked up under exactly these tokens. *)
Theorem tokenize_idempotent (text : string) :
  tokenize (join " " (tokenize text)) = tokenize text.
Proof.
  assert (Hall : Forall is_token (tokenize text)).
  { apply Forall_forall. intros t. apply tokenize_elem. }
  induction Hall as [|t l Ht Hl IH]; [reflexivity|].
  destruct l as [|t' l'].
  - simpl. now apply tokenize_token.
  - change (join " " (t :: t' :: l')) with (t +:+ String " " (join " " (t' :: l'))).
    rewrite tokenize_separator by reflexivity.
    rewrite IH, (tokenize_token t Ht). reflexivity.
Qed.

Example tokenize_run :
  tokenize "Was ist die Kuendigungsfrist fuer den Arbeitsvertrag? Art. 335c OR, ab_cd x" =
    ["kuendigungsfrist"; "arbeitsvertrag"; "art"; "335c"; "or"]%string.
Proof. vm_compute. reflexivity. Qed.

(** "Schäden für Straße Ärzte", the umlauts as single code points. *)
Example tokenize_umlauts :
  tokenize ("Sch" +:+ String "228"%char "den f" +:+ String "252"%char "r Stra"
            +:+ String "223"%char "e " +:+ String "196"%char "rzte") =
    ["schaeden"; "strasse"; "aerzte"]%string.
Proof. vm_compute. reflexivity. Qed.

End TokenizerProofs.

(** ** rag_engine.py: properties of [BM25Index] *)

Module Bm25IndexProofs.
Import Py Data Config Embeddings RagEngine.

(** The [BM25Okapi] object is the one built over the stored corpus. *)
Definition in_step (i : BM25Index) : Prop :=
  bm25 i = match tokenized_corpus i with
           | [] => None
           | c => Some c
           end.

(** Identifiers, documents and token lists stand side by side. *)
Definition aligned (i : BM25Index) : Prop :=
  length (doc_ids i) = length (documents i) /\
  length (documents i) = length (tokenized_corpus i) /\
  in_step i.

Lemma scorer_of_in_step corpus otherwise b :
  scorer_of corpus otherwise = Ok b ->
  b = match corpus with
      | [] => otherwise
      | c => Some c
      end.
Proof.
  unfold scorer_of, BM25Okapi. destruct corpus as [|d c]; [now intros [= <-]|].
  destruct (concat (d :: c)); simpl; [discriminate | now intros [= <-]].
Qed.

(** The constructor of the scorer raises [ZeroDivisionError], and it does
    so exactly on a corpus that has documents and no token. *)
Lemma scorer_of_raises corpus otherwise e :
  scorer_of corpus otherwise = Raise e <->
  e = ZeroDivisionError /\ corpus <> [] /\ concat corpus = [].
Proof.
  unfold scorer_of, BM25Okapi. destruct corpus as [|d c].
  - split; [discriminate | intros (_ & H & _); congruence].
  - destruct (concat (d :: c)) eqn:Hc; simpl.
    + split; [intros [= <-]; now repeat split | now intros (-> & _)].
    + split; [discriminate | intros (_ & _ & H); discriminate].
Qed.

Lemma build_index_in_step w st i ids docs built st' :
  build_index w st i ids docs = Ok (built, st') -> in_step built.
Proof.
  unfold in_step, build_index.
  destruct (scorer_of _ None) as [b|e] eqn:Hb; simpl; [|discriminate].
  intros [= <- _]. simpl. apply scorer_of_in_step in Hb. rewrite Hb.
  now destruct (map (tokenize w) docs).
Qed.

Lemma add_documents_in_step w st i ids docs extended st' :
  add_documents w st i ids docs = (Ok tt, (extended, st')) ->
  in_step i -> in_step extended.
Proof.
  unfold in_step, add_documents.
  destruct (scorer_of _ (bm25 i)) as [b|e] eqn:Hb; [|discriminate].
  intros [= <- _] Hi. simpl. apply scorer_of_in_step in Hb. rewrite Hb.
  destruct (tokenized_corpus i ++ map (tokenize w) docs) eqn:Hc; [|reflexivity].
  apply app_eq_nil in Hc as [Hc _]. now rewrite Hi, Hc.
Qed.

Lemma build_index_aligned w st i ids docs built st' :
  build_index w st i ids docs = Ok (built, st') ->
  length ids = length docs -> aligned built.
Proof.
  intros Hb Hlen. split; [|split; [|eapply build_index_in_step; eauto]];
    unfold build_index in Hb;
    destruct (scorer_of _ None); simpl in Hb; try discriminate;
    injection Hb as <- _; simpl; [exact Hlen | now rewrite length_map].
Qed.

Lemma add_documents_aligned w st i ids docs extended st' :
  add_documents w st i ids docs = (Ok tt, (extended, st')) ->
  aligned i -> length ids = length docs ->
  aligned extended.
Proof.
  intros Ha (H1 & H2 & H3) Hlen.
  split; [|split; [|eapply add_documents_in_step; eauto]];
    unfold add_documents in Ha;
    destruct (scorer_of _ (bm25 i)); try discriminate;
    injection Ha as <- _; simpl; rewrite !length_app, ?length_map; lia.
Qed.

(** X10. The index file [build_index] and [add_documents] write is read
    back by [load_index] into a fresh index for the same knowledge base as
    the same identifiers, documents and token lists; the whole index,
    including the [BM25Okapi] object, is the same after [build_index], and
    after [add_documents] when the object was in step with the corpus
    before.  The two methods raise only [ZeroDivisionError], on a corpus
    that has documents and no token, and then write no file. *)
Theorem index_save_load
    (w : World) (st : Engine) (i : BM25Index) (ids docs : list string) :
  match build_index w st i ids docs with
  | Ok (built, st') => load_index st' (new_index (kb_id i)) = Some built
  | Raise e =>
      e = ZeroDivisionError /\ docs <> [] /\ concat (map (tokenize w) docs) = []
  end /\
  match add_documents w st i ids docs with
  | (Ok _, (extended, st')) =>
      exists reloaded,
        load_index st' (new_index (kb_id i)) = Some reloaded /\
        doc_ids reloaded = doc_ids i ++ ids /\
        documents reloaded = documents i ++ docs /\
        tokenized_corpus reloaded = tokenized_corpus i ++ map (tokenize w) docs /\
        (in_step i -> reloaded = extended)
  | (Raise e, (_, st')) =>
      e = ZeroDivisionError /\ st' = st /\
      tokenized_corpus i ++ map (tokenize w) docs <> [] /\
      concat (tokenized_corpus i ++ map (tokenize w) docs) = []
  end.
Proof.
  split.
  - unfold build_index.
    destruct (scorer_of (map (tokenize w) docs) None) as [b|e] eqn:Hb; simpl.
    + unfold load_index, _save_index. simpl. rewrite lookup_insert_eq. simpl.
      rewrite (scorer_of_in_step _ _ _ Hb).
      destruct (map (tokenize w) docs) as [|d c] eqn:Hc; [reflexivity|].
      unfold scorer_of in Hb |- *.
      destruct (BM25Okapi (d :: c)) as [b'|e] eqn:Hok; simpl in *; [|discriminate].
      unfold BM25Okapi in Hok. destruct (concat (d :: c)); [discriminate|].
      now injection Hok as <-.
    + apply scorer_of_raises in Hb as (-> & Hne & Hc). repeat split; [|exact Hc].
      intros ->. now apply Hne.
  - unfold add_documents.
    destruct (scorer_of _ (bm25 i)) as [b|e] eqn:Hb.
    + unfold load_index, _save_index. simpl. rewrite lookup_insert_eq. simpl.
      pose proof (scorer_of_in_step _ _ _ Hb) as Hstep.
      set (corpus := tokenized_corpus i ++ map (tokenize w) docs) in *.
      assert (Hload : scorer_of corpus None =
                      Ok (match corpus with [] => None | c => Some c end)).
      { unfold scorer_of in Hb |- *. destruct corpus as [|d c]; [reflexivity|].
        destruct (BM25Okapi (d :: c)) as [b'|e] eqn:Hok; simpl in *; [|discriminate].
        unfold BM25Okapi in Hok. destruct (concat (d :: c)); [discriminate|].
        now injection Hok as <-. }
      rewrite Hload. eexists. split; [reflexivity|]. simpl. repeat split.
      intros Hi. f_equal. rewrite Hstep.
      destruct corpus eqn:Hc; [|reflexivity].
      apply app_eq_nil in Hc as [Hc _]. unfold in_step in Hi. now rewrite Hi, Hc.
    + apply scorer_of_raises in Hb as (-> & Hne & Hc). now repeat split.
Qed.

(** X11. Adding documents to a built index gives the index, and the index
    file, that building over all documents at once gives; and adding them
    raises exactly when building over all documents raises. *)
Theorem add_documents_is_rebuild
    (w : World) (st : Engine) (i built : BM25Index) (st1 : Engine)
    (ids1 docs1 ids2 docs2 : list string) :
  build_index w st i ids1 docs1 = Ok (built, st1) ->
  match add_documents w st1 built ids2 docs2,
        build_index w st i (ids1 ++ ids2) (docs1 ++ docs2) with
  | (Ok _, (extended, st2)), Ok (rebuilt, st3) =>
      extended = rebuilt /\
      index_files st2 !! kb_id i = index_files st3 !! kb_id i /\
      index_files st3 !! kb_id i = Some (Some (index_data rebuilt))
  | (Raise e, _), Raise e' => e = e'
  | _, _ => False
  end.
Proof.
  unfold build_index at 1.
  destruct (scorer_of (map (tokenize w) docs1) None) as [b1|e1] eqn:Hb1; simpl;
    [|discriminate].
  intros [= <- <-]. unfold add_documents, build_index. cbn [tokenized_corpus bm25].
  rewrite map_app.
  set (c1 := map (tokenize w) docs1) in *. set (c2 := map (tokenize w) docs2).
  assert (Hsame : scorer_of (c1 ++ c2) b1 = scorer_of (c1 ++ c2) None).
  { pose proof (scorer_of_in_step _ _ _ Hb1) as ->.
    destruct c1 as [|d c]; [reflexivity|]. reflexivity. }
  rewrite Hsame. destruct (scorer_of (c1 ++ c2) None) as [b|e]; simpl; [|reflexivity].
  cbn [kb_id doc_ids documents]. split; [reflexivity|].
  unfold _save_index. cbn [index_files kb_id]. rewrite !lookup_insert_eq.
  split; reflexivity.
Qed.

Lemma add_documents_is_rebuild_witness :
  exists built st1,
    build_index (RagEngineProofs.quiet_world []) RagEngineProofs.empty_engine
      (new_index "kb") ["a"]%string ["Art. 5 Haftung"]%string = Ok (built, st1) /\
    match add_documents (RagEngineProofs.quiet_world []) st1 built
            ["b"]%string ["Der Versicherer haftet"]%string,
          build_index (RagEngineProofs.quiet_world []) RagEngineProofs.empty_engine
            (new_index "kb") (["a"%string] ++ ["b"%string])
            (["Art. 5 Haftung"%string] ++ ["Der Versicherer haftet"%string]) with
    | (Ok _, (extended, st2)), Ok (rebuilt, st3) =>
        extended = rebuilt /\
        index_files st2 !! "kb"%string = index_files st3 !! "kb"%string /\
        index_files st3 !! "kb"%string = Some (Some (index_data rebuilt))
    | (Raise e, _), Raise e' => e = e'
    | _, _ => False
    end.
Proof.
  eexists _, _. split; [vm_compute; reflexivity|].
  apply (add_documents_is_rebuild (RagEngineProofs.quiet_world [])
           RagEngineProofs.empty_engine (new_index "kb")).
  vm_compute. reflexivity.
Defined.

(** **** Search in an index *)

Lemma for_each_ok {A S} (P : S -> Prop) (body : S -> A -> Res S) (l : list A) (s : S) :
  P s ->
  (forall s0 x, P s0 -> x ∈ l -> exists s1, body s0 x = Ok s1 /\ P s1) ->
  exists s', for_each body l s = Ok s' /\ P s'.
Proof.
  revert s. induction l as [|x r IH]; intros s Hs Hstep; simpl; [eauto|].
  destruct (Hstep s x Hs) as (s1 & Hb & Hs1); [apply elem_of_cons; now left|].
  rewrite Hb. simpl. apply IH; [exact Hs1|].
  intros s0 y H0 Hy. apply Hstep; [exact H0|]. apply elem_of_cons. now right.
Qed.

Lemma enumerate_from_elem {A} (k : nat) (l : list A) (n : nat) (x : A) :
  (n, x) ∈ enumerate_from k l -> (k <= n)%nat /\ l !! (n - k)%nat = Some x.
Proof.
  revert k. induction l as [|y r IH]; intros k Hin; [inversion Hin|].
  simpl in Hin. apply elem_of_cons in Hin as [[= -> ->]|Hin].
  - split; [lia|]. now rewrite Nat.sub_diag.
  - apply IH in Hin as [Hle Hx]. split; [lia|].
    replace (n - k)%nat with (S (n - S k)) by lia. exact Hx.
Qed.

(** A hit of the index: a positive score together with the identifier and
    the document that stand at the position of the score. *)
Definition hit_of (i : BM25Index) (scores : list Q) (x : string * Q * string) : Prop :=
  let '(d, s, c) := x in
  (0 < s)%Q /\
  exists n, scores !! n = Some s /\ doc_ids i !! n = Some d /\ documents i !! n = Some c.

(** X12. In an index whose identifiers, documents and token lists stand
    side by side (as [build_index] and [add_documents] leave them when given
    as many identifiers as documents), with a scorer that answers one score
    per document, [BM25Index.search] does not raise: it returns at most
    [top_k] hits in descending order of score, each a positive score with the
    identifier and the document of the same position. *)
Theorem index_search_aligned
    (w : World) (i : BM25Index) (query : string) (top_k : nat) :
  aligned i ->
  (forall corpus q, length (get_scores w corpus q) = length corpus) ->
  exists found,
    index_search w i query top_k = Ok found /\
    (length found <= top_k)%nat /\
    PyProofs.descending (fun x => snd (fst x)) found /\
    Forall (hit_of i (get_scores w (tokenized_corpus i) (tokenize w query))) found.
Proof.
  intros (Hlen1 & Hlen2 & Hstep) Hscores. unfold index_search.
  destruct (bm25 i) as [corpus|] eqn:Hb;
    [|exists []; repeat split; [simpl; lia | constructor]].
  destruct (doc_ids i) as [|d0 ds] eqn:Hd;
    [exists []; repeat split; [simpl; lia | constructor]|].
  destruct (tokenize w query) as [|t ts] eqn:Hq;
    [exists []; repeat split; [simpl; lia | constructor]|].
  assert (Hcorpus : corpus = tokenized_corpus i).
  { unfold in_step in Hstep. rewrite Hb in Hstep.
    destruct (tokenized_corpus i); congruence. }
  subst corpus. set (scores := get_scores w (tokenized_corpus i) (t :: ts)).
  rewrite <- Hd in Hlen1 |- *.
  destruct (for_each_ok (Forall (hit_of i scores))
              (fun acc '(n, s) =>
                 if negb (Qle_bool s 0) then
                   match doc_ids i !! n, documents i !! n with
                   | Some d, Some c => Ok (acc ++ [(d, s, c)])
                   | _, _ => Raise IndexError
                   end
                 else Ok acc)
              (enumerate scores) []) as (scored & Hfor & Hall).
  { constructor. }
  { intros acc [n s] Hacc Hin. apply enumerate_from_elem in Hin as [_ Hn].
    rewrite Nat.sub_0_r in Hn. pose proof (lookup_lt_Some _ _ _ Hn) as Hlt.
    unfold scores in Hlt. rewrite Hscores in Hlt.
    destruct (Qle_bool s 0) eqn:Hs; simpl; [eauto|].
    destruct (lookup_lt_is_Some_2 (doc_ids i) n) as [d Hdn]; [lia|].
    destruct (lookup_lt_is_Some_2 (documents i) n) as [c Hcn]; [lia|].
    rewrite Hdn, Hcn. eexists. split; [reflexivity|].
    apply Forall_app. split; [exact Hacc|]. constructor; [|constructor].
    split; [|eauto]. apply Qnot_le_lt. intros H. apply Qle_bool_iff in H. congruence. }
  rewrite Hfor. simpl. eexists. split; [reflexivity|].
  split; [rewrite length_take; lia|]. split.
  - apply PyProofs.descending_take, PyProofs.sorted_desc_descending.
  - apply Forall_take. apply Forall_forall. intros x Hx.
    apply (proj1 (PyProofs.sorted_desc_elem _ _ _)) in Hx.
    rewrite Forall_forall in Hall. now apply Hall.
Qed.

Lemma index_search_aligned_witness :
  exists built st',
    build_index (RagEngineProofs.quiet_world []) RagEngineProofs.empty_engine
      (new_index "kb") ["a"; "b"]%string
      ["Art. 5 Haftung"; "Der Versicherer haftet"]%string = Ok (built, st') /\
    exists found,
      index_search (RagEngineProofs.quiet_world []) built "Haftung" 1 = Ok found /\
      (length found <= 1)%nat.
Proof.
  eexists _, _. split; [vm_compute; reflexivity|].
  match goal with
  | |- exists found, index_search ?w ?i ?q ?k = _ /\ _ =>
      destruct (index_search_aligned w i q k) as (found & Hrun & Hlen & _)
  end.
  - repeat split; vm_compute; reflexivity.
  - intros corpus q. apply length_map.
  - exists found. split; [exact Hrun | exact Hlen].
Defined.

End Bm25IndexProofs.

(** ** rag_engine.py: ingestion with the tokenizer of [BM25Index] *)

Module IngestionProofs.
Import Py Data Config Embeddings RagEngine RagEngineProofs.

(** The installation of [quiet_world] with the tokenizer of the source; no
    similarity query is answered. *)
Definition tokenizing_world : World := {|
  svc := cloud_service;
  chroma_raises := fun _ => false;
  nearest := fun _ _ _ => [];
  tokenize := Tokenizer.tokenize;
  get_scores := count_scores;
  known_kb_ids := Ok ["kb"%string];
  article_ref := fun _ => false;
  sr_number := fun _ => false
|}.

(** What is seen of the lexical index of a knowledge base: the identifiers
    of the cached index and whether it has a scorer, and the identifiers in
    the index file. *)
Definition lexical_state (st : Engine) (kb : string)
    : option (list string * bool) * option (option (list string)) :=
  (option_map (fun i => (doc_ids i, bool_decide (is_Some (bm25 i))))
     (_bm25_indices st !! kb),
   option_map (option_map data_doc_ids) (index_files st !! kb)).

(** C7, the defect: the update of the lexical index raises on a document
    without a token.  The text "Ja, das ist so." is one chunk of stop words.
    Uploaded into an empty knowledge base, its embedding is stored for the
    cloud provider, so [add_document] goes on to the lexical index; there
    the constructor of the scorer raises [ZeroDivisionError] over a corpus
    without any token, and [add_document] lets it escape instead of
    reporting the flags: the chunk is in the provider collection and in the
    lists of the cached index, which has no scorer, and not in the index
    file, which is the empty one written when the index was first built.
    The same upload into a knowledge base whose index holds a token returns
    the flags and extends the index and its file. *)
Theorem add_document_without_tokens_raises :
  match DocumentProcessor.process_bytes 100 plain_text default_rag
          "Ja, das ist so." "ja.txt" "kb" "user" with
  | Ok (Some d) =>
      map DocumentProcessor.chunk_content (DocumentProcessor.doc_chunks d) =
        ["Ja, das ist so."%string] /\
      map Tokenizer.tokenize (texts_of d) = [[]] /\
      (let '(r, st') := add_document tokenizing_world default_rag empty_engine d in
       r = Raise ZeroDivisionError /\
       map row_document (rows_of st' "sp_kb_kb_openai") = ["Ja, das ist so."%string] /\
       lexical_state st' "kb" = (Some (chunk_ids_of d, false), Some (Some []))) /\
      (let filled := upload tokenizing_world empty_engine "Art. 5 Haftung." "a.txt" in
       let '(r, st') := add_document tokenizing_world default_rag filled d in
       r = Ok (false, true) /\
       lexical_state st' "kb" =
         (Some (["a.txt#Art. 5 Haftung._chunk_0"%string] ++ chunk_ids_of d, true),
          Some (Some (["a.txt#Art. 5 Haftung._chunk_0"%string] ++ chunk_ids_of d))))
  | _ => False
  end.
Proof. vm_compute. repeat split; reflexivity. Qed.

(** The exception is the only way past the flags: whenever [add_document]
    raises, a provider has stored the chunks, and the exception is that of
    obtaining the index or that of the constructor of the scorer. *)
Lemma add_document_raises w cfg st d e :
  fst (add_document w cfg st d) = Raise e ->
  let kb := knowledge_base_of (DocumentProcessor.doc_metadata d) in
  let rows := map row_of_chunk (DocumentProcessor.doc_chunks d) in
  let dual := embed_dual (svc w) (texts_of d) in
  stored w cfg kb "local" (local_available dual) rows ||
  stored w cfg kb "openai" (openai_available_result dual) rows = true /\
  match _get_bm25_index w cfg st kb with
  | Raise e' => e = e'
  | Ok (before, _) =>
      e = ZeroDivisionError /\
      concat (tokenized_corpus before ++ map (tokenize w) (texts_of d)) = []
  end.
Proof.
  intros He kb rows dual.
  destruct (DocumentProcessor.doc_chunks d) as [|c0 cs] eqn:Hchunks.
  { unfold add_document in He. rewrite Hchunks in He. discriminate. }
  pose proof (add_document_updates_lexical_index w cfg st d
                ltac:(rewrite Hchunks; discriminate)) as (_ & _ & H).
  fold kb dual in H. rewrite Hchunks in H. fold rows in H. subst rows.
  rewrite <- Hchunks in *.
  destruct (stored w cfg kb "local" _ _ || stored w cfg kb "openai" _ _);
    [|destruct H as [H _]; congruence].
  split; [reflexivity|].
  destruct (_get_bm25_index w cfg st kb) as [[before s]|e'].
  - destruct H as (H & _). rewrite He in H. unfold index_update in H.
    destruct (scorer_of _ (bm25 before)) as [b|e2] eqn:Hb; [discriminate|].
    simpl in H. injection H as ->.
    apply Bm25IndexProofs.scorer_of_raises in Hb as (-> & _ & Hc). now split.
  - destruct H as (H & _). congruence.
Qed.

End IngestionProofs.

(** ** rag_engine.py: further properties of the search operations *)

Module SearchProofs.
Import Py Data Config Embeddings RagEngine RagEngineProofs.

(** **** The two legs *)

(** Without a query token no index is searched. *)
Lemma bm25_search_fold w cfg query k kb_ids acc st :
  tokenize w query = [] ->
  fst (fold_left
         (fun '(acc, s) kb =>
            let '(r, s') := bm25_kb w cfg s query k kb in
            (try_except (bind r (fun found => Ok (acc ++ found))) acc, s'))
         kb_ids (acc, st)) = acc.
Proof.
  intros Hempty. revert acc st.
  induction kb_ids as [|kb rest IH]; intros acc st; [reflexivity|].
  cbn [fold_left]. destruct (bm25_kb w cfg st query k kb) as [r s'] eqn:Hkb.
  rewrite IH. unfold bm25_kb in Hkb.
  destruct (_get_bm25_index w cfg st kb) as [[i s]|e]; [|now injection Hkb as <- _].
  injection Hkb as <- _. unfold index_search. rewrite Hempty.
  destruct (bm25 i), (doc_ids i); simpl;
    destruct (_get_or_create_collection w cfg kb None); simpl;
    rewrite ?app_nil_r; reflexivity.
Qed.

(** X13. Once they have the knowledge bases, given by the caller or listed
    when [kb_ids] is [None], vector search and lexical search return a
    list: at most [top_k] results in descending order of score.  The vector
    search returns nothing when no query embedding can be made, and does so
    before it lists the knowledge bases; the lexical search returns nothing
    when the query has no token.  What listing the knowledge bases raises
    escapes both. *)
Theorem search_ranked
    (w : World) (cfg : RAGConfig) (st : Engine) (query : string)
    (kb_ids : option (list string)) (top_k : option nat)
    (provider : option string) :
  let k := default (get_top_k cfg) top_k in
  let embedding :=
    embed_text (svc w) query (default (search_provider (svc w)) provider) in
  match kb_ids_or_all w kb_ids with
  | Ok _ =>
      (exists results,
          search w cfg query kb_ids top_k provider = Ok results /\
          (length results <= k)%nat /\
          PyProofs.descending score results /\
          (embedding = None -> results = [])) /\
      (exists results st',
          bm25_search w cfg st query kb_ids top_k = (Ok results, st') /\
          (length results <= k)%nat /\
          PyProofs.descending score results /\
          (tokenize w query = [] -> results = []))
  | Raise e =>
      search w cfg query kb_ids top_k provider =
        match embedding with
        | Some _ => Raise e
        | None => Ok []
        end /\
      bm25_search w cfg st query kb_ids top_k = (Raise e, st)
  end.
Proof.
  intros k embedding.
  destruct (kb_ids_or_all w kb_ids) as [kbs|e] eqn:Hk.
  - split.
    + destruct (search_returns w cfg query kb_ids top_k provider kbs Hk) as [results Hs].
      exists results. split; [exact Hs|].
      destruct (search_spec _ _ _ _ _ _ _ Hs) as (Hlen & Hdesc & _).
      split; [exact Hlen|]. split; [exact Hdesc|].
      intros Hnone. rewrite (search_without_embedding _ _ _ _ _ _ Hnone) in Hs.
      congruence.
    + destruct (bm25_search_returns w cfg st query kb_ids top_k kbs Hk)
        as (results & st' & Hb).
      exists results, st'. split; [exact Hb|].
      destruct (bm25_search_spec _ _ _ _ _ _ _ _ Hb) as (Hlen & Hdesc & _).
      split; [exact Hlen|]. split; [exact Hdesc|].
      intros Hempty. unfold bm25_search in Hb. rewrite Hk in Hb.
      pose proof (bm25_search_fold w cfg query (default (get_top_k cfg) top_k)
                    kbs [] st Hempty) as Hq.
      destruct (fold_left _ _ _) as [all s].
      injection Hb as <- _. simpl in Hq. rewrite Hq. apply take_nil.
  - split.
    + now apply search_listing_raises.
    + now apply bm25_search_listing_raises.
Qed.

(** The vector search of an installation whose listing of the knowledge
    bases fails: without an API key it returns the empty list all the same,
    while the lexical search raises. *)
Example search_listing_fails :
  let w := {| svc := svc no_api_key;
              chroma_raises := fun _ => false;
              nearest := fun _ _ _ => [];
              tokenize := whitespace_tokens;
              get_scores := count_scores;
              known_kb_ids := Raise (ExternalError "list_collections");
              article_ref := fun _ => false;
              sr_number := fun _ => false |} in
  search w default_rag "Haftung" None None None = Ok [] /\
  fst (bm25_search w default_rag one_version "Haftung" None None) =
    Raise (ExternalError "list_collections") /\
  fst (hybrid_search w default_rag one_version "Haftung" None None
         (1 # 2) (1 # 2) true true) = Raise (ExternalError "list_collections").
Proof. repeat split; vm_compute; reflexivity. Qed.

(** **** Which candidate a fused result shows *)

(** The candidates whose content and metadata can be returned: all of
    the vector leg, and those of the lexical leg whose chunk the vector leg
    did not find. *)
Definition preferred (vr br : list SearchResult) : list SearchResult :=
  vr ++ List.filter (fun r => negb (bool_decide (chunk_id r ∈ ids vr))) br.

Lemma result_data_preferred vr br : data_ok (preferred vr br) (result_data_of vr br).
Proof.
  unfold result_data_of.
  set (dv := fold_left (fun data result => <[chunk_id result := result]> data) vr ∅).
  assert (Hv : data_ok (preferred vr br) dv).
  { apply (PyProofs.fold_left_inv (data_ok (preferred vr br))).
    - intros id r H. rewrite lookup_empty in H. discriminate.
    - intros data x Hd Hx id r. destruct (decide (chunk_id x = id)) as [<-|Hne].
      + rewrite lookup_insert_eq. intros [= <-]. split; [reflexivity|].
        apply elem_of_app. now left.
      + rewrite lookup_insert_ne by exact Hne. apply Hd. }
  assert (Hdom : forall id, id ∈ ids vr -> is_Some (dv !! id)).
  { intros id Hid. apply fold_insert_dom. now left. }
  apply (PyProofs.fold_left_inv
           (fun data => data_ok (preferred vr br) data /\
                        forall id, id ∈ ids vr -> is_Some (data !! id))); [now split|].
  intros data x [Hd Hin] Hx. destruct (data !! chunk_id x) eqn:Hl; [now split|].
  split.
  - intros id r. destruct (decide (chunk_id x = id)) as [<-|Hne].
    + rewrite lookup_insert_eq. intros [= <-]. split; [reflexivity|].
      apply elem_of_app. right. apply list_elem_of_In, filter_In.
      split; [now apply list_elem_of_In|].
      apply negb_true_iff, bool_decide_eq_false. intros Hmem.
      destruct (Hin _ Hmem) as [? ?]. congruence.
    + rewrite lookup_insert_ne by exact Hne. apply Hd.
  - intros id Hid. destruct (decide (chunk_id x = id)) as [<-|Hne].
    + rewrite lookup_insert_eq. eauto.
    + rewrite lookup_insert_ne by exact Hne. now apply Hin.
Qed.

(** The result shows the data of [candidate]. *)
Definition shows (r candidate : SearchResult) : Prop :=
  chunk_id candidate = chunk_id r /\
  content candidate = content r /\
  metadata candidate = metadata r.

Lemma rrf_fusion_results top_k wv wb vr br final :
  rrf_fusion top_k wv wb vr br = Ok final ->
  (length final <= top_k)%nat /\
  NoDup (ids final) /\
  Forall (fun r => exists candidate, candidate ∈ preferred vr br /\ shows r candidate)
         final.
Proof.
  intros Hf. set (scores := rrf_scores_of wv wb vr br).
  set (ranking := take top_k (sorted_desc (score_of scores) (map fst scores))).
  assert (Hnd : NoDup ranking).
  { unfold ranking. eapply sublist_NoDup; [|apply sublist_take].
    rewrite PyProofs.sorted_desc_perm. apply (proj1 (keys_rrf_scores_NoDup wv wb vr br)). }
  assert (Hlen : (length ranking <= top_k)%nat).
  { unfold ranking. rewrite length_take. lia. }
  rewrite rrf_fusion_unfold in Hf. cbv zeta in Hf. fold scores ranking in Hf.
  destruct (Qeq_bool (max_score_of scores) 0) eqn:Hm.
  - destruct ranking as [|id l] eqn:Hr.
    + simpl in Hf. injection Hf as <-. repeat split; [simpl; lia | constructor | constructor].
    + rewrite fusion_loop_raises in Hf; [discriminate | exact Hm |].
      apply (take_sorted_keys_dom wv wb vr br top_k). fold scores ranking.
      rewrite Hr. apply elem_of_cons. now left.
  - assert (Hdom : forall id, id ∈ ranking -> is_Some (result_data_of vr br !! id)).
    { intros id Hid. now apply (take_sorted_keys_dom wv wb vr br top_k). }
    rewrite (fusion_loop_ok _ _ _ _ _ Hm Hdom) in Hf. injection Hf as <-. simpl.
    destruct (normalized_results (preferred vr br) (result_data_of vr br) scores
                (max_score_of scores) ranking (result_data_preferred vr br) Hdom)
      as [Hids Hall].
    split; [|split].
    + rewrite <- (length_map chunk_id). fold (ids (omap (normalized (result_data_of vr br)
        scores (max_score_of scores)) ranking)). now rewrite Hids.
    + now rewrite Hids.
    + eapply Forall_impl; [exact Hall|]. intros r (_ & c & Hc & H1 & H2 & H3).
      exists c. split; [exact Hc|]. now split.
Qed.

(** **** Re-ranking *)

Definition boosts_sum : Q := 3 # 5.

Lemma boost_of_le w words legal c : (boost_of w words legal c <= boosts_sum)%Q.
Proof.
  unfold boost_of, boosts_sum.
  set (m := length _).
  assert (Hk : (exact_keyword_match * Qmin (inject_Z (Z.of_nat m) / 3) 1 <= 20 # 100)%Q).
  { destruct (Qmin_spec (inject_Z (Z.of_nat m) / 3) 1) as (_ & H1 & _).
    unfold exact_keyword_match. revert H1.
    generalize (Qmin (inject_Z (Z.of_nat m) / 3) 1). intros x Hx. lra. }
  unfold has_article_ref, has_sr_number, has_definition, optimal_length in *.
  destruct (legal && article_ref w c), (legal && sr_number w c),
    (existsb _ DEFINITION_PATTERNS), (2 <=? m)%nat, (_ && _); lra.
Qed.

(** What re-ranking makes of one result: the same chunk with a score that
    is capped at 1, raised by at most the sum of all boosts, and not lowered
    unless it was above 1. *)
Definition reranked (r r' : SearchResult) : Prop :=
  shows r' r /\
  (score r' <= 1)%Q /\
  (score r' <= score r + boosts_sum)%Q /\
  ((score r <= 1)%Q -> (score r <= score r')%Q).

(** The result [rerank_results] makes of [r] before it sorts. *)
Definition boosted_result (w : World) (query : string) (boost_legal : bool)
    (r : SearchResult) : SearchResult :=
  {| chunk_id := chunk_id r;
     content := content r;
     score :=
       Qmin 1 (score r +
               boost_of w (remove_dups (map str (split_ws (chars (lower query)) [])))
                 boost_legal (content r));
     metadata := metadata r |}.

Lemma boosted_result_reranked w query boost_legal r :
  reranked r (boosted_result w query boost_legal r).
Proof.
  unfold reranked, shows, boosted_result. cbn [chunk_id content metadata score].
  set (b := boost_of _ _ _ _).
  pose proof (boost_of_nonneg w
    (remove_dups (map str (split_ws (chars (lower query)) []))) boost_legal (content r)) as H0.
  pose proof (boost_of_le w
    (remove_dups (map str (split_ws (chars (lower query)) []))) boost_legal (content r)) as H1.
  fold b in H0, H1.
  destruct (Qmin_spec 1 (score r + b)) as (Ha & Hb & [H|H]);
    repeat split; try reflexivity; try lra.
Qed.

Lemma rerank_results_sorted w results query boost_legal :
  rerank_results w results query boost_legal =
    sorted_desc score (map (boosted_result w query boost_legal) results).
Proof. reflexivity. Qed.

(** X14. [rerank_results] returns the results it was given, each once and
    with its content and metadata, in descending order of the new scores;
    a new score is [min(1, old + boost)] with a boost between 0 and 0.6, so
    re-ranking never lowers a score of at most 1 and never returns a score
    above 1. *)
Theorem rerank_results_spec
    (w : World) (results : list SearchResult) (query : string) (boost_legal : bool) :
  let out := rerank_results w results query boost_legal in
  PyProofs.descending score out /\
  exists boosted,
    out ≡ₚ boosted /\ Forall2 reranked results boosted.
Proof.
  intros out. subst out. rewrite rerank_results_sorted.
  split; [apply PyProofs.sorted_desc_descending|].
  exists (map (boosted_result w query boost_legal) results).
  split; [apply PyProofs.sorted_desc_perm|].
  apply Forall2_fmap_r, Forall_Forall2_diag, Forall_forall. intros r _.
  apply boosted_result_reranked.
Qed.

Lemma reranked_ids results boosted :
  Forall2 reranked results boosted -> ids boosted = ids results.
Proof.
  induction 1 as [|r r' l l' (Hs & _) _ IH]; [reflexivity|].
  unfold ids in *. simpl. destruct Hs as [Hid _]. now rewrite Hid, IH.
Qed.

(** X15. Whenever [hybrid_search] returns, with or without query expansion
    and re-ranking, it returns at most [top_k] results and no chunk twice;
    every result shows the content and metadata of a candidate of the vector
    leg or, for a chunk the vector leg did not find, of the lexical leg; with
    re-ranking the results are in descending order of their final score. *)
Theorem hybrid_search_results
    (w : World) (cfg : RAGConfig) (st : Engine) (query : string)
    (kb_ids : option (list string)) (top_k : option nat) (wv wb : Q)
    (expand rerank : bool) (results : list SearchResult) (st' : Engine) :
  hybrid_search w cfg st query kb_ids top_k wv wb expand rerank = (Ok results, st') ->
  let k := default (get_top_k cfg) top_k in
  let q := search_query_of query kb_ids expand in
  exists vr br,
    search w cfg q kb_ids (Some (k * 3)%nat) None = Ok vr /\
    bm25_search w cfg st q kb_ids (Some (k * 3)%nat) = (Ok br, st') /\
    (length results <= k)%nat /\
    NoDup (ids results) /\
    Forall (fun r =>
              exists candidate,
                shows r candidate /\
                (candidate ∈ vr \/ candidate ∈ br /\ chunk_id candidate ∉ ids vr))
           results /\
    (rerank = true -> PyProofs.descending score results).
Proof.
  intros Hh k q.
  destruct (kb_ids_or_all w kb_ids) as [kbs|err] eqn:Hk;
    [|rewrite (hybrid_search_listing_raises _ _ _ _ _ _ _ _ _ _ _ Hk) in Hh;
      discriminate].
  destruct (hybrid_search_legs w cfg st query kb_ids top_k wv wb expand rerank kbs Hk)
    as (vr & br & st'' & Hv & Hb & Heq). fold k q in Hv, Hb, Heq.
  rewrite Heq in Hh. clear Heq.
  destruct (rrf_fusion k wv wb vr br) as [final|e] eqn:Hf; simpl in Hh; [|discriminate].
  injection Hh as Hres <-. exists vr, br. split; [exact Hv|]. split; [exact Hb|].
  destruct (rrf_fusion_results _ _ _ _ _ _ Hf) as (Hlen & Hnd & Hall).
  assert (Hpref : forall r c, c ∈ preferred vr br -> shows r c ->
            exists candidate, shows r candidate /\
              (candidate ∈ vr \/ candidate ∈ br /\ chunk_id candidate ∉ ids vr)).
  { intros r c Hc Hs. exists c. split; [exact Hs|].
    apply elem_of_app in Hc as [Hc|Hc]; [now left|]. right.
    apply list_elem_of_In, filter_In in Hc as [Hc Hn]. split; [now apply list_elem_of_In|].
    now apply negb_true_iff, bool_decide_eq_false in Hn. }
  assert (Hplain : results = final ->
            (length results <= k)%nat /\ NoDup (ids results) /\
            Forall (fun r => exists candidate, shows r candidate /\
                      (candidate ∈ vr \/ candidate ∈ br /\ chunk_id candidate ∉ ids vr))
                   results).
  { intros ->. split; [exact Hlen|]. split; [exact Hnd|].
    eapply Forall_impl; [exact Hall|]. intros r (c & Hc & Hs). eauto. }
  destruct final as [|r0 rest] eqn:Hfinal.
  { subst results. destruct (Hplain eq_refl) as (H1 & H2 & H3).
    repeat split; auto; try (intros _; exact I). }
  destruct rerank.
  - rewrite <- Hfinal in *. clear Hplain.
    rewrite rerank_results_sorted in Hres.
    set (boosted := map (boosted_result w query (is_legal kb_ids)) final) in *.
    assert (Hdesc : PyProofs.descending score results).
    { rewrite <- Hres. apply PyProofs.sorted_desc_descending. }
    assert (Hperm : results ≡ₚ boosted).
    { rewrite <- Hres. apply PyProofs.sorted_desc_perm. }
    assert (Hall2 : Forall2 reranked final boosted).
    { apply Forall2_fmap_r, Forall_Forall2_diag, Forall_forall. intros r _.
      apply boosted_result_reranked. }
    pose proof (reranked_ids _ _ Hall2) as Hids.
    assert (Hidperm : ids results ≡ₚ ids final).
    { rewrite <- Hids. unfold ids. now rewrite Hperm. }
    split; [|split; [|split]].
    + rewrite <- (length_map chunk_id). fold (ids results).
      rewrite Hidperm. unfold ids. now rewrite length_map.
    + now rewrite Hidperm.
    + apply Forall_forall. intros r Hr. rewrite Hperm in Hr.
      apply list_elem_of_lookup in Hr as [n Hn].
      destruct (Forall2_lookup_r _ _ _ _ _ Hall2 Hn) as (r1 & Hn1 & (Hs1 & _)).
      apply list_elem_of_lookup_2 in Hn1. rewrite Forall_forall in Hall.
      destruct (Hall r1 Hn1) as (c & Hc & (Hc1 & Hc2 & Hc3)).
      destruct Hs1 as (Hi & Hco & Hme).
      apply (Hpref r c Hc). unfold shows. repeat split; congruence.
    + intros _. exact Hdesc.
  - subst results. destruct (Hplain eq_refl) as (H1 & H2 & H3).
    repeat split; auto; try discriminate.
Qed.

Lemma hybrid_search_results_witness :
  match hybrid_search (quiet_world [hit_a]) default_rag one_version "Version"
          (Some ["kb"%string]) (Some 2%nat) (1 # 2) (1 # 2) true true with
  | (Ok results, _) => (length results <= 2)%nat /\ NoDup (ids results)
  | (Raise _, _) => False
  end.
Proof.
  destruct (hybrid_search (quiet_world [hit_a]) default_rag one_version "Version"
              (Some ["kb"%string]) (Some 2%nat) (1 # 2) (1 # 2) true true)
    as [[results|e] st'] eqn:Hrun.
  - destruct (hybrid_search_results _ _ _ _ _ _ _ _ _ _ results st' Hrun)
      as (vr & br & _ & _ & Hlen & Hnd & _).
    split; [exact Hlen | exact Hnd].
  - vm_compute in Hrun. discriminate.
Defined.

End SearchProofs.

(** ** rag_engine.py: administration of knowledge bases and documents *)

Module KnowledgeBases.
Import Py Data Config Embeddings RagEngine.

(** The further calls made to the Chroma client. *)
Inductive AdminCall : Type :=
  | CollectionCount (name : string)
  | CollectionGetWhere (name : string)
  | CollectionDelete (name : string)
  | CollectionUpdate (name : string)
  | DeleteCollection (name : string).

(** What the administration leaves to the client and the clock: which of
    the further calls raise, the names [client.list_collections()] answers
    in a given state (this call is taken to succeed), whether an [add] of an
    id that is already stored raises or is skipped, the metadata
    [collection.update] leaves for a record, and
    [datetime.now().isoformat()]. *)
Record Client : Type := {
  client_raises : AdminCall -> bool;
  list_collections : Engine -> list string;
  duplicate_raises : string -> bool;
  updated_metadata : Meta -> Meta -> Meta;
  now_isoformat : string
}.

(** The dataclass [KnowledgeBase]: its fields [id], [name], [description],
    [icon] and [chunk_count]. *)
Record KnowledgeBase : Type := {
  base_id : string;
  base_name : MetaVal;
  base_description : MetaVal;
  base_icon : MetaVal;
  base_chunk_count : Z
}.

Definition set_rows (st : Engine) (name : string) (rows : list Row) : Engine :=
  {| collections := <[name := rows]> (collections st);
     _bm25_indices := _bm25_indices st;
     index_files := index_files st |}.

Definition sentinel_id : string := "__kb_metadata__".

(** [collection.add] of one record. *)
Definition add_record (w : World) (c : Client) (st : Engine) (name : string)
    (row : Row) : Res Engine :=
  if chroma_raises w (CollectionAdd name) then Raise (ExternalError "add")
  else if bool_decide (row_id row ∈ map row_id (rows_of st name)) then
    if duplicate_raises c name then Raise (ExternalError "add") else Ok st
  else Ok (set_rows st name (rows_of st name ++ [row])).

(** [collection.update(ids=[id], metadatas=[m])] *)
Definition collection_update (c : Client) (st : Engine) (name id : string)
    (m : Meta) : Res Engine :=
  if client_raises c (CollectionUpdate name) then Raise (ExternalError "update")
  else
    Ok (set_rows st name
          (map (fun r =>
                  if bool_decide (row_id r = id)
                  then {| row_id := row_id r;
                          row_document := row_document r;
                          row_metadata := updated_metadata c (row_metadata r) m |}
                  else r)
               (rows_of st name))).

(** The body of [for provider in ["local", "openai"]] in
    [create_knowledge_base]. *)
Definition store_kb_metadata (w : World) (c : Client) (cfg : RAGConfig)
    (st : Engine) (kb provider : string) (row : Row) : Res Engine :=
  bind (_get_or_create_collection w cfg kb (Some provider)) (fun name =>
    match add_record w c st name row with
    | Ok st' => Ok st'
    | Raise _ => collection_update c st name sentinel_id (row_metadata row)
    end).

(** [RAGEngine.create_knowledge_base]; what was stored before an exception
    stays stored. *)
Definition create_knowledge_base (w : World) (c : Client) (cfg : RAGConfig)
    (st : Engine) (kb name description icon : string)
    : Res KnowledgeBase * Engine :=
  let row := kb_metadata_row name description icon (now_isoformat c) in
  match store_kb_metadata w c cfg st kb "local" row with
  | Raise e => (Raise e, st)
  | Ok st1 =>
      match store_kb_metadata w c cfg st1 kb "openai" row with
      | Raise e => (Raise e, st1)
      | Ok st2 =>
          (Ok {| base_id := kb;
                 base_name := MStr name;
                 base_description := MStr description;
                 base_icon := MStr icon;
                 base_chunk_count := 0 |},
           st2)
      end
  end.

(** *** get_embedding_status *)

(** The dictionary [get_embedding_status] returns: its keys
    ["local_count"], ["openai_count"], ["local_available"] and
    ["openai_available"]. *)
Record EmbeddingStatus : Type := {
  local_count : Z;
  openai_count : Z;
  has_local_embeddings : bool;
  has_openai_embeddings : bool
}.

(** One of the two [try] blocks: [max(0, col.count() - 1)], or 0. *)
Definition provider_count (w : World) (c : Client) (cfg : RAGConfig)
    (st : Engine) (kb provider : string) : Z :=
  try_except
    (bind (_get_or_create_collection w cfg kb (Some provider)) (fun name =>
       if client_raises c (CollectionCount name) then Raise (ExternalError "count")
       else Ok (Z.max 0 (Z.of_nat (length (rows_of st name)) - 1))))
    0.

Definition get_embedding_status (w : World) (c : Client) (cfg : RAGConfig)
    (st : Engine) (kb : string) : EmbeddingStatus :=
  let local_count := provider_count w c cfg st kb "local" in
  let openai_count := provider_count w c cfg st kb "openai" in
  {| local_count := local_count;
     openai_count := openai_count;
     has_local_embeddings := 0 <? local_count;
     has_openai_embeddings := 0 <? openai_count |}.

(** *** list_knowledge_bases *)

Definition provider_suffixes : list string := ["_local"; "_openai"]%string.

(** [for suffix in [...]: if full_id.endswith(suffix):
       kb_id = full_id[:-len(suffix)]; break] *)
Fixpoint strip_suffix (suffixes : list string) (full_id : string) : string :=
  match suffixes with
  | [] => full_id
  | suffix :: rest =>
      if bool_decide (chars suffix `suffix_of` chars full_id)
      then str (take (String.length full_id - String.length suffix) (chars full_id))
      else strip_suffix rest full_id
  end.

(** [meta.get(key, default)] *)
Definition metadata_get (m : Meta) (key : string) (fallback : MetaVal) : MetaVal :=
  default fallback (m !! key).

Definition default_icon : string := "📄".

(** [for provider in ["local", "openai"]: try: ... break  except: continue]:
    the name, description and icon of the first provider collection that
    answers a metadata record. *)
Fixpoint kb_fields (w : World) (cfg : RAGConfig) (st : Engine) (kb : string)
    (providers : list string) : MetaVal * MetaVal * MetaVal :=
  match providers with
  | [] => (MStr kb, MStr "", MStr default_icon)
  | provider :: rest =>
      match
        try_except
          (bind (_get_or_create_collection w cfg kb (Some provider)) (fun name =>
           bind (collection_get_ids w st name sentinel_id) (fun rows =>
             Ok (head rows))))
          None
      with
      | Some r =>
          (metadata_get (row_metadata r) "name" (MStr kb),
           metadata_get (row_metadata r) "description" (MStr ""),
           metadata_get (row_metadata r) "icon" (MStr default_icon))
      | None => kb_fields w cfg st kb rest
      end
  end.

Definition knowledge_base_entry (w : World) (c : Client) (cfg : RAGConfig)
    (st : Engine) (kb : string) : KnowledgeBase :=
  let '(name, description, icon) :=
    kb_fields w cfg st kb ["local"; "openai"]%string in
  let embedding_status := get_embedding_status w c cfg st kb in
  {| base_id := kb;
     base_name := name;
     base_description := description;
     base_icon := icon;
     base_chunk_count :=
       Z.max (local_count embedding_status) (openai_count embedding_status) |}.

(** The identifier a collection name stands for, when it has the prefix. *)
Definition kb_id_of_collection (cfg : RAGConfig) (name : string) : option string :=
  if bool_decide (chars (collection_prefix cfg) `prefix_of` chars name)
  then
    let full_id := str (drop (String.length (collection_prefix cfg)) (chars name)) in
    Some (strip_suffix provider_suffixes full_id)
  else None.

Fixpoint list_loop (w : World) (c : Client) (cfg : RAGConfig) (st : Engine)
    (names : list string) (kb_ids_seen : list string)
    (knowledge_bases : list KnowledgeBase) : list KnowledgeBase :=
  match names with
  | [] => knowledge_bases
  | name :: rest =>
      match kb_id_of_collection cfg name with
      | Some kb =>
          if bool_decide (kb ∈ kb_ids_seen)
          then list_loop w c cfg st rest kb_ids_seen knowledge_bases
          else list_loop w c cfg st rest (kb :: kb_ids_seen)
                 (knowledge_bases ++ [knowledge_base_entry w c cfg st kb])
      | None => list_loop w c cfg st rest kb_ids_seen knowledge_bases
      end
  end.

(** [RAGEngine.list_knowledge_bases] *)
Definition list_knowledge_bases (w : World) (c : Client) (cfg : RAGConfig)
    (st : Engine) : list KnowledgeBase :=
  list_loop w c cfg st (list_collections c st) [] [].

(** *** Deleting *)

(** [client.delete_collection(name)] *)
Definition delete_collection (c : Client) (st : Engine) (name : string) : Res Engine :=
  if client_raises c (DeleteCollection name)
  then Raise (ExternalError "delete_collection")
  else Ok {| collections := delete name (collections st);
             _bm25_indices := _bm25_indices st;
             index_files := index_files st |}.

(** [try: self.client.delete_collection(name); flag = True
     except Exception: pass] *)
Definition try_delete_collection (c : Client) (st : Engine) (name : string)
    : bool * Engine :=
  try_except (bind (delete_collection c st name) (fun st' => Ok (true, st')))
    (false, st).

(** [BM25Index.clear]: the index file of the knowledge base is removed. *)
Definition clear (st : Engine) (i : BM25Index) : BM25Index * Engine :=
  ({| kb_id := kb_id i; bm25 := None; doc_ids := []; documents := [];
      tokenized_corpus := [] |},
   {| collections := collections st;
      _bm25_indices := _bm25_indices st;
      index_files := delete (kb_id i) (index_files st) |}).

Definition forget_index (st : Engine) (kb : string) : Engine :=
  {| collections := collections st;
     _bm25_indices := delete kb (_bm25_indices st);
     index_files := index_files st |}.

(** [RAGEngine.delete_knowledge_base] *)
Definition delete_knowledge_base (c : Client) (cfg : RAGConfig) (st : Engine)
    (kb : string) : bool * Engine :=
  let '(deleted_local, st1) :=
    try_delete_collection c st (_get_collection_name cfg kb (Some "local"%string)) in
  let '(deleted_openai, st2) :=
    try_delete_collection c st1 (_get_collection_name cfg kb (Some "openai"%string)) in
  let '(_, st3) :=
    try_delete_collection c st2 (_get_collection_name cfg kb None) in
  let st4 :=
    match _bm25_indices st3 !! kb with
    | Some index => forget_index (snd (clear st3 index)) kb
    | None => snd (clear st3 (new_index kb))
    end in
  (deleted_local || deleted_openai, st4).

(** [RAGEngine.clear_all_embeddings]: the dictionary is the pair of its two
    values. *)
Definition clear_all_embeddings (c : Client) (cfg : RAGConfig) (st : Engine)
    (kb : string) : (bool * bool) * Engine :=
  let '(cleared_local, st1) :=
    try_delete_collection c st (_get_collection_name cfg kb (Some "local"%string)) in
  let '(cleared_openai, st2) :=
    try_delete_collection c st1 (_get_collection_name cfg kb (Some "openai"%string)) in
  let st3 :=
    match _bm25_indices st2 !! kb with
    | Some index => forget_index (snd (clear st2 index)) kb
    | None => st2
    end in
  ((cleared_local, cleared_openai), st3).

(** [collection.get(where={"source": doc_id}, include=["metadatas"])] *)
Definition collection_get_where (c : Client) (st : Engine) (name key : string)
    (value : MetaVal) : Res (list Row) :=
  if client_raises c (CollectionGetWhere name) then Raise (ExternalError "get")
  else Ok (List.filter (fun r => bool_decide (row_metadata r !! key = Some value))
             (rows_of st name)).

(** [collection.delete(ids=ids)] *)
Definition collection_delete (c : Client) (st : Engine) (name : string)
    (ids : list string) : Res Engine :=
  if client_raises c (CollectionDelete name) then Raise (ExternalError "delete")
  else Ok (set_rows st name
             (List.filter (fun r => negb (bool_decide (row_id r ∈ ids))) (rows_of st name))).

(** One provider of [delete_document]: whether [deleted] was set, and the
    engine afterwards. *)
Definition delete_from (w : World) (c : Client) (cfg : RAGConfig) (st : Engine)
    (kb provider doc : string) : bool * Engine :=
  try_except
    (bind (_get_or_create_collection w cfg kb (Some provider)) (fun name =>
     bind (collection_get_where c st name "source" (MStr doc)) (fun results =>
       match results with
       | [] => Ok (false, st)
       | _ :: _ =>
           bind (collection_delete c st name (map row_id results)) (fun st' =>
             Ok (true, st'))
       end)))
    (false, st).

(** [RAGEngine.delete_document] *)
Definition delete_document (w : World) (c : Client) (cfg : RAGConfig) (st : Engine)
    (kb doc : string) : bool * Engine :=
  let '(deleted_local, st1) := delete_from w c cfg st kb "local" doc in
  let '(deleted_openai, st2) := delete_from w c cfg st1 kb "openai" doc in
  (deleted_local || deleted_openai, st2).

(** *** Documents of a knowledge base *)









End KnowledgeBases.

Module KnowledgeBasesProofs.
Import Py Data Config Embeddings RagEngine KnowledgeBases.

(** **** Names of collections *)

Lemma string_length_chars (s : string) : String.length s = length (chars s).
Proof. symmetry. apply DocumentProcessorProofs.chars_length. Qed.

Lemma append_assoc (a b c : string) : (a +:+ b) +:+ c = a +:+ b +:+ c.
Proof.
  induction a as [|x a IH]; [reflexivity|].
  change (String x ((a +:+ b) +:+ c) = String x (a +:+ b +:+ c)). now f_equal.
Qed.

Lemma provider_collection_name cfg kb provider :
  provider <> ""%string ->
  _get_collection_name cfg kb (Some provider) =
    collection_prefix cfg +:+ kb +:+ "_" +:+ provider.
Proof.
  intros Hp. unfold _get_collection_name.
  destruct provider; [congruence|]. apply append_assoc.
Qed.

Lemma kb_id_of_prefixed cfg rest :
  kb_id_of_collection cfg (collection_prefix cfg +:+ rest) =
    Some (strip_suffix provider_suffixes rest).
Proof.
  unfold kb_id_of_collection. rewrite TokenizerProofs.chars_append.
  rewrite bool_decide_eq_true_2 by apply prefix_app_r, reflexivity.
  rewrite string_length_chars, drop_app_length, TokenizerProofs.str_chars. reflexivity.
Qed.

Lemma strip_suffix_here suffix rest kb :
  strip_suffix (suffix :: rest) (kb +:+ suffix) = kb.
Proof.
  cbn [strip_suffix]. rewrite TokenizerProofs.chars_append.
  rewrite bool_decide_eq_true_2 by apply suffix_app_r, reflexivity.
  rewrite QueryEnhancementProofs.append_length, Nat.add_sub, string_length_chars.
  rewrite take_app_length. apply TokenizerProofs.str_chars.
Qed.

Lemma no_local_suffix_of_openai kb :
  ~ chars "_local" `suffix_of` chars (kb +:+ "_openai").
Proof.
  rewrite TokenizerProofs.chars_append. intros H.
  apply suffix_prefix_reverse in H. rewrite reverse_app in H.
  apply prefix_cons_inv_1 in H. discriminate.
Qed.

Lemma strip_suffix_openai kb : strip_suffix provider_suffixes (kb +:+ "_openai") = kb.
Proof.
  unfold provider_suffixes. cbn [strip_suffix].
  rewrite bool_decide_eq_false_2 by apply no_local_suffix_of_openai.
  apply (strip_suffix_here "_openai" []).
Qed.

Lemma strip_suffix_none kb :
  ~ chars "_local" `suffix_of` chars kb ->
  ~ chars "_openai" `suffix_of` chars kb ->
  strip_suffix provider_suffixes kb = kb.
Proof.
  intros H1 H2. unfold provider_suffixes. cbn [strip_suffix].
  now rewrite !bool_decide_eq_false_2.
Qed.

Lemma entry_id w c cfg st kb : base_id (knowledge_base_entry w c cfg st kb) = kb.
Proof.
  unfold knowledge_base_entry. now destruct (kb_fields _ _ _ _ _) as [[? ?] ?].
Qed.

Lemma list_loop_ids w c cfg st names seen acc :
  map base_id acc ≡ₚ seen -> NoDup seen ->
  let out := list_loop w c cfg st names seen acc in
  NoDup (map base_id out) /\
  forall kb, kb ∈ map base_id out <->
             kb ∈ seen \/ exists name, name ∈ names /\ kb_id_of_collection cfg name = Some kb.
Proof.
  revert seen acc. induction names as [|name rest IH]; intros seen acc Hacc Hnd; cbn [list_loop].
  - cbv zeta. split; [now rewrite Hacc|].
    intros kb. rewrite Hacc. split; [now left|].
    intros [H|(n & Hn & _)]; [exact H | inversion Hn].
  - destruct (kb_id_of_collection cfg name) as [kb0|] eqn:Hname.
    + case_bool_decide as Hseen.
      * destruct (IH seen acc Hacc Hnd) as [H1 H2]. split; [exact H1|].
        intros kb. rewrite H2. split.
        -- intros [H|(n & Hn & Hk)]; [now left|]. right. exists n.
           split; [apply elem_of_cons; now right | exact Hk].
        -- intros [H|(n & Hn & Hk)]; [now left|].
           apply elem_of_cons in Hn as [->|Hn]; [left; congruence | right; eauto].
      * destruct (IH (kb0 :: seen) (acc ++ [knowledge_base_entry w c cfg st kb0]))
          as [H1 H2].
        { rewrite map_app, Hacc. simpl. rewrite entry_id.
          symmetry. apply Permutation_cons_append. }
        { now constructor. }
        split; [exact H1|]. intros kb. rewrite H2. split.
        -- intros [[->|H]%elem_of_cons|(n & Hn & Hk)].
           ++ right. exists name. split; [apply elem_of_cons; now left | exact Hname].
           ++ now left.
           ++ right. exists n. split; [apply elem_of_cons; now right | exact Hk].
        -- intros [H|(n & Hn & Hk)].
           ++ left. apply elem_of_cons. now right.
           ++ apply elem_of_cons in Hn as [->|Hn].
              ** left. apply elem_of_cons. left. congruence.
              ** right. eauto.
    + destruct (IH seen acc Hacc Hnd) as [H1 H2]. split; [exact H1|].
      intros kb. rewrite H2. split.
      * intros [H|(n & Hn & Hk)]; [now left|]. right. exists n.
        split; [apply elem_of_cons; now right | exact Hk].
      * intros [H|(n & Hn & Hk)]; [now left|].
        apply elem_of_cons in Hn as [->|Hn]; [congruence | right; eauto].
Qed.

(** X16. [list_knowledge_bases] lists every identifier once: exactly the
    identifiers recovered from the listed collection names that carry the
    prefix.  The name of a provider collection, as [_get_collection_name]
    builds it, gives back the identifier it was built from; so does the name
    of an unsuffixed collection unless the identifier itself ends in
    ["_local"] or ["_openai"], which is then cut off. *)
Theorem list_knowledge_bases_ids
    (w : World) (c : Client) (cfg : RAGConfig) (st : Engine) :
  let bases := list_knowledge_bases w c cfg st in
  NoDup (map base_id bases) /\
  (forall kb,
      kb ∈ map base_id bases <->
      exists name, name ∈ list_collections c st /\
                   kb_id_of_collection cfg name = Some kb) /\
  (forall kb provider,
      provider ∈ ["local"; "openai"]%string ->
      kb_id_of_collection cfg (_get_collection_name cfg kb (Some provider)) = Some kb) /\
  (forall kb,
      ~ chars "_local" `suffix_of` chars kb ->
      ~ chars "_openai" `suffix_of` chars kb ->
      kb_id_of_collection cfg (_get_collection_name cfg kb None) = Some kb) /\
  (forall kb,
      kb_id_of_collection cfg (_get_collection_name cfg (kb +:+ "_local") None) = Some kb).
Proof.
  intros bases. subst bases. unfold list_knowledge_bases.
  destruct (list_loop_ids w c cfg st (list_collections c st) [] []
              (Permutation_refl _) (NoDup_nil_2))
    as [Hnd Hin].
  split; [exact Hnd|]. split; [|split; [|split]].
  - intros kb. rewrite (Hin kb). split; [|now right].
    intros [H|H]; [inversion H | exact H].
  - intros kb provider Hp.
    apply elem_of_cons in Hp as [->|Hp]; [|apply list_elem_of_singleton in Hp as ->].
    + rewrite provider_collection_name by discriminate.
      rewrite kb_id_of_prefixed. f_equal. apply (strip_suffix_here "_local").
    + rewrite provider_collection_name by discriminate.
      rewrite kb_id_of_prefixed. f_equal. apply strip_suffix_openai.
  - intros kb H1 H2. cbn [_get_collection_name].
    rewrite kb_id_of_prefixed. f_equal. now apply strip_suffix_none.
  - intros kb. cbn [_get_collection_name].
    rewrite kb_id_of_prefixed. f_equal. apply (strip_suffix_here "_local").
Qed.


(** **** What [add_document] stores *)

Import RagEngineProofs.

Definition provider_names (cfg : RAGConfig) (kb : string) : string * string :=
  (_get_collection_name cfg kb (Some "local"%string),
   _get_collection_name cfg kb (Some "openai"%string)).

(** Which providers store the chunks of [d]. *)
Definition stored_flags (w : World) (cfg : RAGConfig)
    (d : DocumentProcessor.ProcessedDocument) : bool * bool :=
  let kb := knowledge_base_of (DocumentProcessor.doc_metadata d) in
  let dual := embed_dual (svc w) (texts_of d) in
  let rows := map row_of_chunk (DocumentProcessor.doc_chunks d) in
  match DocumentProcessor.doc_chunks d with
  | [] => (false, false)
  | _ => (stored w cfg kb "local" (local_available dual) rows,
          stored w cfg kb "openai" (openai_available_result dual) rows)
  end.

(** The records of every collection after [add_document], whether it
    returns or raises in the update of the lexical index: the chunks whose
    id the collection did not hold are appended to the collections of the
    providers that stored them. *)
Lemma add_document_effect w cfg st d :
  let kb := knowledge_base_of (DocumentProcessor.doc_metadata d) in
  let l := fst (stored_flags w cfg d) in
  let o := snd (stored_flags w cfg d) in
  let rows := map row_of_chunk (DocumentProcessor.doc_chunks d) in
  (forall flags, fst (add_document w cfg st d) = Ok flags -> flags = (l, o)) /\
  (l || o = false -> add_document w cfg st d = (Ok (false, false), st)) /\
  forall name,
    rows_of (snd (add_document w cfg st d)) name =
      if (l && bool_decide (name = fst (provider_names cfg kb))) ||
         (o && bool_decide (name = snd (provider_names cfg kb)))
      then rows_of st name ++ new_rows st name rows else rows_of st name.
Proof.
  intros kb. unfold stored_flags. fold kb.
  destruct (DocumentProcessor.doc_chunks d) as [|c0 cs] eqn:Hchunks.
  { unfold add_document. rewrite Hchunks. cbn [fst snd andb orb].
    split; [intros flags Hflags; congruence|]. split; [auto|]. reflexivity. }
  cbv zeta. cbn [fst snd].
  set (rows := map row_of_chunk (c0 :: cs)).
  set (l := stored w cfg kb "local" _ rows). set (o := stored w cfg kb "openai" _ rows).
  rewrite (add_document_nonempty w cfg st d) by (rewrite Hchunks; discriminate).
  unfold add_chunks. fold kb. rewrite Hchunks. fold rows.
  rewrite store_embeddings_collections. rewrite store_embeddings_collections.
  fold l o. cbv zeta.
  destruct (collection_names_distinct cfg kb) as (Hlo & _ & _).
  set (loc := _get_collection_name cfg kb (Some "local"%string)) in *.
  set (oai := _get_collection_name cfg kb (Some "openai"%string)) in *.
  set (c1 := if l then <[loc := rows_of st loc ++ new_rows st loc rows]> (collections st)
             else collections st).
  set (st1 := with_collections c1 st).
  assert (Hst1 : rows_of st1 oai = rows_of st oai).
  { unfold rows_of, st1. cbn [with_collections collections]. subst c1.
    destruct l; [|reflexivity]. now rewrite lookup_insert_ne by exact Hlo. }
  assert (Hnew1 : new_rows st1 oai rows = new_rows st oai rows).
  { unfold new_rows. now rewrite Hst1. }
  rewrite Hst1, Hnew1.
  set (c2 := if o then <[oai := rows_of st oai ++ new_rows st oai rows]> (collections st1)
             else collections st1).
  assert (Hrows : forall name,
            default [] (c2 !! name) =
              if (l && bool_decide (name = loc)) || (o && bool_decide (name = oai))
              then rows_of st name ++ new_rows st name rows else rows_of st name).
  { intros name. subst c2. unfold st1. subst c1. unfold rows_of.
    cbn [with_collections collections].
    destruct l, o; cbn [andb orb].
    - destruct (decide (name = oai)) as [->|Hno].
      + rewrite lookup_insert_eq.
        rewrite (bool_decide_eq_false_2 (oai = loc)) by congruence.
        rewrite bool_decide_eq_true_2 by reflexivity. reflexivity.
      + rewrite lookup_insert_ne by congruence.
        rewrite (bool_decide_eq_false_2 (name = oai)) by exact Hno.
        rewrite orb_false_r. destruct (decide (name = loc)) as [->|Hnl].
        * rewrite lookup_insert_eq, bool_decide_eq_true_2 by reflexivity. reflexivity.
        * rewrite lookup_insert_ne by congruence.
          now rewrite bool_decide_eq_false_2 by exact Hnl.
    - rewrite orb_false_r. destruct (decide (name = loc)) as [->|Hnl].
      + rewrite lookup_insert_eq, bool_decide_eq_true_2 by reflexivity. reflexivity.
      + rewrite lookup_insert_ne by congruence.
        now rewrite bool_decide_eq_false_2 by exact Hnl.
    - destruct (decide (name = oai)) as [->|Hno].
      + rewrite lookup_insert_eq, bool_decide_eq_true_2 by reflexivity. reflexivity.
      + rewrite lookup_insert_ne by congruence.
        now rewrite bool_decide_eq_false_2 by exact Hno.
    - reflexivity. }
  change (provider_names cfg kb) with (loc, oai). cbn [fst snd].
  destruct (l || o) eqn:Hany.
  - destruct (_get_bm25_index w cfg (with_collections c2 st1) kb) as [[i s]|e] eqn:Hidx.
    + apply get_bm25_index_collections in Hidx.
      unfold add_documents. destruct (scorer_of _ (bm25 i)) as [b|e];
        cbn [fst snd bind];
        (split; [intros flags Hflags; congruence|]); (split; [discriminate|]);
        intros name; unfold rows_of at 1; cbn [cache_index _save_index collections];
        rewrite Hidx; cbn [with_collections collections]; apply Hrows.
    + cbn [fst snd]. split; [discriminate|]. split; [discriminate|].
      intros name. unfold rows_of at 1. cbn [with_collections collections]. apply Hrows.
  - cbn [fst snd]. split; [intros flags Hflags; congruence|]. split.
    + intros _. apply orb_false_iff in Hany as [Hl Ho].
      subst c2 c1 st1. rewrite Hl, Ho. destruct st. reflexivity.
    + intros name. unfold rows_of at 1. cbn [with_collections collections]. apply Hrows.
Qed.


(** The index alone of what [_rebuild_bm25_index] returns. *)
Definition rebuilt_index (w : World) (cfg : RAGConfig) (st : Engine) (kb : string)
    : Res BM25Index :=
  bind (_rebuild_bm25_index w cfg st kb None) (fun p => Ok (fst p)).

Lemma fulltext_search_rows w cfg st st' query kbs :
  (forall kb, kb ∈ kbs ->
     rows_of st' (_get_collection_name cfg kb None) =
     rows_of st (_get_collection_name cfg kb None)) ->
  fulltext_search w cfg st' query (Some kbs) = fulltext_search w cfg st query (Some kbs).
Proof.
  intros Hrows. unfold fulltext_search. cbn [kb_ids_or_all bind]. f_equal.
  generalize (@nil SearchResult). induction kbs as [|kb rest IH]; intros acc; [reflexivity|].
  cbn [fold_left].
  assert (Hkb : fulltext_kb w cfg st' (lower query) kb = fulltext_kb w cfg st (lower query) kb).
  { unfold fulltext_kb, _get_or_create_collection, collection_get.
    destruct (chroma_raises w (GetOrCreateCollection _)); [reflexivity|]. cbn [bind].
    destruct (chroma_raises w (CollectionGet _)); [reflexivity|]. cbn [bind].
    rewrite Hrows; [reflexivity | apply elem_of_cons; now left]. }
  rewrite Hkb. apply IH. intros kb' Hin. apply Hrows. apply elem_of_cons. now right.
Qed.

(** X17. [add_document] stores the chunks in the provider collections
    only: the unsuffixed collection of the document's knowledge base is left
    as it was.  So [fulltext_search] in that knowledge base and the index
    [_rebuild_bm25_index] builds for it, both of which read the unsuffixed
    collection, are after the upload what they were before; with an empty
    unsuffixed collection the full-text search finds nothing and the rebuilt
    index is empty. *)
Theorem add_document_skips_unsuffixed
    (w : World) (cfg : RAGConfig) (st : Engine)
    (d : DocumentProcessor.ProcessedDocument) (query : string) :
  let kb := knowledge_base_of (DocumentProcessor.doc_metadata d) in
  let base := _get_collection_name cfg kb None in
  let st' := snd (add_document w cfg st d) in
  rows_of st' base = rows_of st base /\
  fulltext_search w cfg st' query (Some [kb]) = fulltext_search w cfg st query (Some [kb]) /\
  rebuilt_index w cfg st' kb = rebuilt_index w cfg st kb /\
  (rows_of st base = [] ->
   fulltext_search w cfg st' query (Some [kb]) = Ok [] /\
   forall i, rebuilt_index w cfg st' kb = Ok i -> doc_ids i = [] /\ bm25 i = None).
Proof.
  intros kb base st'.
  destruct (collection_names_distinct cfg kb) as (_ & Hlb & Hob). fold base in Hlb, Hob.
  assert (Hrows : rows_of st' base = rows_of st base).
  { destruct (add_document_effect w cfg st d) as (_ & _ & H). fold kb in H.
    subst st'. rewrite (H base). unfold provider_names. cbn [fst snd].
    rewrite !bool_decide_eq_false_2 by congruence. now rewrite !andb_false_r. }
  assert (Hfull : fulltext_search w cfg st' query (Some [kb]) =
                  fulltext_search w cfg st query (Some [kb])).
  { apply fulltext_search_rows. intros kb' ->%list_elem_of_singleton. exact Hrows. }
  assert (Hre : rebuilt_index w cfg st' kb = rebuilt_index w cfg st kb).
  { unfold rebuilt_index, _rebuild_bm25_index, _get_or_create_collection, collection_get.
    fold base. destruct (chroma_raises w (GetOrCreateCollection base)); [reflexivity|].
    cbn [bind]. destruct (chroma_raises w (CollectionGet base)); [reflexivity|].
    cbn [bind]. rewrite Hrows. destruct (kept_rows _) as [kept|e]; [|reflexivity].
    cbn [bind]. unfold build_index. destruct (scorer_of _ None); reflexivity. }
  split; [exact Hrows|]. split; [exact Hfull|]. split; [exact Hre|].
  intros Hempty. split.
  - rewrite Hfull. unfold fulltext_search. cbn [kb_ids_or_all bind fold_left].
    unfold fulltext_kb, _get_or_create_collection, collection_get. fold base.
    destruct (chroma_raises w (GetOrCreateCollection base)); [reflexivity|]. cbn [bind].
    destruct (chroma_raises w (CollectionGet base)); [reflexivity|]. cbn [bind].
    now rewrite Hempty.
  - intros i. rewrite Hre.
    unfold rebuilt_index, _rebuild_bm25_index, _get_or_create_collection, collection_get.
    fold base. destruct (chroma_raises w (GetOrCreateCollection base)); [discriminate|].
    cbn [bind]. destruct (chroma_raises w (CollectionGet base)); [discriminate|].
    cbn [bind]. rewrite Hempty. cbn. intros [= <-]. split; reflexivity.
Qed.

(** X18. Without embeddings nothing is stored: when the service is the one
    the source constructs (cloud provider only) and no API key is configured,
    [add_document] reports [False] for both providers and leaves the engine,
    collections and lexical index alike, exactly as it was. *)
Theorem add_document_without_api_key
    (w : World) (cfg : RAGConfig) (st : Engine)
    (d : DocumentProcessor.ProcessedDocument) :
  mode (svc w) = API_ONLY ->
  openai_api_key (svc w) = ""%string ->
  add_document w cfg st d = (Ok (false, false), st).
Proof.
  intros Hmode Hkey.
  destruct (add_document_effect w cfg st d) as (_ & H & _). apply H. clear H.
  unfold stored_flags. destruct (DocumentProcessor.doc_chunks d); [reflexivity|].
  cbn [fst snd]. unfold stored, embed_dual, local_available, openai_available_result.
  rewrite Hmode.
  assert (Hnone : forall texts, embed_with_openai (svc w) texts = None).
  { intros texts. unfold embed_with_openai, openai_available. rewrite Hkey.
    destruct texts; reflexivity. }
  destruct (texts_of d); cbn [local openai]; [reflexivity|].
  rewrite Hnone. reflexivity.
Qed.

Lemma add_document_without_api_key_witness :
  add_document no_api_key default_rag empty_engine sample_document =
    (Ok (false, false), empty_engine).
Proof.
  apply (add_document_without_api_key no_api_key default_rag empty_engine sample_document);
    reflexivity.
Defined.


(** **** Creating and listing *)

Lemma rows_of_set_rows st name rows name' :
  rows_of (set_rows st name rows) name' =
    if bool_decide (name' = name) then rows else rows_of st name'.
Proof.
  unfold rows_of, set_rows. cbn [collections]. case_bool_decide as H.
  - subst. now rewrite lookup_insert_eq.
  - now rewrite lookup_insert_ne by congruence.
Qed.

Lemma store_kb_metadata_fresh w c cfg st kb provider row :
  let name := _get_collection_name cfg kb (Some provider) in
  chroma_raises w (GetOrCreateCollection name) = false ->
  chroma_raises w (CollectionAdd name) = false ->
  row_id row ∉ map row_id (rows_of st name) ->
  store_kb_metadata w c cfg st kb provider row =
    Ok (set_rows st name (rows_of st name ++ [row])).
Proof.
  intros name Hgc Hadd Hfresh. unfold store_kb_metadata, _get_or_create_collection.
  fold name. rewrite Hgc. cbn [bind]. unfold add_record. rewrite Hadd.
  now rewrite bool_decide_eq_false_2 by exact Hfresh.
Qed.

Lemma filter_id_fresh (id : string) (rows : list Row) :
  id ∉ map row_id rows -> filter (fun r => row_id r = id) rows = [].
Proof.
  induction rows as [|r rows IH]; intros Hfresh; [reflexivity|].
  rewrite filter_cons. destruct (decide (row_id r = id)) as [Heq|Hne].
  - exfalso. apply Hfresh. simpl. apply elem_of_cons. left. congruence.
  - apply IH. intros Hin. apply Hfresh. simpl. apply elem_of_cons. now right.
Qed.

Lemma list_loop_entries w c cfg st names seen acc :
  Forall (fun e => e = knowledge_base_entry w c cfg st (base_id e)) acc ->
  Forall (fun e => e = knowledge_base_entry w c cfg st (base_id e))
    (list_loop w c cfg st names seen acc).
Proof.
  revert seen acc. induction names as [|name rest IH]; intros seen acc Hacc;
    cbn [list_loop]; [exact Hacc|].
  destruct (kb_id_of_collection cfg name) as [kb0|]; [|now apply IH].
  case_bool_decide; [now apply IH|]. apply IH. apply Forall_app. split; [exact Hacc|].
  constructor; [|constructor]. now rewrite entry_id.
Qed.

(** What [create_knowledge_base] stores in provider collections that can be
    opened and written and hold no metadata record. *)
Lemma create_knowledge_base_rows w c cfg st kb name description icon :
  let loc := _get_collection_name cfg kb (Some "local"%string) in
  let oai := _get_collection_name cfg kb (Some "openai"%string) in
  let row := kb_metadata_row name description icon (now_isoformat c) in
  chroma_raises w (GetOrCreateCollection loc) = false ->
  chroma_raises w (GetOrCreateCollection oai) = false ->
  chroma_raises w (CollectionAdd loc) = false ->
  chroma_raises w (CollectionAdd oai) = false ->
  sentinel_id ∉ map row_id (rows_of st loc) ->
  sentinel_id ∉ map row_id (rows_of st oai) ->
  let st' := snd (create_knowledge_base w c cfg st kb name description icon) in
  rows_of st' loc = rows_of st loc ++ [row] /\
  rows_of st' oai = rows_of st oai ++ [row].
Proof.
  intros loc oai row Hgl Hgo Hal Hao Hfl Hfo.
  destruct (collection_names_distinct cfg kb) as (Hlo & _ & _). fold loc oai in Hlo.
  unfold create_knowledge_base. fold row.
  rewrite (store_kb_metadata_fresh w c cfg st kb "local" row Hgl Hal Hfl). fold loc.
  rewrite (store_kb_metadata_fresh w c cfg _ kb "openai" row); fold oai;
    [| exact Hgo | exact Hao
     | rewrite rows_of_set_rows, bool_decide_eq_false_2 by congruence; exact Hfo].
  cbn [snd]. split.
  - rewrite rows_of_set_rows, bool_decide_eq_false_2 by congruence.
    now rewrite rows_of_set_rows, bool_decide_eq_true_2.
  - rewrite rows_of_set_rows, bool_decide_eq_true_2 by reflexivity.
    now rewrite rows_of_set_rows, bool_decide_eq_false_2 by congruence.
Qed.

(** X19. A knowledge base that is created is listed as it was created:
    when the two provider collections can be opened and written and hold no
    metadata record yet, [create_knowledge_base] appends the record to both
    and returns; and once the client lists the local collection,
    [list_knowledge_bases] has an entry for the identifier with the name, the
    description and the icon that were given. *)
Theorem create_then_list
    (w : World) (c : Client) (cfg : RAGConfig) (st : Engine)
    (kb name description icon : string) :
  let loc := _get_collection_name cfg kb (Some "local"%string) in
  let oai := _get_collection_name cfg kb (Some "openai"%string) in
  let row := kb_metadata_row name description icon (now_isoformat c) in
  let created := create_knowledge_base w c cfg st kb name description icon in
  chroma_raises w (GetOrCreateCollection loc) = false ->
  chroma_raises w (GetOrCreateCollection oai) = false ->
  chroma_raises w (CollectionAdd loc) = false ->
  chroma_raises w (CollectionAdd oai) = false ->
  chroma_raises w (CollectionGetIds loc sentinel_id) = false ->
  sentinel_id ∉ map row_id (rows_of st loc) ->
  sentinel_id ∉ map row_id (rows_of st oai) ->
  loc ∈ list_collections c (snd created) ->
  fst created =
    Ok {| base_id := kb; base_name := MStr name; base_description := MStr description;
          base_icon := MStr icon; base_chunk_count := 0 |} /\
  rows_of (snd created) loc = rows_of st loc ++ [row] /\
  rows_of (snd created) oai = rows_of st oai ++ [row] /\
  exists entry,
    entry ∈ list_knowledge_bases w c cfg (snd created) /\
    base_id entry = kb /\
    base_name entry = MStr name /\
    base_description entry = MStr description /\
    base_icon entry = MStr icon.
Proof.
  intros loc oai row created Hgl Hgo Hal Hao Hget Hfl Hfo Hlisted.
  destruct (collection_names_distinct cfg kb) as (Hlo & _ & _). fold loc oai in Hlo.
  assert (Hcreated : created =
            (Ok {| base_id := kb; base_name := MStr name;
                   base_description := MStr description;
                   base_icon := MStr icon; base_chunk_count := 0 |},
             set_rows (set_rows st loc (rows_of st loc ++ [row])) oai
               (rows_of st oai ++ [row]))).
  { subst created. unfold create_knowledge_base. fold row.
    rewrite (store_kb_metadata_fresh w c cfg st kb "local" row Hgl Hal Hfl). fold loc.
    rewrite (store_kb_metadata_fresh w c cfg _ kb "openai" row); fold oai.
    - rewrite rows_of_set_rows, bool_decide_eq_false_2 by congruence. reflexivity.
    - exact Hgo.
    - exact Hao.
    - rewrite rows_of_set_rows, bool_decide_eq_false_2 by congruence. exact Hfo. }
  rewrite Hcreated in Hlisted |- *. cbn [fst snd] in Hlisted |- *.
  set (st' := set_rows (set_rows st loc (rows_of st loc ++ [row])) oai
                (rows_of st oai ++ [row])) in *.
  assert (Hloc : rows_of st' loc = rows_of st loc ++ [row]).
  { unfold st'. rewrite rows_of_set_rows, bool_decide_eq_false_2 by congruence.
    now rewrite rows_of_set_rows, bool_decide_eq_true_2. }
  assert (Hoai : rows_of st' oai = rows_of st oai ++ [row]).
  { unfold st'. now rewrite rows_of_set_rows, bool_decide_eq_true_2. }
  split; [reflexivity|]. split; [exact Hloc|]. split; [exact Hoai|].
  destruct (list_loop_ids w c cfg st' (list_collections c st') [] []
              (Permutation_refl _) (NoDup_nil_2)) as [_ Hin].
  assert (Hkb : kb ∈ map base_id (list_knowledge_bases w c cfg st')).
  { apply Hin. right. exists loc. split; [exact Hlisted|].
    unfold loc. rewrite provider_collection_name by discriminate.
    rewrite kb_id_of_prefixed. f_equal. apply (strip_suffix_here "_local"). }
  apply list_elem_of_In, in_map_iff in Hkb as (entry & Hid & Hentry).
  apply list_elem_of_In in Hentry. exists entry. split; [exact Hentry|].
  split; [exact Hid|].
  pose proof (list_loop_entries w c cfg st' (list_collections c st') [] [] (Forall_nil_2 _))
    as Hall.
  rewrite Forall_forall in Hall. specialize (Hall entry Hentry). rewrite Hid in Hall.
  rewrite Hall. unfold knowledge_base_entry. cbn [kb_fields].
  unfold _get_or_create_collection. fold loc. rewrite Hgl. cbn [bind].
  unfold collection_get_ids. rewrite Hget, Hloc. cbn [bind try_except].
  rewrite filter_app, (filter_id_fresh _ _ Hfl). cbn.
  repeat split; reflexivity.
Qed.


(** A client none of whose calls raises; it lists the collections that hold
    records, and rejects an [add] of a stored id. *)
Definition plain_client : Client := {|
  client_raises := fun _ => false;
  list_collections := fun st => map fst (map_to_list (collections st));
  duplicate_raises := fun _ => true;
  updated_metadata := fun _ m => m;
  now_isoformat := "2024-01-01T00:00:00"
|}.

Lemma create_then_list_witness :
  exists entry,
    entry ∈ list_knowledge_bases (quiet_world []) plain_client default_rag
              (snd (create_knowledge_base (quiet_world []) plain_client default_rag
                      empty_engine "kb" "Policen" "Allgemeine Bedingungen" "P")) /\
    base_id entry = "kb"%string /\
    base_name entry = MStr "Policen" /\
    base_description entry = MStr "Allgemeine Bedingungen" /\
    base_icon entry = MStr "P".
Proof.
  apply (create_then_list (quiet_world []) plain_client default_rag empty_engine
           "kb" "Policen" "Allgemeine Bedingungen" "P");
    try reflexivity.
  - vm_compute. intros H. inversion H.
  - vm_compute. intros H. inversion H.
  - vm_compute. apply list_elem_of_In. simpl. tauto.
Defined.

(** **** Chunk counts *)

Lemma provider_count_spec w c cfg st kb provider :
  let name := _get_collection_name cfg kb (Some provider) in
  chroma_raises w (GetOrCreateCollection name) = false ->
  client_raises c (CollectionCount name) = false ->
  provider_count w c cfg st kb provider =
    Z.max 0 (Z.of_nat (length (rows_of st name)) - 1).
Proof.
  intros name Hgc Hcount. unfold provider_count, _get_or_create_collection.
  fold name. rewrite Hgc. cbn [bind]. now rewrite Hcount.
Qed.

(** The chunks a collection that holds the metadata record only takes: all
    but one that has the id of that record. *)
Lemma new_rows_after_sentinel st name (row : Row)
    (chunks : list DocumentProcessor.DocumentChunk) :
  rows_of st name = [row] -> row_id row = sentinel_id ->
  length (new_rows st name (map row_of_chunk chunks)) =
    length (List.filter
              (fun ch => negb (is_sentinel_id (DocumentProcessor.chunk_id ch)))
              chunks).
Proof.
  intros Hrows Hid. unfold new_rows. rewrite Hrows. cbn [map]. rewrite Hid.
  induction chunks as [|ch rest IH]; [reflexivity|].
  cbn [map List.filter row_of_chunk row_id].
  assert (Heq : bool_decide (DocumentProcessor.chunk_id ch ∈ [sentinel_id]) =
                is_sentinel_id (DocumentProcessor.chunk_id ch)).
  { unfold is_sentinel_id. apply bool_decide_ext. now rewrite list_elem_of_singleton. }
  rewrite Heq. destruct (is_sentinel_id _); cbn [negb length]; now rewrite IH.
Qed.

Lemma new_rows_empty st name rows :
  rows_of st name = [] -> new_rows st name rows = rows.
Proof.
  intros Hrows. unfold new_rows. rewrite Hrows. cbn [map].
  induction rows as [|r rest IH]; [reflexivity|]. cbn [List.filter].
  rewrite bool_decide_eq_false_2 by apply not_elem_of_nil. cbn [negb]. now rewrite IH.
Qed.

(** X20. The chunk counts of [get_embedding_status] are the numbers of
    records less one, for the metadata record.  For a knowledge base that
    [create_knowledge_base] set up in empty provider collections they are
    right after an upload: a provider that stored the chunks of the document
    counts all of them (but a chunk that has the id of the metadata record,
    which the collection skips), the other none.  For a knowledge base that
    exists only because [add_document] wrote into its collections they are
    one short. *)
Theorem embedding_status_counts
    (w : World) (c : Client) (cfg : RAGConfig) (st : Engine)
    (d : DocumentProcessor.ProcessedDocument) (name description icon : string) :
  let kb := knowledge_base_of (DocumentProcessor.doc_metadata d) in
  let loc := _get_collection_name cfg kb (Some "local"%string) in
  let oai := _get_collection_name cfg kb (Some "openai"%string) in
  let n := Z.of_nat (length (DocumentProcessor.doc_chunks d)) in
  let m := Z.of_nat (length (List.filter
                               (fun ch => negb (is_sentinel_id
                                                  (DocumentProcessor.chunk_id ch)))
                               (DocumentProcessor.doc_chunks d))) in
  let l := fst (stored_flags w cfg d) in
  let o := snd (stored_flags w cfg d) in
  chroma_raises w (GetOrCreateCollection loc) = false ->
  chroma_raises w (GetOrCreateCollection oai) = false ->
  chroma_raises w (CollectionAdd loc) = false ->
  chroma_raises w (CollectionAdd oai) = false ->
  client_raises c (CollectionCount loc) = false ->
  client_raises c (CollectionCount oai) = false ->
  rows_of st loc = [] ->
  rows_of st oai = [] ->
  let created := snd (create_knowledge_base w c cfg st kb name description icon) in
  get_embedding_status w c cfg (snd (add_document w cfg created d)) kb =
    {| local_count := if l then m else 0;
       openai_count := if o then m else 0;
       has_local_embeddings := l && (0 <? m);
       has_openai_embeddings := o && (0 <? m) |} /\
  (Forall (fun ch => DocumentProcessor.chunk_id ch <> sentinel_id)
          (DocumentProcessor.doc_chunks d) ->
   m = n /\ (l = true -> 0 < m) /\ (o = true -> 0 < m)) /\
  get_embedding_status w c cfg (snd (add_document w cfg st d)) kb =
    {| local_count := if l then n - 1 else 0;
       openai_count := if o then n - 1 else 0;
       has_local_embeddings := l && (1 <? n);
       has_openai_embeddings := o && (1 <? n) |}.
Proof.
  intros kb loc oai n m l o. subst l o.
  destruct (stored_flags w cfg d) as [l o] eqn:Hflags. cbn [fst snd].
  intros Hgl Hgo Hal Hao Hcl Hco Hel Heo.
  set (created := snd (create_knowledge_base w c cfg st kb name description icon)).
  destruct (collection_names_distinct cfg kb) as (Hlo & _ & _). fold loc oai in Hlo.
  assert (Hpos : l || o = true -> 0 < n).
  { unfold stored_flags in Hflags. subst n.
    destruct (DocumentProcessor.doc_chunks d); [|simpl; lia].
    injection Hflags as <- <-. discriminate. }
  set (rows := map row_of_chunk (DocumentProcessor.doc_chunks d)).
  assert (Hstatus : forall st0,
            get_embedding_status w c cfg (snd (add_document w cfg st0 d)) kb =
              let count (ok : bool) (name : string) :=
                Z.max 0 (Z.of_nat (length (rows_of st0 name)) +
                         (if ok then Z.of_nat (length (new_rows st0 name rows)) else 0)
                         - 1) in
              {| local_count := count l loc;
                 openai_count := count o oai;
                 has_local_embeddings := 0 <? count l loc;
                 has_openai_embeddings := 0 <? count o oai |}).
  { intros st0.
    destruct (add_document_effect w cfg st0 d) as (_ & _ & Hrows). fold kb rows in Hrows.
    rewrite Hflags in Hrows. cbn [fst snd] in Hrows. unfold provider_names in Hrows.
    fold loc oai in Hrows. cbn [fst snd] in Hrows.
    unfold get_embedding_status.
    rewrite (provider_count_spec w c cfg _ kb "local" Hgl Hcl).
    rewrite (provider_count_spec w c cfg _ kb "openai" Hgo Hco).
    fold loc oai. rewrite (Hrows loc), (Hrows oai).
    rewrite (bool_decide_eq_true_2 (loc = loc)) by reflexivity.
    rewrite (bool_decide_eq_true_2 (oai = oai)) by reflexivity.
    rewrite (bool_decide_eq_false_2 (loc = oai)) by congruence.
    rewrite (bool_decide_eq_false_2 (oai = loc)) by congruence.
    rewrite !andb_true_r, !andb_false_r, orb_false_r, orb_false_l. cbv zeta.
    destruct l, o; rewrite ?length_app, ?Nat2Z.inj_add, ?Z.add_0_r; reflexivity. }
  split; [|split].
  - destruct (create_knowledge_base_rows w c cfg st kb name description icon) as [H1 H2];
      try assumption; try (fold loc; rewrite Hel; apply not_elem_of_nil);
      try (fold oai; rewrite Heo; apply not_elem_of_nil).
    fold loc oai in H1, H2. fold created in H1, H2. rewrite Hel in H1. rewrite Heo in H2.
    cbn [app] in H1, H2.
    rewrite (Hstatus created). cbv beta zeta. rewrite H1, H2. cbn [length].
    unfold rows.
    rewrite (new_rows_after_sentinel created loc _ _ H1 eq_refl).
    rewrite (new_rows_after_sentinel created oai _ _ H2 eq_refl). fold m.
    assert (Hm : 0 <= m) by (subst m; lia).
    destruct l, o; cbn [andb]; f_equal; try lia;
      try (destruct (Z.ltb_spec 0 m);
           [apply Z.ltb_lt | apply Z.ltb_ge]; lia);
      try reflexivity.
  - intros Hfresh.
    assert (Hmn : m = n).
    { subst m n. f_equal. f_equal. clear -Hfresh.
      induction Hfresh as [|ch rest Hch _ IH]; [reflexivity|]. cbn [List.filter].
      unfold is_sentinel_id at 1. rewrite bool_decide_eq_false_2 by exact Hch.
      cbn [negb]. now rewrite IH. }
    split; [exact Hmn|]. rewrite Hmn.
    split; intros ->; apply Hpos; [reflexivity | apply orb_true_r].
  - rewrite (Hstatus st). cbv beta zeta. rewrite Hel, Heo. cbn [length].
    rewrite !new_rows_empty by assumption. unfold rows. rewrite length_map. fold n.
    destruct l, o; cbn [orb andb] in Hpos |- *;
      try specialize (Hpos eq_refl); f_equal; try lia;
      try (destruct (Z.ltb_spec 1 n); [apply Z.ltb_lt | apply Z.ltb_ge]; lia);
      try reflexivity.
Qed.


Lemma embedding_status_counts_witness :
  get_embedding_status (quiet_world []) plain_client default_rag
    (snd (add_document (quiet_world []) default_rag
            (snd (create_knowledge_base (quiet_world []) plain_client default_rag
                    empty_engine "kb" "Policen" "Allgemeine Bedingungen" "P"))
            sample_document))
    "kb" =
  {| local_count := 0; openai_count := 2;
     has_local_embeddings := false; has_openai_embeddings := true |}.
Proof.
  apply (embedding_status_counts (quiet_world []) plain_client default_rag empty_engine
           sample_document "Policen" "Allgemeine Bedingungen" "P");
    reflexivity.
Defined.


(** **** Deleting *)

(** Whether [client.delete_collection(name)] goes through. *)
Definition gone (c : Client) (name : string) : bool :=
  negb (client_raises c (DeleteCollection name)).

Lemma try_delete_collection_spec c st name :
  try_delete_collection c st name =
    (gone c name,
     if gone c name then with_collections (delete name (collections st)) st else st).
Proof.
  unfold try_delete_collection, delete_collection, gone.
  destruct (client_raises c (DeleteCollection name)); reflexivity.
Qed.

Lemma try_delete_collection_rows c st name name' :
  rows_of (snd (try_delete_collection c st name)) name' =
    if gone c name && bool_decide (name' = name) then [] else rows_of st name'.
Proof.
  rewrite try_delete_collection_spec. cbn [snd].
  destruct (gone c name); [|reflexivity]. cbn [andb].
  unfold rows_of. cbn [with_collections collections]. case_bool_decide as H.
  - subst. now rewrite lookup_delete_eq.
  - now rewrite lookup_delete_ne by congruence.
Qed.

Lemma try_delete_collection_indices c st name :
  _bm25_indices (snd (try_delete_collection c st name)) = _bm25_indices st /\
  index_files (snd (try_delete_collection c st name)) = index_files st.
Proof.
  rewrite try_delete_collection_spec. cbn [snd].
  destruct (gone c name); split; reflexivity.
Qed.

(** The engine after the two provider collections were deleted, as far as
    the client let them be. *)
Definition providers_deleted (c : Client) (cfg : RAGConfig) (st : Engine)
    (kb : string) : Engine :=
  snd (try_delete_collection c
         (snd (try_delete_collection c st
                 (_get_collection_name cfg kb (Some "local"%string))))
         (_get_collection_name cfg kb (Some "openai"%string))).

Lemma providers_deleted_rows c cfg st kb name :
  let loc := _get_collection_name cfg kb (Some "local"%string) in
  let oai := _get_collection_name cfg kb (Some "openai"%string) in
  rows_of (providers_deleted c cfg st kb) name =
    if bool_decide (name ∈ [loc; oai]) && gone c name then [] else rows_of st name.
Proof.
  intros loc oai. unfold providers_deleted. fold loc oai.
  rewrite !try_delete_collection_rows.
  destruct (collection_names_distinct cfg kb) as (Hlo & _ & _). fold loc oai in Hlo.
  destruct (decide (name = oai)) as [->|Hno].
  - rewrite (bool_decide_eq_true_2 (oai = oai)) by reflexivity.
    rewrite (bool_decide_eq_false_2 (oai = loc)) by congruence.
    rewrite bool_decide_eq_true_2 by (apply elem_of_cons; right; apply elem_of_cons; now left).
    rewrite andb_true_r, andb_false_r. cbn [andb]. reflexivity.
  - rewrite (bool_decide_eq_false_2 (name = oai)) by exact Hno. rewrite andb_false_r.
    destruct (decide (name = loc)) as [->|Hnl].
    + rewrite (bool_decide_eq_true_2 (loc = loc)) by reflexivity.
      rewrite bool_decide_eq_true_2 by (apply elem_of_cons; now left).
      rewrite andb_true_r. reflexivity.
    + rewrite (bool_decide_eq_false_2 (name = loc)) by exact Hnl. rewrite andb_false_r.
      rewrite bool_decide_eq_false_2; [reflexivity|].
      intros [?|[?|H]%elem_of_cons]%elem_of_cons; [congruence | congruence | inversion H].
Qed.

Lemma providers_deleted_indices c cfg st kb :
  _bm25_indices (providers_deleted c cfg st kb) = _bm25_indices st /\
  index_files (providers_deleted c cfg st kb) = index_files st.
Proof.
  unfold providers_deleted.
  destruct (try_delete_collection_indices c
              (snd (try_delete_collection c st
                      (_get_collection_name cfg kb (Some "local"%string))))
              (_get_collection_name cfg kb (Some "openai"%string))) as [H1 H2].
  destruct (try_delete_collection_indices c st
              (_get_collection_name cfg kb (Some "local"%string))) as [H3 H4].
  split; congruence.
Qed.

(** X21. [delete_knowledge_base] removes the three collections of the
    knowledge base that the client lets it remove and nothing else, drops the
    cached lexical index and removes the index file, so that no index can be
    loaded for the knowledge base afterwards.  Its result says whether a
    provider collection was removed: removing the unsuffixed collection alone
    is reported as [False].  When both provider collections are removed the
    embedding status of the knowledge base is empty. *)
Theorem delete_knowledge_base_removes
    (w : World) (c : Client) (cfg : RAGConfig) (st : Engine) (kb : string) :
  (forall i, _bm25_indices st !! kb = Some i -> kb_id i = kb) ->
  let loc := _get_collection_name cfg kb (Some "local"%string) in
  let oai := _get_collection_name cfg kb (Some "openai"%string) in
  let base := _get_collection_name cfg kb None in
  let result := delete_knowledge_base c cfg st kb in
  fst result = gone c loc || gone c oai /\
  (forall name,
      rows_of (snd result) name =
        if bool_decide (name ∈ [loc; oai; base]) && gone c name then []
        else rows_of st name) /\
  _bm25_indices (snd result) = delete kb (_bm25_indices st) /\
  index_files (snd result) = delete kb (index_files st) /\
  load_index (snd result) (new_index kb) = None /\
  (gone c loc = true -> gone c oai = true ->
   get_embedding_status w c cfg (snd result) kb =
     {| local_count := 0; openai_count := 0;
        has_local_embeddings := false; has_openai_embeddings := false |}).
Proof.
  intros Hcache loc oai base result.
  destruct (collection_names_distinct cfg kb) as (Hlo & Hlb & Hob).
  fold loc oai base in Hlo, Hlb, Hob.
  set (st2 := providers_deleted c cfg st kb).
  set (st3 := snd (try_delete_collection c st2 base)).
  assert (Hresult : result =
            (gone c loc || gone c oai,
             match _bm25_indices st3 !! kb with
             | Some index => forget_index (snd (clear st3 index)) kb
             | None => snd (clear st3 (new_index kb))
             end)).
  { subst result st3 st2. unfold delete_knowledge_base, providers_deleted.
    fold loc oai base. rewrite !try_delete_collection_spec. cbn [snd]. reflexivity. }
  destruct (providers_deleted_indices c cfg st kb) as [Hi2 Hf2]. fold st2 in Hi2, Hf2.
  destruct (try_delete_collection_indices c st2 base) as [Hi3 Hf3]. fold st3 in Hi3, Hf3.
  assert (Hrows3 : forall name,
            rows_of st3 name =
              if bool_decide (name ∈ [loc; oai; base]) && gone c name then []
              else rows_of st name).
  { intros name. subst st3. rewrite try_delete_collection_rows. subst st2.
    rewrite providers_deleted_rows. fold loc oai.
    destruct (decide (name = base)) as [->|Hnb].
    - rewrite (bool_decide_eq_true_2 (base = base)) by reflexivity.
      rewrite (bool_decide_eq_false_2 (base ∈ [loc; oai])).
      2:{ intros [?|[?|H]%elem_of_cons]%elem_of_cons;
            [congruence | congruence | inversion H]. }
      rewrite bool_decide_eq_true_2
        by (apply elem_of_cons; right; apply elem_of_cons; right; apply elem_of_cons; now left).
      rewrite andb_true_r. cbn [andb]. destruct (gone c base); reflexivity.
    - rewrite (bool_decide_eq_false_2 (name = base)) by exact Hnb. rewrite andb_false_r.
      assert (Hiff : bool_decide (name ∈ [loc; oai; base]) = bool_decide (name ∈ [loc; oai])).
      { apply bool_decide_ext. rewrite !elem_of_cons. rewrite !elem_of_nil. tauto. }
      now rewrite Hiff. }
  assert (Hstate :
            (forall name, rows_of (snd result) name = rows_of st3 name) /\
            _bm25_indices (snd result) = delete kb (_bm25_indices st) /\
            index_files (snd result) = delete kb (index_files st)).
  { rewrite Hresult. cbn [snd]. rewrite Hi3, Hi2.
    destruct (_bm25_indices st !! kb) as [index|] eqn:Hidx.
    - unfold forget_index, clear. cbn [snd collections _bm25_indices index_files rows_of].
      rewrite Hi3, Hi2, Hf3, Hf2. rewrite (Hcache index eq_refl).
      repeat split; reflexivity.
    - unfold clear. cbn [snd collections _bm25_indices index_files rows_of new_index kb_id].
      rewrite Hi3, Hi2, Hf3, Hf2. rewrite (delete_id (_bm25_indices st) kb Hidx).
      repeat split; reflexivity. }
  destruct Hstate as (Hrows & Hidx & Hfiles).
  split; [now rewrite Hresult|].
  split; [intros name; now rewrite Hrows, Hrows3|].
  split; [exact Hidx|]. split; [exact Hfiles|]. split.
  - unfold load_index. cbn [new_index kb_id]. rewrite Hfiles, lookup_delete_eq. reflexivity.
  - intros Hgl Hgo. unfold get_embedding_status.
    assert (Hcount : forall provider,
              provider ∈ ["local"; "openai"]%string ->
              provider_count w c cfg (snd result) kb provider = 0).
    { intros provider Hp. unfold provider_count, _get_or_create_collection.
      destruct (chroma_raises w _); [reflexivity|]. cbn [bind].
      destruct (client_raises c _); [reflexivity|]. cbn [try_except].
      rewrite Hrows, Hrows3.
      apply elem_of_cons in Hp as [->|Hp]; [|apply list_elem_of_singleton in Hp as ->].
      - fold loc. rewrite Hgl, bool_decide_eq_true_2 by (apply elem_of_cons; now left).
        reflexivity.
      - fold oai. rewrite Hgo.
        rewrite bool_decide_eq_true_2
          by (apply elem_of_cons; right; apply elem_of_cons; now left).
        reflexivity. }
    rewrite !Hcount; [reflexivity | |].
    + apply elem_of_cons; right; apply elem_of_cons; now left.
    + apply elem_of_cons; now left.
Qed.

Lemma delete_knowledge_base_removes_witness :
  load_index (snd (delete_knowledge_base plain_client default_rag one_version "kb"))
    (new_index "kb") = None.
Proof.
  apply (delete_knowledge_base_removes (quiet_world []) plain_client default_rag
           one_version "kb").
  intros i Hi. vm_compute in Hi. injection Hi as <-. reflexivity.
Defined.

(** X22. [clear_all_embeddings] removes the provider collections the client
    lets it remove, reports each, and leaves every other collection, the
    unsuffixed one included.  It drops the cached lexical index; the index
    file is removed only together with a cached index.  With no index cached
    the file stays, and the next [_get_bm25_index] loads the chunks that were
    cleared back from it (a file whose corpus has documents and no token,
    which [_save_index] is never called to write, cannot be loaded: the
    index is rebuilt then). *)
Theorem clear_all_embeddings_keeps_uncached_index_file
    (w : World) (c : Client) (cfg : RAGConfig) (st : Engine) (kb : string) :
  (forall i, _bm25_indices st !! kb = Some i -> kb_id i = kb) ->
  let loc := _get_collection_name cfg kb (Some "local"%string) in
  let oai := _get_collection_name cfg kb (Some "openai"%string) in
  let result := clear_all_embeddings c cfg st kb in
  fst result = (gone c loc, gone c oai) /\
  (forall name,
      rows_of (snd result) name =
        if bool_decide (name ∈ [loc; oai]) && gone c name then []
        else rows_of st name) /\
  _bm25_indices (snd result) = delete kb (_bm25_indices st) /\
  index_files (snd result) =
    (if bool_decide (is_Some (_bm25_indices st !! kb))
     then delete kb (index_files st) else index_files st) /\
  (forall data,
      _bm25_indices st !! kb = None ->
      index_files st !! kb = Some (Some data) ->
      match scorer_of (data_tokenized_corpus data) None with
      | Ok _ =>
          exists i st',
            _get_bm25_index w cfg (snd result) kb = Ok (i, st') /\
            doc_ids i = data_doc_ids data /\
            documents i = data_documents data /\
            tokenized_corpus i = data_tokenized_corpus data
      | Raise _ =>
          data_tokenized_corpus data <> [] /\
          concat (data_tokenized_corpus data) = [] /\
          _get_bm25_index w cfg (snd result) kb =
            bind (_rebuild_bm25_index w cfg (snd result) kb (Some (new_index kb)))
                 (fun '(index, st') => Ok (index, cache_index st' kb index))
      end).
Proof.
  intros Hcache loc oai result.
  set (st2 := providers_deleted c cfg st kb).
  assert (Hresult : result =
            ((gone c loc, gone c oai),
             match _bm25_indices st2 !! kb with
             | Some index => forget_index (snd (clear st2 index)) kb
             | None => st2
             end)).
  { subst result st2. unfold clear_all_embeddings, providers_deleted.
    fold loc oai. rewrite !try_delete_collection_spec. cbn [snd]. reflexivity. }
  destruct (providers_deleted_indices c cfg st kb) as [Hi2 Hf2]. fold st2 in Hi2, Hf2.
  pose proof (providers_deleted_rows c cfg st kb) as Hrows2.
  cbv zeta in Hrows2. fold loc oai st2 in Hrows2.
  assert (Hstate :
            (forall name, rows_of (snd result) name = rows_of st2 name) /\
            _bm25_indices (snd result) = delete kb (_bm25_indices st) /\
            index_files (snd result) =
              (if bool_decide (is_Some (_bm25_indices st !! kb))
               then delete kb (index_files st) else index_files st)).
  { rewrite Hresult. cbn [snd]. rewrite Hi2.
    destruct (_bm25_indices st !! kb) as [index|] eqn:Hidx.
    - rewrite bool_decide_eq_true_2 by eauto.
      unfold forget_index, clear. cbn [snd collections _bm25_indices index_files rows_of].
      rewrite Hi2, Hf2, (Hcache index eq_refl). repeat split; reflexivity.
    - rewrite bool_decide_eq_false_2 by (intros [? ?]; discriminate).
      rewrite Hi2, Hf2, (delete_id (_bm25_indices st) kb Hidx). repeat split; reflexivity. }
  destruct Hstate as (Hrows & Hidx & Hfiles).
  split; [now rewrite Hresult|].
  split; [intros name; now rewrite Hrows, Hrows2|].
  split; [exact Hidx|]. split; [exact Hfiles|].
  intros data Hnone Hfile.
  rewrite Hnone in Hfiles. rewrite bool_decide_eq_false_2 in Hfiles
    by (intros [? ?]; discriminate).
  unfold _get_bm25_index. rewrite Hidx, lookup_delete_eq.
  unfold load_index. cbn [new_index kb_id bm25]. rewrite Hfiles, Hfile.
  destruct (scorer_of (data_tokenized_corpus data) None) as [b|e] eqn:Hb.
  - eexists _, _. split; [reflexivity|]. repeat split; reflexivity.
  - apply Bm25IndexProofs.scorer_of_raises in Hb as (_ & Hne & Hc).
    split; [exact Hne|]. split; [exact Hc | reflexivity].
Qed.

(** An engine that was restarted after the upload of [one_version]: the
    collections and the index file are there, the cache is empty. *)
Definition restarted (st : Engine) : Engine :=
  {| collections := collections st; _bm25_indices := ∅; index_files := index_files st |}.

Lemma clear_all_embeddings_keeps_uncached_index_file_witness :
  exists i st',
    _get_bm25_index (quiet_world []) default_rag
      (snd (clear_all_embeddings plain_client default_rag (restarted one_version) "kb"))
      "kb" = Ok (i, st') /\
    doc_ids i = ["a.txt#Version eins._chunk_0"]%string.
Proof.
  destruct (clear_all_embeddings_keeps_uncached_index_file (quiet_world []) plain_client
              default_rag (restarted one_version) "kb")
    as (_ & _ & _ & _ & H).
  - intros i Hi. discriminate.
  - specialize (H {| data_doc_ids := ["a.txt#Version eins._chunk_0"]%string;
                     data_documents := ["Version eins."]%string;
                     data_tokenized_corpus := [["version"; "eins."]%string] |}
                  eq_refl).
    destruct H as (i & st' & Hget & Hids & _); [vm_compute; reflexivity|].
    exists i, st'. split; [exact Hget | exact Hids].
Defined.

(** **** Deleting a document *)

(** The records of a collection that [where={"source": doc}] selects. *)
Definition tagged (st : Engine) (name doc : string) : list Row :=
  List.filter (fun r => bool_decide (row_metadata r !! "source"%string = Some (MStr doc)))
    (rows_of st name).

(** Whether [delete_document] deletes from the collection of a provider. *)
Definition deletes (w : World) (c : Client) (cfg : RAGConfig) (st : Engine)
    (kb provider doc : string) : bool :=
  let name := _get_collection_name cfg kb (Some provider) in
  negb (chroma_raises w (GetOrCreateCollection name)) &&
  negb (client_raises c (CollectionGetWhere name)) &&
  negb (client_raises c (CollectionDelete name)) &&
  negb (bool_decide (tagged st name doc = [])).

Definition untagged_ids (st : Engine) (name doc : string) : list Row :=
  List.filter (fun r => negb (bool_decide (row_id r ∈ map row_id (tagged st name doc))))
    (rows_of st name).

Lemma delete_from_spec w c cfg st kb provider doc :
  let name := _get_collection_name cfg kb (Some provider) in
  delete_from w c cfg st kb provider doc =
    (deletes w c cfg st kb provider doc,
     if deletes w c cfg st kb provider doc
     then set_rows st name (untagged_ids st name doc) else st).
Proof.
  intros name. unfold delete_from, deletes, _get_or_create_collection, collection_get_where.
  fold name. destruct (chroma_raises w (GetOrCreateCollection name)); [reflexivity|].
  cbn [bind negb andb]. destruct (client_raises c (CollectionGetWhere name)); [reflexivity|].
  cbn [bind negb andb]. fold (tagged st name doc).
  destruct (tagged st name doc) as [|r rs] eqn:Htag.
  - rewrite bool_decide_eq_true_2 by reflexivity. rewrite andb_false_r. reflexivity.
  - rewrite bool_decide_eq_false_2 by discriminate. rewrite andb_true_r.
    unfold collection_delete, untagged_ids. rewrite Htag.
    destruct (client_raises c (CollectionDelete name)); reflexivity.
Qed.

Lemma untagged_ids_tagged st name doc :
  List.filter (fun r => bool_decide (row_metadata r !! "source"%string = Some (MStr doc)))
    (untagged_ids st name doc) = [].
Proof.
  unfold untagged_ids, tagged.
  set (sel := fun r : Row => bool_decide (row_metadata r !! "source"%string = Some (MStr doc))).
  assert (H : forall (rows : list Row) (ids : list string),
            (forall r, r ∈ rows -> sel r = true -> row_id r ∈ ids) ->
            List.filter sel
              (List.filter (fun r => negb (bool_decide (row_id r ∈ ids))) rows) = []).
  { induction rows as [|r rows IH]; intros ids Hids; [reflexivity|].
    cbn [List.filter]. case_bool_decide as Hin; cbn [negb].
    - apply IH. intros r' Hr'. apply Hids. apply elem_of_cons. now right.
    - cbn [List.filter]. destruct (sel r) eqn:Hsel.
      + exfalso. apply Hin. apply Hids; [apply elem_of_cons; now left | exact Hsel].
      + apply IH. intros r' Hr'. apply Hids. apply elem_of_cons. now right. }
  apply H. intros r Hr Hsel. apply list_elem_of_In, in_map. apply filter_In.
  split; [now apply list_elem_of_In | exact Hsel].
Qed.

Lemma untagged_ids_removed st name doc r :
  r ∈ rows_of st name -> r ∉ untagged_ids st name doc ->
  exists r', r' ∈ tagged st name doc /\ row_id r' = row_id r.
Proof.
  intros Hin Hout. unfold untagged_ids in Hout.
  destruct (decide (row_id r ∈ map row_id (tagged st name doc))) as [Hid|Hid].
  - apply list_elem_of_In, in_map_iff in Hid as (r' & Heq & Hr').
    exists r'. split; [now apply list_elem_of_In | exact Heq].
  - exfalso. apply Hout. apply list_elem_of_In, filter_In.
    split; [now apply list_elem_of_In|]. now rewrite bool_decide_eq_false_2.
Qed.

Lemma untagged_ids_sublist st name doc : untagged_ids st name doc `sublist_of` rows_of st name.
Proof.
  unfold untagged_ids. generalize (map row_id (tagged st name doc)). intros ids.
  induction (rows_of st name) as [|r rows IH]; [constructor|].
  cbn [List.filter]. destruct (negb _); [now constructor | now apply sublist_cons].
Qed.

(** The engine after [delete_document], collection by collection. *)
Lemma delete_document_rows w c cfg st kb doc :
  let loc := _get_collection_name cfg kb (Some "local"%string) in
  let oai := _get_collection_name cfg kb (Some "openai"%string) in
  let dl := deletes w c cfg st kb "local" doc in
  let do := deletes w c cfg st kb "openai" doc in
  let result := delete_document w c cfg st kb doc in
  fst result = dl || do /\
  _bm25_indices (snd result) = _bm25_indices st /\
  index_files (snd result) = index_files st /\
  (dl || do = false -> snd result = st) /\
  forall name,
    rows_of (snd result) name =
      if (dl && bool_decide (name = loc)) || (do && bool_decide (name = oai))
      then untagged_ids st name doc else rows_of st name.
Proof.
  intros loc oai dl do result.
  destruct (collection_names_distinct cfg kb) as (Hlo & _ & _). fold loc oai in Hlo.
  set (st1 := if dl then set_rows st loc (untagged_ids st loc doc) else st).
  assert (Hoai : rows_of st1 oai = rows_of st oai).
  { subst st1. destruct dl; [|reflexivity].
    now rewrite rows_of_set_rows, bool_decide_eq_false_2 by congruence. }
  assert (Hdo : deletes w c cfg st1 kb "openai" doc = do).
  { subst do. unfold deletes, tagged. fold oai. now rewrite Hoai. }
  assert (Hun : untagged_ids st1 oai doc = untagged_ids st oai doc).
  { unfold untagged_ids, tagged. now rewrite Hoai. }
  assert (Hresult : result =
            (dl || do, if do then set_rows st1 oai (untagged_ids st oai doc) else st1)).
  { subst result. unfold delete_document.
    rewrite (delete_from_spec w c cfg st kb "local" doc). fold loc dl st1.
    rewrite (delete_from_spec w c cfg st1 kb "openai" doc). fold oai.
    rewrite Hdo, Hun. reflexivity. }
  rewrite Hresult. cbn [fst snd]. split; [reflexivity|].
  split; [subst st1; now destruct dl, do|]. split; [subst st1; now destruct dl, do|].
  split.
  - intros H. apply orb_false_iff in H as [H1 H2]. subst st1. now rewrite H1, H2.
  - intros name. subst st1. destruct dl, do; cbn [andb orb];
      rewrite ?rows_of_set_rows; [| | |reflexivity].
    + destruct (decide (name = oai)) as [->|Hno].
      * rewrite (bool_decide_eq_true_2 (oai = oai)) by reflexivity.
        now rewrite orb_true_r.
      * rewrite (bool_decide_eq_false_2 (name = oai)) by exact Hno. rewrite orb_false_r.
        destruct (decide (name = loc)) as [->|Hnl].
        -- now rewrite (bool_decide_eq_true_2 (loc = loc)) by reflexivity.
        -- now rewrite (bool_decide_eq_false_2 (name = loc)) by exact Hnl.
    + rewrite orb_false_r. destruct (decide (name = loc)) as [->|Hnl].
      * now rewrite (bool_decide_eq_true_2 (loc = loc)) by reflexivity.
      * now rewrite (bool_decide_eq_false_2 (name = loc)) by exact Hnl.
    + destruct (decide (name = oai)) as [->|Hno].
      * now rewrite (bool_decide_eq_true_2 (oai = oai)) by reflexivity.
      * now rewrite (bool_decide_eq_false_2 (name = oai)) by exact Hno.
Qed.

(** X23. [delete_document] removes records from the two provider
    collections only, and from each only records whose id is that of a record
    with ["source"] equal to the document id; the records that stay keep
    their order.  Its result is [True] exactly when it removed the tagged
    records of a provider collection, which then holds no record tagged with
    the document; when the result is [False] the engine is as it was. *)
Theorem delete_document_removes_tagged
    (w : World) (c : Client) (cfg : RAGConfig) (st : Engine) (kb doc : string) :
  let loc := _get_collection_name cfg kb (Some "local"%string) in
  let oai := _get_collection_name cfg kb (Some "openai"%string) in
  let result := delete_document w c cfg st kb doc in
  (forall name, name ∉ [loc; oai] -> rows_of (snd result) name = rows_of st name) /\
  (forall name, rows_of (snd result) name `sublist_of` rows_of st name) /\
  (forall name r,
      r ∈ rows_of st name -> r ∉ rows_of (snd result) name ->
      exists r', r' ∈ tagged st name doc /\ row_id r' = row_id r) /\
  (fst result = false -> snd result = st) /\
  (fst result = true ->
   exists name, name ∈ [loc; oai] /\
                tagged st name doc <> [] /\ tagged (snd result) name doc = []).
Proof.
  intros loc oai result.
  destruct (delete_document_rows w c cfg st kb doc) as (Hflag & _ & _ & Hsame & Hrows).
  fold loc oai result in Hflag, Hsame, Hrows.
  set (dl := deletes w c cfg st kb "local" doc) in *.
  set (do := deletes w c cfg st kb "openai" doc) in *.
  destruct (collection_names_distinct cfg kb) as (Hlo & _ & _). fold loc oai in Hlo.
  split; [|split; [|split; [|split]]].
  - intros name Hname. rewrite Hrows.
    rewrite !bool_decide_eq_false_2, !andb_false_r; [reflexivity | |].
    + intros ->. apply Hname. apply elem_of_cons. right. apply elem_of_cons. now left.
    + intros ->. apply Hname. apply elem_of_cons. now left.
  - intros name. rewrite Hrows.
    match goal with |- context [if ?b then _ else _] => destruct b end;
      [apply untagged_ids_sublist | reflexivity].
  - intros name r Hin Hout. rewrite Hrows in Hout.
    match type of Hout with context [if ?b then _ else _] => destruct b end;
      [now apply untagged_ids_removed | contradiction].
  - rewrite Hflag. exact Hsame.
  - rewrite Hflag. intros Hany.
    assert (Hdel : forall provider,
              deletes w c cfg st kb provider doc = true ->
              tagged st (_get_collection_name cfg kb (Some provider)) doc <> []).
    { intros provider H. unfold deletes in H.
      apply andb_true_iff in H as [_ H]. apply negb_true_iff in H.
      now apply bool_decide_eq_false_1 in H. }
    destruct dl eqn:Hdl.
    + exists loc. split; [apply elem_of_cons; now left|].
      split; [now apply Hdel|]. unfold tagged at 1. rewrite Hrows.
      rewrite (bool_decide_eq_true_2 (loc = loc)) by reflexivity. cbn [andb orb].
      apply untagged_ids_tagged.
    + cbn [orb] in Hany. exists oai.
      split; [apply elem_of_cons; right; apply elem_of_cons; now left|].
      split; [now apply Hdel|]. unfold tagged at 1. rewrite Hrows, Hany.
      rewrite (bool_decide_eq_true_2 (oai = oai)) by reflexivity.
      cbn [andb orb]. apply untagged_ids_tagged.
Qed.

(** [bm25_kb] reads the collections only through the unsuffixed one. *)
Lemma bm25_kb_frame w cfg st kb query k cs :
  default [] (cs !! _get_collection_name cfg kb None) =
    rows_of st (_get_collection_name cfg kb None) ->
  fst (bm25_kb w cfg (with_collections cs st) query k kb) =
    fst (bm25_kb w cfg st query k kb).
Proof.
  intros Hrows. unfold bm25_kb. rewrite (get_bm25_index_frame w cfg st kb cs Hrows).
  destruct (_get_bm25_index w cfg st kb) as [[i s]|e] eqn:Hidx; [|reflexivity].
  cbn [fst]. apply RagEngineProofs.get_bm25_index_collections in Hidx.
  destruct (index_search w i query (k * 2)) as [found|e]; [|reflexivity]. cbn [bind].
  destruct (_get_or_create_collection w cfg kb None) as [name|e] eqn:Hname; [|reflexivity].
  cbn [bind]. f_equal. apply map_ext. intros [[doc_id sc] ct]. f_equal.
  unfold metadata_of, collection_get_ids.
  assert (Hn : name = _get_collection_name cfg kb None).
  { unfold _get_or_create_collection in Hname.
    destruct (chroma_raises w _); [discriminate | congruence]. }
  assert (Heq : rows_of (with_collections cs s) name = rows_of s name).
  { subst name. unfold rows_of at 1. cbn [with_collections collections].
    rewrite Hrows. unfold rows_of. now rewrite Hidx. }
  now rewrite Heq.
Qed.

(** X24. [delete_document] leaves the lexical index as it is: the cached
    index, the index file and the unsuffixed collection are untouched, and
    [bm25_search] in the knowledge base returns after the deletion what it
    returned before, chunks of the deleted document included. *)
Theorem delete_document_keeps_lexical_index
    (w : World) (c : Client) (cfg : RAGConfig) (st : Engine)
    (kb doc query : string) (top_k : option nat) :
  let st' := snd (delete_document w c cfg st kb doc) in
  _bm25_indices st' = _bm25_indices st /\
  index_files st' = index_files st /\
  rows_of st' (_get_collection_name cfg kb None) =
    rows_of st (_get_collection_name cfg kb None) /\
  fst (bm25_search w cfg st' query (Some [kb]) top_k) =
    fst (bm25_search w cfg st query (Some [kb]) top_k).
Proof.
  intros st'.
  destruct (delete_document_rows w c cfg st kb doc) as (_ & Hidx & Hfiles & _ & Hrows).
  fold st' in Hidx, Hfiles, Hrows.
  destruct (collection_names_distinct cfg kb) as (_ & Hlb & Hob).
  assert (Hbase : rows_of st' (_get_collection_name cfg kb None) =
                  rows_of st (_get_collection_name cfg kb None)).
  { rewrite Hrows. rewrite !bool_decide_eq_false_2 by congruence.
    now rewrite !andb_false_r. }
  split; [exact Hidx|]. split; [exact Hfiles|]. split; [exact Hbase|].
  assert (Hst : st' = with_collections (collections st') st).
  { unfold with_collections. rewrite <- Hidx, <- Hfiles. now destruct st'. }
  unfold bm25_search. cbv zeta. cbn [kb_ids_or_all fold_left].
  pose proof (bm25_kb_frame w cfg st kb query (default (get_top_k cfg) top_k)
                (collections st') Hbase) as Hkb.
  rewrite <- Hst in Hkb.
  destruct (bm25_kb w cfg st' query (default (get_top_k cfg) top_k) kb) as [r1 s1].
  destruct (bm25_kb w cfg st query (default (get_top_k cfg) top_k) kb) as [r2 s2].
  cbn [fst] in Hkb |- *. now rewrite Hkb.
Qed.

(** The chunks of a document made by [process_bytes] carry no ["source"]. *)
Lemma process_bytes_untagged fuel ext cfg content filename kb uploader d :
  DocumentProcessor.process_bytes fuel ext cfg content filename kb uploader = Ok (Some d) ->
  knowledge_base_of (DocumentProcessor.doc_metadata d) = kb /\
  Forall (fun ch => DocumentProcessor.chunk_metadata ch !! "source"%string = None)
    (DocumentProcessor.doc_chunks d).
Proof.
  unfold DocumentProcessor.process_bytes.
  destruct (DocumentProcessor._extract_text_from_bytes ext content _) as [raw|e];
    cbn [bind]; [|discriminate].
  destruct (DocumentProcessor._create_chunks _ _ _ _ _) as [chunks|] eqn:Hc;
    cbn [option_map]; [|discriminate].
  intros [= <-]. cbn [DocumentProcessor.doc_chunks DocumentProcessor.doc_metadata]. split.
  - unfold knowledge_base_of.
    rewrite !lookup_insert_ne by discriminate. now rewrite lookup_insert_eq.
  - pose proof (DocumentProcessorProofs.create_chunks_inherits _ _ _ _ _ "source"%string _
                  ltac:(discriminate) ltac:(discriminate) ltac:(discriminate) Hc) as Hs.
    eapply Forall_impl; [exact Hs|]. intros ch Hch.
    unfold DocumentProcessorProofs.inherits in Hch. rewrite Hch.
    rewrite !lookup_insert_ne by discriminate. apply lookup_empty.
Qed.

(** X25. A document that was uploaded cannot be deleted again:
    [process_bytes] gives its chunks no ["source"] entry, which is what
    [delete_document] selects by.  After [add_document] of such a document
    into provider collections without records tagged [doc],
    [delete_document] with any identifier [doc], the file name included,
    returns [False] and removes nothing. *)
Theorem delete_document_misses_uploads
    (fuel : nat) (ext : DocumentProcessor.Externals) (w : World) (c : Client)
    (cfg : RAGConfig) (st : Engine) (content filename kb uploader doc : string)
    (d : DocumentProcessor.ProcessedDocument) :
  DocumentProcessor.process_bytes fuel ext cfg content filename kb uploader = Ok (Some d) ->
  tagged st (_get_collection_name cfg kb (Some "local"%string)) doc = [] ->
  tagged st (_get_collection_name cfg kb (Some "openai"%string)) doc = [] ->
  delete_document w c cfg (snd (add_document w cfg st d)) kb doc =
    (false, snd (add_document w cfg st d)).
Proof.
  intros Hd Hl Ho.
  destruct (process_bytes_untagged _ _ _ _ _ _ _ _ Hd) as [Hkb Hsrc].
  destruct (add_document_effect w cfg st d) as (_ & _ & Hrows).
  rewrite Hkb in Hrows. cbv zeta in Hrows.
  set (st' := snd (add_document w cfg st d)) in *.
  assert (Hnew : List.filter
                   (fun r => bool_decide (row_metadata r !! "source"%string = Some (MStr doc)))
                   (map row_of_chunk (DocumentProcessor.doc_chunks d)) = []).
  { clear -Hsrc. induction Hsrc as [|ch chs Hch _ IH]; [reflexivity|].
    cbn [map List.filter row_of_chunk row_metadata].
    rewrite bool_decide_eq_false_2 by (rewrite Hch; discriminate). exact IH. }
  assert (Htag : forall name,
            tagged st name doc = [] -> tagged st' name doc = []).
  { intros name Hname. unfold tagged. rewrite Hrows.
    match goal with |- context [if ?b then _ else _] => destruct b end;
      [|exact Hname].
    unfold tagged in Hname. rewrite List.filter_app, Hname. cbn [app]. unfold new_rows.
    generalize (fun r : Row => negb (bool_decide (row_id r ∈ map row_id (rows_of st name)))).
    intros keep. clear -Hnew.
    induction (map row_of_chunk (DocumentProcessor.doc_chunks d)) as [|r rest IH];
      [reflexivity|].
    cbn [List.filter] in Hnew |- *.
    destruct (bool_decide (row_metadata r !! "source"%string = Some (MStr doc))) eqn:Hr;
      [discriminate|].
    destruct (keep r); cbn [List.filter]; rewrite ?Hr; now apply IH. }
  destruct (delete_document_rows w c cfg st' kb doc) as (Hflag & _ & _ & Hsame & _).
  assert (Hno : deletes w c cfg st' kb "local" doc || deletes w c cfg st' kb "openai" doc
                = false).
  { unfold deletes. rewrite (Htag _ Hl), (Htag _ Ho).
    rewrite bool_decide_eq_true_2 by reflexivity. now rewrite !andb_false_r. }
  rewrite Hno in Hflag. specialize (Hsame Hno).
  destruct (delete_document w c cfg st' kb doc) as [flag st'']. cbn [fst snd] in *.
  now subst.
Qed.

Lemma delete_document_misses_uploads_witness :
  match DocumentProcessor.process_bytes 100 plain_text default_rag
          "Version eins." "a.txt" "kb" "user" with
  | Ok (Some d) =>
      delete_document (quiet_world []) plain_client default_rag
        (snd (add_document (quiet_world []) default_rag empty_engine d)) "kb" "a.txt" =
      (false, snd (add_document (quiet_world []) default_rag empty_engine d))
  | _ => False
  end.
Proof.
  destruct (DocumentProcessor.process_bytes 100 plain_text default_rag
              "Version eins." "a.txt" "kb" "user") as [[d|]|e] eqn:Hd.
  - apply (delete_document_misses_uploads 100 plain_text (quiet_world []) plain_client
             default_rag empty_engine "Version eins." "a.txt" "kb" "user" "a.txt" d Hd);
      reflexivity.
  - vm_compute in Hd. discriminate.
  - vm_compute in Hd. discriminate.
Defined.

(** **** Documents of a knowledge base *)






























End KnowledgeBasesProofs.

(** ** rag_engine.py: the chunks of one document *)

Module DocumentChunks.
Import Py Data Config Embeddings RagEngine KnowledgeBases.

(** An element of the list [get_document_chunks] returns. *)
Record ChunkEntry : Type := {
  view_id : string;
  view_content : string;
  view_chunk_index : MetaVal;
  view_metadata : Meta
}.

(** The loop [for idx, meta in enumerate(results["metadatas"])]. *)
Definition chunk_entries (doc_id : string) (rows : list (nat * Row)) : list ChunkEntry :=
  flat_map
    (fun '(idx, r) =>
       let meta := row_metadata r in
       if is_kb_metadata meta then []
       else if has_filename doc_id r then
         [{| view_id := row_id r;
             view_content := row_document r;
             view_chunk_index := metadata_get meta "chunk_index" (MInt (Z.of_nat idx));
             view_metadata := meta |}]
       else [])
    rows.

(** [a < b] on two sort keys; [None] stands for the TypeError Python raises
    when it compares an [int] with a [str]. *)
Definition key_lt (a b : MetaVal) : option bool :=
  match a, b with
  | MInt x, MInt y => Some (x <? y)
  | MStr x, MStr y => Some (String.ltb x y)
  | _, _ => None
  end.

(** [x] goes before the first element with a greater key. *)
Fixpoint insert_asc (x : ChunkEntry) (l : list ChunkEntry) : option (list ChunkEntry) :=
  match l with
  | [] => Some [x]
  | y :: rest =>
      match key_lt (view_chunk_index x) (view_chunk_index y) with
      | None => None
      | Some true => Some (x :: y :: rest)
      | Some false =>
          match insert_asc x rest with
          | Some r => Some (y :: r)
          | None => None
          end
      end
  end.

(** [chunks.sort(key=lambda x: x.get("chunk_index", 0))]: the stable
    ascending order of the keys; [None] when the keys are not all of one
    type, in which case a comparison raises. *)
Definition sort_by_chunk_index (chunks : list ChunkEntry) : option (list ChunkEntry) :=
  fold_left
    (fun acc x => match acc with Some l => insert_asc x l | None => None end)
    chunks (Some []).

(** [RAGEngine.get_document_chunks] *)
Definition get_document_chunks (w : World) (cfg : RAGConfig) (st : Engine)
    (kb doc_id : string) (provider : option string) : list ChunkEntry :=
  let provider := default (search_provider (svc w)) provider in
  try_except
    (bind (_get_or_create_collection w cfg kb (Some provider)) (fun name =>
     bind (collection_get w st name) (fun rows =>
       match sort_by_chunk_index (chunk_entries doc_id (enumerate rows)) with
       | Some chunks => Ok chunks
       | None => Raise (ExternalError "TypeError")
       end)))
    [].

End DocumentChunks.

Module DocumentChunksProofs.
Import Py Data Config Embeddings RagEngine KnowledgeBases RagEngineProofs.
Import KnowledgeBasesProofs DocumentChunks.





(** **** Listing an upload *)




(** **** Reading an upload back *)










Example get_document_chunks_sorts :
  let st := {| collections :=
                 {[ "sp_kb_kb_openai"%string :=
                      [ {| row_id := "b"; row_document := "zwei";
                           row_metadata := {[ "filename"%string := MStr "a.txt";
                                              "chunk_index"%string := MInt 1 ]} |};
                        {| row_id := "a"; row_document := "eins";
                           row_metadata := {[ "filename"%string := MStr "a.txt";
                                              "chunk_index"%string := MInt 0 ]} |};
                        {| row_id := "c"; row_document := "drei";
                           row_metadata := {[ "filename"%string := MStr "a.txt" ]} |} ] ]};
               _bm25_indices := ∅; index_files := ∅ |} in
  map view_id (get_document_chunks (quiet_world []) default_rag st "kb" "a.txt" None) =
    ["a"; "b"; "c"]%string.
Proof. vm_compute. reflexivity. Qed.

End DocumentChunksProofs.

(** ** config.py, utils/file_handlers.py, document_processor.py: formats *)

Module Formats.
Import Py.

Record FormatInfo : Type := {
  extensions : list string;
  mime_types : list string
}.

(** [config.SUPPORTED_FORMATS], in the order of the dictionary. *)
Definition SUPPORTED_FORMATS : list (string * FormatInfo) :=
  [ ("text",
     {| extensions := [".pdf"; ".docx"; ".txt"; ".md"; ".rtf"];
        mime_types :=
          ["application/pdf";
           "application/vnd.openxmlformats-officedocument.wordprocessingml.document";
           "text/plain"; "text/markdown"; "application/rtf"] |});
    ("tables",
     {| extensions := [".xlsx"; ".csv"];
        mime_types :=
          ["application/vnd.openxmlformats-officedocument.spreadsheetml.sheet";
           "text/csv"] |});
    ("email",
     {| extensions := [".msg"; ".eml"];
        mime_types := ["application/vnd.ms-outlook"; "message/rfc822"] |});
    ("images",
     {| extensions := [".png"; ".jpg"; ".jpeg"; ".tiff"];
        mime_types := ["image/png"; "image/jpeg"; "image/tiff"] |});
    ("web",
     {| extensions := [".html"; ".htm"];
        mime_types := ["text/html"] |}) ]%string.

(** [ALL_EXTENSIONS = []; for category in SUPPORTED_FORMATS.values():
      ALL_EXTENSIONS.extend(category["extensions"])] *)
Definition ALL_EXTENSIONS : list string :=
  fold_left (fun acc category => acc ++ extensions (snd category)) SUPPORTED_FORMATS [].

Section FileHandlers.
(** [Path(filename).suffix.lower()] *)
Variable get_file_extension : string -> string.

(** [file_handlers.is_supported_file] *)
Definition is_supported_file (filename : string) : bool :=
  let ext := get_file_extension filename in
  bool_decide (ext ∈ ALL_EXTENSIONS).

(** [for category, info in SUPPORTED_FORMATS.items():
      if ext in info["extensions"]: return category] *)
Fixpoint category_of (formats : list (string * FormatInfo)) (ext : string)
    : option string :=
  match formats with
  | [] => None
  | (category, info) :: rest =>
      if bool_decide (ext ∈ extensions info) then Some category
      else category_of rest ext
  end.

(** [file_handlers.get_file_category] *)
Definition get_file_category (filename : string) : option string :=
  let ext := get_file_extension filename in
  category_of SUPPORTED_FORMATS ext.

End FileHandlers.

(** The extraction methods of [DocumentProcessor]. *)
Inductive Extractor : Type :=
  | _extract_pdf | _extract_docx | _extract_txt | _extract_rtf | _extract_xlsx
  | _extract_csv | _extract_msg | _extract_eml | _extract_html | _extract_image.

(** The dictionary [extractors] of [_extract_text_from_bytes]. *)
Definition extractors : list (string * Extractor) :=
  [ (".pdf", _extract_pdf); (".docx", _extract_docx); (".txt", _extract_txt);
    (".md", _extract_txt); (".rtf", _extract_rtf); (".xlsx", _extract_xlsx);
    (".csv", _extract_csv); (".msg", _extract_msg); (".eml", _extract_eml);
    (".html", _extract_html); (".htm", _extract_html); (".png", _extract_image);
    (".jpg", _extract_image); (".jpeg", _extract_image); (".tiff", _extract_image)
  ]%string.

(** [extractors.get(extension)] *)
Fixpoint dict_get {V} (d : list (string * V)) (key : string) : option V :=
  match d with
  | [] => None
  | (k, v) :: rest => if bool_decide (k = key) then Some v else dict_get rest key
  end.

(** [DocumentProcessor._extract_text_from_bytes]; [run] is what the
    extraction methods do with the content. *)
Definition _extract_text_from_bytes (run : Extractor -> string -> Res string)
    (content extension : string) : Res string :=
  match dict_get extractors extension with
  | Some extractor => run extractor content
  | None => Raise (ExternalError "ValueError")
  end.

End Formats.

Module FormatsProofs.
Import Py Formats.

Lemma dict_get_keys {V} (d : list (string * V)) (key : string) :
  is_Some (dict_get d key) <-> key ∈ map fst d.
Proof.
  induction d as [|[k v] d IH]; cbn [dict_get map fst].
  - split; [intros [? ?]; discriminate | intros H; inversion H].
  - rewrite elem_of_cons. case_bool_decide as Hk.
    + split; [intros _; left; congruence | eauto].
    + rewrite IH. split; [now right | intros [?|?]; [congruence | assumption]].
Qed.

Lemma category_of_extensions formats ext :
  is_Some (category_of formats ext) <->
  ext ∈ fold_right (fun category acc => extensions (snd category) ++ acc) [] formats.
Proof.
  induction formats as [|[c info] formats IH]; cbn [category_of fold_right snd].
  - split; [intros [? ?]; discriminate | intros H; inversion H].
  - rewrite elem_of_app. case_bool_decide as Hin.
    + split; [now left | eauto].
    + rewrite IH. split; [now right | intros [?|?]; [contradiction | assumption]].
Qed.

Lemma same_elements (l1 l2 : list string) :
  forallb (fun x => bool_decide (x ∈ l2)) l1 = true ->
  forallb (fun x => bool_decide (x ∈ l1)) l2 = true ->
  forall x, x ∈ l1 <-> x ∈ l2.
Proof.
  intros H1 H2 x. rewrite forallb_forall in H1, H2. split; intros Hx.
  - apply list_elem_of_In, H1 in Hx. now apply bool_decide_eq_true_1 in Hx.
  - apply list_elem_of_In, H2 in Hx. now apply bool_decide_eq_true_1 in Hx.
Qed.

(** X30. The upload check and the processor agree on the formats:
    [is_supported_file] accepts a file name exactly when
    [_extract_text_from_bytes] has an extraction method for its extension,
    and exactly then [get_file_category] finds a category; for every other
    extension the processor raises.  No extension is listed in two
    categories. *)
Theorem supported_files_have_extractors
    (get_file_extension : string -> string) (run : Extractor -> string -> Res string)
    (filename content : string) :
  let ext := get_file_extension filename in
  (is_supported_file get_file_extension filename = true <->
   exists extractor,
     dict_get extractors ext = Some extractor /\
     _extract_text_from_bytes run content ext = run extractor content) /\
  (is_supported_file get_file_extension filename = false <->
   _extract_text_from_bytes run content ext = Raise (ExternalError "ValueError") /\
   dict_get extractors ext = None) /\
  (is_supported_file get_file_extension filename = true <->
   is_Some (get_file_category get_file_extension filename)) /\
  NoDup ALL_EXTENSIONS.
Proof.
  intros ext.
  assert (Hkeys : forall x, x ∈ ALL_EXTENSIONS <-> x ∈ map fst extractors).
  { apply same_elements; vm_compute; reflexivity. }
  assert (Hsup : is_supported_file get_file_extension filename = true <->
                 is_Some (dict_get extractors ext)).
  { unfold is_supported_file. fold ext. rewrite dict_get_keys, <- Hkeys.
    apply bool_decide_eq_true. }
  split; [|split; [|split]].
  - rewrite Hsup. unfold _extract_text_from_bytes. split.
    + intros [e He]. exists e. now rewrite He.
    + intros (e & He & _). eauto.
  - unfold _extract_text_from_bytes. split.
    + intros H. destruct (dict_get extractors ext) as [e|] eqn:He; [|now split].
      exfalso. assert (Ht : is_supported_file get_file_extension filename = true)
        by (apply Hsup; eauto). congruence.
    + intros [_ He]. destruct (is_supported_file get_file_extension filename) eqn:Hs;
        [|reflexivity].
      destruct Hsup as [Hsome _]. destruct (Hsome eq_refl) as [e He']. congruence.
  - unfold get_file_category. fold ext. rewrite category_of_extensions.
    rewrite Hsup, dict_get_keys, <- Hkeys.
    apply same_elements; vm_compute; reflexivity.
  - apply (bool_decide_eq_true_1 (NoDup ALL_EXTENSIONS)). vm_compute. reflexivity.
Qed.

End FormatsProofs.
